(* ===== verification/_CoqProject ===== *)
-Q . S2P
Prelude.v
Hlc.v
GoTime.v
GoJson.v
GoJsonFacts.v
Metadata.v
Sql.v
Index.v
Linearize.v
Dolt.v
ToyDolt.v
Reconciler.v
Walk.v
Replay.v
Db.v
Node.v
NodeFacts.v
Sync.v
Rebuild.v
Gossip.v
Run.v
Server.v
SyncFacts.v
Chunks.v
ChunkFacts.v
ChunkServer.v
FileTransfer.v
Swarm.v
ToyChunks.v
TableFiles.v
Lifecycle.v
Peers.v
Base64.v
Keys.v
Manager.v
App.v
AppFacts.v
