(* ===== verification/Prelude.v ===== *)
(** * A verification library for doltswarm

    doltswarm keeps copies of one Dolt database on many peers in step without
    a coordinator.  Every user commit carries signed metadata with a hybrid
    logical timestamp; peers gossip advertisements and heartbeats, fetch each
    other's commits through a chunk store, and replay them in an order that
    all of them compute alike.  A commit that every peer's clock has moved past
    is final.

    ** The parts of the program and where they are modelled

    Paths are relative to [src/].  A function of the source keeps its name;
    where two packages use one name, the model has a prefix ([mem_], [db_],
    [node_], [srv_], [client_], [rtf_], [key_]).

    - [Prelude] (this file): scopes, hint databases and tactics; [int32] and
      [int64] with wrap-around; [result] ([Ok], [Err], [Panic]) and the state
      and error monad [M] that stands for Go code with side effects ([bind]
      for a checked error, [attempt] for an inspected one, [ignore] for a
      dropped one, [deferred] for [defer], [wrap_err] for [fmt.Errorf]);
      strings; the class [GoRuntime] for what Go leaves open (the order in
      which [range] visits a map, the algorithm of [sort.Slice]); instants.
    - [Hlc] (protocol/hlc.go): timestamps, their order and text, the clock.
    - [GoTime], [GoJson], [GoJsonFacts]: what the code uses of [time] and
      [encoding/json], with the round trips.  [Base64]: [encoding/base64].
    - [Metadata] (protocol/metadata.go, messages.go, repo_id.go, signer.go):
      commit metadata, its text, its signature.
    - [Sql] (core/commit_sql_helpers.go): [escapeSQL] against the lexer of the
      engine.
    - [Index] (core/index.go, index_mem.go, finalization.go, commit_ad.go): the
      class [CommitIndex] with its laws, the in-memory index as its instance.
    - [Dolt]: statements and queries of the core as data, with their texts; the
      engine as the class [Dolt] with the laws [DoltLaws].  [ToyDolt] is an
      engine that obeys them.
    - [Linearize], [Reconciler], [Walk], [Replay] (core/reconciler_core.go): the
      merge order; the walk over the commit graph; the replay on a temporary
      branch.
    - [Db] (core/db.go, sql.go, commit_sql_helpers.go): lookups, remotes,
      commits.  [Lifecycle] (core/db.go, utils.go, node.go): opening,
      initializing and closing databases and nodes over SQL handles.
    - [Node], [NodeFacts], [Sync], [SyncFacts] (core/node.go): the handlers of a
      node over the record [Node], and one round of synchronization.  [Run]
      ([Node.Run]): the event loop, the synchronization loop and the reader of
      the subscription, and local commits with their publication, as a step
      relation over the channels they share, with an executable version.
      [Rebuild] ([initIndexFromDB]): the rebuild of the index one operation at
      a time, among the writes of other goroutines.
    - [Gossip] (integration/transport/gossipsub/gossip.go): the topic, its
      subscriptions and the messages between nodes.  [Server] (integration/p2p/server/server.go): the
      service that reports commits and heads.
    - [Chunks], [ChunkFacts] (core/remote_chunk_store.go, cache.go,
      transport/provider.go): reading a peer's chunks through the cache.
      [ChunkServer], [FileTransfer]
      (integration/transport/grpcswarm/chunkstore_server.go, providers.go): the
      server of a peer and the clients.  [TableFiles]
      (core/remote_table_file.go): table files of a peer.  [Swarm]
      (core/swarm_dbfactory.go, swarm_registry.go, transport/provider_hint.go,
      providers.go): swarm URLs, the registry, the choice of a peer.
      [ToyChunks]: instances of these interfaces.
    - [Peers], [Keys], [Manager] (integration/p2p/p2p.go): known peers,
      back-off, clients; the key of a peer and the signer it gives; the manager
      as a server, with the goroutines that it starts and stops.
    - [App], [AppFacts] (integration/main.go, ui.go, utils.go): the commands
      [server], [init] and [status], which join the components above in one
      state: the SQL handles and the registry of [Lifecycle], the memory of the
      [Node], the [Manager], the stoppers, the periodic updater and the
      interface.

    ** What the theorems show

    - Convergence: the merge order depends on nothing but the set of commits
      ([linearization_convergent]), is sorted and complete
      ([linearization_spec]), and above a finalized base it is a suffix of the
      full order ([tail_linearization]).  The service reports the history of
      [main] in that order ([reported_history], [report_is_linearization]),
      all of it when the queries of the walk do not fail.
    - Finality: the finalized base never goes back ([run_never_unfinalizes])
      and is chosen by the rule of the stable minimum ([tryFinalize_exact]);
      neither the replay ([finalized_commit_survives]) nor a round of
      synchronization ([sync_keeps_finalized]) takes the finalized commit out
      of [main], as long as no commit below it carries a later timestamp
      (without that: [late_ancestor_unfinalizes]), a bootstrap excepted
      ([bootstrap_drops_finalized]).
    - A round of synchronization accounts for every commit of both sides
      ([sync_accounts_for_commits]): it is part of the new [main], itself or as
      a commit with the same parents and the same root value under an amended
      message, or decided in the index.  In a running node no request for one is
      lost ([request_served]), events are handled in order from a bounded queue
      ([events_in_order]), and a message that does not decode ends the node
      ([bad_message_stops_run]).
    - The rebuild of the index gives exactly the history of [main] and the
      preserved entries ([initIndexFromDB_exact]); among other goroutines it
      ends ([rebuild_ends]), and whatever they write meanwhile the result is
      complete and contains nothing else ([rebuild_interleaved]).  The machine
      of [Rebuild] on its own is [initIndexFromDB] ([rebuild_alone]).
    - The replay moves [main] only as a whole and accounts for every commit
      ([replay_all_or_nothing]); the walk that feeds it ends and is exact
      ([getCommitsSince_exact]).
    - The index refines a log of its operations ([memory_index_refines_log]).
    - Messages and commits: metadata survives its text
      ([metadata_roundtrip]), is covered by its signature
      ([signature_covers]), verifies elsewhere ([peer_commit_verifies]), is
      what a commit carries ([commit_carries_signed_metadata]), and an
      advertisement arrives as it was published and passes exactly its guards
      ([onCommitAd_gate], [advert_accepted]).
    - Data of a peer: chunks, presence and table files read through the client,
      the connection and the server are those of the peer's store
      ([peer_read_end_to_end], [HasMany_exact], [GetMany_delivers],
      [remote_table_files_faithful]), for chunks and presence provided that the
      caches, which the whole process shares, hold only data of that peer
      ([has_cache_is_shared]); a swarm remote opens the right
      repository on a fairly chosen peer ([swarm_remote_resolves],
      [PickProvider_fair], [snapshot_exact]).
    - Clocks ([clock_causality], [Less_total_order]), SQL texts
      ([escapeSQL_safe]), remotes ([EnsureSwarmRemote_sets]), handles
      ([open_close_handles], [node_open_close]), keys ([key_persists]) and
      back-off ([reject_backoff]).
    - The program: a server that gets a signal after it has started stops the
      node, the manager and the updater and gives back what it opened, if the
      RPCs that it serves end ([server_shutdown]), and so does [init]
      ([init_releases]), the sender of the bootstrap peers excepted
      ([bootstrap_sender_stuck], [init_leaves_sender]); with the interface the server hangs when the user
      quits after a signal ([signal_then_quit_hangs]).
    - Behaviour that the code should not have: [clock_overflow],
      [reject_backoff_overflow], [has_cache_is_shared],
      [DownloadFile_escapes_store], [replay_replaces_user_commit],
      [escapeSQL_backslash], [malformed_hash_panics],
      [percent_in_path], [failed_open_leaks],
      [chunk_store_keeps_connection], [merge_commit_depends_on_clock],
      [late_ancestor_replaces_finalized],
      [sync_outlives_run], [failed_rebuild_forgets], [rebuild_forgets],
      [overtaken_commit_unpublished], [early_signal_leaves_server].

    ** Bounds and fuel

    Recursion that follows data is structural.  Four functions take fuel, and
    a theorem shows how much is enough: the JSON parser (the length of the
    text, [GoJsonFacts]); the walk over the commit graph (one more than the
    number of parent links, [walk_fuel]); the batches of [HasMany] (one per
    hash); the file server (one more than the number of bytes).  A function
    that runs out of fuel fails or panics, so that theorems which promise a
    result exclude it.

    ** Parameters

    Code that is not in the repository is a class, with laws where theorems rely
    on them, and has an instance: the Dolt engine (whose laws speak of the
    commit graph, the root value of each commit and the branches), the hash and chunk types and the cache, protocol
    buffers, pubsub, the file system, the libp2p host with its daemons, the SQL
    driver, the crypto library, URL parsing.

    ** What is not modelled

    - Concurrency inside an operation: a handler, a commit and a round of
      synchronization are one step each, as the mutexes of the code arrange for
      commits, replays and synchronization.  The order of steps is arbitrary.
      The index has a lock of its own, so that handlers may run between its
      operations inside a round: [Rebuild] shows this for the rebuild, the part
      of a round that writes back what it read from the index.  Deadlines and
      logging are left out.
    - An error of [rows.Err] after a partial result, which the code does not
      look at either.
    - Pass-through accessors ([GetSqlDB], [Context], [ExecContext], ...), the
      unused [doCommit], the aliases of doltswarm.go and core/aliases.go.
    - The parsing of flags, the layout of the terminal, [logSystemTables], which
      only reads and logs, and the generated code of integration/proto. *)

From Stdlib Require Import ZArith Lia String Ascii.
From stdpp Require Import gmap strings list sorting pretty.

#[export] Set Default Goal Selector "!".
#[export] Set Warnings "-clear-no-such-hyp,-register-all".

(** ** Scopes, hint databases and tactics of the development *)

Declare Scope swarm_scope.
Delimit Scope swarm_scope with swarm.

Create HintDb swarm discriminated.
Create Rewrite HintDb swarm_simpl.

(** Splits every [match]/[if] of the goal and of the hypotheses and clears the
    branches that the equations exclude. *)
Ltac split_cases :=
  repeat (case_match || case_decide); simplify_eq/=; try done.

(** Turns boolean hypotheses and goals over [Z], [bool] and strings into
    propositions that [lia] and [congruence] can use. *)
Ltac bool_to_prop :=
  repeat match goal with
  | H : (_ && _) = true |- _ => apply andb_prop in H as [? ?]
  | H : (_ && _) = false |- _ => apply andb_false_iff in H
  | H : (_ || _) = true |- _ => apply orb_prop in H
  | H : (_ || _) = false |- _ => apply orb_false_elim in H as [? ?]
  | H : negb _ = true |- _ => apply negb_true_iff in H
  | H : negb _ = false |- _ => apply negb_false_iff in H
  | H : (_ =? _)%Z = true |- _ => apply Z.eqb_eq in H
  | H : (_ =? _)%Z = false |- _ => apply Z.eqb_neq in H
  | H : (_ <? _)%Z = true |- _ => apply Z.ltb_lt in H
  | H : (_ <? _)%Z = false |- _ => apply Z.ltb_ge in H
  | H : (_ <=? _)%Z = true |- _ => apply Z.leb_le in H
  | H : (_ <=? _)%Z = false |- _ => apply Z.leb_gt in H
  | H : (_ =? _)%string = true |- _ => apply String.eqb_eq in H
  | H : (_ =? _)%string = false |- _ => apply String.eqb_neq in H
  end.

(** ** Machine integers

    Go's [int64] and [int32] are values of [Z] in the range of the type; every
    operation that can leave the range is followed by the wrap-around. *)

Definition min_int32 : Z := (- 2 ^ 31)%Z.
Definition max_int32 : Z := (2 ^ 31 - 1)%Z.
Definition min_int64 : Z := (- 2 ^ 63)%Z.
Definition max_int64 : Z := (2 ^ 63 - 1)%Z.

Definition wrap32 (z : Z) : Z := ((z + 2 ^ 31) mod 2 ^ 32 - 2 ^ 31)%Z.
Definition wrap64 (z : Z) : Z := ((z + 2 ^ 63) mod 2 ^ 64 - 2 ^ 63)%Z.

Definition is_int32 (z : Z) : Prop := (min_int32 ≤ z ≤ max_int32)%Z.
Definition is_int64 (z : Z) : Prop := (min_int64 ≤ z ≤ max_int64)%Z.

Lemma wrap32_id z : is_int32 z → wrap32 z = z.
Proof.
  unfold is_int32, min_int32, max_int32, wrap32. intros ?.
  rewrite Z.mod_small; lia.
Qed.

Lemma wrap64_id z : is_int64 z → wrap64 z = z.
Proof.
  unfold is_int64, min_int64, max_int64, wrap64. intros ?.
  rewrite Z.mod_small; lia.
Qed.

Lemma wrap32_range z : is_int32 (wrap32 z).
Proof.
  unfold is_int32, min_int32, max_int32, wrap32.
  pose proof (Z.mod_pos_bound (z + 2 ^ 31) (2 ^ 32)). lia.
Qed.

Lemma wrap64_range z : is_int64 (wrap64 z).
Proof.
  unfold is_int64, min_int64, max_int64, wrap64.
  pose proof (Z.mod_pos_bound (z + 2 ^ 63) (2 ^ 64)). lia.
Qed.

#[export] Hint Resolve wrap32_range wrap64_range : swarm.

(** ** Results of Go functions

    A function that returns [(T, error)] returns a [result T]; an error is its
    text, which is all that the code ever inspects ([strings.Contains] on
    [err.Error()]).  A run-time panic (an out-of-range slice, a nil
    dereference) is a third outcome. *)

Inductive result (A : Type) : Type :=
| Ok (a : A)
| Err (e : string)
| Panic (e : string).
Arguments Ok {A} a.
Arguments Err {A} e.
Arguments Panic {A} e.

Definition is_ok {A} (r : result A) : bool :=
  match r with Ok _ => true | _ => false end.

(** Code that threads a state [S] through fallible calls. *)

Definition M (S A : Type) : Type := S → result A * S.

Definition ret {S A} (a : A) : M S A := λ s, (Ok a, s).
Definition fail {S A} (e : string) : M S A := λ s, (Err e, s).
Definition panic {S A} (e : string) : M S A := λ s, (Panic e, s).

Definition bind {S A B} (m : M S A) (k : A → M S B) : M S B := λ s,
  match m s with
  | (Ok a, s') => k a s'
  | (Err e, s') => (Err e, s')
  | (Panic e, s') => (Panic e, s')
  end.

(** [v, err := m] : the error becomes a value, a panic still propagates. *)
Definition attempt {S A} (m : M S A) : M S (result A) := λ s,
  match m s with
  | (Ok a, s') => (Ok (Ok a), s')
  | (Err e, s') => (Ok (Err e), s')
  | (Panic e, s') => (Panic e, s')
  end.

(** [_ = m] : the error is dropped. *)
Definition ignore {S A} (m : M S A) : M S unit := λ s,
  match m s with
  | (Ok _, s') => (Ok tt, s')
  | (Err _, s') => (Ok tt, s')
  | (Panic e, s') => (Panic e, s')
  end.

Definition gets {S A} (f : S → A) : M S A := λ s, (Ok (f s), s).
Definition modify {S} (f : S → S) : M S unit := λ s, (Ok tt, f s).
Definition of_result {S A} (r : result A) : M S A := λ s, (r, s).

(** [defer cleanup] around [body]: the cleanup runs whatever the outcome of
    the body, its errors are dropped, and the outcome of the body stands. *)
Definition deferred {S A} (body : M S A) (cleanup : M S unit) : M S A := λ s,
  let '(r, s1) := body s in
  match cleanup s1 with
  | (Panic e, s2) => (Panic e, s2)
  | (_, s2) => (r, s2)
  end.

(** [if err != nil { return fmt.Errorf(prefix+"%w", err) }] *)
Definition wrap_err {S A} (prefix : string) (m : M S A) : M S A := λ s,
  match m s with
  | (Err e, s') => (Err (prefix +:+ e), s')
  | p => p
  end.

Notation "'let*' x := m 'in' k" := (bind m (λ x, k))
  (at level 10, x pattern, m at level 100, k at level 200) : swarm_scope.
Notation "m ;;* k" := (bind m (λ _ : unit, k))
  (at level 199, right associativity) : swarm_scope.
#[global] Open Scope swarm_scope.

Lemma bind_Ok {S A B} (m : M S A) (k : A → M S B) s b s' :
  bind m k s = (Ok b, s') → ∃ a s1, m s = (Ok a, s1) ∧ k a s1 = (Ok b, s').
Proof. unfold bind. destruct (m s) as [[] ?]; naive_solver. Qed.

Lemma deferred_Ok {S A} (body : M S A) cleanup s a s' :
  deferred body cleanup s = (Ok a, s') →
  ∃ s1, body s = (Ok a, s1) ∧ s' = (cleanup s1).2 ∧ ∀ e, (cleanup s1).1 ≠ Panic e.
Proof.
  unfold deferred. destruct (body s) as [r s1]. destruct (cleanup s1) as [[] s2] eqn:E; try done;
    intros [= -> <-]; exists s1; by rewrite E.
Qed.

Lemma wrap_Ok {S A} pre (m : M S A) s x s' : wrap_err pre m s = (Ok x, s') → m s = (Ok x, s').
Proof. unfold wrap_err. by destruct (m s) as [[] ?]. Qed.

(** Weakest-precondition style reasoning: [holds m s Q] says that running [m]
    from [s] ends in an outcome and a state related by [Q]. *)
Definition holds {S A} (m : M S A) (s : S) (Q : result A → S → Prop) : Prop :=
  Q (m s).1 (m s).2.

Lemma holds_bind {S A B} (m : M S A) (k : A → M S B) s (Q : result B → S → Prop) :
  holds m s (λ r s1,
    match r with
    | Ok a => holds (k a) s1 Q
    | Err e => Q (Err e) s1
    | Panic e => Q (Panic e) s1
    end) →
  holds (bind m k) s Q.
Proof. unfold holds, bind. destruct (m s) as [[] ?]; done. Qed.

Lemma holds_mono {S A} (m : M S A) s (Q Q' : result A → S → Prop) :
  holds m s Q → (∀ r s', Q r s' → Q' r s') → holds m s Q'.
Proof. unfold holds. eauto. Qed.

Lemma holds_ret {S A} (a : A) (s : S) (Q : result A → S → Prop) : Q (Ok a) s → holds (ret a) s Q.
Proof. done. Qed.
Lemma holds_fail {S A} e (s : S) (Q : result A → S → Prop) : Q (Err e) s → holds (fail e) s Q.
Proof. done. Qed.

Lemma holds_attempt {S A} (m : M S A) s (Q : result A → S → Prop) :
  holds m s Q → holds (attempt m) s (λ r s',
    match r with Ok r' => Q r' s' | Err _ => False | Panic e => Q (Panic e) s' end).
Proof. unfold holds, attempt. by destruct (m s) as [[] ?]. Qed.

Lemma holds_wrap_err {S A} p (m : M S A) s (Q Q' : result A → S → Prop) :
  holds m s Q → (∀ r s', Q r s' → Q' (match r with Err e => Err (p +:+ e) | r => r end) s') →
  holds (wrap_err p m) s Q'.
Proof.
  unfold holds, wrap_err. intros HQ Himp. specialize (Himp _ _ HQ).
  by destruct (m s) as [[] ?].
Qed.

Lemma holds_deferred {S A} (body : M S A) cleanup s (Q : result A → S → Prop) :
  holds body s (λ r s1, holds cleanup s1 (λ r' s2,
    Q (match r' with Panic e => Panic e | _ => r end) s2)) →
  holds (deferred body cleanup) s Q.
Proof.
  unfold holds, deferred. destruct (body s) as [r0 s1]; simpl.
  by destruct (cleanup s1) as [[] ?].
Qed.

Lemma holds_ignore {S A} (m : M S A) s (Q : result A → S → Prop) (Q' : result unit → S → Prop) :
  holds m s Q →
  (∀ r s', Q r s' → Q' (match r with Panic e => Panic e | _ => Ok tt end) s') →
  holds (ignore m) s Q'.
Proof.
  unfold holds, ignore. intros HQ Himp. specialize (Himp _ _ HQ).
  by destruct (m s) as [[] ?].
Qed.

(** An invariant [I] of a computation: kept whatever the outcome. *)
Definition preserves {S A} (I : S → Prop) (m : M S A) : Prop :=
  ∀ s, I s → I (m s).2.

Section preserves.
Context {S : Type} (I : S → Prop).

Lemma preserves_ret {A} (a : A) : preserves I (ret a).
Proof. by intros s. Qed.
Lemma preserves_fail {A} e : preserves I (fail (A:=A) e).
Proof. by intros s. Qed.
Lemma preserves_panic {A} e : preserves I (panic (A:=A) e).
Proof. by intros s. Qed.
Lemma preserves_gets {A} (f : S → A) : preserves I (gets f).
Proof. by intros s. Qed.
Lemma preserves_of_result {A} (r : result A) : preserves I (of_result r).
Proof. by intros s. Qed.
Lemma preserves_bind {A B} (m : M S A) (k : A → M S B) :
  preserves I m → (∀ a, preserves I (k a)) → preserves I (bind m k).
Proof.
  intros Hm Hk s Hs. specialize (Hm s Hs). unfold bind.
  destruct (m s) as [[] ?]; simpl in *; auto. by apply Hk.
Qed.
Lemma preserves_attempt {A} (m : M S A) : preserves I m → preserves I (attempt m).
Proof.
  intros Hm s Hs. specialize (Hm s Hs). unfold attempt.
  by destruct (m s) as [[] ?].
Qed.
Lemma preserves_ignore {A} (m : M S A) : preserves I m → preserves I (ignore m).
Proof.
  intros Hm s Hs. specialize (Hm s Hs). unfold ignore.
  by destruct (m s) as [[] ?].
Qed.
Lemma preserves_wrap_err {A} p (m : M S A) : preserves I m → preserves I (wrap_err p m).
Proof.
  intros Hm s Hs. specialize (Hm s Hs). unfold wrap_err.
  by destruct (m s) as [[] ?].
Qed.
Lemma preserves_deferred {A} (m : M S A) c :
  preserves I m → preserves I c → preserves I (deferred m c).
Proof.
  intros Hm Hc s Hs. specialize (Hm s Hs). unfold deferred.
  destruct (m s) as [r s1]; simpl in *. specialize (Hc s1 Hm).
  by destruct (c s1) as [[] ?].
Qed.
Lemma preserves_modify f : (∀ s, I s → I (f s)) → preserves I (modify f).
Proof. intros Hf s. apply Hf. Qed.
End preserves.

(** Walks through the structure of a computation, leaving the goals about its
    primitive steps and the functions it calls. *)
Ltac walk_preserves :=
  repeat lazymatch goal with
  | |- ∀ _, _ => intro
  | |- preserves _ (ret _) => apply preserves_ret
  | |- preserves _ (fail _) => apply preserves_fail
  | |- preserves _ (panic _) => apply preserves_panic
  | |- preserves _ (gets _) => apply preserves_gets
  | |- preserves _ (of_result _) => apply preserves_of_result
  | |- preserves _ (bind _ _) => apply preserves_bind
  | |- preserves _ (attempt _) => apply preserves_attempt
  | |- preserves _ (ignore _) => apply preserves_ignore
  | |- preserves _ (wrap_err _ _) => apply preserves_wrap_err
  | |- preserves _ (deferred _ _) => apply preserves_deferred
  | |- preserves _ (match ?x with _ => _ end) => destruct x
  end.

(** ** Strings

    A Go string is a sequence of bytes; [string] of the Standard Library is
    the same thing, and [<] on Go strings is the byte-wise lexicographic
    order. *)

Definition str_lt (s1 s2 : string) : bool :=
  match String.compare s1 s2 with Lt => true | _ => false end.

Lemma str_compare_refl s : String.compare s s = Eq.
Proof.
  pose proof (String.compare_antisym s s) as H.
  destruct (String.compare s s) eqn:E; [done|discriminate H|discriminate H].
Qed.

Lemma str_lt_irrefl s : str_lt s s = false.
Proof. unfold str_lt. by rewrite str_compare_refl. Qed.

Lemma ascii_compare_refl a : Ascii.compare a a = Eq.
Proof. apply N.compare_refl. Qed.

Lemma ascii_compare_lt_trans a b c :
  Ascii.compare a b = Lt → Ascii.compare b c = Lt → Ascii.compare a c = Lt.
Proof.
  unfold Ascii.compare. rewrite !N.compare_lt_iff. lia.
Qed.

Lemma str_lt_trans s1 s2 s3 :
  str_lt s1 s2 = true → str_lt s2 s3 = true → str_lt s1 s3 = true.
Proof.
  unfold str_lt. revert s2 s3.
  induction s1 as [|a s1 IH]; intros [|b s2] [|c s3]; simpl; try done.
  intros H1 H2.
  destruct (Ascii.compare a b) eqn:E1; [|clear H1|done];
    destruct (Ascii.compare b c) eqn:E2; try done.
  - apply Ascii.compare_eq_iff in E1 as ->. rewrite E2. by apply (IH s2).
  - apply Ascii.compare_eq_iff in E1 as ->. by rewrite E2.
  - apply Ascii.compare_eq_iff in E2 as ->. by rewrite E1.
  - by rewrite (ascii_compare_lt_trans a b c).
Qed.

Lemma str_lt_total s1 s2 :
  str_lt s1 s2 = false → str_lt s2 s1 = false → s1 = s2.
Proof.
  unfold str_lt. rewrite (String.compare_antisym s2 s1).
  destruct (String.compare s1 s2) eqn:E; simpl; try done.
  intros _ _. by apply String.compare_eq_iff.
Qed.

(** [strings.Contains] *)
Definition contains (s sub : string) : bool :=
  match String.index 0 sub s with Some _ => true | None => false end.

(** [strings.HasSuffix] *)
Definition has_suffix (s suf : string) : bool :=
  (String.length suf <=? String.length s)%nat &&
  String.eqb (String.substring (String.length s - String.length suf) (String.length suf) s) suf.

(** [strings.ToLower], on the ASCII letters: the code only searches the result
    for ASCII words. *)
Definition lower_char (c : ascii) : ascii :=
  let n := nat_of_ascii c in
  if ((65 <=? n) && (n <=? 90))%nat then ascii_of_nat (n + 32) else c.
Fixpoint to_lower (s : string) : string :=
  match s with
  | EmptyString => EmptyString
  | String c s => String (lower_char c) (to_lower s)
  end.

(** [s[:n]]: a panic when [n] exceeds the length. *)
Definition slice_to {S} (s : string) (n : nat) : M S string :=
  if (n <=? String.length s)%nat then ret (String.substring 0 n s)
  else panic "slice bounds out of range".

(** The sentinel [sql.ErrNoRows]; its text contains "no rows", so the tests
    [err == sql.ErrNoRows || strings.Contains(err.Error(), "no rows")] of the
    code are one search of the text. *)
Definition ErrNoRows : string := "sql: no rows in result set".
Definition is_no_rows (e : string) : bool := contains e "no rows".

Lemma append_nil_l s : "" +:+ s = s.
Proof. done. Qed.

Lemma append_cons c s t : String c s +:+ t = String c (s +:+ t).
Proof. done. Qed.

#[export] Hint Rewrite append_nil_l append_cons : swarm_simpl.

Lemma append_assoc s1 s2 s3 : s1 +:+ (s2 +:+ s3) = (s1 +:+ s2) +:+ s3.
Proof. induction s1 as [|c s1 IH]; [done|]. by rewrite !append_cons, IH. Qed.

Lemma append_nil_r s : s +:+ "" = s.
Proof. induction s as [|c s IH]; [done|]. by rewrite append_cons, IH. Qed.

Lemma length_append s t : String.length (s +:+ t) = (String.length s + String.length t)%nat.
Proof. induction s as [|c s IH]; [by rewrite append_nil_l|]. rewrite append_cons. cbn. by rewrite IH. Qed.

Lemma append_inj_l s t1 t2 : s +:+ t1 = s +:+ t2 → t1 = t2.
Proof. induction s; [done|]. rewrite !append_cons. intros [=]; auto. Qed.

(** [str_free c s]: the character [c] does not occur in [s]. *)
Fixpoint str_free (c : ascii) (s : string) : Prop :=
  match s with
  | EmptyString => True
  | String d s => c ≠ d ∧ str_free c s
  end.

(** Two concatenations around a separator that occurs in neither left part
    agree part by part. *)
Lemma split_at_sep c a1 b1 a2 b2 :
  str_free c a1 → str_free c a2 →
  a1 +:+ String c b1 = a2 +:+ String c b2 → a1 = a2 ∧ b1 = b2.
Proof.
  revert a2. induction a1 as [|x a1 IH]; intros [|y a2];
    rewrite ?append_cons, ?append_nil_l; simpl.
  - naive_solver.
  - intros _ [? ?] [=]. congruence.
  - intros [? ?] _ [=]. congruence.
  - intros [? ?] [? ?] [= -> Heq]. destruct (IH a2) as [-> ->]; auto.
Qed.

Lemma str_free_append c s t : str_free c s → str_free c t → str_free c (s +:+ t).
Proof. induction s; [done|]. rewrite append_cons. naive_solver. Qed.

Lemma substring_append a b : String.substring (String.length a) (String.length b) (a +:+ b) = b.
Proof.
  induction a as [|c a IH]; [|by rewrite append_cons]. rewrite append_nil_l. cbn.
  induction b as [|c b IH]; [done|]. cbn. by rewrite IH.
Qed.

Lemma has_suffix_append a b : has_suffix (a +:+ b) b = true.
Proof.
  unfold has_suffix. rewrite length_append, Nat.add_sub, substring_append, String.eqb_refl.
  apply andb_true_intro. split; [|done]. apply Nat.leb_le. lia.
Qed.

Lemma str_free_substring c n m s : str_free c s → str_free c (String.substring n m s).
Proof. revert n m. induction s as [|d s IH]; intros [|n] [|m] Hs; cbn in *; try done; naive_solver. Qed.

(** A string without the first character of a suffix does not end in it. *)
Lemma has_suffix_free c suf s : str_free c s → has_suffix s (String c suf) = false.
Proof.
  intros Hs. unfold has_suffix. apply andb_false_intro2. apply String.eqb_neq. intros E.
  pose proof (str_free_substring c (String.length s - String.length (String c suf))
    (String.length (String c suf)) s Hs) as H. rewrite E in H. by destruct H.
Qed.

Lemma pretty_N_char_free c x :
  c ∉ ["0"; "1"; "2"; "3"; "4"; "5"; "6"; "7"; "8"; "9"]%char → c ≠ pretty_N_char x.
Proof.
  intros Hc ->. apply Hc. unfold pretty_N_char.
  repeat case_match; simplify_eq; set_solver.
Qed.

Lemma pretty_N_free c (n : N) :
  c ∉ ["0"; "1"; "2"; "3"; "4"; "5"; "6"; "7"; "8"; "9"]%char → str_free c (pretty n).
Proof.
  intros Hc. unfold pretty, pretty_N. case_decide; [split; [set_solver|done]|].
  assert (∀ s, str_free c s → str_free c (pretty_N_go n s)) as Hgo; [|by apply Hgo].
  clear -Hc. induction (N.lt_wf_0 n) as [n _ IH]. intros s Hs.
  destruct (decide (n = 0)%N) as [->|]; [done|].
  rewrite pretty_N_go_step by lia. apply IH; [apply N.div_lt; lia|].
  split; [by apply pretty_N_char_free|done].
Qed.

Lemma pretty_Z_free c (z : Z) :
  c ∉ ["-"; "0"; "1"; "2"; "3"; "4"; "5"; "6"; "7"; "8"; "9"]%char → str_free c (pretty z).
Proof.
  intros Hc. destruct z as [|p|p]; simpl.
  - split; [set_solver|done].
  - apply (pretty_N_free c (N.pos p)). set_solver.
  - split; [set_solver|]. apply (pretty_N_free c (N.pos p)). set_solver.
Qed.

(** ** Choices of the Go run-time

    Two choices are left open by the language and its library: the order in
    which [range] visits a map, and how [sort.Slice] orders elements that the
    comparison does not distinguish (it is not stable).  Both are fields of a
    class; theorems that hold for every instance do not depend on them. *)

Record strict_weak {A} (less : A → A → bool) : Prop := {
  sw_irrefl x : less x x = false;
  sw_trans x y z : less x y = true → less y z = true → less x z = true;
  sw_cotrans x y z : less x y = false → less y z = false → less x z = false;
}.

(** The order that a sorted slice obeys: no element is less than its
    predecessor. *)
Definition not_less {A} (less : A → A → bool) : relation A := λ a b, less b a = false.
#[export] Instance not_less_dec {A} (less : A → A → bool) : RelDecision (not_less less).
Proof. intros x y. unfold not_less. apply _. Defined.

Class GoRuntime := {
  range_map : ∀ {A : Type}, list A → list A;
  range_map_perm : ∀ {A : Type} (l : list A), range_map l ≡ₚ l;
  sort_slice : ∀ {A : Type}, (A → A → bool) → list A → list A;
  sort_slice_perm : ∀ {A : Type} (less : A → A → bool) l, sort_slice less l ≡ₚ l;
  sort_slice_sorted : ∀ {A : Type} (less : A → A → bool) l,
    strict_weak less → Sorted (not_less less) (sort_slice less l);
}.

Lemma sw_asym {A} (less : A → A → bool) x y :
  strict_weak less → less x y = true → less y x = false.
Proof.
  intros H Hxy. destruct (less y x) eqn:Hyx; [|done].
  pose proof (sw_trans _ H x y x Hxy Hyx) as Hxx.
  by rewrite (sw_irrefl _ H) in Hxx.
Qed.

Lemma sw_le_trans {A} (less : A → A → bool) :
  strict_weak less → Transitive (not_less less).
Proof. intros H x y z Hxy Hyz. by apply (sw_cotrans _ H z y x). Qed.

(** A run-time that ranges over maps in the order of the representation and
    sorts with a merge sort. *)
#[export] Program Instance ref_runtime : GoRuntime := {
  range_map A l := l;
  sort_slice A less l := merge_sort (not_less less) l;
}.
Next Obligation. done. Qed.
Next Obligation. intros. apply merge_sort_Permutation. Qed.
Next Obligation.
  intros A less l Hsw. apply Sorted_merge_sort.
  intros x y. destruct (less y x) eqn:E; [|by left].
  right. by eapply sw_asym.
Qed.

(** When the comparison separates the elements of the slice, the sorted slice
    is the same for every run-time and every initial order. *)
Lemma sort_slice_unique {A} (R1 R2 : GoRuntime) (less : A → A → bool) (l1 l2 : list A) :
  strict_weak less →
  (∀ x y, x ∈ l1 → y ∈ l1 → less x y = false → less y x = false → x = y) →
  l1 ≡ₚ l2 →
  @sort_slice R1 A less l1 = @sort_slice R2 A less l2.
Proof.
  intros Hsw Hsep Hperm.
  pose proof (sw_le_trans less Hsw).
  apply (Sorted_unique_strong (not_less less)).
  - intros x y Hx Hy. rewrite (@sort_slice_perm R1) in Hx.
    rewrite (@sort_slice_perm R2), <-Hperm in Hy. naive_solver.
  - by apply sort_slice_sorted.
  - by apply sort_slice_sorted.
  - by rewrite (@sort_slice_perm R1), (@sort_slice_perm R2).
Qed.

Lemma elem_of_sort_slice `{R : GoRuntime} {A} (less : A → A → bool) l x :
  x ∈ sort_slice less l ↔ x ∈ l.
Proof. by rewrite sort_slice_perm. Qed.

Lemma elem_of_range_map `{R : GoRuntime} {A} (l : list A) x :
  x ∈ range_map l ↔ x ∈ l.
Proof. by rewrite range_map_perm. Qed.

#[export] Hint Rewrite @elem_of_sort_slice @elem_of_range_map : swarm_simpl.

(** ** Instants

    [time.Time] without its monotonic reading: seconds since the Unix epoch,
    nanoseconds within the second, and the offset of its zone east of UTC. *)

Record Time := mkTime { t_sec : Z; t_nsec : Z; t_off : Z }.

#[export] Instance Time_eq_dec : EqDecision Time.
Proof. solve_decision. Defined.

(** The zero [time.Time] is January 1 of year 1, 00:00:00 UTC. *)
Definition unix_of_year_1 : Z := (-62135596800)%Z.
Definition zero_time : Time := mkTime unix_of_year_1 0 0.

Definition time_IsZero (t : Time) : bool :=
  (t_sec t =? unix_of_year_1)%Z && (t_nsec t =? 0)%Z.

(** [t.UnixNano()], an [int64]. *)
Definition UnixNano (t : Time) : Z := wrap64 (t_sec t * 1000000000 + t_nsec t).

(** [t.Before(u)] *)
Definition time_Before (t u : Time) : bool :=
  (t_sec t <? t_sec u)%Z || ((t_sec t =? t_sec u)%Z && (t_nsec t <? t_nsec u)%Z).
