(* ===== verification/Hlc.v ===== *)
(** * Hybrid logical clocks ([protocol/hlc.go])

    Timestamps with their total order, their textual key and the skew guard,
    and the clock with its two events.  [time.Now().UnixNano()] is an argument
    [physicalTime] of each operation that reads it: nothing is assumed of
    successive readings, which may go backwards. *)

From Stdlib Require Import ZArith Lia String Ascii.
From stdpp Require Import gmap strings list sorting pretty.
From S2P Require Import Prelude.

Open Scope Z_scope.

(** ** Timestamps *)

(** [HLCTimestamp]: [Wall] is an [int64], [Logical] an [int32]. *)
Record HLCTimestamp := mkHLC {
  Wall : Z;
  Logical : Z;
  PeerID : string;
}.

#[export] Instance HLCTimestamp_eq_dec : EqDecision HLCTimestamp.
Proof. solve_decision. Defined.

Definition zero_HLC : HLCTimestamp := mkHLC 0 0 "".

Definition hlc_wf (h : HLCTimestamp) : Prop := is_int64 (Wall h) ∧ is_int32 (Logical h).

(** [const MaxClockSkew = 5 * time.Second], in nanoseconds. *)
Definition MaxClockSkew : Z := 5 * 1000000000.

Definition Less (h other : HLCTimestamp) : bool :=
  if negb (Wall h =? Wall other) then Wall h <? Wall other
  else if negb (Logical h =? Logical other) then Logical h <? Logical other
  else str_lt (PeerID h) (PeerID other).

Definition Equal (h other : HLCTimestamp) : bool :=
  (Wall h =? Wall other) && (Logical h =? Logical other)
  && String.eqb (PeerID h) (PeerID other).

Definition IsZero (h : HLCTimestamp) : bool :=
  (Wall h =? 0) && (Logical h =? 0) && String.eqb (PeerID h) "".

(** [fmt.Sprintf("%d:%d:%s", h.Wall, h.Logical, h.PeerID)] *)
Definition hlc_String (h : HLCTimestamp) : string :=
  pretty (Wall h) +:+ ":" +:+ pretty (Logical h) +:+ ":" +:+ PeerID h.

(** [IsFutureSkew], with the reading of [time.Now().UnixNano()]. *)
Definition IsFutureSkew (now : Z) (h : HLCTimestamp) : bool :=
  let maxAllowed := wrap64 (now + MaxClockSkew) in
  maxAllowed <? Wall h.

(** ** The clock *)

Record HLC := mkClock {
  timestamp : HLCTimestamp;
  peerID : string;
}.

Definition NewHLC (physicalTime : Z) (id : string) : HLC :=
  mkClock (mkHLC physicalTime 0 id) id.

Definition Now (physicalTime : Z) (c : HLC) : HLCTimestamp * HLC :=
  let ts := timestamp c in
  let ts' :=
    if physicalTime <=? Wall ts
    then mkHLC (Wall ts) (wrap32 (Logical ts + 1)) (PeerID ts)
    else mkHLC physicalTime 0 (PeerID ts) in
  (mkHLC (Wall ts') (Logical ts') (peerID c), mkClock ts' (peerID c)).

Definition Update (physicalTime : Z) (remote : HLCTimestamp) (c : HLC) : HLC :=
  let ts := timestamp c in
  let maxWall := Z.max (Wall ts) (Z.max (Wall remote) physicalTime) in
  let ts' :=
    if (maxWall =? Wall ts) && (maxWall =? Wall remote) then
      mkHLC (Wall ts) (wrap32 (Z.max (Logical ts) (Logical remote) + 1)) (PeerID ts)
    else if maxWall =? Wall ts then
      mkHLC (Wall ts) (wrap32 (Logical ts + 1)) (PeerID ts)
    else if maxWall =? Wall remote then
      mkHLC (Wall remote) (wrap32 (Logical remote + 1)) (PeerID ts)
    else mkHLC physicalTime 0 (PeerID ts) in
  mkClock ts' (peerID c).

(** ** The order of timestamps *)

(** [hlc_lt] is the mathematical order that [Less] computes: lexicographic on
    wall time, logical counter and peer. *)
Definition hlc_lt (a b : HLCTimestamp) : Prop :=
  Wall a < Wall b ∨
  (Wall a = Wall b ∧ Logical a < Logical b) ∨
  (Wall a = Wall b ∧ Logical a = Logical b ∧ str_lt (PeerID a) (PeerID b) = true).

Lemma Less_spec a b : Less a b = true ↔ hlc_lt a b.
Proof.
  unfold Less, hlc_lt. destruct (Z.eqb_spec (Wall a) (Wall b)); simpl.
  - destruct (Z.eqb_spec (Logical a) (Logical b)); simpl.
    + naive_solver lia.
    + rewrite Z.ltb_lt. naive_solver lia.
  - rewrite Z.ltb_lt. naive_solver lia.
Qed.

Lemma Less_false a b : Less a b = false ↔ ¬ hlc_lt a b.
Proof. rewrite <-Less_spec. by destruct (Less a b). Qed.

Lemma Equal_spec a b : Equal a b = true ↔ a = b.
Proof.
  unfold Equal. destruct a as [w1 l1 p1], b as [w2 l2 p2]; simpl.
  rewrite !andb_true_iff, !Z.eqb_eq, String.eqb_eq. naive_solver.
Qed.

Lemma IsZero_spec a : IsZero a = true ↔ a = zero_HLC.
Proof.
  unfold IsZero, zero_HLC. destruct a as [w l p]; simpl.
  rewrite !andb_true_iff, !Z.eqb_eq, String.eqb_eq. naive_solver.
Qed.

Lemma hlc_lt_irrefl a : ¬ hlc_lt a a.
Proof. unfold hlc_lt. rewrite str_lt_irrefl. naive_solver lia. Qed.

Lemma hlc_lt_trans a b c : hlc_lt a b → hlc_lt b c → hlc_lt a c.
Proof.
  unfold hlc_lt. intros H1 H2.
  destruct H1 as [H1|[[E1 H1]|(E1 & F1 & H1)]], H2 as [H2|[[E2 H2]|(E2 & F2 & H2)]];
    try (left; lia); try (right; left; lia).
  right; right. split; [congruence|]. split; [congruence|]. by eapply str_lt_trans.
Qed.

#[export] Instance hlc_lt_strict : StrictOrder hlc_lt.
Proof. split; [exact hlc_lt_irrefl|exact hlc_lt_trans]. Qed.

Lemma hlc_lt_total a b : ¬ hlc_lt a b → ¬ hlc_lt b a → a = b.
Proof.
  intros H1 H2. destruct a as [w1 l1 p1], b as [w2 l2 p2].
  unfold hlc_lt in *; simpl in *.
  assert (w1 = w2) by lia. assert (l1 = l2) by lia. subst.
  f_equal. apply str_lt_total; apply not_true_iff_false; naive_solver.
Qed.

#[export] Instance hlc_lt_dec : RelDecision hlc_lt.
Proof.
  intros a b. destruct (Less a b) eqn:E.
  - left. by apply Less_spec.
  - right. by apply Less_false.
Defined.

Lemma hlc_lt_asym a b : hlc_lt a b → ¬ hlc_lt b a.
Proof. intros H1 H2. by apply (hlc_lt_irrefl a), (hlc_lt_trans a b a). Qed.

Lemma hlc_trichotomy a b : hlc_lt a b ∨ a = b ∨ hlc_lt b a.
Proof.
  destruct (decide (hlc_lt a b)); [by left|].
  destruct (decide (hlc_lt b a)); [by right; right|].
  right; left. by apply hlc_lt_total.
Qed.

Definition hlc_le (a b : HLCTimestamp) : Prop := hlc_lt a b ∨ a = b.

Lemma hlc_nlt_le a b : ¬ hlc_lt a b → hlc_le b a.
Proof. destruct (hlc_trichotomy a b) as [?|[->|?]]; unfold hlc_le; naive_solver. Qed.

Lemma hlc_le_lt_trans a b c : hlc_le a b → hlc_lt b c → hlc_lt a c.
Proof. intros [?| ->]; [|done]. by apply hlc_lt_trans. Qed.

Lemma hlc_lt_le_trans a b c : hlc_lt a b → hlc_le b c → hlc_lt a c.
Proof. intros ? [?|<-]; [|done]. by eapply hlc_lt_trans. Qed.

Lemma hlc_le_trans a b c : hlc_le a b → hlc_le b c → hlc_le a c.
Proof. intros [?| ->]; [|done]. left. by eapply hlc_lt_le_trans. Qed.

Lemma hlc_le_refl a : hlc_le a a.
Proof. by right. Qed.

Lemma Less_strict_weak : strict_weak Less.
Proof.
  split.
  - intros x. apply Less_false, hlc_lt_irrefl.
  - intros x y z. rewrite !Less_spec. apply hlc_lt_trans.
  - intros x y z. rewrite !Less_false. intros H1 H2.
    apply hlc_nlt_le in H1, H2. intros H3.
    eapply (hlc_lt_irrefl x), hlc_lt_le_trans; [done|].
    by eapply hlc_le_trans.
Qed.

#[export] Hint Resolve hlc_lt_irrefl hlc_lt_trans hlc_le_refl hlc_le_trans
  hlc_lt_le_trans hlc_le_lt_trans Less_strict_weak : swarm.

(** ** The key of a timestamp *)

Lemma hlc_String_inj_lemma a b : hlc_String a = hlc_String b → a = b.
Proof.
  unfold hlc_String. destruct a as [w1 l1 p1], b as [w2 l2 p2]; simpl.
  intros H.
  assert (∀ z : Z, str_free ":"%char (pretty z)) as Hfree
    by (intros; apply pretty_Z_free; set_solver).
  apply (split_at_sep ":"%char) in H as [Hw H]; [|done..].
  apply (split_at_sep ":"%char) in H as [Hl ->]; [|done..].
  apply (inj pretty) in Hw, Hl. by subst.
Qed.

#[export] Instance hlc_String_inj : Inj (=) (=) hlc_String.
Proof. exact hlc_String_inj_lemma. Qed.

(** ** Runs of the clock *)

(** The two events of a clock, each with the physical time it reads. *)
Inductive clock_event :=
| EvNow (physicalTime : Z)
| EvUpdate (physicalTime : Z) (remote : HLCTimestamp).

Definition clock_step (e : clock_event) (c : HLC) : HLC :=
  match e with
  | EvNow p => snd (Now p c)
  | EvUpdate p r => Update p r c
  end.

(** What an event makes known to the peer: the timestamp it issues, or the
    timestamp it receives. *)
Definition clock_obs (e : clock_event) (c : HLC) : HLCTimestamp :=
  match e with
  | EvNow p => fst (Now p c)
  | EvUpdate _ r => r
  end.

Fixpoint clock_run (es : list clock_event) (c : HLC) : HLC :=
  match es with
  | [] => c
  | e :: es => clock_run es (clock_step e c)
  end.

Fixpoint clock_trace (es : list clock_event) (c : HLC) : list HLCTimestamp :=
  match es with
  | [] => []
  | e :: es => clock_obs e c :: clock_trace es (clock_step e c)
  end.

(** The clock is at or past a timestamp (peers are not compared). *)
Definition past (h : HLCTimestamp) (c : HLC) : Prop :=
  Wall h < Wall (timestamp c) ∨
  (Wall h = Wall (timestamp c) ∧ Logical h ≤ Logical (timestamp c)).

(** Every logical counter in sight stays [n] increments below overflow. *)
Definition event_bounded (L : Z) (e : clock_event) : Prop :=
  match e with
  | EvNow _ => True
  | EvUpdate _ r => min_int32 ≤ Logical r ≤ L
  end.

Definition clock_bounded (L : Z) (c : HLC) : Prop :=
  min_int32 ≤ Logical (timestamp c) ≤ L.

Lemma past_lt_Now p h c L :
  clock_bounded L c → L < max_int32 → past h c → hlc_lt h (fst (Now p c)).
Proof.
  unfold clock_bounded, past, Now, hlc_lt. intros Hb HL Hp.
  destruct (Z.leb_spec p (Wall (timestamp c))); simpl; [|lia].
  rewrite wrap32_id by (unfold is_int32, max_int32, min_int32 in *; lia). lia.
Qed.

Lemma clock_step_bounded L e c :
  clock_bounded L c → event_bounded L e → 0 ≤ L < max_int32 →
  clock_bounded (L + 1) (clock_step e c).
Proof.
  unfold clock_bounded, min_int32, max_int32. intros Hb He HL.
  assert (∀ z, - 2 ^ 31 ≤ z ≤ L → wrap32 (z + 1) = z + 1) as Hw.
  { intros z ?. apply wrap32_id. unfold is_int32, max_int32, min_int32. lia. }
  destruct e as [p|p r]; simpl in *; unfold Now, Update, min_int32 in *; simpl.
  - case_match; simpl; rewrite ?Hw by lia; lia.
  - repeat case_match; simpl; rewrite ?Hw by lia; lia.
Qed.

Lemma clock_step_past L e c h :
  clock_bounded L c → event_bounded L e → 0 ≤ L < max_int32 →
  (past h c ∨ h = clock_obs e c) → past h (clock_step e c).
Proof.
  unfold clock_bounded, min_int32, max_int32. intros Hb He HL Hh.
  assert (∀ z, - 2 ^ 31 ≤ z ≤ L → wrap32 (z + 1) = z + 1) as Hw.
  { intros z ?. apply wrap32_id. unfold is_int32, max_int32, min_int32. lia. }
  destruct e as [p|p r]; simpl in *; unfold Now, Update, past, min_int32 in *; simpl in *.
  - destruct (Z.leb_spec p (Wall (timestamp c))); simpl in *; rewrite ?Hw in * by lia;
      destruct Hh as [?|Hh]; [lia|subst; simpl; lia|lia|subst; simpl; lia].
  - set (mw := Z.max (Wall (timestamp c)) (Z.max (Wall r) p)).
    destruct (Z.eqb_spec mw (Wall (timestamp c))), (Z.eqb_spec mw (Wall r)); simpl;
      rewrite ?Hw by lia; destruct Hh as [Hh|Hh]; subst; lia.
Qed.

Lemma clock_run_past es L c h :
  clock_bounded L c → Forall (event_bounded L) es → 0 ≤ L →
  L + Z.of_nat (length es) < max_int32 →
  (past h c ∨ h ∈ clock_trace es c) →
  past h (clock_run es c) ∧ clock_bounded (L + Z.of_nat (length es)) (clock_run es c).
Proof.
  revert L c. induction es as [|e es IH]; intros L c Hb Hes HL Hn Hh; simpl.
  - split; [set_solver|]. unfold clock_bounded in *. lia.
  - apply Forall_cons in Hes as [He Hes]. simpl in Hn.
    replace (L + Z.of_nat (S (length es))) with (L + 1 + Z.of_nat (length es)) by lia.
    apply IH.
    + apply clock_step_bounded; [done|done|lia].
    + eapply Forall_impl; [done|]. intros []; simpl; lia.
    + lia.
    + lia.
    + simpl in Hh. rewrite elem_of_cons in Hh.
      destruct Hh as [?|[?|?]]; [left|left|by right];
        (eapply clock_step_past; [done|done|lia|naive_solver]).
Qed.

(** ** Properties of the clock *)

(** C37. [Less] is a strict total order on timestamps, [Equal] is its equality:
    for any two timestamps exactly one of [a < b], [a = b], [b < a] holds, and
    the order is transitive. *)
Theorem Less_total_order (a b c : HLCTimestamp) :
  (Less a b = true ∧ Equal a b = false ∧ Less b a = false ∨
   Less a b = false ∧ Equal a b = true ∧ Less b a = false ∨
   Less a b = false ∧ Equal a b = false ∧ Less b a = true) ∧
  (Less a b = true → Less b c = true → Less a c = true).
Proof.
  split; [|rewrite !Less_spec; apply hlc_lt_trans].
  assert (Equal a b = bool_decide (a = b)) as ->.
  { apply eq_bool_prop_intro. rewrite bool_decide_spec, Is_true_true. apply Equal_spec. }
  destruct (hlc_trichotomy a b) as [H|[->|H]].
  - left. split_and!; [by apply Less_spec| |by apply Less_false, hlc_lt_asym].
    apply bool_decide_eq_false. intros ->. by apply hlc_lt_irrefl in H.
  - right; left. split_and!; [|by apply bool_decide_eq_true|];
      apply Less_false, hlc_lt_irrefl.
  - right; right. split_and!; [by apply Less_false, hlc_lt_asym| |by apply Less_spec].
    apply bool_decide_eq_false. intros ->. by apply hlc_lt_irrefl in H.
Qed.

(** C36. The causality guarantee of the clock: the timestamp that [Now] issues
    is strictly greater than every timestamp the peer issued or received
    before, whatever the physical clock reads (it may stand still or go
    backwards), as long as the logical counters stay below the overflow of
    [int32]. *)
Theorem clock_causality (es : list clock_event) (p L : Z) (c : HLC) (h : HLCTimestamp)
  (Hc : clock_bounded L c) (Hes : Forall (event_bounded L) es) (HL : 0 ≤ L)
  (Hroom : L + Z.of_nat (length es) < max_int32)
  (Hobs : h ∈ clock_trace es c) :
  Less h (fst (Now p (clock_run es c))) = true.
Proof.
  apply Less_spec.
  destruct (clock_run_past es L c h) as [Hp Hb]; [auto..|].
  by eapply past_lt_Now.
Qed.

Definition clock_example : list clock_event :=
  [EvNow 100; EvUpdate 90 (mkHLC 500 7 "peer2"); EvNow 80].

Lemma clock_causality_witness :
  Less (mkHLC 500 7 "peer2")
    (fst (Now 70 (clock_run clock_example (NewHLC 10 "peer1")))) = true.
Proof.
  apply (clock_causality clock_example 70 7 (NewHLC 10 "peer1")).
  - unfold clock_bounded; simpl. unfold min_int32. lia.
  - repeat constructor; simpl; unfold min_int32; lia.
  - lia.
  - vm_compute. reflexivity.
  - simpl. apply elem_of_cons. right. apply elem_of_cons. left. reflexivity.
Defined.

(** The key of a timestamp identifies it: two timestamps with the same
    [String()] are equal, so the maps keyed by [HLC.String()] are maps keyed by
    timestamps. *)
Theorem hlc_String_injective (a b : HLCTimestamp) : hlc_String a = hlc_String b ↔ a = b.
Proof. split; [apply (inj hlc_String)|by intros ->]. Qed.

(** Overflow: when the logical counter is at its maximum and the physical
    clock has not passed the wall time, both events wrap the counter, and the
    next timestamp is smaller than the one the clock already issued. *)
Theorem clock_overflow (p : Z) (c : HLC)
  (Hmax : Logical (timestamp c) = max_int32) (Hp : p ≤ Wall (timestamp c)) :
  Less (fst (Now p c)) (mkHLC (Wall (timestamp c)) max_int32 (peerID c)) = true ∧
  ∀ r, r = mkHLC (Wall (timestamp c)) max_int32 (PeerID (timestamp c)) →
    Less (timestamp (Update p r c)) r = true.
Proof.
  split.
  - apply Less_spec. unfold Now, hlc_lt; simpl.
    rewrite (proj2 (Z.leb_le _ _) Hp), Hmax; simpl. right; left. done.
  - intros r ->. apply Less_spec. unfold Update, hlc_lt; simpl.
    rewrite Hmax, Z.max_l, Z.eqb_refl by lia. simpl. right; left. done.
Qed.

Lemma clock_overflow_witness :
  Less (fst (Now 5 (mkClock (mkHLC 9 max_int32 "a") "a"))) (mkHLC 9 max_int32 "a") = true.
Proof.
  apply (clock_overflow 5 (mkClock (mkHLC 9 max_int32 "a") "a")).
  - reflexivity.
  - simpl. lia.
Defined.

(** The skew guard is exact: away from the end of the [int64] range,
    [IsFutureSkew] rejects precisely the timestamps more than [MaxClockSkew]
    ahead of the local clock. *)
Theorem IsFutureSkew_exact (now : Z) (h : HLCTimestamp)
  (Hnow : 0 ≤ now ≤ max_int64 - MaxClockSkew) :
  IsFutureSkew now h = true ↔ now + MaxClockSkew < Wall h.
Proof.
  unfold IsFutureSkew. rewrite Z.ltb_lt, wrap64_id; [done|].
  unfold is_int64, min_int64, max_int64, MaxClockSkew in *. lia.
Qed.

Lemma IsFutureSkew_exact_witness :
  IsFutureSkew 1000 (mkHLC 5000001001 0 "p") = true.
Proof.
  apply (IsFutureSkew_exact 1000); vm_compute; [split; discriminate|reflexivity].
Defined.
