(* ===== verification/GoTime.v ===== *)
(** * Dates of the Go library ([time.RFC3339Nano])

    The commit metadata carries a [time.Time], which [encoding/json] writes
    with [Time.MarshalJSON] and reads with [Time.UnmarshalJSON], and the
    commit statements carry it formatted with [time.RFC3339Nano].  This file
    models that much of the package [time]: the proleptic Gregorian calendar,
    the formatter and the parser of RFC 3339 instants, and the round trip.

    The parser is the one of the library's RFC 3339 fast path; the library
    falls back on the lenient [time.Parse] for texts the fast path refuses,
    which no formatted instant needs. *)

From Stdlib Require Import ZArith Lia String Ascii.
From stdpp Require Import gmap strings list sorting pretty.
From S2P Require Import Prelude.

Open Scope Z_scope.

(** ** The calendar *)

Definition is_leap (y : Z) : bool :=
  (y mod 4 =? 0) && (negb (y mod 100 =? 0) || (y mod 400 =? 0)).

Definition days_in (m y : Z) : Z :=
  if m =? 2 then (if is_leap y then 29 else 28)
  else if (m =? 4) || (m =? 6) || (m =? 9) || (m =? 11) then 30 else 31.

(** Years are counted from March, in eras of 400 years of 146097 days; day
    719468 of era 0 is 1970-01-01. *)
Definition year_of_era (doe : Z) : Z :=
  (doe - doe / 1460 + doe / 36524 - doe / 146096) / 365.
Definition days_before_year (yoe : Z) : Z := 365 * yoe + yoe / 4 - yoe / 100.

Definition civil_from_days (days : Z) : Z * Z * Z :=
  let z := days + 719468 in
  let era := z / 146097 in
  let doe := z mod 146097 in
  let yoe := year_of_era doe in
  let doy := doe - days_before_year yoe in
  let mp := (5 * doy + 2) / 153 in
  let d := doy - (153 * mp + 2) / 5 + 1 in
  let m := if mp <? 10 then mp + 3 else mp - 9 in
  let y := yoe + era * 400 + (if m <=? 2 then 1 else 0) in
  (y, m, d).

Definition days_from_civil (y m d : Z) : Z :=
  let y' := y - (if m <=? 2 then 1 else 0) in
  let era := y' / 400 in
  let yoe := y' mod 400 in
  let mp := if 2 <? m then m - 3 else m + 9 in
  let doy := (153 * mp + 2) / 5 + d - 1 in
  era * 146097 + (days_before_year yoe + doy) - 719468.

Lemma year_of_era_spec doe :
  0 ≤ doe < 146097 →
  0 ≤ year_of_era doe < 400 ∧
  days_before_year (year_of_era doe) ≤ doe ∧
  doe < days_before_year (year_of_era doe) + 366.
Proof.
  unfold year_of_era, days_before_year. intros H.
  Z.to_euclidean_division_equations. lia.
Qed.

(** The month and day of a day of the year (counted from March). *)
Lemma month_day_spec doy :
  0 ≤ doy < 366 →
  let mp := (5 * doy + 2) / 153 in
  let d := doy - (153 * mp + 2) / 5 + 1 in
  0 ≤ mp < 12 ∧ 1 ≤ d ≤ 31 ∧
  (mp = 1 ∨ mp = 3 ∨ mp = 6 ∨ mp = 8 → d ≤ 30) ∧
  (mp = 11 → d ≤ 29 ∧ (d = 29 → doy = 365)).
Proof.
  intros H. simpl. Z.to_euclidean_division_equations. lia.
Qed.

(** February 29 only occurs in leap years. *)
Lemma last_day_of_leap_year yoe era doe :
  0 ≤ doe < 146097 → yoe = year_of_era doe →
  doe = days_before_year yoe + 365 →
  is_leap (yoe + era * 400 + 1) = true.
Proof.
  intros H Hy Hd. pose proof (year_of_era_spec doe H) as (Hb & _ & _).
  rewrite <-Hy in Hb. unfold is_leap.
  assert (yoe = year_of_era (days_before_year yoe + 365)) as Hy' by (by rewrite <-Hd).
  rewrite Hd in H. clear Hy Hd doe.
  rewrite andb_true_iff, orb_true_iff, negb_true_iff, !Z.eqb_eq, Z.eqb_neq.
  unfold year_of_era, days_before_year in *.
  Z.to_euclidean_division_equations. lia.
Qed.

Lemma civil_from_days_valid days y m d :
  civil_from_days days = (y, m, d) →
  1 ≤ m ≤ 12 ∧ 1 ≤ d ≤ days_in m y.
Proof.
  unfold civil_from_days. set (z := days + 719468). set (doe := z mod 146097).
  pose proof (Z.mod_pos_bound z 146097 ltac:(lia)) as Hdoe. fold doe in Hdoe.
  pose proof (year_of_era_spec doe Hdoe) as (Hyoe & Hlo & Hhi).
  set (yoe := year_of_era doe) in *. set (doy := doe - days_before_year yoe).
  assert (0 ≤ doy < 366) as Hdoy by (subst doy; lia).
  pose proof (month_day_spec doy Hdoy) as (Hmp & Hd & H30 & H29). simpl in *.
  set (mp := (5 * doy + 2) / 153) in *. set (dd := doy - (153 * mp + 2) / 5 + 1) in *.
  pose proof (last_day_of_leap_year yoe (z / 146097) doe Hdoe eq_refl) as Hleap.
  intros [= <- <- <-].
  assert (1 ≤ (if mp <? 10 then mp + 3 else mp - 9) ≤ 12) as Hm
    by (destruct (Z.ltb_spec mp 10); lia).
  split; [done|]. unfold days_in.
  destruct (Z.ltb_spec mp 10).
  - rewrite (proj2 (Z.leb_gt (mp + 3) 2)) by lia.
    rewrite (proj2 (Z.eqb_neq (mp + 3) 2)) by lia.
    destruct (Z.eqb_spec (mp + 3) 4), (Z.eqb_spec (mp + 3) 6), (Z.eqb_spec (mp + 3) 9),
      (Z.eqb_spec (mp + 3) 11); simpl; lia.
  - rewrite (proj2 (Z.leb_le (mp - 9) 2)) by lia.
    destruct (Z.eqb_spec (mp - 9) 2).
    + assert (mp = 11) as Hmp11 by lia. destruct (H29 Hmp11) as [? H365].
      destruct (is_leap _) eqn:E; [lia|]. split; [lia|].
      enough (dd ≠ 29) by lia. intros H29'. specialize (H365 H29').
      discriminate Hleap. subst doy. lia.
    + rewrite !(proj2 (Z.eqb_neq _ _)) by lia. simpl. lia.
Qed.

Lemma days_from_civil_from_days days y m d :
  civil_from_days days = (y, m, d) → days_from_civil y m d = days.
Proof.
  unfold civil_from_days, days_from_civil. set (z := days + 719468). set (doe := z mod 146097).
  pose proof (Z.mod_pos_bound z 146097 ltac:(lia)) as Hdoe. fold doe in Hdoe.
  pose proof (year_of_era_spec doe Hdoe) as (Hyoe & Hlo & Hhi).
  set (yoe := year_of_era doe) in *. set (doy := doe - days_before_year yoe).
  assert (0 ≤ doy < 366) as Hdoy by (subst doy; lia).
  pose proof (month_day_spec doy Hdoy) as (Hmp & Hd & _). simpl in *.
  set (mp := (5 * doy + 2) / 153) in *.
  intros [= <- <- <-].
  set (m' := if mp <? 10 then mp + 3 else mp - 9).
  assert (yoe + z / 146097 * 400 + (if m' <=? 2 then 1 else 0)
            - (if m' <=? 2 then 1 else 0) = yoe + z / 146097 * 400) as -> by lia.
  assert ((if 2 <? m' then m' - 3 else m' + 9) = mp) as ->.
  { subst m'. destruct (Z.ltb_spec mp 10).
    - rewrite (proj2 (Z.ltb_lt 2 (mp + 3))); lia.
    - rewrite (proj2 (Z.ltb_ge 2 (mp - 9))); lia. }
  rewrite Z.div_add, Z.div_small, Z.mod_add, Z.mod_small by lia.
  pose proof (Z.div_mod z 146097 ltac:(lia)) as Hz. fold doe in Hz.
  subst doy z. lia.
Qed.

(** ** Decimal fields *)

Definition digit (n : Z) : ascii := ascii_of_N (Z.to_N (48 + n)).

Definition digit_val (c : ascii) : option Z :=
  let n := Z.of_N (N_of_ascii c) in
  if (48 <=? n) && (n <=? 57) then Some (n - 48) else None.

Definition is_digit (c : ascii) : bool :=
  match digit_val c with Some _ => true | None => false end.

(** The [w] low decimal digits of [n]. *)
Fixpoint digits (w : nat) (n : Z) : string :=
  match w with
  | O => ""
  | S w => String (digit (n / 10 ^ Z.of_nat w)) (digits w (n mod 10 ^ Z.of_nat w))
  end.

(** [parseUint] on the next [w] bytes, with its range check. *)
Fixpoint parse_digits (w : nat) (acc : Z) (s : string) : option (Z * string) :=
  match w, s with
  | O, _ => Some (acc, s)
  | S w, String c s =>
      match digit_val c with
      | Some d => parse_digits w (acc * 10 + d) s
      | None => None
      end
  | S _, EmptyString => None
  end.

Definition parse_uint (w : nat) (lo hi : Z) (s : string) : option (Z * string) :=
  match parse_digits w 0 s with
  | Some (n, r) => if (lo <=? n) && (n <=? hi) then Some (n, r) else None
  | None => None
  end.

Definition parse_char (c : ascii) (s : string) : option string :=
  match s with
  | String d s => if Ascii.eqb c d then Some s else None
  | EmptyString => None
  end.

(** The digits of a fraction of [w] digits, without trailing zeros. *)
Fixpoint frac_digits (w : nat) (n : Z) : string :=
  match w with
  | O => ""
  | S w =>
      if n =? 0 then ""
      else String (digit (n / 10 ^ Z.of_nat w)) (frac_digits w (n mod 10 ^ Z.of_nat w))
  end.

(** [parseNanoseconds]: digits after the [w]-th are dropped. *)
Fixpoint parse_frac (w : nat) (s : string) : Z * string :=
  match s with
  | EmptyString => (0, "")
  | String c s' =>
      match digit_val c with
      | None => (0, s)
      | Some d =>
          let '(v, r) := parse_frac (pred w) s' in
          (match w with O => 0 | S w => d * 10 ^ Z.of_nat w end + v, r)
      end
  end.

(** ** Formatting and parsing instants *)

Definition year_of (t : Time) : Z := (civil_from_days ((t_sec t + t_off t) / 86400)).1.1.

Definition format_fraction (nsec : Z) : string :=
  if nsec =? 0 then "" else "." +:+ frac_digits 9 nsec.

Definition format_zone (off : Z) : string :=
  if off =? 0 then "Z"
  else
    let zone := Z.quot off 60 in
    let sign := if zone <? 0 then "-" else "+" in
    sign +:+ digits 2 (Z.abs zone / 60) +:+ ":" +:+ digits 2 (Z.abs zone mod 60).

(** [appendInt(year, 4)]: at least four digits, more when the year needs
    them. *)
Definition format_year (y : Z) : string :=
  if (0 <=? y) && (y <=? 9999) then digits 4 y
  else if y <? 0 then "-" +:+ (if - y <=? 9999 then digits 4 (- y) else pretty (- y))
  else pretty y.

(** [t.Format(time.RFC3339Nano)] *)
Definition format_RFC3339Nano (t : Time) : string :=
  let local := t_sec t + t_off t in
  let '(y, m, d) := civil_from_days (local / 86400) in
  let sod := local mod 86400 in
  format_year y +:+ "-" +:+ digits 2 m +:+ "-" +:+ digits 2 d +:+ "T" +:+
  digits 2 (sod / 3600) +:+ ":" +:+ digits 2 (sod / 60 mod 60) +:+ ":" +:+
  digits 2 (sod mod 60) +:+ format_fraction (t_nsec t) +:+ format_zone (t_off t).

(** [Time.MarshalJSON] refuses years and zones that RFC 3339 cannot write. *)
Definition time_marshalable (t : Time) : bool :=
  (0 <=? year_of t) && (year_of t <=? 9999) && (Z.abs (t_off t) <? 86400).

Definition parse_fraction (s : string) : Z * string :=
  match s with
  | String "."%char (String c r) =>
      if is_digit c then parse_frac 9 (String c r) else (0, s)
  | _ => (0, s)
  end.

Definition parse_zone (s : string) : option Z :=
  match s with
  | String "Z"%char EmptyString => Some 0
  | String sign r =>
      if Ascii.eqb sign "+" || Ascii.eqb sign "-" then
        '(hr, r) ← parse_uint 2 0 23 r;
        r ← parse_char ":" r;
        '(mm, r) ← parse_uint 2 0 59 r;
        match r with
        | EmptyString =>
            let off := (hr * 60 + mm) * 60 in
            Some (if Ascii.eqb sign "-" then - off else off)
        | _ => None
        end
      else None
  | EmptyString => None
  end.

Definition parse_RFC3339 (s : string) : option Time :=
  '(y, s) ← parse_uint 4 0 9999 s;
  s ← parse_char "-" s;
  '(mo, s) ← parse_uint 2 1 12 s;
  s ← parse_char "-" s;
  '(d, s) ← parse_uint 2 1 (days_in mo y) s;
  s ← parse_char "T" s;
  '(h, s) ← parse_uint 2 0 23 s;
  s ← parse_char ":" s;
  '(mi, s) ← parse_uint 2 0 59 s;
  s ← parse_char ":" s;
  '(sec, s) ← parse_uint 2 0 59 s;
  let '(nsec, s) := parse_fraction s in
  off ← parse_zone s;
  Some (mkTime (days_from_civil y mo d * 86400 + h * 3600 + mi * 60 + sec - off) nsec off).

(** ** Round trip *)

Lemma digit_val_digit n : 0 ≤ n < 10 → digit_val (digit n) = Some n.
Proof.
  intros H. unfold digit_val, digit. rewrite N_ascii_embedding by lia.
  rewrite Z2N.id by lia.
  rewrite (proj2 (Z.leb_le 48 (48 + n))), (proj2 (Z.leb_le (48 + n) 57)) by lia.
  simpl. f_equal. lia.
Qed.

Lemma digit_range w n : 0 ≤ n < 10 ^ Z.of_nat (S w) → 0 ≤ n / 10 ^ Z.of_nat w < 10.
Proof.
  intros H. rewrite Nat2Z.inj_succ, Z.pow_succ_r in H by lia.
  split; [apply Z.div_pos; lia|]. apply Z.div_lt_upper_bound; lia.
Qed.

Lemma parse_digits_digits w acc n r :
  0 ≤ n < 10 ^ Z.of_nat w →
  parse_digits w acc (digits w n +:+ r) = Some (acc * 10 ^ Z.of_nat w + n, r).
Proof.
  revert acc n. induction w as [|w IH]; intros acc n Hn.
  - simpl in *. do 2 f_equal. lia.
  - pose proof (digit_range w n Hn) as Hd.
    change (digits (S w) n) with
      (String (digit (n / 10 ^ Z.of_nat w)) (digits w (n mod 10 ^ Z.of_nat w))).
    rewrite append_cons. cbn [parse_digits]. rewrite digit_val_digit by done.
    rewrite IH by (apply Z.mod_pos_bound; lia).
    do 2 f_equal. rewrite Nat2Z.inj_succ, Z.pow_succ_r by lia.
    rewrite (Z.div_mod n (10 ^ Z.of_nat w)) at 3 by lia. lia.
Qed.

Lemma parse_uint_digits w lo hi n r :
  0 ≤ n < 10 ^ Z.of_nat w → lo ≤ n ≤ hi →
  parse_uint w lo hi (digits w n +:+ r) = Some (n, r).
Proof.
  intros Hn Hr. unfold parse_uint. rewrite parse_digits_digits by done.
  rewrite Z.mul_0_l, Z.add_0_l.
  by rewrite (proj2 (Z.leb_le lo n)), (proj2 (Z.leb_le n hi)) by lia.
Qed.

Lemma parse_char_hit c s : parse_char c (String c s) = Some s.
Proof. simpl. by rewrite Ascii.eqb_refl. Qed.

(** [starts_nondigit r]: what follows cannot be read as one more digit. *)
Definition starts_nondigit (r : string) : Prop :=
  match r with String c _ => digit_val c = None | EmptyString => True end.

Lemma parse_frac_frac_digits w n r :
  0 ≤ n < 10 ^ Z.of_nat w → starts_nondigit r →
  parse_frac w (frac_digits w n +:+ r) = (n, r).
Proof.
  revert n. induction w as [|w IH]; intros n Hn Hr.
  - assert (n = 0) as -> by (simpl in Hn; lia). rewrite append_nil_l.
    destruct r as [|c r]; [done|]. simpl in *. by rewrite Hr.
  - pose proof (digit_range w n Hn) as Hd. cbn [frac_digits].
    destruct (Z.eqb_spec n 0) as [->|].
    { rewrite append_nil_l. destruct r as [|c r]; [done|]. simpl in *. by rewrite Hr. }
    rewrite append_cons. cbn [parse_frac]. rewrite digit_val_digit by done. cbn [pred].
    rewrite IH; [|apply Z.mod_pos_bound; lia|done].
    f_equal. rewrite (Z.div_mod n (10 ^ Z.of_nat w)) at 3 by lia. lia.
Qed.

Lemma frac_digits_S w n :
  n ≠ 0 →
  frac_digits (S w) n = String (digit (n / 10 ^ Z.of_nat w)) (frac_digits w (n mod 10 ^ Z.of_nat w)).
Proof. intros Hn. cbn [frac_digits]. by rewrite (proj2 (Z.eqb_neq n 0)). Qed.

Lemma format_zone_starts off : starts_nondigit (format_zone off).
Proof. unfold format_zone. repeat case_match; done. Qed.

Lemma parse_fraction_format nsec r :
  0 ≤ nsec < 1000000000 → starts_nondigit r →
  (∀ c r', r = String c r' → c ≠ "."%char) →
  parse_fraction (format_fraction nsec +:+ r) = (nsec, r).
Proof.
  intros Hn Hr Hdot. unfold format_fraction.
  destruct (Z.eqb_spec nsec 0) as [->|].
  - rewrite append_nil_l. unfold parse_fraction.
    destruct r as [|c r]; [done|]. specialize (Hdot c r eq_refl).
    repeat case_match; congruence.
  - assert (0 ≤ nsec < 10 ^ Z.of_nat 9) as Hn' by (change (10 ^ Z.of_nat 9) with 1000000000; lia).
    pose proof (parse_frac_frac_digits 9 nsec r Hn' Hr) as Hp.
    rewrite (frac_digits_S 8 nsec) in * by done.
    rewrite <-append_assoc, append_cons, append_nil_l in *.
    rewrite append_cons in *. unfold parse_fraction, is_digit.
    by rewrite digit_val_digit by (by apply digit_range).
Qed.

Lemma format_zone_not_dot off c r : format_zone off = String c r → c ≠ "."%char.
Proof. unfold format_zone. repeat case_match; intros [= <- _]; done. Qed.

Lemma parse_zone_format off :
  -86400 < off < 86400 → off mod 60 = 0 → parse_zone (format_zone off) = Some off.
Proof.
  intros Hr Hm. unfold format_zone. destruct (Z.eqb_spec off 0) as [->|]; [done|].
  assert (Z.quot off 60 * 60 = off) as Hq by (Z.to_euclidean_division_equations; lia).
  set (z := Z.quot off 60) in *.
  assert (0 ≤ Z.abs z / 60 < 24 ∧ 0 ≤ Z.abs z mod 60 < 60 ∧
          Z.abs z = 60 * (Z.abs z / 60) + Z.abs z mod 60) as (H1 & H2 & H3).
  { Z.to_euclidean_division_equations. lia. }
  set (hh := Z.abs z / 60) in *. set (mm := Z.abs z mod 60) in *.
  assert (parse_uint 2 0 23 (digits 2 hh +:+ ":" +:+ digits 2 mm)
            = Some (hh, ":" +:+ digits 2 mm)) as E1.
  { apply parse_uint_digits; [change (10 ^ Z.of_nat 2) with 100|]; lia. }
  assert (parse_uint 2 0 59 (digits 2 mm +:+ "") = Some (mm, "")) as E2.
  { apply parse_uint_digits; [change (10 ^ Z.of_nat 2) with 100|]; lia. }
  rewrite append_nil_r in E2.
  destruct (Z.ltb_spec z 0); rewrite append_cons, append_nil_l; cbn -[parse_uint digits];
    rewrite E1; cbn -[parse_uint digits]; rewrite append_cons, append_nil_l; cbn -[parse_uint digits];
    rewrite E2; cbn; f_equal; lia.
Qed.

Lemma format_year_digits y : 0 ≤ y ≤ 9999 → format_year y = digits 4 y.
Proof.
  intros H. unfold format_year.
  by rewrite (proj2 (Z.leb_le 0 y)), (proj2 (Z.leb_le y 9999)) by lia.
Qed.

Definition time_wf (t : Time) : Prop :=
  0 ≤ t_nsec t < 1000000000 ∧ t_off t mod 60 = 0 ∧ time_marshalable t = true.

Lemma parse_format_RFC3339 t : time_wf t → parse_RFC3339 (format_RFC3339Nano t) = Some t.
Proof.
  intros (Hns & Hoff & Hm). unfold time_marshalable, year_of in Hm.
  bool_to_prop. unfold format_RFC3339Nano.
  destruct (civil_from_days _) as [[y mo] d] eqn:Hc. cbn [fst snd] in *.
  pose proof (civil_from_days_valid _ _ _ _ Hc) as [Hmo Hd].
  apply days_from_civil_from_days in Hc.
  assert (days_in mo y ≤ 31) by (unfold days_in; repeat case_match; lia).
  set (local := t_sec t + t_off t) in *. set (sod := local mod 86400).
  assert (0 ≤ sod < 86400) as Hsod by (apply Z.mod_pos_bound; lia).
  assert (0 ≤ sod / 3600 < 24 ∧ 0 ≤ sod / 60 mod 60 < 60 ∧ 0 ≤ sod mod 60 < 60 ∧
          sod = sod / 3600 * 3600 + sod / 60 mod 60 * 60 + sod mod 60) as (Hh & Hmi & Hs & Hsum).
  { clearbody sod. Z.to_euclidean_division_equations. lia. }
  rewrite format_year_digits by lia. unfold parse_RFC3339.
  repeat (first
    [ rewrite parse_uint_digits by (first [change (10 ^ Z.of_nat 4) with 10000
                                           |change (10 ^ Z.of_nat 2) with 100]; lia)
    | rewrite append_cons, append_nil_l, parse_char_hit ]; cbn [mbind option_bind]).
  rewrite parse_fraction_format;
    [|done|apply format_zone_starts|intros c r; apply format_zone_not_dot].
  rewrite parse_zone_format by lia. cbn [mbind option_bind].
  rewrite Hc. destruct t as [ts tn to]; cbn [t_sec t_nsec t_off] in *.
  do 2 f_equal. pose proof (Z.div_mod local 86400 ltac:(lia)). fold sod in H3. subst local. lia.
Qed.
