(* ===== verification/GoJson.v ===== *)
(** * JSON as the Go library writes and reads it ([encoding/json])

    Commit messages and advertisements carry a JSON object.  This file models
    what the code uses of [encoding/json]: escaping of strings (with the HTML
    escapes and the replacement of invalid UTF-8 of [json.Marshal]), the
    scanner and parser, unquoting of string literals, and decoding of strings,
    integers and instants into struct fields.

    Parsing is by recursive descent with a fuel bounded by the length of the
    text: every recursive call follows the consumption of a character. *)

From Stdlib Require Import ZArith Lia String Ascii.
From stdpp Require Import gmap strings list sorting pretty.
From S2P Require Import Prelude GoTime.

Open Scope Z_scope.

(** ** Bytes and UTF-8 *)

Definition byte (c : ascii) : Z := Z.of_N (N_of_ascii c).
Definition in_range (lo hi : Z) (c : ascii) : bool := (lo <=? byte c) && (byte c <=? hi).
Definition is_cont (c : ascii) : bool := in_range 128 191 c.
Definition char (n : Z) : ascii := ascii_of_N (Z.to_N n).

Definition quote : ascii := "034"%char.
Definition backslash : ascii := "\"%char.

(** The number of bytes of the well-formed encoded rune at the head of a
    string that does not start with an ASCII character; 0 when the encoding is
    invalid ([utf8.DecodeRuneInString] returning [RuneError] with size 1). *)
Definition utf8_len (s : string) : nat :=
  match s with
  | String b0 r =>
      if in_range 194 223 b0 then
        match r with
        | String b1 _ => if is_cont b1 then 2%nat else O
        | _ => O
        end
      else if in_range 224 239 b0 then
        let lo := if byte b0 =? 224 then 160 else 128 in
        let hi := if byte b0 =? 237 then 159 else 191 in
        match r with
        | String b1 (String b2 _) => if in_range lo hi b1 && is_cont b2 then 3%nat else O
        | _ => O
        end
      else if in_range 240 244 b0 then
        let lo := if byte b0 =? 240 then 144 else 128 in
        let hi := if byte b0 =? 244 then 143 else 191 in
        match r with
        | String b1 (String b2 (String b3 _)) =>
            if in_range lo hi b1 && is_cont b2 && is_cont b3 then 4%nat else O
        | _ => O
        end
      else O
  | EmptyString => O
  end.

(** [utf8.EncodeRune] *)
Definition encode_rune (r : Z) : string :=
  if r <? 128 then String (char r) ""
  else if r <? 2048 then String (char (192 + r / 64)) (String (char (128 + r mod 64)) "")
  else if r <? 65536 then
    String (char (224 + r / 4096))
      (String (char (128 + r / 64 mod 64)) (String (char (128 + r mod 64)) ""))
  else
    String (char (240 + r / 262144))
      (String (char (128 + r / 4096 mod 64))
        (String (char (128 + r / 64 mod 64)) (String (char (128 + r mod 64)) ""))).

(** [utf8.RuneError], U+FFFD, encoded. *)
Definition rune_error : string := encode_rune 65533.

(** ** Writing strings *)

Definition hex_digit (n : Z) : ascii := if n <? 10 then char (48 + n) else char (87 + n).

(** An ASCII byte as [json.Marshal] writes it (HTML escaping is on). *)
Definition escape_ascii (c : ascii) : string :=
  let n := byte c in
  if (n =? 34) || (n =? 92) then String backslash (String c "")
  else if n =? 8 then "\b"
  else if n =? 12 then "\f"
  else if n =? 10 then "\n"
  else if n =? 13 then "\r"
  else if n =? 9 then "\t"
  else if (n <? 32) || (n =? 60) || (n =? 62) || (n =? 38) then
    "\u00" +:+ String (hex_digit (n / 16)) (String (hex_digit (n mod 16)) "")
  else String c "".

(** U+2028 and U+2029 are escaped although they are valid in JSON. *)
Definition is_line_sep (b0 b1 b2 : ascii) : bool :=
  (byte b0 =? 226) && (byte b1 =? 128) && ((byte b2 =? 168) || (byte b2 =? 169)).

Fixpoint json_escape (s : string) : string :=
  match s with
  | EmptyString => EmptyString
  | String c r =>
      if byte c <? 128 then escape_ascii c +:+ json_escape r
      else
        match utf8_len s, r with
        | 2%nat, String b1 r => String c (String b1 (json_escape r))
        | 3%nat, String b1 (String b2 r) =>
            if is_line_sep c b1 b2
            then "\u202" +:+ String (hex_digit (byte b2 mod 16)) (json_escape r)
            else String c (String b1 (String b2 (json_escape r)))
        | 4%nat, String b1 (String b2 (String b3 r)) =>
            String c (String b1 (String b2 (String b3 (json_escape r))))
        | _, _ => "\ufffd" +:+ json_escape r
        end
  end.

(** A string of well-formed UTF-8. *)
Fixpoint valid_utf8 (s : string) : bool :=
  match s with
  | EmptyString => true
  | String c r =>
      if byte c <? 128 then valid_utf8 r
      else
        match utf8_len s, r with
        | 2%nat, String _ r => valid_utf8 r
        | 3%nat, String _ (String _ r) => valid_utf8 r
        | 4%nat, String _ (String _ (String _ r)) => valid_utf8 r
        | _, _ => false
        end
  end.

(** ** Reading strings *)

Definition hex_val (c : ascii) : option Z :=
  let n := byte c in
  if (48 <=? n) && (n <=? 57) then Some (n - 48)
  else if (97 <=? n) && (n <=? 102) then Some (n - 87)
  else if (65 <=? n) && (n <=? 70) then Some (n - 55)
  else None.

(** [getu4] *)
Definition hex4 (a b c d : ascii) : option Z :=
  match hex_val a, hex_val b, hex_val c, hex_val d with
  | Some x, Some y, Some z, Some w => Some (((x * 16 + y) * 16 + z) * 16 + w)
  | _, _, _, _ => None
  end.

Definition is_surrogate (r : Z) : bool := (55296 <=? r) && (r <? 57344).

(** [utf16.DecodeRune] *)
Definition decode_utf16 (r1 r2 : Z) : option Z :=
  if (55296 <=? r1) && (r1 <? 56320) && (56320 <=? r2) && (r2 <? 57344)
  then Some ((r1 - 55296) * 1024 + (r2 - 56320) + 65536)
  else None.

Definition unescape (e : ascii) : option string :=
  let n := byte e in
  if (n =? 34) || (n =? 92) || (n =? 47) then Some (String e "")
  else if n =? 98 then Some (String (char 8) "")
  else if n =? 102 then Some (String (char 12) "")
  else if n =? 110 then Some (String (char 10) "")
  else if n =? 114 then Some (String (char 13) "")
  else if n =? 116 then Some (String (char 9) "")
  else None.

(** [unquote]: the value of the text between the quotes of a literal. *)
Fixpoint json_unquote (s : string) : option string :=
  match s with
  | EmptyString => Some ""
  | String c r =>
      if byte c =? 92 then
        match r with
        | EmptyString => None
        | String e r =>
            if byte e =? 117 then
              match r with
              | String h1 (String h2 (String h3 (String h4 r))) =>
                  match hex4 h1 h2 h3 h4 with
                  | None => None
                  | Some u =>
                      if is_surrogate u then
                        match r with
                        | String "\"%char (String "u"%char
                            (String g1 (String g2 (String g3 (String g4 r'))))) =>
                            match (match hex4 g1 g2 g3 g4 with
                                   | Some v => decode_utf16 u v
                                   | None => None
                                   end) with
                            | Some dec => (String.append (encode_rune dec)) <$> json_unquote r'
                            | None => (String.append rune_error) <$> json_unquote r
                            end
                        | _ => (String.append rune_error) <$> json_unquote r
                        end
                      else (String.append (encode_rune u)) <$> json_unquote r
                  end
              | _ => None
              end
            else
              match unescape e with
              | Some t => (String.append t) <$> json_unquote r
              | None => None
              end
        end
      else if (byte c =? 34) || (byte c <? 32) then None
      else if byte c <? 128 then (String c) <$> json_unquote r
      else
        match utf8_len s, r with
        | 2%nat, String b1 r => (λ t, String c (String b1 t)) <$> json_unquote r
        | 3%nat, String b1 (String b2 r) =>
            (λ t, String c (String b1 (String b2 t))) <$> json_unquote r
        | 4%nat, String b1 (String b2 (String b3 r)) =>
            (λ t, String c (String b1 (String b2 (String b3 t)))) <$> json_unquote r
        | _, _ => (String.append rune_error) <$> json_unquote r
        end
  end.

(** The scanner on a string literal, after its opening quote: the text up to
    the closing quote and what follows it. *)
Definition is_hex (c : ascii) : bool := match hex_val c with Some _ => true | None => false end.

Definition cons_raw (p : string) (o : option (string * string)) : option (string * string) :=
  match o with Some (raw, r) => Some (p +:+ raw, r) | None => None end.

Fixpoint scan_string (s : string) : option (string * string) :=
  match s with
  | EmptyString => None
  | String c r =>
      if byte c =? 34 then Some ("", r)
      else if byte c =? 92 then
        match r with
        | EmptyString => None
        | String e r =>
            if byte e =? 117 then
              match r with
              | String h1 (String h2 (String h3 (String h4 r))) =>
                  if is_hex h1 && is_hex h2 && is_hex h3 && is_hex h4
                  then cons_raw (String c (String e (String h1 (String h2 (String h3 (String h4 ""))))))
                         (scan_string r)
                  else None
              | _ => None
              end
            else
              match unescape e with
              | Some _ => cons_raw (String c (String e "")) (scan_string r)
              | None => None
              end
        end
      else if byte c <? 32 then None
      else cons_raw (String c "") (scan_string r)
  end.

(** ** Numbers *)

(** The longest prefix of digits, and the rest. *)
Fixpoint span_digits (s : string) : string * string :=
  match s with
  | String c r =>
      if is_digit c then let '(d, r) := span_digits r in (String c d, r) else ("", s)
  | EmptyString => ("", "")
  end.

(** The integer part of a number: [0], or a non-zero digit and more digits. *)
Definition scan_int (s : string) : option (string * string) :=
  match s with
  | String c r =>
      if Ascii.eqb c "0" then Some ("0", r)
      else if is_digit c then let '(d, r) := span_digits r in Some (String c d, r)
      else None
  | EmptyString => None
  end.

Definition scan_frac (s : string) : option (string * string) :=
  match s with
  | String "."%char r =>
      match span_digits r with
      | (EmptyString, _) => None
      | (d, r) => Some ("." +:+ d, r)
      end
  | _ => Some ("", s)
  end.

Definition scan_exp (s : string) : option (string * string) :=
  match s with
  | String e r =>
      if Ascii.eqb e "e" || Ascii.eqb e "E" then
        let '(sign, r) :=
          match r with
          | String "+"%char r => ("+", r)
          | String "-"%char r => ("-", r)
          | _ => ("", r)
          end in
        match span_digits r with
        | (EmptyString, _) => None
        | (d, r) => Some (String e (sign +:+ d), r)
        end
      else Some ("", s)
  | EmptyString => Some ("", s)
  end.

Definition scan_number (s : string) : option (string * string) :=
  let '(sign, s) := match s with String "-"%char r => ("-", r) | _ => ("", s) end in
  '(i, s) ← scan_int s;
  '(f, s) ← scan_frac s;
  '(e, s) ← scan_exp s;
  Some (sign +:+ i +:+ f +:+ e, s).

(** [strconv.ParseInt(s, 10, 64)] on a JSON number, before the range check: a
    fraction or an exponent is an error. *)
Fixpoint parse_dec (acc : Z) (s : string) : option Z :=
  match s with
  | EmptyString => Some acc
  | String c r =>
      match digit_val c with
      | Some d => parse_dec (acc * 10 + d) r
      | None => None
      end
  end.

Definition parse_int (s : string) : option Z :=
  match s with
  | EmptyString => None
  | String c r =>
      if Ascii.eqb c "-" then Z.opp <$> parse_dec 0 r else parse_dec 0 s
  end.

(** ** Values *)

(** A parsed value; string literals and keys are kept as written. *)
Inductive json :=
| JNull
| JBool (b : bool)
| JNum (lit : string)
| JStr (raw : string)
| JArr (l : list json)
| JObj (l : list (string * json)).

Fixpoint skip_ws (s : string) : string :=
  match s with
  | String c r =>
      let n := byte c in
      if (n =? 32) || (n =? 9) || (n =? 10) || (n =? 13) then skip_ws r else s
  | EmptyString => s
  end.

(** [lit] is the next text of [s]; the rest of it. *)
Fixpoint expect (lit s : string) : option string :=
  match lit, s with
  | EmptyString, _ => Some s
  | String c lit, String d s => if Ascii.eqb c d then expect lit s else None
  | String _ _, EmptyString => None
  end.

Fixpoint parse_value (fuel : nat) (s : string) : option (json * string) :=
  match fuel with
  | O => None
  | S fuel =>
      match skip_ws s with
      | String c r =>
          let n := byte c in
          if n =? 123 then
            match skip_ws r with
            | String "}"%char r => Some (JObj [], r)
            | _ => match parse_members fuel r with
                   | Some (l, r) => Some (JObj l, r)
                   | None => None
                   end
            end
          else if n =? 91 then
            match skip_ws r with
            | String "]"%char r => Some (JArr [], r)
            | _ => match parse_elements fuel r with
                   | Some (l, r) => Some (JArr l, r)
                   | None => None
                   end
            end
          else if n =? 34 then
            match scan_string r with
            | Some (raw, r) => Some (JStr raw, r)
            | None => None
            end
          else if n =? 116 then (λ r, (JBool true, r)) <$> expect "rue" r
          else if n =? 102 then (λ r, (JBool false, r)) <$> expect "alse" r
          else if n =? 110 then (λ r, (JNull, r)) <$> expect "ull" r
          else
            match scan_number (String c r) with
            | Some (lit, r) => Some (JNum lit, r)
            | None => None
            end
      | EmptyString => None
      end
  end
with parse_members (fuel : nat) (s : string) : option (list (string * json) * string) :=
  match fuel with
  | O => None
  | S fuel =>
      match skip_ws s with
      | String c r =>
          if byte c =? 34 then
            match scan_string r with
            | Some (k, r) =>
                match skip_ws r with
                | String ":"%char r =>
                    match parse_value fuel r with
                    | Some (v, r) =>
                        match skip_ws r with
                        | String ","%char r =>
                            match parse_members fuel r with
                            | Some (l, r) => Some ((k, v) :: l, r)
                            | None => None
                            end
                        | String "}"%char r => Some ([(k, v)], r)
                        | _ => None
                        end
                    | None => None
                    end
                | _ => None
                end
            | None => None
            end
          else None
      | EmptyString => None
      end
  end
with parse_elements (fuel : nat) (s : string) : option (list json * string) :=
  match fuel with
  | O => None
  | S fuel =>
      match parse_value fuel s with
      | Some (v, r) =>
          match skip_ws r with
          | String ","%char r =>
              match parse_elements fuel r with
              | Some (l, r) => Some (v :: l, r)
              | None => None
              end
          | String "]"%char r => Some ([v], r)
          | _ => None
          end
      | None => None
      end
  end.

Definition parse_json (s : string) : option json :=
  match parse_value (S (String.length s)) s with
  | Some (j, r) => match skip_ws r with EmptyString => Some j | _ => None end
  | None => None
  end.

(** The compact text of a value, as [json.Marshal] lays it out. *)
Fixpoint print_sep (l : list string) : string :=
  match l with
  | [] => ""
  | [s] => s
  | s :: l => s +:+ "," +:+ print_sep l
  end.

Definition print_member (k v : string) : string :=
  String quote (k +:+ String quote (":" +:+ v)).

Fixpoint print_json (j : json) : string :=
  match j with
  | JNull => "null"
  | JBool true => "true"
  | JBool false => "false"
  | JNum lit => lit
  | JStr raw => String quote (raw +:+ String quote "")
  | JArr l => "[" +:+ print_sep (map print_json l) +:+ "]"
  | JObj l => "{" +:+ print_sep (map (λ kv, print_member kv.1 (print_json kv.2)) l) +:+ "}"
  end.

(** ** Decoding into struct fields

    [None] is an error of [json.Unmarshal]; [null] leaves the field as it
    is. *)

Definition dec_string (old : string) (j : json) : option string :=
  match j with
  | JNull => Some old
  | JStr raw => json_unquote raw
  | _ => None
  end.

Definition dec_int (lo hi : Z) (old : Z) (j : json) : option Z :=
  match j with
  | JNull => Some old
  | JNum lit =>
      match parse_int lit with
      | Some z => if (lo <=? z) && (z <=? hi) then Some z else None
      | None => None
      end
  | _ => None
  end.

(** [Time.UnmarshalJSON] sees the literal as written. *)
Definition dec_time (old : Time) (j : json) : option Time :=
  match j with
  | JNull => Some old
  | JStr raw => parse_RFC3339 raw
  | _ => None
  end.

(** [foldName]: field names match up to case, with the two letters outside
    ASCII that fold to an ASCII one (U+017F and U+212A). *)
Fixpoint fold_name (s : string) : string :=
  match s with
  | EmptyString => EmptyString
  | String c r =>
      if byte c =? 197 then
        match r with
        | String b r' => if byte b =? 191 then String "s" (fold_name r') else String c (fold_name r)
        | EmptyString => String c EmptyString
        end
      else if byte c =? 226 then
        match r with
        | String b1 (String b2 r') =>
            if (byte b1 =? 132) && (byte b2 =? 170) then String "k" (fold_name r')
            else String c (fold_name r)
        | _ => String c (fold_name r)
        end
      else String (lower_char c) (fold_name r)
  end.

(** A struct is decoded member by member, in the order of the text; unknown
    members are skipped, a repeated member overwrites. *)
Fixpoint dec_struct {A} (field : string → option (A → json → option A))
    (l : list (string * json)) (a : A) : option A :=
  match l with
  | [] => Some a
  | (k, v) :: l =>
      match json_unquote k with
      | None => None
      | Some k =>
          match field (fold_name k) with
          | None => dec_struct field l a
          | Some f =>
              match f a v with
              | Some a => dec_struct field l a
              | None => None
              end
          end
      end
  end.
