(* ===== verification/GoJsonFacts.v ===== *)
(** * Round trips of the JSON model

    Escaping then unquoting a well-formed UTF-8 string gives it back; an
    escaped string is scanned as one literal; a decimal integer is scanned and
    parsed back; the compact text of a value parses to the value. *)

From Stdlib Require Import ZArith Lia String Ascii.
From stdpp Require Import gmap strings list sorting pretty.
From S2P Require Import Prelude GoTime GoJson.

Open Scope Z_scope.

(** ** Strings *)

Lemma byte_inj c d : byte c = byte d → c = d.
Proof.
  unfold byte. intros H. apply N2Z.inj in H.
  by rewrite <-(ascii_N_embedding c), <-(ascii_N_embedding d), H.
Qed.

(** One escaped ASCII character is read back; checked for each of the 128. *)
Lemma unquote_escape_ascii c t :
  byte c < 128 → json_unquote (escape_ascii c +:+ t) = (String c) <$> json_unquote t.
Proof.
  destruct c as [[] [] [] [] [] [] [] []]; intros H; try (vm_compute in H; discriminate H);
    clear H; reflexivity.
Qed.

Lemma scan_escape_ascii c t :
  byte c < 128 → scan_string (escape_ascii c +:+ t) = cons_raw (escape_ascii c) (scan_string t).
Proof.
  destruct c as [[] [] [] [] [] [] [] []]; intros H; try (vm_compute in H; discriminate H);
    clear H; reflexivity.
Qed.

(** Induction along the runes of a well-formed string. *)
Lemma utf8_len_stable2 c b1 r r' :
  utf8_len (String c (String b1 r)) = 2%nat →
  utf8_len (String c (String b1 r')) = 2%nat ∧ 128 ≤ byte b1.
Proof.
  unfold utf8_len, is_cont, in_range. intros H.
  repeat case_match; bool_to_prop; try done; split_and!; lia.
Qed.

Lemma utf8_len_stable3 c b1 b2 r r' :
  utf8_len (String c (String b1 (String b2 r))) = 3%nat →
  utf8_len (String c (String b1 (String b2 r'))) = 3%nat ∧ 128 ≤ byte b1 ∧ 128 ≤ byte b2.
Proof.
  unfold utf8_len, is_cont, in_range. intros H.
  repeat case_match; bool_to_prop; try done; split_and!; lia.
Qed.

Lemma utf8_len_stable4 c b1 b2 b3 r r' :
  utf8_len (String c (String b1 (String b2 (String b3 r)))) = 4%nat →
  utf8_len (String c (String b1 (String b2 (String b3 r')))) = 4%nat ∧
  128 ≤ byte b1 ∧ 128 ≤ byte b2 ∧ 128 ≤ byte b3.
Proof.
  unfold utf8_len, is_cont, in_range. intros H.
  repeat case_match; bool_to_prop; try done; split_and!; lia.
Qed.

Lemma utf8_ind (P : string → Prop) :
  P "" →
  (∀ c r, byte c < 128 → P r → P (String c r)) →
  (∀ c b1 r, 128 ≤ byte c → utf8_len (String c (String b1 r)) = 2%nat →
     P r → P (String c (String b1 r))) →
  (∀ c b1 b2 r, 128 ≤ byte c → utf8_len (String c (String b1 (String b2 r))) = 3%nat →
     P r → P (String c (String b1 (String b2 r)))) →
  (∀ c b1 b2 b3 r, 128 ≤ byte c →
     utf8_len (String c (String b1 (String b2 (String b3 r)))) = 4%nat →
     P r → P (String c (String b1 (String b2 (String b3 r))))) →
  ∀ s, valid_utf8 s = true → P s.
Proof.
  intros H0 H1 H2 H3 H4.
  assert (∀ n s, (String.length s < n)%nat → valid_utf8 s = true → P s) as Hall;
    [|intros s; apply (Hall (S (String.length s))); lia].
  induction n as [|n IH]; intros s Hn Hv; [lia|].
  destruct s as [|c r]; [done|]. cbn [valid_utf8] in Hv. cbn [String.length] in Hn.
  destruct (Z.ltb_spec (byte c) 128); [apply H1; [done..|]; apply IH; [lia|done]|].
  destruct (utf8_len (String c r)) as [|[|[|[|[|]]]]] eqn:E; try done.
  - destruct r as [|b1 r]; [done|]. cbn [String.length] in Hn.
    apply H2; [done..|apply IH; [lia|done]].
  - destruct r as [|b1 [|b2 r]]; try done. cbn [String.length] in Hn.
    apply H3; [done..|apply IH; [lia|done]].
  - destruct r as [|b1 [|b2 [|b3 r]]]; try done. cbn [String.length] in Hn.
    apply H4; [done..|apply IH; [lia|done]].
Qed.

Lemma high_byte c :
  128 ≤ byte c →
  (byte c <? 128) = false ∧ (byte c =? 92) = false ∧ (byte c =? 34) = false ∧
  (byte c <? 32) = false.
Proof. intros H. rewrite !Z.eqb_neq, !Z.ltb_ge. lia. Qed.

(** Rewrites the tests on a byte outside ASCII. *)
Ltac high_byte Hc :=
  let E := fresh in
  pose proof (high_byte _ Hc) as E; destruct_and! E;
  repeat match goal with H : _ = false |- _ => rewrite H end.

Lemma line_sep_bytes c b1 b2 :
  is_line_sep c b1 b2 = true →
  c = char 226 ∧ b1 = char 128 ∧ (b2 = char 168 ∨ b2 = char 169).
Proof.
  unfold is_line_sep. intros H. bool_to_prop. split_and!; [by apply byte_inj..|].
  destruct H0; bool_to_prop; [left|right]; by apply byte_inj.
Qed.

Lemma json_unquote_escape s : valid_utf8 s = true → json_unquote (json_escape s) = Some s.
Proof.
  revert s. apply utf8_ind.
  - done.
  - intros c r Hc IH. cbn [json_escape]. rewrite (proj2 (Z.ltb_lt _ _) Hc).
    by rewrite unquote_escape_ascii, IH.
  - intros c b1 r Hc Hlen IH. cbn [json_escape]. rewrite Hlen. high_byte Hc.
    cbn [json_unquote]. apply (utf8_len_stable2 _ _ _ (json_escape r)) in Hlen as [-> _].
    high_byte Hc. by rewrite IH.
  - intros c b1 b2 r Hc Hlen IH. cbn [json_escape]. rewrite Hlen. high_byte Hc.
    destruct (is_line_sep c b1 b2) eqn:Esep.
    + apply line_sep_bytes in Esep as (-> & -> & [-> | ->]).
      * change (json_unquote _)
          with ((String.append (encode_rune 8232)) <$> json_unquote (json_escape r)).
        by rewrite IH.
      * change (json_unquote _)
          with ((String.append (encode_rune 8233)) <$> json_unquote (json_escape r)).
        by rewrite IH.
    + cbn [json_unquote]. apply (utf8_len_stable3 _ _ _ _ (json_escape r)) in Hlen as [-> _].
      high_byte Hc. by rewrite IH.
  - intros c b1 b2 b3 r Hc Hlen IH. cbn [json_escape]. rewrite Hlen. high_byte Hc.
    cbn [json_unquote]. apply (utf8_len_stable4 _ _ _ _ _ (json_escape r)) in Hlen as [-> _].
    high_byte Hc. by rewrite IH.
Qed.

Lemma scan_high c t :
  128 ≤ byte c → scan_string (String c t) = cons_raw (String c "") (scan_string t).
Proof. intros Hc. cbn [scan_string]. by high_byte Hc. Qed.

Lemma scan_json_escape s r :
  valid_utf8 s = true →
  scan_string (json_escape s +:+ String quote r) = Some (json_escape s, r).
Proof.
  revert s. apply utf8_ind.
  - done.
  - intros c t Hc IH. cbn [json_escape]. rewrite (proj2 (Z.ltb_lt _ _) Hc).
    by rewrite <-append_assoc, scan_escape_ascii, IH.
  - intros c b1 t Hc Hlen IH. cbn [json_escape]. rewrite Hlen. high_byte Hc.
    apply (utf8_len_stable2 _ _ _ t) in Hlen as [_ Hb1].
    by rewrite !append_cons, !scan_high, IH.
  - intros c b1 b2 t Hc Hlen IH. cbn [json_escape]. rewrite Hlen. high_byte Hc.
    destruct (is_line_sep c b1 b2) eqn:Esep.
    + apply line_sep_bytes in Esep as (-> & -> & [-> | ->]).
      all: rewrite !append_cons, append_nil_l, append_cons;
        cbn -[String.append json_escape]; by rewrite IH.
    + apply (utf8_len_stable3 _ _ _ _ t) in Hlen as (_ & Hb1 & Hb2).
      by rewrite !append_cons, !scan_high, IH.
  - intros c b1 b2 b3 t Hc Hlen IH. cbn [json_escape]. rewrite Hlen. high_byte Hc.
    apply (utf8_len_stable4 _ _ _ _ _ t) in Hlen as (_ & Hb1 & Hb2 & Hb3).
    by rewrite !append_cons, !scan_high, IH.
Qed.

(** ** Integers *)

Lemma digit_val_pretty_char n : (n < 10)%N → digit_val (pretty_N_char n) = Some (Z.of_N n).
Proof.
  intros H. assert (n = 0 ∨ n = 1 ∨ n = 2 ∨ n = 3 ∨ n = 4 ∨ n = 5 ∨ n = 6 ∨ n = 7 ∨ n = 8 ∨ n = 9)%N
    as Hn by lia.
  repeat destruct Hn as [->|Hn]; [done..|]. by rewrite Hn.
Qed.

(** Reading the decimal digits of [n] in front of [s] accumulates [n]. *)
Lemma parse_dec_pretty_go n s : parse_dec 0 (pretty_N_go n s) = parse_dec (Z.of_N n) s.
Proof.
  revert s. induction (N.lt_wf_0 n) as [n _ IH]. intros s.
  destruct (decide (n = 0)%N) as [->|Hn]; [done|].
  rewrite pretty_N_go_step by lia. rewrite IH by (apply N.div_lt; lia).
  cbn [parse_dec]. rewrite digit_val_pretty_char by (apply N.mod_lt; lia).
  f_equal. rewrite (N.div_mod n 10) at 3 by lia. lia.
Qed.

Lemma parse_dec_pretty (n : N) : parse_dec 0 (pretty n) = Some (Z.of_N n).
Proof.
  unfold pretty, pretty_N. case_decide as H; [by rewrite H|].
  by rewrite parse_dec_pretty_go.
Qed.

Fixpoint all_digits (s : string) : Prop :=
  match s with String c s => is_digit c = true ∧ all_digits s | EmptyString => True end.

(** The text of a positive number: a non-zero digit and more digits. *)
Lemma pretty_go_shape n s :
  (0 < n)%N → ∃ c d, pretty_N_go n s = String c (d +:+ s) ∧
    is_digit c = true ∧ c ≠ "0"%char ∧ all_digits d.
Proof.
  revert s. induction (N.lt_wf_0 n) as [n _ IH]. intros s Hn.
  rewrite pretty_N_go_step by lia.
  assert (is_digit (pretty_N_char (n mod 10)) = true) as Hd.
  { unfold is_digit. by rewrite digit_val_pretty_char by (apply N.mod_lt; lia). }
  destruct (decide (n < 10)%N) as [Hlt|Hge].
  - rewrite N.div_small, pretty_N_go_0, N.mod_small in * by lia.
    exists (pretty_N_char n), "". split_and!; [done|done| |done].
    intros E. apply (f_equal digit_val) in E.
    rewrite digit_val_pretty_char in E by lia. injection E. lia.
  - destruct (IH (n / 10)%N) with (s := String (pretty_N_char (n mod 10)) s)
      as (c & d & -> & Hc & Hc0 & Hds); [apply N.div_lt; lia|apply N.div_str_pos; lia|].
    exists c, (d +:+ String (pretty_N_char (n mod 10)) "").
    rewrite <-append_assoc. split_and!; [done..|].
    clear -Hd Hds. induction d as [|x d IHd]; [done|]. rewrite append_cons. naive_solver.
Qed.

(** What may follow a number. *)
Definition delim (r : string) : Prop :=
  match r with
  | EmptyString => True
  | String c _ => c = ","%char ∨ c = "}"%char ∨ c = "]"%char
  end.

Lemma span_digits_app d r : all_digits d → delim r → span_digits (d +:+ r) = (d, r).
Proof.
  induction d as [|c d IH]; intros Hd Hr.
  - rewrite append_nil_l. destruct r as [|c r]; [done|]. by destruct Hr as [->|[->| ->]].
  - destruct Hd as [Hc Hd]. rewrite append_cons. cbn [span_digits].
    by rewrite Hc, IH.
Qed.

Lemma scan_tail r :
  delim r → ('(f, s) ← scan_frac r; '(e, s) ← scan_exp s; Some (f +:+ e, s)) = Some ("", r).
Proof. destruct r as [|c r]; [done|]. by intros [->|[->| ->]]. Qed.

Lemma scan_int_pretty (n : N) r : delim r → scan_int (pretty n +:+ r) = Some (pretty n, r).
Proof.
  intros Hr. unfold pretty, pretty_N. case_decide as Hn; [done|].
  destruct (pretty_go_shape n "") as (c & d & -> & Hc & Hc0 & Hd); [lia|].
  rewrite append_nil_r, append_cons. cbn [scan_int].
  rewrite (proj2 (Ascii.eqb_neq c "0") Hc0), Hc, span_digits_app; done.
Qed.

Lemma scan_number_int sign s i r :
  (sign = "" ∧ (∀ t, s ≠ String "-" t) ∨ sign = "-") → scan_int s = Some (i, r) → delim r →
  scan_number (sign +:+ s) = Some (sign +:+ i, r).
Proof.
  intros Hsign Hi Hr. unfold scan_number.
  assert ((match sign +:+ s with String "-"%char r0 => ("-", r0) | _ => ("", sign +:+ s) end)
          = (sign, s)) as ->.
  { destruct Hsign as [[-> Hs]| ->]; [|done].
    rewrite append_nil_l. destruct s as [|c s]; [done|].
    repeat case_match; simplify_eq; try done; by destruct (Hs s). }
  rewrite Hi. cbn [mbind option_bind].
  pose proof (scan_tail r Hr) as Ht.
  destruct (scan_frac r) as [[f s1]|]; [|done]. cbn [mbind option_bind] in *.
  destruct (scan_exp s1) as [[e s2]|]; [|done]. cbn [mbind option_bind] in *.
  injection Ht as Hfe ->. by rewrite Hfe, append_nil_r.
Qed.

Lemma pretty_N_head (n : N) r t : pretty n +:+ r ≠ String "-"%char t.
Proof.
  unfold pretty, pretty_N. case_decide; [done|].
  destruct (pretty_go_shape n "") as (c & d & -> & Hc & _ & _); [lia|].
  rewrite append_cons. intros [= -> _]. done.
Qed.

Lemma scan_number_pretty (z : Z) r : delim r → scan_number (pretty z +:+ r) = Some (pretty z, r).
Proof.
  intros Hr. destruct z as [|p|p]; cbn [pretty pretty_Z].
  - apply (scan_number_int "" ("0" +:+ r) "0"); [left; split; done| |done]. by apply (scan_int_pretty 0).
  - change (pretty p) with (pretty (N.pos p)).
    pose proof (scan_number_int "" (pretty (N.pos p) +:+ r) (pretty (N.pos p)) r) as H.
    rewrite !append_nil_l in H. apply H; [|by apply scan_int_pretty|done].
    left. split; [done|]. intros t. apply pretty_N_head.
  - change (pretty p) with (pretty (N.pos p)). rewrite <-append_assoc.
    apply scan_number_int; [by right|by apply scan_int_pretty|done].
Qed.

Lemma parse_int_pretty (z : Z) : parse_int (pretty z) = Some z.
Proof.
  destruct z as [|p|p]; cbn [pretty pretty_Z].
  - done.
  - change (pretty p) with (pretty (N.pos p)).
    pose proof (parse_dec_pretty (N.pos p)) as H.
    pose proof (pretty_N_head (N.pos p) "") as Hd. rewrite append_nil_r in Hd.
    destruct (pretty (N.pos p)) as [|c s] eqn:E; [done|]. unfold parse_int.
    destruct (Ascii.eqb_spec c "-") as [->|]; [by destruct (Hd s)|done].
  - change (pretty p) with (pretty (N.pos p)). rewrite append_cons, append_nil_l. cbn.
    by rewrite parse_dec_pretty.
Qed.

(** ** Values *)

Lemma length_cons c s : String.length (String c s) = S (String.length s).
Proof. done. Qed.

Definition all_of {A} (P : A → Prop) : list A → Prop :=
  fix go l := match l with [] => True | x :: l => P x ∧ go l end.

Definition sum_of {A} (f : A → nat) : list A → nat :=
  fix go l := match l with [] => O | x :: l => (f x + go l)%nat end.

(** Texts that stand for themselves inside a printed value. *)
Definition raw_ok (raw : string) : Prop :=
  ∀ r, scan_string (raw +:+ String quote r) = Some (raw, r).

Definition num_ok (lit : string) : Prop :=
  (∃ c s, lit = String c s ∧ (is_digit c = true ∨ c = "-"%char)) ∧
  ∀ r, delim r → scan_number (lit +:+ r) = Some (lit, r).

(** The values that the code prints: it has no arrays. *)
Fixpoint wf_json (j : json) : Prop :=
  match j with
  | JNull | JBool _ => True
  | JNum lit => num_ok lit
  | JStr raw => raw_ok raw
  | JArr _ => False
  | JObj l => all_of (λ kv, raw_ok kv.1 ∧ wf_json kv.2) l
  end.

(** A bound on the depth of the calls of the parser. *)
Fixpoint json_size (j : json) : nat :=
  match j with
  | JObj l => S (sum_of (λ kv, S (json_size kv.2)) l)
  | _ => 1%nat
  end.

Lemma json_ind' (P : json → Prop) :
  P JNull → (∀ b, P (JBool b)) → (∀ lit, P (JNum lit)) → (∀ raw, P (JStr raw)) →
  (∀ l, all_of P l → P (JArr l)) → (∀ l, all_of (λ kv, P kv.2) l → P (JObj l)) →
  ∀ j, P j.
Proof.
  intros Hnull Hbool Hnum Hstr Harr Hobj. fix IH 1. intros [| | | |l|l];
    [apply Hnull|apply Hbool|apply Hnum|apply Hstr| |].
  - apply Harr. induction l as [|j l IHl]; [done|]. exact (conj (IH j) IHl).
  - apply Hobj. induction l as [|[k v] l IHl]; [done|]. exact (conj (IH v) IHl).
Qed.

Lemma print_sep_cons s l : l ≠ [] → print_sep (s :: l) = s +:+ "," +:+ print_sep l.
Proof. by destruct l. Qed.

Definition parses (fuel : nat) (j : json) : Prop :=
  ∀ r, delim r → parse_value fuel (print_json j +:+ r) = Some (j, r).

Lemma byte_quote : byte quote = 34.
Proof. done. Qed.

(** Steps over a punctuation character that the parser expects. *)
Ltac step_punct :=
  rewrite ?append_cons, ?append_nil_l;
  repeat match goal with
  | |- context [skip_ws (String ?c ?s)] =>
      change (skip_ws (String c s)) with (String c s)
  end; cbv beta iota.

Lemma parse_members_print fuel l r :
  l ≠ [] → all_of (λ kv, raw_ok kv.1 ∧
                     ∀ n, (json_size kv.2 ≤ n)%nat → parses n kv.2) l →
  (sum_of (λ kv, S (json_size kv.2)) l ≤ fuel)%nat →
  parse_members fuel (print_sep (map (λ kv, print_member kv.1 (print_json kv.2)) l) +:+ "}" +:+ r)
    = Some (l, r).
Proof.
  revert fuel. induction l as [|[k v] l IH]; intros fuel Hl Hall Hfuel; [done|].
  destruct Hall as [[Hk Hv] Hall]; cbn [fst snd sum_of] in *.
  destruct fuel as [|fuel]; [lia|]. cbn [map fst snd].
  destruct (decide (l = [])) as [->|Hne].
  - cbn [map print_sep]. unfold print_member.
    rewrite append_cons, <-append_assoc, append_cons, <-append_assoc. cbn [parse_members].
    step_punct. rewrite byte_quote, Z.eqb_refl, Hk. step_punct.
    rewrite Hv; [|lia|by right; left]. by step_punct.
  - rewrite print_sep_cons by (by destruct l). unfold print_member at 1.
    rewrite append_cons, <-append_assoc, append_cons, <-!append_assoc. cbn [parse_members].
    step_punct. rewrite byte_quote, Z.eqb_refl, Hk. step_punct.
    rewrite Hv; [|lia|by left]. step_punct.
    pose proof (IH fuel Hne Hall ltac:(lia)) as IHf.
    rewrite append_cons, append_nil_l in IHf. by rewrite IHf.
Qed.

Lemma number_head lit r :
  num_ok lit → ∃ c s, lit +:+ r = String c s ∧ skip_ws (String c s) = String c s ∧
    (byte c =? 123) = false ∧ (byte c =? 91) = false ∧ (byte c =? 34) = false ∧
    (byte c =? 116) = false ∧ (byte c =? 102) = false ∧ (byte c =? 110) = false.
Proof.
  intros [(c & s & -> & Hc) _]. exists c, (s +:+ r). split; [done|].
  assert (45 ≤ byte c ≤ 57) as Hb.
  { destruct Hc as [Hc| ->]; [|done]. unfold is_digit, digit_val, byte in *.
    case_match eqn:E; [|done]. case_match eqn:E2; [|done]. bool_to_prop. lia. }
  cbn [skip_ws]. rewrite !(proj2 (Z.eqb_neq _ _)) by lia. done.
Qed.

Lemma head_quote_members l :
  l ≠ [] → ∃ s, ∀ r, print_sep (map (λ kv, print_member kv.1 (print_json kv.2)) l) +:+ r
    = String quote (s +:+ r).
Proof.
  destruct l as [|[k v] l]; [done|]. intros _. cbn [map fst snd]. unfold print_member at 1.
  destruct (map _ l) as [|x l'] eqn:E.
  - cbn [print_sep]. by eexists.
  - rewrite print_sep_cons by done. eexists. intros r. by rewrite append_cons.
Qed.

Lemma parse_value_print j : wf_json j → ∀ n, (json_size j ≤ n)%nat → parses n j.
Proof.
  revert j. apply (json_ind' (λ j, wf_json j → ∀ n, (json_size j ≤ n)%nat → parses n j)).
  - intros _ [|n] Hn r Hr; [simpl in Hn; lia|]. done.
  - intros [] _ [|n] Hn r Hr; (simpl in Hn; lia) || done.
  - intros lit Hlit [|n] Hn r Hr; [simpl in Hn; lia|]. cbn [print_json].
    destruct (number_head lit r Hlit) as (c & s & E & Hws & E1 & E2 & E3 & E4 & E5 & E6).
    destruct Hlit as [_ Hscan]. specialize (Hscan r Hr). rewrite E in *.
    cbn [parse_value]. by rewrite Hws, E1, E2, E3, E4, E5, E6, Hscan.
  - intros raw Hraw [|n] Hn r Hr; [simpl in Hn; lia|]. cbn [print_json].
    rewrite append_cons, <-append_assoc, append_cons, append_nil_l. cbn [parse_value].
    step_punct. by rewrite byte_quote, Hraw.
  - intros l _ [].
  - intros l IHl Hl [|n] Hn r Hr; [simpl in Hn; lia|].
    destruct (decide (l = [])) as [->|Hne]; [done|].
    cbn [print_json json_size] in *. rewrite <-!append_assoc.
    destruct (head_quote_members l Hne) as [s Hs].
    assert (all_of (λ kv, raw_ok kv.1 ∧
              ∀ n, (json_size kv.2 ≤ n)%nat → parses n kv.2) l) as Hall.
    { clear -IHl Hl. induction l as [|[k v] l IH]; [done|]. simpl in *. naive_solver. }
    pose proof (parse_members_print n l r Hne Hall ltac:(lia)) as Hp.
    rewrite Hs in *. cbn [parse_value]. step_punct. rewrite append_cons, append_nil_l in Hp.
    change (byte "{" =? 123) with true. cbv iota. by rewrite Hp.
Qed.

Lemma print_size j : wf_json j → (json_size j ≤ String.length (print_json j))%nat.
Proof.
  revert j. apply (json_ind' (λ j, wf_json j → (json_size j ≤ String.length (print_json j))%nat)).
  - cbn. lia.
  - intros []; cbn; lia.
  - intros lit [(c & s & -> & _) _]. cbn. lia.
  - intros raw _. cbn. lia.
  - done.
  - intros l IHl Hl. cbn [print_json json_size].
    assert (sum_of (λ kv, S (json_size kv.2)) l
      ≤ String.length (print_sep (map (λ kv, print_member kv.1 (print_json kv.2)) l)))%nat as Hs;
      [|rewrite append_cons, append_nil_l; cbn; rewrite length_append; lia].
    clear -IHl Hl. induction l as [|[k v] l IH]; [cbn; lia|].
    destruct IHl as [Hv IHl], Hl as [[_ Hwf] Hl]. cbn [fst snd sum_of map] in *.
    specialize (Hv Hwf). specialize (IH IHl Hl).
    destruct (decide (l = [])) as [->|Hne].
    + cbn [map print_sep sum_of]. unfold print_member.
      rewrite length_cons, length_append, length_cons, length_append. lia.
    + rewrite print_sep_cons by (by destruct l). unfold print_member at 1.
      rewrite !length_append, length_cons, length_append, length_cons, length_append. lia.
Qed.

Lemma parse_print_json j : wf_json j → parse_json (print_json j) = Some j.
Proof.
  intros Hj. unfold parse_json.
  pose proof (parse_value_print j Hj (S (String.length (print_json j)))) as Hp.
  specialize (Hp ltac:(pose proof (print_size j Hj); lia) "" I).
  rewrite append_nil_r in Hp. by rewrite Hp.
Qed.

(** The leaves that the code writes are well formed. *)
Lemma raw_ok_escape s : valid_utf8 s = true → raw_ok (json_escape s).
Proof. intros Hs r. by apply scan_json_escape. Qed.

Lemma num_ok_pretty (z : Z) : num_ok (pretty z).
Proof.
  split; [|by intros; apply scan_number_pretty].
  destruct z as [|p|p].
  - exists "0"%char, "". split; [done|by left].
  - destruct (pretty_go_shape (N.pos p) "") as (c & d & E & Hc & _); [lia|].
    exists c, (d +:+ ""). split; [by rewrite <-E|by left].
  - exists "-"%char, (pretty (N.pos p)). split; [done|by right].
Qed.
