(* ===== verification/Metadata.v ===== *)
(** * Commit metadata and gossip payloads
    ([protocol/metadata.go], [messages.go], [repo_id.go], [signer.go])

    A user commit carries its metadata as a JSON object in the commit message;
    the signature covers every field but itself. *)

From Stdlib Require Import ZArith Lia String Ascii.
From stdpp Require Import gmap strings list sorting pretty.
From S2P Require Import Prelude Hlc GoTime GoJson GoJsonFacts.

Open Scope Z_scope.

(** ** Data *)

Definition CommitKindUser : string := "user".

Record CommitMetadata := mkMeta {
  Kind : string;
  Message : string;
  meta_HLC : HLCTimestamp;
  ContentHash : string;
  Author : string;
  Email : string;
  Date : Time;
  Signature : string;
}.

Record CommitMetadataForSigning := mkMetaForSigning {
  fs_Kind : string;
  fs_Message : string;
  fs_HLC : HLCTimestamp;
  fs_ContentHash : string;
  fs_Author : string;
  fs_Email : string;
  fs_Date : Time;
}.

#[export] Instance CommitMetadata_eq_dec : EqDecision CommitMetadata.
Proof. solve_decision. Defined.

Record RepoID := mkRepo { Org : string; RepoName : string }.

#[export] Instance RepoID_eq_dec : EqDecision RepoID.
Proof. solve_decision. Defined.

#[export] Instance RepoID_countable : Countable RepoID.
Proof.
  refine (inj_countable' (λ r, (Org r, RepoName r)) (λ p, mkRepo p.1 p.2) _).
  by intros [].
Defined.

Definition repo_IsZero (r : RepoID) : bool := String.eqb (Org r) "" && String.eqb (RepoName r) "".
Definition repo_Equal (r other : RepoID) : bool :=
  String.eqb (Org r) (Org other) && String.eqb (RepoName r) (RepoName other).

Record CommitAdV1 := mkAd {
  ad_Repo : RepoID;
  ad_HLC : HLCTimestamp;
  MetadataJSON : string;
  MetadataSig : string;
  ObservedAt : Time;
}.

Record HeartbeatV1 := mkHeartbeat {
  hb_Repo : RepoID;
  hb_HLC : HLCTimestamp;
  hb_PeerID : string;
}.

(** The interface [Signer]; its implementations are outside this package. *)
Record Signer := mkSigner {
  Sign : string → result string;
  Verify : string → string → string → result unit;
  PublicKey : string;
  GetID : string;
}.

(** ** Operations *)

Definition NewCommitMetadata (msg : string) (hlc : HLCTimestamp)
    (contentHash author email : string) (date : Time) : CommitMetadata :=
  mkMeta CommitKindUser msg hlc contentHash author email date "".

(** The member of a string field, left out when [omitempty] applies. *)
Definition str_member (k v : string) : list (string * json) := [(k, JStr (json_escape v))].
Definition omit_empty (k v : string) : list (string * json) :=
  if String.eqb v "" then [] else str_member k v.

Definition hlc_json (h : HLCTimestamp) : json :=
  JObj [("w", JNum (pretty (Wall h))); ("l", JNum (pretty (Logical h)));
        ("p", JStr (json_escape (PeerID h)))].

(** [omitempty] has no effect on the struct fields [hlc] and [date]. *)
Definition signing_members (m : CommitMetadataForSigning) : list (string * json) :=
  str_member "kind" (fs_Kind m) ++ str_member "msg" (fs_Message m) ++
  [("hlc", hlc_json (fs_HLC m))] ++
  omit_empty "content_hash" (fs_ContentHash m) ++ omit_empty "author" (fs_Author m) ++
  omit_empty "email" (fs_Email m) ++ [("date", JStr (format_RFC3339Nano (fs_Date m)))].

Definition for_signing (m : CommitMetadata) : CommitMetadataForSigning :=
  mkMetaForSigning (Kind m) (Message m) (meta_HLC m) (ContentHash m) (Author m) (Email m) (Date m).

Definition marshal_error : string :=
  "json: error calling MarshalJSON for type time.Time: Time.MarshalJSON: year or zone out of range".

Definition json_Marshal (date : Time) (members : list (string * json)) : result string :=
  if time_marshalable date then Ok (print_json (JObj members)) else Err marshal_error.

Definition SignableData (m : CommitMetadata) : result string :=
  let forSigning := for_signing m in
  json_Marshal (fs_Date forSigning) (signing_members forSigning).

Definition with_Signature (m : CommitMetadata) (sig : string) : CommitMetadata :=
  mkMeta (Kind m) (Message m) (meta_HLC m) (ContentHash m) (Author m) (Email m) (Date m) sig.

(** [m.Sign(signer)]: the metadata with its signature set. *)
Definition meta_Sign (m : CommitMetadata) (signer : Signer) : result CommitMetadata :=
  match SignableData m with
  | Ok data =>
      match Sign signer data with
      | Ok signature => Ok (with_Signature m signature)
      | Err e => Err ("failed to sign: " +:+ e)
      | Panic e => Panic e
      end
  | Err e => Err ("failed to get signable data: " +:+ e)
  | Panic e => Panic e
  end.

Definition meta_Verify (m : CommitMetadata) (signer : Signer) (publicKey : string) : result unit :=
  match SignableData m with
  | Ok data => Verify signer data (Signature m) publicKey
  | Err e => Err ("failed to get signable data: " +:+ e)
  | Panic e => Panic e
  end.

Definition Marshal (m : CommitMetadata) : result string :=
  json_Marshal (Date m)
    (signing_members (for_signing m) ++ omit_empty "sig" (Signature m)).

(** ** Decoding *)

Definition hlc_field (k : string) : option (HLCTimestamp → json → option HLCTimestamp) :=
  if String.eqb k "w" then
    Some (λ h j, (λ w, mkHLC w (Logical h) (PeerID h)) <$> dec_int min_int64 max_int64 (Wall h) j)
  else if String.eqb k "l" then
    Some (λ h j, (λ l, mkHLC (Wall h) l (PeerID h)) <$> dec_int min_int32 max_int32 (Logical h) j)
  else if String.eqb k "p" then
    Some (λ h j, (λ p, mkHLC (Wall h) (Logical h) p) <$> dec_string (PeerID h) j)
  else None.

Definition dec_hlc (old : HLCTimestamp) (j : json) : option HLCTimestamp :=
  match j with
  | JNull => Some old
  | JObj l => dec_struct hlc_field l old
  | _ => None
  end.

Definition meta_field (k : string) : option (CommitMetadata → json → option CommitMetadata) :=
  let set_str (get : CommitMetadata → string) (set : CommitMetadata → string → CommitMetadata) :=
    Some (λ m j, set m <$> dec_string (get m) j) in
  if String.eqb k "kind" then
    set_str Kind (λ m v, mkMeta v (Message m) (meta_HLC m) (ContentHash m) (Author m) (Email m) (Date m) (Signature m))
  else if String.eqb k "msg" then
    set_str Message (λ m v, mkMeta (Kind m) v (meta_HLC m) (ContentHash m) (Author m) (Email m) (Date m) (Signature m))
  else if String.eqb k "hlc" then
    Some (λ m j, (λ h, mkMeta (Kind m) (Message m) h (ContentHash m) (Author m) (Email m) (Date m) (Signature m))
                   <$> dec_hlc (meta_HLC m) j)
  else if String.eqb k "content_hash" then
    set_str ContentHash (λ m v, mkMeta (Kind m) (Message m) (meta_HLC m) v (Author m) (Email m) (Date m) (Signature m))
  else if String.eqb k "author" then
    set_str Author (λ m v, mkMeta (Kind m) (Message m) (meta_HLC m) (ContentHash m) v (Email m) (Date m) (Signature m))
  else if String.eqb k "email" then
    set_str Email (λ m v, mkMeta (Kind m) (Message m) (meta_HLC m) (ContentHash m) (Author m) v (Date m) (Signature m))
  else if String.eqb k "date" then
    Some (λ m j, (λ d, mkMeta (Kind m) (Message m) (meta_HLC m) (ContentHash m) (Author m) (Email m) d (Signature m))
                   <$> dec_time (Date m) j)
  else if String.eqb k "sig" then
    set_str Signature (λ m v, mkMeta (Kind m) (Message m) (meta_HLC m) (ContentHash m) (Author m) (Email m) (Date m) v)
  else None.

(** The zero value of the struct. *)
Definition zero_metadata : CommitMetadata := mkMeta "" "" zero_HLC "" "" "" zero_time "".

Definition json_Unmarshal (s : string) : option CommitMetadata :=
  match parse_json s with
  | Some JNull => Some zero_metadata
  | Some (JObj l) => dec_struct meta_field l zero_metadata
  | _ => None
  end.

Definition ParseCommitMetadata (commitMessage : string) : result CommitMetadata :=
  match json_Unmarshal commitMessage with
  | None => Err "invalid JSON"
  | Some m =>
      if negb (String.eqb (Kind m) CommitKindUser)
      then Err ("invalid metadata: unknown kind " +:+ Kind m)
      else Ok m
  end.

Definition IsMetadataCommit (commitMessage : string) : bool :=
  is_ok (ParseCommitMetadata commitMessage).

(** ** Well-formed metadata *)

(** What the code builds: strings of valid UTF-8, integers in the range of
    their types, an instant that RFC 3339 can write. *)
Definition hlc_ok (h : HLCTimestamp) : Prop := hlc_wf h ∧ valid_utf8 (PeerID h) = true.

Definition meta_ok (m : CommitMetadata) : Prop :=
  valid_utf8 (Kind m) = true ∧ valid_utf8 (Message m) = true ∧ hlc_ok (meta_HLC m) ∧
  valid_utf8 (ContentHash m) = true ∧ valid_utf8 (Author m) = true ∧
  valid_utf8 (Email m) = true ∧ time_wf (Date m) ∧ valid_utf8 (Signature m) = true.

(** Texts without quotes, backslashes, control characters and non-ASCII
    bytes need no escaping. *)
Fixpoint plain (s : string) : Prop :=
  match s with
  | EmptyString => True
  | String c s => 32 ≤ byte c < 128 ∧ byte c ≠ 34 ∧ byte c ≠ 92 ∧ plain s
  end.

Lemma plain_append s t : plain s → plain t → plain (s +:+ t).
Proof. induction s; [done|]. rewrite append_cons. simpl. naive_solver. Qed.

Lemma plain_raw_ok s : plain s → raw_ok s.
Proof.
  intros Hs r. induction s as [|c s IH]; [done|]. destruct Hs as (H1 & H2 & H3 & Hs).
  rewrite append_cons. cbn [scan_string].
  rewrite (proj2 (Z.eqb_neq _ _) H2), (proj2 (Z.eqb_neq _ _) H3), (proj2 (Z.ltb_ge _ _)) by lia.
  by rewrite IH.
Qed.

Lemma plain_digits w n : 0 ≤ n < 10 ^ Z.of_nat w → plain (digits w n).
Proof.
  revert n. induction w as [|w IH]; intros n Hn; [done|].
  pose proof (digit_range w n Hn). cbn [digits plain].
  assert (byte (digit (n / 10 ^ Z.of_nat w)) = 48 + n / 10 ^ Z.of_nat w) as ->.
  { unfold byte, digit. rewrite N_ascii_embedding; lia. }
  split_and!; [lia..|]. apply IH, Z.mod_pos_bound. lia.
Qed.

Lemma plain_frac_digits w n : 0 ≤ n < 10 ^ Z.of_nat w → plain (frac_digits w n).
Proof.
  revert n. induction w as [|w IH]; intros n Hn; [done|].
  pose proof (digit_range w n Hn). cbn [frac_digits].
  destruct (n =? 0); [done|]. cbn [plain].
  assert (byte (digit (n / 10 ^ Z.of_nat w)) = 48 + n / 10 ^ Z.of_nat w) as ->.
  { unfold byte, digit. rewrite N_ascii_embedding; lia. }
  split_and!; [lia..|]. apply IH, Z.mod_pos_bound. lia.
Qed.

Ltac plain_const := cbn [plain]; unfold byte; cbn; split_and!; done || lia.

Lemma plain_format_zone off : -86400 < off < 86400 → plain (format_zone off).
Proof.
  intros Hoff. unfold format_zone. destruct (Z.eqb_spec off 0); [plain_const|].
  assert (0 ≤ Z.abs (Z.quot off 60) / 60 < 100 ∧ 0 ≤ Z.abs (Z.quot off 60) mod 60 < 100) as [H1 H2]
    by (Z.to_euclidean_division_equations; lia).
  apply plain_append; [case_match; plain_const|].
  apply plain_append; [by apply plain_digits|].
  apply plain_append; [plain_const|by apply plain_digits].
Qed.

Lemma plain_format_RFC3339Nano t : time_wf t → plain (format_RFC3339Nano t).
Proof.
  intros (Hns & _ & Hm). unfold time_marshalable, year_of in Hm. bool_to_prop.
  unfold format_RFC3339Nano. destruct (civil_from_days _) as [[y mo] d] eqn:Hc.
  cbn [fst snd] in *. apply civil_from_days_valid in Hc as [Hmo Hd].
  assert (days_in mo y ≤ 31) by (unfold days_in; repeat case_match; lia).
  set (sod := (t_sec t + t_off t) mod 86400).
  assert (0 ≤ sod < 86400) as Hsod by (apply Z.mod_pos_bound; lia).
  assert (0 ≤ sod / 3600 < 100 ∧ 0 ≤ sod / 60 mod 60 < 100 ∧ 0 ≤ sod mod 60 < 100) as (Hh & Hmi & Hs)
    by (clearbody sod; Z.to_euclidean_division_equations; lia).
  rewrite format_year_digits by lia.
  repeat (apply plain_append; [first [plain_const | apply plain_digits; cbn; lia]|]).
  apply plain_append; [|apply plain_format_zone; lia].
  unfold format_fraction. case_match; [done|]. apply plain_append; [plain_const|].
  apply plain_frac_digits. cbn. lia.
Qed.

(** ** Round trip of the codec *)

Lemma all_of_app {A} (P : A → Prop) l1 l2 : all_of P (l1 ++ l2) ↔ all_of P l1 ∧ all_of P l2.
Proof. induction l1; simpl; naive_solver. Qed.

Lemma wf_str_member k v :
  raw_ok k → valid_utf8 v = true → all_of (λ kv, raw_ok kv.1 ∧ wf_json kv.2) (str_member k v).
Proof. intros Hk Hv. split; [|done]. split; [done|]. by apply raw_ok_escape. Qed.

Lemma wf_omit_empty k v :
  raw_ok k → valid_utf8 v = true → all_of (λ kv, raw_ok kv.1 ∧ wf_json kv.2) (omit_empty k v).
Proof. intros Hk Hv. unfold omit_empty. case_match; [done|]. by apply wf_str_member. Qed.

Ltac key_ok := apply plain_raw_ok; plain_const.

Lemma wf_hlc_json h : hlc_ok h → wf_json (hlc_json h).
Proof.
  intros [_ Hp]. cbn. split_and!; try done; try key_ok; try apply num_ok_pretty.
  by apply raw_ok_escape.
Qed.

Lemma wf_signing_members m :
  meta_ok m → all_of (λ kv, raw_ok kv.1 ∧ wf_json kv.2) (signing_members (for_signing m)).
Proof.
  intros (HK & HM & HH & HC & HA & HE & HD & _). unfold signing_members, for_signing.
  rewrite !all_of_app; cbn [fs_Kind fs_Message fs_HLC fs_ContentHash fs_Author fs_Email fs_Date].
  split_and!; try (apply wf_str_member; [key_ok|done]); try (apply wf_omit_empty; [key_ok|done]).
  - split; [split; [key_ok|by apply wf_hlc_json]|done].
  - split; [split; [key_ok|]|done]. by apply plain_raw_ok, plain_format_RFC3339Nano.
Qed.

Lemma dec_struct_app {A} f l1 l2 (a : A) :
  dec_struct f (l1 ++ l2) a = dec_struct f l1 a ≫= dec_struct f l2.
Proof.
  revert a. induction l1 as [|[k v] l1 IH]; intros a; [done|]. simpl.
  destruct (json_unquote k); [|done]. destruct (f (fold_name _)); [|done].
  destruct (_ a v); [|done]. apply IH.
Qed.

Lemma dec_struct_cons {A} f k v l (a : A) g :
  json_unquote k = Some k → f (fold_name k) = Some g →
  dec_struct f ((k, v) :: l) a = g a v ≫= dec_struct f l.
Proof. intros Hk Hf. simpl. rewrite Hk, Hf. by destruct (g a v). Qed.

(** Decoding a member that was left out keeps the zero value of the field. *)
Lemma dec_omit_empty {A} f k v (a : A) get set :
  json_unquote k = Some k → f (fold_name k) = Some (λ a j, set a <$> dec_string (get a) j) →
  valid_utf8 v = true → set a "" = a →
  dec_struct f (omit_empty k v) a = Some (set a v).
Proof.
  intros Hk Hf Hv Hset. unfold omit_empty.
  destruct (String.eqb_spec v "") as [->|]; [by simpl; rewrite Hset|].
  unfold str_member. rewrite (dec_struct_cons f k _ _ _ _ Hk Hf). simpl.
  by rewrite json_unquote_escape.
Qed.

Lemma dec_int_pretty lo hi old z : lo ≤ z ≤ hi → dec_int lo hi old (JNum (pretty z)) = Some z.
Proof.
  intros Hz. unfold dec_int. rewrite parse_int_pretty.
  by rewrite (proj2 (Z.leb_le lo z)), (proj2 (Z.leb_le z hi)) by lia.
Qed.

Lemma dec_hlc_json h old : hlc_ok h → dec_hlc old (hlc_json h) = Some h.
Proof.
  intros [[Hw Hl] Hp]. destruct h as [w l p]. unfold dec_hlc, hlc_json.
  cbn [Wall Logical PeerID] in *.
  rewrite (dec_struct_cons hlc_field "w" _ _ _ _ eq_refl eq_refl).
  rewrite dec_int_pretty by apply Hw. cbn [fmap option_fmap option_map mbind option_bind].
  rewrite (dec_struct_cons hlc_field "l" _ _ _ _ eq_refl eq_refl).
  rewrite dec_int_pretty by apply Hl. cbn [fmap option_fmap option_map mbind option_bind].
  rewrite (dec_struct_cons hlc_field "p" _ _ _ _ eq_refl eq_refl).
  cbn. by rewrite json_unquote_escape.
Qed.

Ltac dec_step :=
  cbn [fmap option_fmap option_map mbind option_bind zero_metadata with_Signature
       Kind Message meta_HLC ContentHash Author Email Date Signature].

Lemma dec_signing_members m :
  meta_ok m →
  dec_struct meta_field (signing_members (for_signing m)) zero_metadata
    = Some (with_Signature m "").
Proof.
  intros (HK & HM & HH & HC & HA & HE & HD & _).
  destruct m as [k msg h ch au em d sig]. unfold signing_members, for_signing, str_member.
  cbn [fs_Kind fs_Message fs_HLC fs_ContentHash fs_Author fs_Email fs_Date
       Kind Message meta_HLC ContentHash Author Email Date Signature app] in *.
  rewrite (dec_struct_cons meta_field "kind" _ _ _ _ eq_refl eq_refl).
  cbn [dec_string]. rewrite json_unquote_escape by done. dec_step.
  rewrite (dec_struct_cons meta_field "msg" _ _ _ _ eq_refl eq_refl).
  cbn [dec_string]. rewrite json_unquote_escape by done. dec_step.
  rewrite (dec_struct_cons meta_field "hlc" _ _ _ _ eq_refl eq_refl).
  rewrite dec_hlc_json by done. dec_step.
  rewrite dec_struct_app. erewrite (dec_omit_empty meta_field "content_hash"); [|done..]. dec_step.
  rewrite dec_struct_app. erewrite (dec_omit_empty meta_field "author"); [|done..]. dec_step.
  rewrite dec_struct_app. erewrite (dec_omit_empty meta_field "email"); [|done..]. dec_step.
  rewrite (dec_struct_cons meta_field "date" _ _ _ _ eq_refl eq_refl).
  cbn [dec_time]. rewrite parse_format_RFC3339 by done. dec_step. done.
Qed.

Lemma dec_all_members m :
  meta_ok m →
  dec_struct meta_field (signing_members (for_signing m) ++ omit_empty "sig" (Signature m))
    zero_metadata = Some m.
Proof.
  intros Hm. rewrite dec_struct_app, dec_signing_members by done. dec_step.
  destruct Hm as (_ & _ & _ & _ & _ & _ & _ & HS).
  erewrite (dec_omit_empty meta_field "sig"); [|done..]. by destruct m.
Qed.

Lemma json_Unmarshal_print l :
  all_of (λ kv, raw_ok kv.1 ∧ wf_json kv.2) l →
  json_Unmarshal (print_json (JObj l)) = dec_struct meta_field l zero_metadata.
Proof. intros Hl. unfold json_Unmarshal. by rewrite parse_print_json. Qed.

Lemma Unmarshal_Marshal m s : meta_ok m → Marshal m = Ok s → json_Unmarshal s = Some m.
Proof.
  unfold Marshal, json_Marshal. intros Hm. case_match; [|done]. intros Hs.
  assert (s = print_json (JObj (signing_members (for_signing m) ++ omit_empty "sig" (Signature m))))
    as -> by congruence.
  rewrite json_Unmarshal_print; [by apply dec_all_members|].
  apply all_of_app. split; [by apply wf_signing_members|].
  apply wf_omit_empty; [key_ok|apply Hm].
Qed.

Lemma Unmarshal_SignableData m s :
  meta_ok m → SignableData m = Ok s → json_Unmarshal s = Some (with_Signature m "").
Proof.
  unfold SignableData, json_Marshal. intros Hm. case_match; [|done]. intros Hs.
  assert (s = print_json (JObj (signing_members (for_signing m)))) as -> by congruence.
  rewrite json_Unmarshal_print; [by apply dec_signing_members|by apply wf_signing_members].
Qed.

Lemma Marshal_total m : meta_ok m → ∃ s, Marshal m = Ok s.
Proof.
  intros (_ & _ & _ & _ & _ & _ & (_ & _ & Ht) & _). unfold Marshal, json_Marshal.
  rewrite Ht. eauto.
Qed.

Lemma SignableData_total m : meta_ok m → ∃ s, SignableData m = Ok s.
Proof.
  intros (_ & _ & _ & _ & _ & _ & (_ & _ & Ht) & _). unfold SignableData, json_Marshal.
  cbn [for_signing fs_Date]. rewrite Ht. eauto.
Qed.

Lemma ParseCommitMetadata_Ok s m :
  ParseCommitMetadata s = Ok m ↔ json_Unmarshal s = Some m ∧ Kind m = CommitKindUser.
Proof.
  unfold ParseCommitMetadata. destruct (json_Unmarshal s) as [m'|]; [|naive_solver].
  destruct (String.eqb_spec (Kind m') CommitKindUser); simpl; naive_solver.
Qed.

Lemma Parse_kind s m : ParseCommitMetadata s = Ok m → Kind m = CommitKindUser.
Proof. rewrite ParseCommitMetadata_Ok. naive_solver. Qed.

#[export] Hint Resolve Parse_kind : swarm.

(** ** Properties *)

(** C32. A commit message written by [Marshal] for a user commit is parsed back
    by [ParseCommitMetadata] to the same metadata, field by field, and is
    recognised by [IsMetadataCommit]; [Marshal] succeeds. *)
Theorem metadata_roundtrip (m : CommitMetadata) (Hm : meta_ok m) (Hk : Kind m = CommitKindUser) :
  ∃ s, Marshal m = Ok s ∧ ParseCommitMetadata s = Ok m ∧ IsMetadataCommit s = true.
Proof.
  destruct (Marshal_total m Hm) as [s Hs]. exists s. split; [done|].
  assert (ParseCommitMetadata s = Ok m) as Hp
    by (apply ParseCommitMetadata_Ok; split; [by apply Unmarshal_Marshal|done]).
  split; [done|]. unfold IsMetadataCommit. by rewrite Hp.
Qed.

Definition example_meta : CommitMetadata :=
  mkMeta "user" "it's a <msg>" (mkHLC 12 3 "peer1") "hash" "peer1" "peer1@doltswarm"
    (mkTime 1700000000 5000 3600) "sgn".

Lemma example_meta_ok : meta_ok example_meta.
Proof. repeat split; vm_compute; congruence. Qed.

Lemma metadata_roundtrip_witness :
  ∃ s, Marshal example_meta = Ok s ∧ ParseCommitMetadata s = Ok example_meta ∧
       IsMetadataCommit s = true.
Proof. apply (metadata_roundtrip example_meta); [apply example_meta_ok|reflexivity]. Defined.

(** C34. The signature covers everything else: two metadata records with the
    same signable bytes agree on every field but the signature, and the
    signable bytes do not depend on the signature. *)
Theorem signature_covers (m1 m2 : CommitMetadata) (s : string)
  (H1 : meta_ok m1) (H2 : meta_ok m2) (Hs : SignableData m1 = Ok s) :
  SignableData m2 = Ok s ↔ with_Signature m2 (Signature m1) = m1.
Proof.
  split.
  - intros Hs2. apply Unmarshal_SignableData in Hs; [|done].
    apply Unmarshal_SignableData in Hs2; [|done]. rewrite Hs in Hs2.
    destruct m1, m2. unfold with_Signature in *; simpl in *. congruence.
  - intros E. rewrite <-E in Hs. exact Hs.
Qed.

Lemma signature_covers_witness :
  ∃ s, SignableData example_meta = Ok s ∧
    (SignableData (with_Signature example_meta "other") = Ok s ↔
     with_Signature (with_Signature example_meta "other") (Signature example_meta) = example_meta).
Proof.
  destruct (SignableData_total example_meta example_meta_ok) as [s Hs].
  exists s. split; [exact Hs|].
  apply (signature_covers example_meta (with_Signature example_meta "other") s).
  - apply example_meta_ok.
  - repeat split; vm_compute; congruence.
  - exact Hs.
Defined.

(** What [Sign] and [Verify] of a signer promise each other. *)
Definition signer_correct (signer : Signer) : Prop :=
  ∀ data sig, Sign signer data = Ok sig →
    valid_utf8 sig = true ∧ Verify signer data sig (PublicKey signer) = Ok tt.

Lemma Parse_signed (signer : Signer) (m m' : CommitMetadata) (s : string) :
  signer_correct signer → meta_ok m → Kind m = CommitKindUser → meta_Sign m signer = Ok m' → Marshal m' = Ok s →
  ParseCommitMetadata s = Ok m' ∧ meta_HLC m' = meta_HLC m ∧
  ∀ verifier, Verify verifier = Verify signer → meta_Verify m' verifier (PublicKey signer) = Ok tt.
Proof.
  intros Hcorrect Hm Hk Hsign Hmarshal.
  unfold meta_Sign in Hsign. destruct (SignableData m) as [data| |] eqn:Hd; try done.
  destruct (Sign signer data) as [sig| |] eqn:Hs; try done. injection Hsign as <-.
  destruct (Hcorrect data sig Hs) as [Hutf Hv]. split_and!.
  - apply ParseCommitMetadata_Ok. split; [|done]. apply Unmarshal_Marshal; [|done].
    destruct Hm as (? & ? & ? & ? & ? & ? & ? & ?).
    repeat (split; [assumption|]). exact Hutf.
  - done.
  - intros verifier Hverify. unfold meta_Verify.
    change (SignableData (with_Signature m sig)) with (SignableData m). by rewrite Hd, Hverify.
Qed.

(** A signed commit verifies at its destination: metadata signed by a peer,
    written to a commit message and parsed by another peer passes [Verify]
    with the public key of the signer. *)
Theorem signed_commit_verifies (signer verifier : Signer) (m m' : CommitMetadata) (s : string)
  (Hcorrect : signer_correct signer) (Hverify : Verify verifier = Verify signer)
  (Hm : meta_ok m) (Hk : Kind m = CommitKindUser)
  (Hsign : meta_Sign m signer = Ok m') (Hmarshal : Marshal m' = Ok s) :
  ParseCommitMetadata s = Ok m' ∧ meta_Verify m' verifier (PublicKey signer) = Ok tt.
Proof.
  destruct (Parse_signed signer m m' s Hcorrect Hm Hk Hsign Hmarshal) as (? & _ & Hv). auto.
Qed.

(** A signer for closed examples: the signature is the key in front of the
    text. *)
Definition toy_signer (id : string) : Signer :=
  mkSigner (λ data, if valid_utf8 (id +:+ data) then Ok (id +:+ data) else Err "bad data")
    (λ data sig pk, if String.eqb sig (pk +:+ data) then Ok tt else Err "bad signature")
    id id.

Lemma toy_signer_correct id : signer_correct (toy_signer id).
Proof.
  intros data sig. simpl. case_match; intros [= <-]. split; [done|].
  by rewrite String.eqb_refl.
Qed.

Lemma signed_commit_verifies_witness :
  ∃ m' s, meta_Sign example_meta (toy_signer "k") = Ok m' ∧ Marshal m' = Ok s ∧
    ParseCommitMetadata s = Ok m' ∧ meta_Verify m' (toy_signer "other") "k" = Ok tt.
Proof.
  eexists _, _. split; [vm_compute; reflexivity|]. split; [vm_compute; reflexivity|].
  apply (signed_commit_verifies (toy_signer "k") (toy_signer "other") example_meta).
  - apply toy_signer_correct.
  - reflexivity.
  - apply example_meta_ok.
  - reflexivity.
  - vm_compute. reflexivity.
  - vm_compute. reflexivity.
Defined.
