(* ===== verification/Sql.v ===== *)
(** * String literals in SQL texts
    ([core/commit_sql_helpers.go]: [escapeSQL])

    The code builds statements by pasting values between single quotes.
    [escapeSQL] doubles the quotes of a value; [sql_string] is how MySQL reads
    a literal back, doubled quotes and backslash escapes included. *)

From Stdlib Require Import ZArith Lia String Ascii.
From stdpp Require Import gmap strings list sorting pretty.
From S2P Require Import Prelude Hlc GoTime GoJson GoJsonFacts Metadata.

(** [strings.ReplaceAll(s, "'", "''")] *)
Fixpoint escapeSQL (s : string) : string :=
  match s with
  | EmptyString => EmptyString
  | String c s =>
      if Ascii.eqb c "'" then String "'" (String "'" (escapeSQL s)) else String c (escapeSQL s)
  end.

Definition quote (s : string) : string := "'" +:+ s +:+ "'".

(** The character that a backslash and [c] stand for in a MySQL string. *)
Definition sql_unescape (c : ascii) : ascii :=
  if Ascii.eqb c "0" then "000"
  else if Ascii.eqb c "b" then "008"
  else if Ascii.eqb c "n" then "010"
  else if Ascii.eqb c "r" then "013"
  else if Ascii.eqb c "t" then "009"
  else if Ascii.eqb c "Z" then "026"
  else c.

(** Reads a literal after its opening quote: its value and what follows the
    closing quote; [None] when it is not closed. *)
Fixpoint sql_string (s : string) : option (string * string) :=
  match s with
  | EmptyString => None
  | String c r =>
      if Ascii.eqb c "'" then
        match r with
        | String d r' =>
            if Ascii.eqb d "'" then (λ p, (String "'" p.1, p.2)) <$> sql_string r'
            else Some (EmptyString, r)
        | EmptyString => Some (EmptyString, EmptyString)
        end
      else if Ascii.eqb c "\" then
        match r with
        | String d r' => (λ p, (String (sql_unescape d) p.1, p.2)) <$> sql_string r'
        | EmptyString => None
        end
      else (λ p, (String c p.1, p.2)) <$> sql_string r
  end.

(** The value that the engine stores for a literal that the code wrote with
    [escapeSQL]. *)
Definition literal_value (s : string) : option string :=
  match sql_string (escapeSQL s +:+ "'") with
  | Some (v, EmptyString) => Some v
  | _ => None
  end.

(** The next character does not extend the closing quote. *)
Definition no_quote (s : string) : Prop :=
  match s with String c _ => c ≠ "'"%char | EmptyString => True end.

Lemma sql_string_escape s rest :
  str_free "\" s → no_quote rest → sql_string (escapeSQL s +:+ String "'" rest) = Some (s, rest).
Proof.
  intros Hs Hr. induction s as [|c s IH].
  - cbn [escapeSQL]. rewrite append_nil_l. cbn [sql_string Ascii.eqb].
    change (Ascii.eqb "'" "'") with true. cbv iota.
    destruct rest as [|d rest]; [done|]. by rewrite (proj2 (Ascii.eqb_neq d "'") Hr).
  - destruct Hs as [Hc Hs]. cbn [escapeSQL]. destruct (Ascii.eqb_spec c "'") as [->|Hq].
    + rewrite !append_cons. cbn [sql_string]. change (Ascii.eqb "'" "'") with true. cbv iota.
      by rewrite IH.
    + rewrite append_cons. cbn [sql_string]. rewrite (proj2 (Ascii.eqb_neq c "'") Hq).
      rewrite (proj2 (Ascii.eqb_neq c "\")) by congruence. by rewrite IH.
Qed.

Lemma literal_value_id s : str_free "\" s → literal_value s = Some s.
Proof. intros Hs. unfold literal_value. by rewrite sql_string_escape. Qed.

(** ** Properties *)

(** A value without backslashes is safe in a statement: between quotes,
    after [escapeSQL], it is read back as itself, and the rest of the
    statement starts exactly after the closing quote. *)
Theorem escapeSQL_safe (s rest : string) (Hs : str_free "\" s) (Hr : no_quote rest) :
  sql_string (escapeSQL s +:+ String "'" rest) = Some (s, rest).
Proof. by apply sql_string_escape. Qed.

Lemma escapeSQL_safe_witness :
  sql_string (escapeSQL "it's '; DROP TABLE x" +:+ String "'" ");")
    = Some ("it's '; DROP TABLE x", ");").
Proof. apply escapeSQL_safe; [repeat split; discriminate|discriminate]. Defined.

(** The metadata of a commit whose message has a double quote. *)
Definition quoted_meta : CommitMetadata :=
  mkMeta "user" (String "034" (String "h" (String "i" (String "034" "")))) (mkHLC 12 3 "peer1") "hash" "peer1"
    "peer1@doltswarm" (mkTime 1700000000 0 0) "sgn".

Lemma quoted_meta_ok : meta_ok quoted_meta.
Proof.
  unfold meta_ok, hlc_ok, hlc_wf, time_wf, is_int64, is_int32.
  split_and!; vm_compute; congruence.
Qed.

(** The text that reaches the commit log when metadata is committed. *)
Definition stored_metadata (m : CommitMetadata) : option string :=
  match Marshal m with Ok s => literal_value s | _ => None end.

(** Backslashes are not escaped: a commit message with a double quote is
    marshalled with a backslash, which the literal loses, and the message that
    is stored no longer parses, so the commit stops being a user commit for
    every reader; a value that ends in a backslash swallows the closing quote
    of its literal. *)
Theorem escapeSQL_backslash :
  meta_ok quoted_meta ∧
  (∃ s, stored_metadata quoted_meta = Some s ∧ IsMetadataCommit s = false) ∧
  sql_string (escapeSQL "\" +:+ String "'" ");") = None.
Proof.
  split; [exact quoted_meta_ok|]. split; [|reflexivity].
  eexists. split; [vm_compute; reflexivity|]. vm_compute. reflexivity.
Qed.
