(* ===== verification/Index.v ===== *)
(** * The local commit index
    ([core/index.go], [core/index_mem.go], [core/finalization.go],
    [core/commit_ad.go])

    The index maps the timestamp of a commit to its status and keeps the
    finalized base.  The interface [CommitIndex] is a class with its laws; the
    in-memory implementation is an instance, and it refines a finite map keyed
    by timestamps. *)

From Stdlib Require Import ZArith Lia String Ascii.
From stdpp Require Import gmap strings list sorting pretty.
From S2P Require Import Prelude Hlc GoTime GoJson GoJsonFacts Metadata.

Open Scope Z_scope.

(** ** Data *)

Inductive CommitStatus :=
| CommitStatusUnknown
| CommitStatusPending
| CommitStatusApplied
| CommitStatusRejected.

#[export] Instance CommitStatus_eq_dec : EqDecision CommitStatus.
Proof. solve_decision. Defined.

Record CommitIndexEntry := mkEntry {
  e_HLC : HLCTimestamp;
  e_CommitHash : string;
  e_Status : CommitStatus;
  e_NextRetryAt : Time;
  e_UpdatedAt : Time;
}.

#[export] Instance CommitIndexEntry_eq_dec : EqDecision CommitIndexEntry.
Proof. solve_decision. Defined.

Record FinalizedBase := mkBase {
  fb_HLC : HLCTimestamp;
  fb_CommitHash : string;
  fb_UpdatedAt : Time;
}.

Definition fb_IsZero (f : FinalizedBase) : bool :=
  IsZero (fb_HLC f) && String.eqb (fb_CommitHash f) "".

Definition IsFinalized (hlc stableHLC : HLCTimestamp) : bool :=
  if IsZero stableHLC then false else Less hlc stableHLC || Equal hlc stableHLC.

Definition IsAfterFinalizedBase (hlc : HLCTimestamp) (base : option FinalizedBase) : bool :=
  match base with
  | None => true
  | Some b => if IsZero (fb_HLC b) then true else Less (fb_HLC b) hlc
  end.

Record CommitAd := mkCommitAd {
  ca_PeerID : string;
  ca_HLC : HLCTimestamp;
  ca_ContentHash : string;
  ca_CommitHash : string;
  ca_Message : string;
  ca_Author : string;
  ca_Email : string;
  ca_Date : Time;
  ca_Signature : string;
}.

Definition Key (ad : CommitAd) : string := hlc_String (ca_HLC ad).

Definition ToMetadata (ad : CommitAd) : CommitMetadata :=
  mkMeta CommitKindUser (ca_Message ad) (ca_HLC ad) (ca_ContentHash ad) (ca_Author ad)
    (ca_Email ad) (ca_Date ad) (ca_Signature ad).

(** ** The interface

    Every method of the Go interface returns an [error] that the
    implementation never sets and every caller drops; it is left out.
    [idx_reset] is the effect of the type assertion on [*MemoryCommitIndex]
    followed by [resetForRebuild] in [initIndexFromDB]. *)

Class CommitIndex (I : Type) := {
  idx_Upsert : Time → CommitIndexEntry → I → I;
  idx_Get : HLCTimestamp → I → option CommitIndexEntry;
  idx_ListAfter : HLCTimestamp → Z → I → list CommitIndexEntry;
  idx_FinalizedBase : I → option FinalizedBase;
  idx_SetFinalizedBase : Time → FinalizedBase → I → I;
  idx_reset : I → I;
}.

(** [if e.UpdatedAt.IsZero() { e.UpdatedAt = time.Now() }] *)
Definition stamp_entry (now : Time) (e : CommitIndexEntry) : CommitIndexEntry :=
  if time_IsZero (e_UpdatedAt e)
  then mkEntry (e_HLC e) (e_CommitHash e) (e_Status e) (e_NextRetryAt e) now
  else e.

Definition stamp_base (now : Time) (fb : FinalizedBase) : FinalizedBase :=
  if time_IsZero (fb_UpdatedAt fb) then mkBase (fb_HLC fb) (fb_CommitHash fb) now else fb.

(** What an index promises its clients, for the states satisfying an
    invariant that every operation keeps. *)
Class CommitIndexLaws (I : Type) `{CommitIndex I} := {
  idx_inv : I → Prop;
  idx_inv_Upsert : ∀ now e i, idx_inv i → idx_inv (idx_Upsert now e i);
  idx_inv_Set : ∀ now fb i, idx_inv i → idx_inv (idx_SetFinalizedBase now fb i);
  idx_inv_reset : ∀ i, idx_inv i → idx_inv (idx_reset i);
  idx_Get_HLC : ∀ i h e, idx_inv i → idx_Get h i = Some e → e_HLC e = h;
  idx_Get_Upsert : ∀ now e h i,
    idx_Get h (idx_Upsert now e i)
      = if decide (e_HLC e = h) then Some (stamp_entry now e) else idx_Get h i;
  idx_Get_Set : ∀ now fb h i, idx_Get h (idx_SetFinalizedBase now fb i) = idx_Get h i;
  idx_Base_Upsert : ∀ now e i,
    idx_FinalizedBase (idx_Upsert now e i) = idx_FinalizedBase i;
  idx_Base_reset : ∀ i, idx_FinalizedBase (idx_reset i) = idx_FinalizedBase i;
  idx_Base_Set : ∀ now fb i,
    idx_FinalizedBase (idx_SetFinalizedBase now fb i) =
      match idx_FinalizedBase i with
      | Some b => if decide (hlc_lt (fb_HLC b) (fb_HLC fb)) then Some (stamp_base now fb) else Some b
      | None => Some (stamp_base now fb)
      end;
  idx_Get_reset : ∀ i h e, idx_Get h (idx_reset i) = Some e → idx_Get h i = Some e;
  idx_ListAfter_elem : ∀ i after e, idx_inv i →
    e ∈ idx_ListAfter after 0 i ↔ idx_Get (e_HLC e) i = Some e ∧ hlc_lt after (e_HLC e);
  idx_ListAfter_sorted : ∀ i after lim, idx_inv i →
    StronglySorted (λ a b, hlc_lt (e_HLC a) (e_HLC b)) (idx_ListAfter after lim i);
  idx_ListAfter_limit : ∀ i after lim, (0 < lim)%Z →
    idx_ListAfter after lim i = take (Z.to_nat lim) (idx_ListAfter after 0 i);
}.

(** ** The in-memory index *)

Record MemoryCommitIndex := mkMemIndex {
  entries : gmap string CommitIndexEntry;
  finalizedBase : option FinalizedBase;
}.

Definition NewMemoryCommitIndex : MemoryCommitIndex := mkMemIndex ∅ None.

(** The finalized base is kept. *)
Definition resetForRebuild (m : MemoryCommitIndex) : MemoryCommitIndex :=
  mkMemIndex ∅ (finalizedBase m).

Definition mem_Upsert (now : Time) (e : CommitIndexEntry) (m : MemoryCommitIndex) :
    MemoryCommitIndex :=
  let e := stamp_entry now e in
  mkMemIndex (<[hlc_String (e_HLC e) := e]> (entries m)) (finalizedBase m).

Definition mem_Get (hlc : HLCTimestamp) (m : MemoryCommitIndex) : option CommitIndexEntry :=
  entries m !! hlc_String hlc.

Definition entry_less (a b : CommitIndexEntry) : bool := Less (e_HLC a) (e_HLC b).

Definition mem_ListAfter `{GoRuntime} (after : HLCTimestamp) (limit : Z) (m : MemoryCommitIndex) :
    list CommitIndexEntry :=
  let out := List.filter (λ e, Less after (e_HLC e))
               (range_map (map snd (map_to_list (entries m)))) in
  let out := sort_slice entry_less out in
  if (0 <? limit) && (limit <? Z.of_nat (length out)) then take (Z.to_nat limit) out else out.

Definition mem_FinalizedBase (m : MemoryCommitIndex) : option FinalizedBase := finalizedBase m.

Definition mem_SetFinalizedBase (now : Time) (fb : FinalizedBase) (m : MemoryCommitIndex) :
    MemoryCommitIndex :=
  let keep :=
    match finalizedBase m with
    | Some b => Less (fb_HLC fb) (fb_HLC b) || Equal (fb_HLC fb) (fb_HLC b)
    | None => false
    end in
  if keep then m else mkMemIndex (entries m) (Some (stamp_base now fb)).

#[export] Instance MemoryCommitIndex_index `{GoRuntime} : CommitIndex MemoryCommitIndex := {
  idx_Upsert := mem_Upsert;
  idx_Get := mem_Get;
  idx_ListAfter := mem_ListAfter;
  idx_FinalizedBase := mem_FinalizedBase;
  idx_SetFinalizedBase := mem_SetFinalizedBase;
  idx_reset := resetForRebuild;
}.

(** ** Invariant and laws of the in-memory index *)

(** Every entry is stored under the key of its own timestamp. *)
Definition mem_inv (m : MemoryCommitIndex) : Prop :=
  ∀ k e, entries m !! k = Some e → k = hlc_String (e_HLC e).

Lemma stamp_entry_HLC now e : e_HLC (stamp_entry now e) = e_HLC e.
Proof. unfold stamp_entry. by case_match. Qed.
Lemma stamp_entry_Status now e : e_Status (stamp_entry now e) = e_Status e.
Proof. unfold stamp_entry. by case_match. Qed.
Lemma stamp_entry_CommitHash now e : e_CommitHash (stamp_entry now e) = e_CommitHash e.
Proof. unfold stamp_entry. by case_match. Qed.
Lemma stamp_base_HLC now fb : fb_HLC (stamp_base now fb) = fb_HLC fb.
Proof. unfold stamp_base. by case_match. Qed.
Lemma stamp_base_CommitHash now fb : fb_CommitHash (stamp_base now fb) = fb_CommitHash fb.
Proof. unfold stamp_base. by case_match. Qed.

#[export] Hint Rewrite stamp_entry_HLC stamp_entry_Status stamp_entry_CommitHash
  stamp_base_HLC stamp_base_CommitHash : swarm_simpl.

Lemma mem_inv_new : mem_inv NewMemoryCommitIndex.
Proof. intros k e. simpl. by rewrite lookup_empty. Qed.

Lemma mem_inv_Upsert now e m : mem_inv m → mem_inv (mem_Upsert now e m).
Proof.
  intros Hm k e'. simpl. rewrite lookup_insert. case_decide; [|apply Hm].
  intros [= <-]. by subst.
Qed.

Lemma mem_Get_Upsert now e h m :
  mem_Get h (mem_Upsert now e m)
    = if decide (e_HLC e = h) then Some (stamp_entry now e) else mem_Get h m.
Proof.
  unfold mem_Get; simpl. rewrite stamp_entry_HLC, lookup_insert.
  repeat case_decide; try done; [by apply (inj hlc_String) in H|congruence].
Qed.

Lemma entry_less_strict_weak : strict_weak entry_less.
Proof.
  destruct Less_strict_weak as [H1 H2 H3].
  split; unfold entry_less; eauto.
Qed.

Section listing.
Context `{R : GoRuntime}.

(** The entries after a timestamp, before sorting. *)
Lemma elem_of_mem_values m e :
  mem_inv m → e ∈ map snd (map_to_list (entries m)) ↔ mem_Get (e_HLC e) m = Some e.
Proof.
  intros Hm. change (map snd ?l) with (snd <$> l). rewrite list_elem_of_fmap. split.
  - intros ([k e'] & -> & Hin). apply elem_of_map_to_list in Hin. simpl.
    unfold mem_Get. by rewrite <-(Hm _ _ Hin).
  - intros Hg. exists (hlc_String (e_HLC e), e). split; [done|].
    by apply elem_of_map_to_list.
Qed.

Lemma NoDup_mem_values m :
  mem_inv m → NoDup (e_HLC <$> map snd (map_to_list (entries m))).
Proof.
  intros Hm. change (map snd ?l) with (snd <$> l).
  rewrite <-list_fmap_compose. apply NoDup_fmap_2_strong; [|apply NoDup_map_to_list].
  intros [k1 e1] [k2 e2] H1 H2 E. apply elem_of_map_to_list in H1, H2. simpl in *.
  pose proof (Hm _ _ H1) as ->. pose proof (Hm _ _ H2) as ->. rewrite E in *.
  by simplify_map_eq.
Qed.

Definition mem_listing (after : HLCTimestamp) (m : MemoryCommitIndex) : list CommitIndexEntry :=
  sort_slice entry_less
    (List.filter (λ e, Less after (e_HLC e)) (range_map (map snd (map_to_list (entries m))))).

Lemma mem_ListAfter_0 after m : mem_ListAfter after 0 m = mem_listing after m.
Proof. done. Qed.

Lemma mem_ListAfter_take after lim m :
  0 < lim → mem_ListAfter after lim m = take (Z.to_nat lim) (mem_listing after m).
Proof.
  intros Hl. unfold mem_ListAfter. fold (mem_listing after m).
  rewrite (proj2 (Z.ltb_lt 0 lim)) by done. simpl. case_match; [done|].
  bool_to_prop. rewrite take_ge; [done|lia].
Qed.

Lemma elem_of_mem_listing after m e :
  mem_inv m →
  e ∈ mem_listing after m ↔ mem_Get (e_HLC e) m = Some e ∧ hlc_lt after (e_HLC e).
Proof.
  intros Hm. unfold mem_listing. rewrite elem_of_sort_slice, list_elem_of_In, filter_In.
  rewrite <-list_elem_of_In, elem_of_range_map, elem_of_mem_values, Less_spec by done. done.
Qed.

Lemma NoDup_mem_listing after m : mem_inv m → NoDup (e_HLC <$> mem_listing after m).
Proof.
  intros Hm. unfold mem_listing. rewrite sort_slice_perm.
  pose proof (NoDup_mem_values m Hm) as Hnd.
  rewrite <-(range_map_perm (map snd (map_to_list (entries m)))) in Hnd.
  revert Hnd. generalize (range_map (map snd (map_to_list (entries m)))). intros l.
  induction l as [|e l IH]; [intros _; apply NoDup_nil_2|].
  rewrite fmap_cons, NoDup_cons. intros [Hn Hnd]. simpl.
  destruct (Less _ _); [|by auto]. rewrite fmap_cons, NoDup_cons. split; [|by auto].
  intros Hin. apply Hn. apply list_elem_of_fmap in Hin as (e' & -> & Hin).
  apply list_elem_of_fmap. exists e'. split; [done|].
  apply list_elem_of_In, filter_In in Hin as [Hin _]. by apply list_elem_of_In.
Qed.

(** Sorted without repetition is strictly sorted. *)
Lemma StronglySorted_strict l :
  NoDup (e_HLC <$> l) → Sorted (not_less entry_less) l →
  StronglySorted (λ a b, hlc_lt (e_HLC a) (e_HLC b)) l.
Proof.
  intros Hnd Hs. pose proof (sw_le_trans _ entry_less_strict_weak).
  apply Sorted_StronglySorted in Hs; [|done].
  induction Hs as [|e l Hs IH Hall]; [constructor|].
  rewrite fmap_cons, NoDup_cons in Hnd. destruct Hnd as [Hn Hnd].
  constructor; [auto|]. rewrite Forall_forall in *. intros e' He'.
  specialize (Hall e' He'). unfold not_less, entry_less in Hall.
  apply Less_false, hlc_nlt_le in Hall as [?|E]; [done|].
  destruct Hn. rewrite E. apply list_elem_of_fmap. eauto.
Qed.

Lemma mem_listing_sorted after m :
  mem_inv m → StronglySorted (λ a b, hlc_lt (e_HLC a) (e_HLC b)) (mem_listing after m).
Proof.
  intros Hm. apply StronglySorted_strict; [by apply NoDup_mem_listing|].
  apply sort_slice_sorted, entry_less_strict_weak.
Qed.

Lemma mem_ListAfter_sorted after lim m :
  mem_inv m → StronglySorted (λ a b, hlc_lt (e_HLC a) (e_HLC b)) (mem_ListAfter after lim m).
Proof.
  intros Hm. pose proof (mem_listing_sorted after m Hm) as Hs.
  unfold mem_ListAfter. fold (mem_listing after m). case_match; [|done].
  rewrite <-(take_drop (Z.to_nat lim) (mem_listing after m)) in Hs.
  by apply StronglySorted_app_1_l in Hs.
Qed.

End listing.

Lemma mem_Base_Set now fb m :
  mem_FinalizedBase (mem_SetFinalizedBase now fb m) =
    match mem_FinalizedBase m with
    | Some b => if decide (hlc_lt (fb_HLC b) (fb_HLC fb)) then Some (stamp_base now fb) else Some b
    | None => Some (stamp_base now fb)
    end.
Proof.
  unfold mem_FinalizedBase, mem_SetFinalizedBase.
  destruct (finalizedBase m) as [b|] eqn:Hb; simpl; [|done].
  destruct (Less _ _ || Equal _ _) eqn:E; case_decide as Hd; simpl; try done.
  - bool_to_prop. destruct E as [E|E].
    + apply Less_spec in E. by destruct (hlc_lt_asym _ _ E).
    + apply Equal_spec in E. rewrite E in Hd. by apply hlc_lt_irrefl in Hd.
  - bool_to_prop. destruct Hd. rewrite Less_false in H.
    destruct (hlc_trichotomy (fb_HLC b) (fb_HLC fb)) as [?|[E|?]]; [done| |done].
    symmetry in E. apply Equal_spec in E. congruence.
Qed.

#[export] Program Instance MemoryCommitIndex_laws `{R : GoRuntime} :
    CommitIndexLaws MemoryCommitIndex := { idx_inv := mem_inv }.
Next Obligation. intros. by apply mem_inv_Upsert. Qed.
Next Obligation.
  intros R now fb m Hm. cbn. unfold mem_SetFinalizedBase. case_match; done.
Qed.
Next Obligation. intros R m Hm k e. cbn. by rewrite lookup_empty. Qed.
Next Obligation.
  intros R m h e Hm Hg. cbn in *. specialize (Hm _ _ Hg). symmetry. by apply (inj hlc_String).
Qed.
Next Obligation. intros. apply mem_Get_Upsert. Qed.
Next Obligation. intros. cbn. unfold mem_Get, mem_SetFinalizedBase. by case_match. Qed.
Next Obligation. done. Qed.
Next Obligation. done. Qed.
Next Obligation. intros. apply mem_Base_Set. Qed.
Next Obligation. intros R m h e. cbn. unfold mem_Get; simpl. by rewrite lookup_empty. Qed.
Next Obligation. intros R m after e Hm. by apply elem_of_mem_listing. Qed.
Next Obligation. intros. by apply mem_ListAfter_sorted. Qed.
Next Obligation. intros R m after lim Hl. by apply mem_ListAfter_take. Qed.

(** ** The index against a log of its operations

    The abstract view of an index is the log of the operations applied to it,
    latest first: [Get] answers with the latest upsert of the timestamp since
    the last rebuild, and the finalized base is the earliest one recorded with
    the highest timestamp. *)

Inductive idx_op :=
| OpUpsert (now : Time) (e : CommitIndexEntry)
| OpSetFinalizedBase (now : Time) (fb : FinalizedBase)
| OpReset.

Definition idx_apply {I : Type} `{CommitIndex I} (o : idx_op) (i : I) : I :=
  match o with
  | OpUpsert now e => idx_Upsert now e i
  | OpSetFinalizedBase now fb => idx_SetFinalizedBase now fb i
  | OpReset => idx_reset i
  end.

(** The log is applied from its last element to its first. *)
Definition idx_run {I : Type} `{CommitIndex I} (log : list idx_op) (i : I) : I := foldr idx_apply i log.

Fixpoint log_Get (h : HLCTimestamp) (log : list idx_op) : option CommitIndexEntry :=
  match log with
  | [] => None
  | OpUpsert now e :: log =>
      if decide (e_HLC e = h) then Some (stamp_entry now e) else log_Get h log
  | OpSetFinalizedBase _ _ :: log => log_Get h log
  | OpReset :: _ => None
  end.

Fixpoint log_Base (log : list idx_op) : option FinalizedBase :=
  match log with
  | [] => None
  | OpSetFinalizedBase now fb :: log =>
      match log_Base log with
      | Some b => if decide (hlc_lt (fb_HLC b) (fb_HLC fb)) then Some (stamp_base now fb) else Some b
      | None => Some (stamp_base now fb)
      end
  | _ :: log => log_Base log
  end.

Section log.
Context `{R : GoRuntime}.

Lemma mem_inv_run log : mem_inv (idx_run log NewMemoryCommitIndex).
Proof.
  induction log as [|[] log IH]; [apply mem_inv_new|..]; cbn [idx_run foldr idx_apply].
  - by apply (idx_inv_Upsert (CommitIndexLaws:=MemoryCommitIndex_laws)).
  - by apply (idx_inv_Set (CommitIndexLaws:=MemoryCommitIndex_laws)).
  - by apply (idx_inv_reset (CommitIndexLaws:=MemoryCommitIndex_laws)).
Qed.

Lemma mem_Get_run h log : mem_Get h (idx_run log NewMemoryCommitIndex) = log_Get h log.
Proof.
  induction log as [|[] log IH]; [done|..]; cbn [idx_run foldr idx_apply log_Get].
  - rewrite <-IH. apply mem_Get_Upsert.
  - rewrite <-IH. apply (idx_Get_Set (CommitIndexLaws:=MemoryCommitIndex_laws)).
  - done.
Qed.

Lemma mem_Base_run log :
  mem_FinalizedBase (idx_run log NewMemoryCommitIndex) = log_Base log.
Proof.
  induction log as [|[] log IH]; [done|..]; cbn [idx_run foldr idx_apply log_Base]; try done.
  rewrite <-IH. apply mem_Base_Set.
Qed.

Lemma StronglySorted_hlc_unique (l1 l2 : list CommitIndexEntry) :
  StronglySorted (λ a b, hlc_lt (e_HLC a) (e_HLC b)) l1 →
  StronglySorted (λ a b, hlc_lt (e_HLC a) (e_HLC b)) l2 →
  (∀ e, e ∈ l1 ↔ e ∈ l2) → l1 = l2.
Proof.
  intros H1 H2 E.
  assert (∀ l, StronglySorted (λ a b, hlc_lt (e_HLC a) (e_HLC b)) l → NoDup l) as Hnd.
  { induction 1 as [|e l _ IH Hall]; constructor; [|done].
    intros Hin. rewrite Forall_forall in Hall. by apply (hlc_lt_irrefl (e_HLC e)), Hall. }
  apply (StronglySorted_unique_strong (λ a b, hlc_lt (e_HLC a) (e_HLC b))); [|done|done|].
  - intros x y _ _ Hxy Hyx. by destruct (hlc_lt_asym _ _ Hxy).
  - apply NoDup_Permutation; auto.
Qed.
End log.

(** C11. Refinement: after any sequence of upserts, base updates and rebuilds,
    the in-memory index answers every query as the log of those operations
    prescribes.  [Get] returns the latest upsert since the last rebuild,
    [FinalizedBase] the highest base, and [ListAfter] with a limit is the
    prefix of the strictly HLC-sorted list of exactly the live entries after
    the given timestamp (everything when the limit is not positive). *)
Theorem memory_index_refines_log (R : GoRuntime) (log : list idx_op) :
  let m := idx_run log NewMemoryCommitIndex in
  (∀ h, mem_Get h m = log_Get h log) ∧
  mem_FinalizedBase m = log_Base log ∧
  (∀ after, ∃ l,
    StronglySorted (λ a b, hlc_lt (e_HLC a) (e_HLC b)) l ∧
    (∀ e, e ∈ l ↔ log_Get (e_HLC e) log = Some e ∧ hlc_lt after (e_HLC e)) ∧
    (∀ limit, mem_ListAfter after limit m = if 0 <? limit then take (Z.to_nat limit) l else l)).
Proof.
  intros m. split; [intros h; apply mem_Get_run|]. split; [apply mem_Base_run|].
  intros after. exists (mem_listing after m).
  split; [apply mem_listing_sorted, mem_inv_run|]. split.
  - intros e. rewrite elem_of_mem_listing by apply mem_inv_run. by rewrite <-mem_Get_run.
  - intros limit. destruct (Z.ltb_spec 0 limit) as [Hlim|Hlim]; [by apply mem_ListAfter_take|].
    unfold mem_ListAfter. by rewrite (proj2 (Z.ltb_ge 0 limit)).
Qed.

(** The order in which [range] visits the map and the freedom of the
    unstable sort never show: [ListAfter] is deterministic with respect to HLC
    ordering, as the interface demands. *)
Theorem ListAfter_deterministic (R1 R2 : GoRuntime) (m : MemoryCommitIndex) after limit :
  mem_inv m → @mem_ListAfter R1 after limit m = @mem_ListAfter R2 after limit m.
Proof.
  intros Hm.
  assert (@mem_listing R1 after m = @mem_listing R2 after m) as E.
  { apply StronglySorted_hlc_unique; [by apply mem_listing_sorted..|].
    intros e. by rewrite !elem_of_mem_listing. }
  unfold mem_ListAfter. fold (@mem_listing R1 after m) (@mem_listing R2 after m). by rewrite E.
Qed.

Definition example_entry (wall : Z) (st : CommitStatus) : CommitIndexEntry :=
  mkEntry (mkHLC wall 0 "peer") "hash" st zero_time (mkTime 1 0 0).

Lemma ListAfter_deterministic_witness :
  let m := mem_Upsert (mkTime 1 0 0) (example_entry 7 CommitStatusApplied) NewMemoryCommitIndex in
  mem_inv m ∧ @mem_ListAfter ref_runtime zero_HLC 0 m = @mem_ListAfter ref_runtime zero_HLC 0 m.
Proof.
  assert (mem_inv (mem_Upsert (mkTime 1 0 0) (example_entry 7 CommitStatusApplied)
    NewMemoryCommitIndex)) as H by apply mem_inv_Upsert, mem_inv_new.
  split; [exact H|]. by apply ListAfter_deterministic.
Defined.

(** The finalized base never moves back: whatever operations run on an
    index, a base that was set stays set, to the same base or to one with a
    strictly later timestamp; rebuilding the index keeps it. *)
Theorem finalized_base_monotone (R : GoRuntime) (m : MemoryCommitIndex) (log : list idx_op) b :
  mem_FinalizedBase m = Some b →
  ∃ b', mem_FinalizedBase (idx_run log m) = Some b' ∧
        (b' = b ∨ hlc_lt (fb_HLC b) (fb_HLC b')).
Proof.
  intros Hb. induction log as [|[] log (b' & IH & Hle)]; cbn [idx_run foldr idx_apply].
  - eauto.
  - eauto.
  - rewrite (idx_Base_Set (CommitIndexLaws:=MemoryCommitIndex_laws)).
    change (idx_FinalizedBase ?i) with (mem_FinalizedBase i).
    change (foldr idx_apply m log) with (idx_run log m). rewrite IH.
    case_decide as Hd; [|by eauto]. eexists; split; [done|]. right.
    rewrite stamp_base_HLC. destruct Hle as [->|Hle]; [done|]. by eapply hlc_lt_trans.
  - eauto.
Qed.

Lemma finalized_base_monotone_witness :
  let b := mkBase (mkHLC 5 0 "p") "h5" (mkTime 1 0 0) in
  let m := mkMemIndex ∅ (Some b) in
  mem_FinalizedBase m = Some b ∧
  ∃ b', mem_FinalizedBase (idx_run [OpReset;
          OpSetFinalizedBase (mkTime 2 0 0) (mkBase (mkHLC 9 0 "q") "h9" zero_time)] m) = Some b' ∧
        (b' = b ∨ hlc_lt (fb_HLC b) (fb_HLC b')).
Proof. split; [reflexivity|]. by apply (finalized_base_monotone ref_runtime). Defined.
