(* ===== verification/Linearize.v ===== *)
(** * Deterministic linearization of user commits
    ([core/reconciler_core.go]: [deduplicateByHLCDeterministic],
    [collectUserCommits], [sortCommitsByHLC], [isConflictError];
    [core/sql.go]: [Commit])

    The order in which a replay merges commits.  Peers converge because this
    order depends on nothing but the set of commits they hold. *)

From Stdlib Require Import ZArith Lia String Ascii.
From stdpp Require Import gmap strings list sorting pretty.
From S2P Require Import Prelude Hlc GoTime GoJson GoJsonFacts Metadata Index.

Open Scope Z_scope.

(** ** Data *)

Record Commit := mkCommit {
  c_Hash : string;
  c_Committer : string;
  c_Email : string;
  c_Date : Time;
  c_Message : string;
}.

#[export] Instance Commit_eq_dec : EqDecision Commit.
Proof. solve_decision. Defined.

Record commitWithMeta := mkCWM {
  cwm_commit : Commit;
  cwm_hlc : HLCTimestamp;
}.

#[export] Instance commitWithMeta_eq_dec : EqDecision commitWithMeta.
Proof. solve_decision. Defined.

Definition cwm_hash (x : commitWithMeta) : string := c_Hash (cwm_commit x).

(** ** Operations *)

Definition isConflictError (err : string) : bool :=
  contains err "conflict" || contains err "CONFLICT".

(** The key of the map [byKey]. *)
Definition dedup_key (x : commitWithMeta) : string :=
  if IsZero (cwm_hlc x) then "hash:" +:+ cwm_hash x else "hlc:" +:+ hlc_String (cwm_hlc x).

(** One iteration of the loop over the commits. *)
Definition dedup_step (byKey : gmap string commitWithMeta) (x : commitWithMeta) :
    gmap string commitWithMeta :=
  let key := dedup_key x in
  match byKey !! key with
  | None => <[key := x]> byKey
  | Some existing =>
      if str_lt (cwm_hash x) (cwm_hash existing) then <[key := x]> byKey else byKey
  end.

Definition deduplicateByHLCDeterministic `{GoRuntime} (commits : list commitWithMeta) :
    list commitWithMeta :=
  range_map (map snd (map_to_list (foldl dedup_step ∅ commits))).

(** The comparison of [sortCommitsByHLC]. *)
Definition commit_less (x y : commitWithMeta) : bool :=
  let hi := cwm_hlc x in
  let hj := cwm_hlc y in
  if IsZero hi && IsZero hj then str_lt (cwm_hash x) (cwm_hash y)
  else if IsZero hi then false
  else if IsZero hj then true
  else if Equal hi hj then str_lt (cwm_hash x) (cwm_hash y)
  else Less hi hj.

Definition sortCommitsByHLC `{GoRuntime} (commits : list commitWithMeta) : list commitWithMeta :=
  sort_slice commit_less commits.

(** The body of the two loops of [collectUserCommits]: [None] is [continue]. *)
Definition user_commit (finalizedBase : option FinalizedBase) (c : Commit) :
    option commitWithMeta :=
  match ParseCommitMetadata (c_Message c) with
  | Ok meta =>
      if negb (String.eqb (Kind meta) CommitKindUser) then None
      else match finalizedBase with
           | Some fb =>
               if negb (IsZero (fb_HLC fb)) && negb (Less (fb_HLC fb) (meta_HLC meta))
               then None else Some (mkCWM c (meta_HLC meta))
           | None => Some (mkCWM c (meta_HLC meta))
           end
  | _ => None
  end.

Definition collectUserCommits `{GoRuntime} (local imported : list Commit)
    (finalizedBase : option FinalizedBase) : list commitWithMeta :=
  let allCommits := omap (user_commit finalizedBase) local
                      ++ omap (user_commit finalizedBase) imported in
  sortCommitsByHLC (deduplicateByHLCDeterministic allCommits).

(** ** The deduplicating map *)

Lemma dedup_key_inj x y :
  dedup_key x = dedup_key y →
  cwm_hlc x = cwm_hlc y ∧ (cwm_hlc x = zero_HLC → cwm_hash x = cwm_hash y).
Proof.
  unfold dedup_key. intros E.
  destruct (IsZero (cwm_hlc x)) eqn:Hx, (IsZero (cwm_hlc y)) eqn:Hy.
  - apply IsZero_spec in Hx, Hy. apply append_inj_l in E. split; congruence.
  - by rewrite !append_cons in E.
  - by rewrite !append_cons in E.
  - apply append_inj_l, (inj hlc_String) in E. split; [done|].
    intros Hz. apply IsZero_spec in Hz. congruence.
Qed.

Lemma dedup_key_eq x y :
  cwm_hlc x = cwm_hlc y → (cwm_hlc x = zero_HLC → cwm_hash x = cwm_hash y) →
  dedup_key x = dedup_key y.
Proof.
  unfold dedup_key. intros E Hz. rewrite <-E. destruct (IsZero (cwm_hlc x)) eqn:Hx; [|done].
  apply IsZero_spec in Hx. by rewrite Hz.
Qed.

(** What the loop has established after the commits [l]: a key holds the first
    commit of that key that no other of the key precedes by hash. *)
Definition dedup_inv (l : list commitWithMeta) (m : gmap string commitWithMeta) : Prop :=
  (∀ y, y ∈ l → is_Some (m !! dedup_key y)) ∧
  ∀ k x, m !! k = Some x →
    x ∈ l ∧ k = dedup_key x ∧
    ∀ y, y ∈ l → dedup_key y = k → str_lt (cwm_hash y) (cwm_hash x) = false.

Lemma dedup_insert_inv l m x :
  dedup_inv l m →
  (∀ y, y ∈ l → dedup_key y = dedup_key x → str_lt (cwm_hash y) (cwm_hash x) = false) →
  dedup_inv (l ++ [x]) (<[dedup_key x := x]> m).
Proof.
  intros [Hs Hm] Hx. split.
  - intros y [Hy| ->%list_elem_of_singleton]%elem_of_app; rewrite lookup_insert_is_Some'; auto.
  - intros k z. rewrite lookup_insert. case_decide as Hk.
    + intros [= <-]. split; [set_solver|]. split; [done|].
      intros y [Hy| ->%list_elem_of_singleton]%elem_of_app Hky; [|apply str_lt_irrefl].
      apply Hx; congruence.
    + intros Hz. destruct (Hm _ _ Hz) as (? & -> & Hmin). split; [set_solver|].
      split; [done|]. intros y [Hy| ->%list_elem_of_singleton]%elem_of_app; [auto|done].
Qed.

Lemma dedup_step_inv l m x : dedup_inv l m → dedup_inv (l ++ [x]) (dedup_step m x).
Proof.
  intros Hinv. pose proof Hinv as [Hs Hm]. unfold dedup_step.
  destruct (m !! dedup_key x) as [e|] eqn:He; [destruct (str_lt _ _) eqn:Hlt|].
  - destruct (Hm _ _ He) as (_ & _ & Hemin). apply dedup_insert_inv; [done|].
    intros y Hy Hky. destruct (str_lt (cwm_hash y) (cwm_hash x)) eqn:Hyx; [|done].
    rewrite <-(Hemin y Hy) by congruence. symmetry. by eapply str_lt_trans.
  - split.
    + intros y [Hy| ->%list_elem_of_singleton]%elem_of_app; [auto|by rewrite He].
    + intros k z Hz. destruct (Hm _ _ Hz) as (? & -> & Hmin). split; [set_solver|].
      split; [done|]. intros y [Hy| ->%list_elem_of_singleton]%elem_of_app Hky; [auto|].
      rewrite Hky, Hz in He. by injection He as ->.
  - apply dedup_insert_inv; [done|]. intros y Hy Hky. destruct (Hs y Hy) as [? Hy']. congruence.
Qed.

Lemma dedup_fold_inv l : dedup_inv l (foldl dedup_step ∅ l).
Proof.
  induction l as [|x l IH] using rev_ind.
  - split; [set_solver|]. intros k x. cbn [foldl]. by rewrite lookup_empty.
  - rewrite foldl_snoc. by apply dedup_step_inv.
Qed.

(** ** The order of the replay *)

(** [commit_less] compares keys: commits without a timestamp come last. *)
Definition commit_lt (x y : commitWithMeta) : Prop :=
  if decide (cwm_hlc x = zero_HLC) then
    cwm_hlc y = zero_HLC ∧ str_lt (cwm_hash x) (cwm_hash y) = true
  else cwm_hlc y = zero_HLC ∨ hlc_lt (cwm_hlc x) (cwm_hlc y) ∨
       (cwm_hlc x = cwm_hlc y ∧ str_lt (cwm_hash x) (cwm_hash y) = true).

Lemma commit_less_spec x y : commit_less x y = true ↔ commit_lt x y.
Proof.
  unfold commit_less, commit_lt.
  assert (∀ h, IsZero h = bool_decide (h = zero_HLC)) as Hz.
  { intros h. apply eq_bool_prop_intro. rewrite bool_decide_spec, <-IsZero_spec.
    by destruct (IsZero h). }
  rewrite !Hz. repeat case_bool_decide; repeat case_decide; simpl; try naive_solver.
  destruct (Equal (cwm_hlc x) (cwm_hlc y)) eqn:E.
  - apply Equal_spec in E. rewrite E. split; [naive_solver|].
    intros [?|[H'|[_ ?]]]; [done| |done]. by apply hlc_lt_irrefl in H'.
  - assert (cwm_hlc x ≠ cwm_hlc y) by (intros E'; apply Equal_spec in E'; congruence).
    rewrite Less_spec. naive_solver.
Qed.

Lemma commit_lt_irrefl x : ¬ commit_lt x x.
Proof.
  unfold commit_lt. rewrite str_lt_irrefl. case_decide; [naive_solver|].
  intros [?|[?%hlc_lt_irrefl|[_ ?]]]; done.
Qed.

Lemma commit_lt_trans x y z : commit_lt x y → commit_lt y z → commit_lt x z.
Proof.
  unfold commit_lt. repeat case_decide; try naive_solver.
  - intros [_ ?] [? ?]. split; [done|]. by eapply str_lt_trans.
  - intros [?|[?|[? ?]]] [?|[?|[? ?]]]; try done; eauto.
    + right; left. by eapply hlc_lt_trans.
    + right; left. congruence.
    + right; left. congruence.
    + right; right. split; [congruence|]. by eapply str_lt_trans.
Qed.

Lemma commit_trichotomy x y :
  commit_lt x y ∨ commit_lt y x ∨ (cwm_hlc x = cwm_hlc y ∧ cwm_hash x = cwm_hash y).
Proof.
  assert (str_lt (cwm_hash x) (cwm_hash y) = true ∨ str_lt (cwm_hash y) (cwm_hash x) = true
          ∨ cwm_hash x = cwm_hash y) as Hh.
  { destruct (str_lt (cwm_hash x) (cwm_hash y)) eqn:H1; [by left|].
    destruct (str_lt (cwm_hash y) (cwm_hash x)) eqn:H2; [by right; left|].
    right; right. by apply str_lt_total. }
  unfold commit_lt. destruct (hlc_trichotomy (cwm_hlc x) (cwm_hlc y)) as [H|[H|H]];
    case_decide as Hx; case_decide as Hy; try (rewrite Hx, Hy in H; by apply hlc_lt_irrefl in H);
    naive_solver.
Qed.

Lemma commit_less_strict_weak : strict_weak commit_less.
Proof.
  assert (∀ x y, commit_less x y = false ↔ ¬ commit_lt x y) as Hf.
  { intros x y. rewrite <-commit_less_spec. by destruct (commit_less x y). }
  split.
  - intros x. apply Hf, commit_lt_irrefl.
  - intros x y z. rewrite !commit_less_spec. apply commit_lt_trans.
  - intros x y z. rewrite !Hf. intros Hxy Hyz Hxz.
    destruct (commit_trichotomy x y) as [?|[Hyx|[E1 E2]]]; [done| |].
    + by destruct Hyz; eapply commit_lt_trans.
    + destruct Hyz. revert Hxz. unfold commit_lt. by rewrite E1, E2.
Qed.

(** ** What a linearization contains *)

(** A hash identifies a commit: the commits of the list are content-addressed. *)
Definition hash_functional (l : list Commit) : Prop :=
  ∀ c c', c ∈ l → c' ∈ l → c_Hash c = c_Hash c' → c = c'.

(** The commits of [l] that take part in a replay above the base. *)
Definition candidate (fb : option FinalizedBase) (l : list Commit) (x : commitWithMeta) : Prop :=
  cwm_commit x ∈ l ∧
  (∃ meta, ParseCommitMetadata (c_Message (cwm_commit x)) = Ok meta ∧ meta_HLC meta = cwm_hlc x) ∧
  IsAfterFinalizedBase (cwm_hlc x) fb = true.

(** The commit that represents its timestamp: the one of smallest hash.
    Commits without a timestamp represent themselves. *)
Definition winner (fb : option FinalizedBase) (l : list Commit) (x : commitWithMeta) : Prop :=
  candidate fb l x ∧
  ∀ y, candidate fb l y → cwm_hlc y = cwm_hlc x → cwm_hlc x ≠ zero_HLC →
    str_lt (cwm_hash y) (cwm_hash x) = false.

(** The guard of the loops is [IsAfterFinalizedBase]. *)
Lemma user_commit_spec fb c :
  user_commit fb c =
    match ParseCommitMetadata (c_Message c) with
    | Ok meta => if IsAfterFinalizedBase (meta_HLC meta) fb then Some (mkCWM c (meta_HLC meta)) else None
    | _ => None
    end.
Proof.
  unfold user_commit. destruct (ParseCommitMetadata _) as [meta| |] eqn:Hp; [|done..].
  rewrite (Parse_kind _ _ Hp). simpl. destruct fb as [fb|]; [|done]. simpl.
  by destruct (IsZero _), (Less _ _).
Qed.

Lemma elem_of_candidates fb l x : x ∈ omap (user_commit fb) l ↔ candidate fb l x.
Proof.
  rewrite list_elem_of_omap. split.
  - intros (c & Hc & Hu). rewrite user_commit_spec in Hu.
    destruct (ParseCommitMetadata _) as [meta| |] eqn:Hp; [|done..].
    destruct (IsAfterFinalizedBase _ _) eqn:Ha; [|done]. injection Hu as <-.
    split; [done|]. split; [by exists meta|done].
  - destruct x as [c h]. intros (Hc & (meta & Hp & Hh) & Ha). simpl in *.
    exists c. split; [done|]. by rewrite user_commit_spec, Hp, Hh, Ha.
Qed.

Lemma candidate_hash_eq fb l x y :
  hash_functional l → candidate fb l x → candidate fb l y → cwm_hash x = cwm_hash y → x = y.
Proof.
  destruct x as [c h], y as [c' h']. intros Hf (Hc & (m & Hm & Hh) & _) (Hc' & (m' & Hm' & Hh') & _) E.
  simpl in *. pose proof (Hf c c' Hc Hc' E) as <-. rewrite Hm in Hm'. injection Hm' as <-.
  by subst.
Qed.

Section collect.
Context `{R : GoRuntime}.

Lemma elem_of_dedup l x :
  x ∈ deduplicateByHLCDeterministic l ↔ foldl dedup_step ∅ l !! dedup_key x = Some x.
Proof.
  unfold deduplicateByHLCDeterministic. rewrite elem_of_range_map.
  change (map snd ?l) with (snd <$> l). rewrite list_elem_of_fmap. split.
  - intros ([k y] & -> & Hy). apply elem_of_map_to_list in Hy. simpl.
    by destruct (proj2 (dedup_fold_inv l) _ _ Hy) as (_ & <- & _).
  - intros Hx. exists (dedup_key x, x). split; [done|]. by apply elem_of_map_to_list.
Qed.

Lemma elem_of_collect local imported fb x :
  hash_functional (local ++ imported) →
  x ∈ collectUserCommits local imported fb ↔ winner fb (local ++ imported) x.
Proof.
  intros Hf. unfold collectUserCommits, sortCommitsByHLC.
  rewrite elem_of_sort_slice, elem_of_dedup, <-omap_app.
  destruct (dedup_fold_inv (omap (user_commit fb) (local ++ imported))) as [Hs Hm].
  set (m := foldl _ _ _) in *. unfold winner. split.
  - intros Hx. destruct (Hm _ _ Hx) as (Hel & _ & Hmin).
    split; [by apply elem_of_candidates|]. intros y Hy E Hz.
    apply Hmin; [by apply elem_of_candidates|]. apply dedup_key_eq; congruence.
  - intros [Hx Hmin]. pose proof (proj2 (elem_of_candidates _ _ _) Hx) as Hel.
    destruct (Hs x Hel) as [y Hy]. rewrite Hy. f_equal.
    destruct (Hm _ _ Hy) as (Hyl & Hk & Hymin). apply dedup_key_inj in Hk as [E Hz].
    apply elem_of_candidates in Hyl. apply (candidate_hash_eq fb (local ++ imported)); [done..|].
    destruct (decide (cwm_hlc x = zero_HLC)); [by symmetry; auto|].
    apply str_lt_total; [by apply Hmin|by apply Hymin].
Qed.

Lemma NoDup_collect local imported fb : NoDup (collectUserCommits local imported fb).
Proof.
  unfold collectUserCommits, sortCommitsByHLC, deduplicateByHLCDeterministic.
  rewrite sort_slice_perm, range_map_perm.
  set (l := omap _ _ ++ omap _ _). change (map snd ?l) with (snd <$> l).
  apply NoDup_fmap_2_strong; [|apply NoDup_map_to_list].
  intros [k x] [k' y] Hx Hy. simpl. intros <-. apply elem_of_map_to_list in Hx, Hy.
  destruct (proj2 (dedup_fold_inv l) _ _ Hx) as (_ & -> & _).
  by destruct (proj2 (dedup_fold_inv l) _ _ Hy) as (_ & -> & _).
Qed.

Lemma collect_sorted local imported fb :
  hash_functional (local ++ imported) →
  StronglySorted commit_lt (collectUserCommits local imported fb).
Proof.
  intros Hf. pose proof (NoDup_collect local imported fb) as Hnd.
  assert (∀ x, x ∈ collectUserCommits local imported fb → candidate fb (local ++ imported) x) as Hc
    by (intros x Hx; by apply (elem_of_collect local imported fb x Hf) in Hx as [? _]).
  assert (Sorted (not_less commit_less) (collectUserCommits local imported fb)) as Hs
    by apply sort_slice_sorted, commit_less_strict_weak.
  pose proof (sw_le_trans _ commit_less_strict_weak).
  apply Sorted_StronglySorted in Hs; [|done]. revert Hnd Hc Hs.
  generalize (collectUserCommits local imported fb). intros l Hnd Hc Hs.
  induction Hs as [|x l Hs IH Hall]; [constructor|].
  apply NoDup_cons in Hnd as [Hn Hnd]. constructor; [apply IH; set_solver|].
  rewrite Forall_forall in *. intros y Hy. specialize (Hall y Hy). unfold not_less in Hall.
  destruct (commit_trichotomy x y) as [?|[Hyx|[E1 E2]]]; [done| |].
  - apply commit_less_spec in Hyx. congruence.
  - destruct Hn. by rewrite (candidate_hash_eq fb (local ++ imported) x y); [|auto with set_solver..].
Qed.
End collect.

Lemma StronglySorted_commit_unique (l1 l2 : list commitWithMeta) :
  StronglySorted commit_lt l1 → StronglySorted commit_lt l2 → (∀ x, x ∈ l1 ↔ x ∈ l2) → l1 = l2.
Proof.
  intros H1 H2 E.
  assert (∀ l, StronglySorted commit_lt l → NoDup l) as Hnd.
  { induction 1 as [|x l _ IH Hall]; constructor; [|done].
    intros Hin. rewrite Forall_forall in Hall. by apply (commit_lt_irrefl x), Hall. }
  apply (StronglySorted_unique_strong commit_lt); [|done|done|].
  - intros x y _ _ Hxy Hyx. by destruct (commit_lt_irrefl x); eapply commit_lt_trans.
  - apply NoDup_Permutation; auto.
Qed.



(** ** Properties *)

(** C5. Convergence of the merge order: two replicas that hold the same set of
    commits, however split between local and imported, in whatever order they
    were walked, with repetitions, and whatever their map iteration and sort
    do, replay the same list of commits in the same order. *)
Theorem linearization_convergent (R1 R2 : GoRuntime) (local1 imported1 local2 imported2 : list Commit)
    (fb : option FinalizedBase)
  (Hhash : hash_functional (local1 ++ imported1))
  (Hsame : ∀ c, c ∈ local1 ++ imported1 ↔ c ∈ local2 ++ imported2) :
  @collectUserCommits R1 local1 imported1 fb = @collectUserCommits R2 local2 imported2 fb.
Proof.
  assert (hash_functional (local2 ++ imported2)) as Hhash2
    by (intros c c' Hc Hc'; apply Hhash; by apply Hsame).
  apply StronglySorted_commit_unique; [by apply collect_sorted..|].
  intros x. rewrite !elem_of_collect by done. unfold winner, candidate.
  setoid_rewrite Hsame. done.
Qed.

Definition example_commit (hash : string) (wall : Z) : Commit :=
  mkCommit hash "p" "p@doltswarm" (mkTime 1700000000 0 0)
    (match Marshal (mkMeta "user" "m" (mkHLC wall 0 "p") "" "p" "p@doltswarm" (mkTime 1700000000 0 0) "") with
     | Ok s => s | _ => "" end).

Definition example_local : list Commit := [example_commit "h1" 1; example_commit "h2" 2].
Definition example_imported : list Commit := [example_commit "h3" 2; example_commit "h4" 1].

Lemma example_hash_functional : hash_functional (example_local ++ example_imported).
Proof.
  intros c c' Hc Hc'. cbn [example_local example_imported app] in *.
  apply list_elem_of_In in Hc, Hc'.
  destruct Hc as [<-|[<-|[<-|[<-|[]]]]], Hc' as [<-|[<-|[<-|[<-|[]]]]]; simpl; congruence.
Qed.

Lemma linearization_convergent_witness :
  @collectUserCommits ref_runtime example_local example_imported None
    = @collectUserCommits ref_runtime example_imported example_local None ∧
  map cwm_hash (collectUserCommits example_local example_imported None) = ["h1"; "h2"].
Proof.
  split; [|vm_compute; reflexivity].
  apply (linearization_convergent ref_runtime ref_runtime).
  - apply example_hash_functional.
  - intros c. rewrite !elem_of_app. tauto.
Defined.

(** C6. What is replayed: the list is sorted by HLC (commits without one last,
    ties by hash) with no repetition, and it contains a commit exactly when
    the commit is one of the inputs, carries user metadata, lies strictly
    after the finalized base, and has the smallest hash among the commits that
    claim its timestamp. *)
Theorem linearization_spec (R : GoRuntime) (local imported : list Commit) (fb : option FinalizedBase)
  (Hhash : hash_functional (local ++ imported)) :
  StronglySorted commit_lt (collectUserCommits local imported fb) ∧
  ∀ x, x ∈ collectUserCommits local imported fb ↔ winner fb (local ++ imported) x.
Proof. split; [by apply collect_sorted|]. intros x. by apply elem_of_collect. Qed.

Lemma linearization_spec_witness :
  let l := @collectUserCommits ref_runtime example_local example_imported None in
  StronglySorted commit_lt l ∧ ∀ x, x ∈ l ↔ winner None (example_local ++ example_imported) x.
Proof. apply (linearization_spec ref_runtime). apply example_hash_functional. Defined.


