(* ===== verification/Dolt.v ===== *)
(** * The Dolt engine as the core sees it

    The core drives Dolt through [database/sql]: statements that change the
    repository and queries that read it.  This file gives the statements and
    queries of the code as data, with the SQL text each is sent as (the texts
    of [core/reconciler_core.go], [core/node.go], [core/db.go],
    [core/sql.go] and [core/commit_sql_helpers.go]).  The engine itself is a
    third-party package: it is a class, whose laws state the documented effect
    of each statement on branches and on the commit graph.  [ToyDolt] holds an
    engine that obeys the laws. *)

From Stdlib Require Import ZArith Lia String Ascii.
From stdpp Require Import gmap strings list sorting pretty.
From S2P Require Import Prelude Hlc GoTime GoJson GoJsonFacts Metadata Sql Index Linearize.

Open Scope Z_scope.

(** ** SQL texts *)

(** Statements.  Arguments are the values that [fmt.Sprintf] receives before
    any escaping. *)
Inductive stmt :=
| DoltBranchForce (name start : string)
| DoltBranchDelete (name : string)
| DoltCheckout (branch : string)
| DoltResetHard (ref : string)
| DoltMerge (rev : string)
| DoltMergeAbort
| DoltMergeFFOnly (rev : string)
| DoltCommitAmend (msg author email date : string)
| DoltCommitAll (msg author email date : string)
| DoltTag (msg author email name commitHash : string)
| DoltRemoteRemove (name : string)
| DoltRemoteAdd (name url : string)
| DoltFetch (remote : string)
| CreateDatabase (name : string)
| UseDatabase (name : string)
| CommitTransaction.

(** The text of a statement.  Only some arguments go through [escapeSQL],
    which is where the code calls it. *)
Definition render (s : stmt) : string :=
  match s with
  | DoltBranchForce name start => "CALL DOLT_BRANCH('-f', " +:+ quote name +:+ ", " +:+ quote start +:+ ");"
  | DoltBranchDelete name => "CALL DOLT_BRANCH('-D', " +:+ quote name +:+ ");"
  | DoltCheckout branch => "CALL DOLT_CHECKOUT(" +:+ quote branch +:+ ");"
  | DoltResetHard ref => "CALL DOLT_RESET('--hard', " +:+ quote ref +:+ ");"
  | DoltMerge rev => "CALL DOLT_MERGE(" +:+ quote rev +:+ ");"
  | DoltMergeAbort => "CALL DOLT_MERGE('--abort');"
  | DoltMergeFFOnly rev => "CALL DOLT_MERGE('--ff-only', " +:+ quote rev +:+ ");"
  | DoltCommitAmend msg author email date =>
      "CALL DOLT_COMMIT('--amend', '-m', " +:+ quote (escapeSQL msg) +:+ ", '--author', "
        +:+ quote (escapeSQL author +:+ " <" +:+ escapeSQL email +:+ ">") +:+ ", '--date', "
        +:+ quote date +:+ ");"
  | DoltCommitAll msg author email date =>
      "CALL DOLT_COMMIT('-A', '-m', " +:+ quote (escapeSQL msg) +:+ ", '--author', "
        +:+ quote (author +:+ " <" +:+ email +:+ ">") +:+ ", '--date', " +:+ quote date +:+ ");"
  | DoltTag msg author email name commitHash =>
      "CALL DOLT_TAG('-m', " +:+ quote msg +:+ ", '--author', "
        +:+ quote (author +:+ " <" +:+ email +:+ ">") +:+ ", " +:+ quote name +:+ ", "
        +:+ quote commitHash +:+ ");"
  | DoltRemoteRemove name => "CALL DOLT_REMOTE('remove'," +:+ quote name +:+ ");"
  | DoltRemoteAdd name url => "CALL DOLT_REMOTE('add'," +:+ quote name +:+ "," +:+ quote (escapeSQL url) +:+ ");"
  | DoltFetch remote => "CALL DOLT_FETCH(" +:+ quote remote +:+ ");"
  | CreateDatabase name => "CREATE DATABASE " +:+ name +:+ ";"
  | UseDatabase name => "USE " +:+ name +:+ ";"
  | CommitTransaction => "commit;"
  end.

(** Queries, by the type of a row; [option string] is a nullable column. *)
Inductive qry : Type → Type :=
| QHashOf (ref : string) : qry (option string)
| QBranchHash (name : string) : qry (option string)
| QRemoteBranchHash (name : string) : qry (option string)
| QCommit (hash : string) : qry Commit
| QLog (ref : string) : qry Commit
| QLogHead (ref : string) : qry Commit
| QLogOldest (ref : string) : qry Commit
| QLogWhere (ref hash : string) : qry Commit
| QParents (hash : string) : qry (option string)
| QFirstParent (hash : string) : qry (option string)
| QMergeBase (leftRef rightRef : string) : qry (option string)
| QRemoteURL (name : string) : qry (option string)
| QContentHash : qry (option string)
| QDiffSummary (from to : string) : qry (option string)
| QShowDatabases (like : string) : qry (option string).

(** The text of a query and its bound parameters. *)
Definition commit_columns : string := "SELECT commit_hash, committer, email, date, message FROM ".
Definition query_text {A} (q : qry A) : string * list string :=
  match q with
  | QHashOf ref => ("SELECT HASHOF(" +:+ quote (escapeSQL ref) +:+ ");", [])
  | QBranchHash name => ("SELECT hash FROM dolt_branches WHERE name = ? LIMIT 1;", [name])
  | QRemoteBranchHash name => ("SELECT hash FROM dolt_remote_branches WHERE name = ? LIMIT 1;", [name])
  | QCommit hash => (commit_columns +:+ "dolt_commits WHERE commit_hash = ? LIMIT 1;", [hash])
  | QLog ref => (commit_columns +:+ "dolt_log(" +:+ quote (escapeSQL ref) +:+ ");", [])
  | QLogHead ref => (commit_columns +:+ "dolt_log(" +:+ quote (escapeSQL ref) +:+ ") LIMIT 1;", [])
  | QLogOldest ref => (commit_columns +:+ "dolt_log(" +:+ quote ref +:+ ") ORDER BY date ASC LIMIT 1;", [])
  | QLogWhere ref hash =>
      (commit_columns +:+ "dolt_log(" +:+ quote ref +:+ ") WHERE commit_hash = "
         +:+ quote (escapeSQL hash) +:+ " LIMIT 1;", [])
  | QParents hash =>
      ("SELECT parent_hash FROM dolt_commit_ancestors WHERE commit_hash = ? ORDER BY parent_index ASC", [hash])
  | QFirstParent hash =>
      ("SELECT parent_hash FROM dolt_commit_ancestors WHERE commit_hash = ? AND parent_index = 0 LIMIT 1", [hash])
  | QMergeBase l r => ("SELECT DOLT_MERGE_BASE(?, ?);", [l; r])
  | QRemoteURL name => ("SELECT url FROM dolt_remotes WHERE name = " +:+ quote name +:+ " LIMIT 1;", [])
  | QContentHash => ("SELECT dolt_hashof_db('WORKING')", [])
  | QDiffSummary from to =>
      ("SELECT to_table_name FROM DOLT_DIFF_SUMMARY(" +:+ quote from +:+ ", " +:+ quote to +:+ ")", [])
  | QShowDatabases like => ("SHOW DATABASES LIKE " +:+ quote like, [])
  end.

(** ** The observable state of a repository *)

(** The commits with their parents, the root value (the hash of all tables)
    that each commit holds, the heads of the branches and of the fetched
    branches, and the remotes. *)
Record dview := mkView {
  v_commits : gmap string (Commit * list string);
  v_trees : gmap string string;
  v_branches : gmap string string;
  v_remote_branches : gmap string string;
  v_remotes : gmap string string;
}.

(** A commit hash is 32 characters of Dolt's base-32 alphabet. *)
Definition hash_char (c : ascii) : bool :=
  let n := nat_of_ascii c in
  ((48 <=? n) && (n <=? 57) || (97 <=? n) && (n <=? 118))%nat.
Fixpoint all_chars (f : ascii → bool) (s : string) : bool :=
  match s with
  | EmptyString => true
  | String c s => f c && all_chars f s
  end.
Definition is_hash (s : string) : bool :=
  (String.length s =? 32)%nat && all_chars hash_char s.

(** What a revision names on a session whose current branch is [cur]. *)
Definition resolve (v : dview) (cur ref : string) : option string :=
  if String.eqb ref "HEAD" then v_branches v !! cur
  else if is_hash ref then (λ _, ref) <$> v_commits v !! ref
  else match v_branches v !! ref with
       | Some h => Some h
       | None => v_remote_branches v !! ref
       end.

Definition parents (v : dview) (h : string) : list string :=
  match v_commits v !! h with Some (_, ps) => ps | None => [] end.

(** [a] is [b] or one of its ancestors. *)
Definition ancestor (v : dview) : relation string := rtc (λ a b, a ∈ parents v b).

(** Integrity of a repository: hashes are hashes and name their commit,
    parents and heads exist, exactly the commits have a root value. *)
Record view_wf (v : dview) : Prop := {
  wf_hash : ∀ h c ps, v_commits v !! h = Some (c, ps) → is_hash h = true ∧ c_Hash c = h;
  wf_parents : ∀ h c ps p, v_commits v !! h = Some (c, ps) → p ∈ ps → is_Some (v_commits v !! p);
  wf_heads : ∀ b h, v_branches v !! b = Some h → is_Some (v_commits v !! h);
  wf_remote_heads : ∀ b h, v_remote_branches v !! b = Some h → is_Some (v_commits v !! h);
  wf_trees : ∀ h, is_Some (v_trees v !! h) ↔ is_Some (v_commits v !! h);
}.

(** ** Documented effects *)

(** A merge of [h] into [old]: nothing to do when [h] is already there, a
    fast-forward when [old] is behind [h], otherwise a merge commit. *)
Definition merge_result (v v' : dview) (old h new : string) : Prop :=
  (ancestor v h old ∧ new = old) ∨
  (ancestor v old h ∧ new = h) ∨
  (∃ c, v_commits v' !! new = Some (c, [old; h])).

(** [effect v cur s v' cur']: a session on branch [cur] runs [s] without
    error.  The message of a commit is the value of the literal in the text.
    Amending gives the head a new message; its parents and its tables stay. *)
Definition effect (v : dview) (cur : string) (s : stmt) (v' : dview) (cur' : string) : Prop :=
  match s with
  | DoltBranchForce b start =>
      ∃ h, resolve v cur start = Some h ∧ v_branches v' = <[b := h]> (v_branches v) ∧ cur' = cur
  | DoltBranchDelete b =>
      b ≠ cur ∧ v_branches v' = delete b (v_branches v) ∧ cur' = cur
  | DoltCheckout b =>
      is_Some (v_branches v !! b) ∧ v_branches v' = v_branches v ∧ cur' = b
  | DoltResetHard ref =>
      ∃ h, resolve v cur ref = Some h ∧ v_branches v' = <[cur := h]> (v_branches v) ∧ cur' = cur
  | DoltMerge rev =>
      ∃ old h new, v_branches v !! cur = Some old ∧ resolve v cur rev = Some h ∧
        merge_result v v' old h new ∧ v_branches v' = <[cur := new]> (v_branches v) ∧ cur' = cur
  | DoltMergeFFOnly rev =>
      ∃ old h new, v_branches v !! cur = Some old ∧ resolve v cur rev = Some h ∧
        (ancestor v h old ∧ new = old ∨ ancestor v old h ∧ new = h) ∧
        v_branches v' = <[cur := new]> (v_branches v) ∧ cur' = cur
  | DoltCommitAmend msg author email date =>
      ∃ old new c, v_branches v !! cur = Some old ∧
        v_commits v' !! new = Some (c, parents v old) ∧ v_trees v' !! new = v_trees v !! old ∧
        (∀ m, literal_value msg = Some m → c_Message c = m) ∧
        v_branches v' = <[cur := new]> (v_branches v) ∧ cur' = cur
  | DoltCommitAll msg author email date =>
      ∃ old new c, v_branches v !! cur = Some old ∧
        v_commits v' !! new = Some (c, [old]) ∧
        (∀ m, literal_value msg = Some m → c_Message c = m) ∧
        v_branches v' = <[cur := new]> (v_branches v) ∧ cur' = cur
  | DoltRemoteRemove name =>
      v_branches v' = v_branches v ∧ cur' = cur ∧ v_remotes v' = delete name (v_remotes v)
  | DoltRemoteAdd name url =>
      v_branches v' = v_branches v ∧ cur' = cur ∧
      (∀ u, literal_value url = Some u → v_remotes v' = <[name := u]> (v_remotes v))
  | DoltMergeAbort | DoltTag _ _ _ _ _ | DoltFetch _
  | CreateDatabase _ | UseDatabase _ | CommitTransaction =>
      v_branches v' = v_branches v ∧ cur' = cur
  end.

(** What the text of an error of a remote statement says. *)
Definition remote_error (v : dview) (s : stmt) (e : string) : Prop :=
  match s with
  | DoltRemoteRemove name => contains e "unknown remote" = true → v_remotes v !! name = None
  | DoltRemoteAdd name url => contains e "already exists" = true → is_Some (v_remotes v !! name)
  | _ => True
  end.

(** The rows of [dolt_commit_ancestors] for a commit, in the order of
    [parent_index]: one row with a null parent for a root. *)
Definition parent_rows (v : dview) (h : string) : list (option string) :=
  match v_commits v !! h with
  | None => []
  | Some (_, []) => [None]
  | Some (_, ps) => Some <$> ps
  end.

(** The answer to a query; queries that the theorems do not constrain may
    return anything. *)
Definition answers (v : dview) (cur : string) {A} (q : qry A) : list A → Prop :=
  match q in qry T return list T → Prop with
  | QHashOf ref => λ rows, rows = match resolve v cur ref with Some h => [Some h] | None => [] end
  | QBranchHash name => λ rows, rows = match v_branches v !! name with Some h => [Some h] | None => [] end
  | QRemoteBranchHash name =>
      λ rows, rows = match v_remote_branches v !! name with Some h => [Some h] | None => [] end
  | QCommit h => λ rows, rows = match v_commits v !! h with Some (c, _) => [c] | None => [] end
  | QLog ref => λ rows,
      match resolve v cur ref with
      | Some h => ∃ c ps rest, v_commits v !! h = Some (c, ps) ∧ rows = c :: rest ∧
                    (∀ c', c' ∈ rows → ∃ h' ps', v_commits v !! h' = Some (c', ps') ∧ ancestor v h' h)
      | None => rows = []
      end
  | QLogHead ref => λ rows,
      match resolve v cur ref with
      | Some h => ∃ c ps, v_commits v !! h = Some (c, ps) ∧ rows = [c]
      | None => rows = []
      end
  | QParents h => λ rows, rows = parent_rows v h
  | QFirstParent h => λ rows, rows = take 1 (parent_rows v h)
  | QMergeBase l r => λ rows,
      match resolve v cur l, resolve v cur r with
      | Some a, Some b =>
          (∃ m, rows = [Some m] ∧ is_Some (v_commits v !! m) ∧ ancestor v m a ∧ ancestor v m b) ∨
          (rows = [None] ∧ ∀ m, ¬ (ancestor v m a ∧ ancestor v m b))
      | _, _ => rows = []
      end
  | QRemoteURL name => λ rows, rows = match v_remotes v !! name with Some u => [Some u] | None => [] end
  | _ => λ _, True
  end.

(** ** The engine *)

(** [pool] stands for the handle [*sql.DB], whose statements run on a session
    of the pool; [open_conn] is [sqldb.Conn].  [time_now] is [time.Now]: the
    machine's clock is part of the world. *)
Class Dolt (W : Type) := {
  conn : Type;
  pool : conn;
  open_conn : M W conn;
  close_conn : conn → M W unit;
  exec : conn → stmt → M W unit;
  query : ∀ {A : Type}, conn → qry A → M W (list A);
  call_commit : conn → stmt → M W string;
  begin_tx : M W conn;
  tx_commit : conn → M W unit;
  tx_rollback : conn → M W unit;
  time_now : M W Time;
}.

(** What the engine's documentation promises.  [view] is the repository that
    queries show, [current] the branch of a session.  A statement that fails
    has moved no branch; commits are never removed and keep their
    root values; queries, sessions and the
    clock change nothing; the error of a failed query is not the sentinel by
    which [database/sql] reports an empty result.  A commit is durable once
    [DOLT_COMMIT] has returned: ending the transaction around it changes
    neither the branches nor the commits. *)
Class DoltLaws (W : Type) `{Dolt W} := {
  view : W → dview;
  current : W → conn → string;
  wf_world : W → Prop;
  wf_world_view : ∀ w, wf_world w → view_wf (view w);
  exec_wf : ∀ c s w, wf_world w → wf_world (exec c s w).2;
  exec_ok : ∀ c s w u w', wf_world w → exec c s w = (Ok u, w') →
    effect (view w) (current w c) s (view w') (current w' c);
  exec_err : ∀ c s w, wf_world w → is_ok (exec c s w).1 = false →
    v_branches (view (exec c s w).2) = v_branches (view w) ∧
    v_remotes (view (exec c s w).2) = v_remotes (view w) ∧
    current (exec c s w).2 c = current w c;
  exec_err_text : ∀ c s w e w', wf_world w → exec c s w = (Err e, w') → remote_error (view w) s e;
  exec_grow : ∀ c s w, wf_world w → v_commits (view w) ⊆ v_commits (view (exec c s w).2);
  exec_trees : ∀ c s w, wf_world w → v_trees (view w) ⊆ v_trees (view (exec c s w).2);
  exec_no_panic : ∀ c s w e, wf_world w → (exec c s w).1 ≠ Panic e;
  query_pure : ∀ A c (q : qry A) w, view (query c q w).2 = view w ∧
    current (query c q w).2 = current w ∧ (wf_world w → wf_world (query c q w).2);
  query_ok : ∀ A c (q : qry A) w rows w', wf_world w → query c q w = (Ok rows, w') →
    answers (view w) (current w c) q rows;
  query_err : ∀ A c (q : qry A) w e w', query c q w = (Err e, w') → is_no_rows e = false;
  query_no_panic : ∀ A c (q : qry A) w e, (query c q w).1 ≠ Panic e;
  conn_pure : ∀ w, view (open_conn w).2 = view w ∧ (wf_world w → wf_world (open_conn w).2);
  close_pure : ∀ c w, view (close_conn c w).2 = view w ∧ (wf_world w → wf_world (close_conn c w).2);
  conn_no_panic : ∀ w e, (open_conn w).1 ≠ Panic e;
  close_no_panic : ∀ c w e, (close_conn c w).1 ≠ Panic e;
  call_wf : ∀ c s w, wf_world w → wf_world (call_commit c s w).2;
  call_ok : ∀ c s w h w', wf_world w → call_commit c s w = (Ok h, w') →
    effect (view w) (current w c) s (view w') (current w' c) ∧
    v_branches (view w') !! current w' c = Some h;
  call_err : ∀ c s w, wf_world w → is_ok (call_commit c s w).1 = false →
    v_branches (view (call_commit c s w).2) = v_branches (view w) ∧
    v_remotes (view (call_commit c s w).2) = v_remotes (view w) ∧
    current (call_commit c s w).2 c = current w c;
  call_grow : ∀ c s w, wf_world w → v_commits (view w) ⊆ v_commits (view (call_commit c s w).2);
  tx_pure : ∀ w, view (begin_tx w).2 = view w ∧ (wf_world w → wf_world (begin_tx w).2);
  tx_commit_pure : ∀ c w, view (tx_commit c w).2 = view w ∧ (wf_world w → wf_world (tx_commit c w).2);
  tx_rollback_pure : ∀ c w, view (tx_rollback c w).2 = view w ∧ (wf_world w → wf_world (tx_rollback c w).2);
  time_pure : ∀ w, view (time_now w).2 = view w ∧ current (time_now w).2 = current w ∧
    (wf_world w → wf_world (time_now w).2);
  time_ok : ∀ w, is_ok (time_now w).1 = true;
}.

(** ** Code over a larger state

    The components keep more state than the repository; [lift] runs an engine
    call on the part of the state that is the world. *)

Class HasWorld (St W : Type) := {
  get_world : St → W;
  set_world : W → St → St;
  get_set_world : ∀ w s, get_world (set_world w s) = w;
}.

Definition lift {St W A} `{HasWorld St W} (m : M W A) : M St A := λ s,
  let '(r, w') := m (get_world s) in (r, set_world w' s).

(** [q.QueryRow(...).Scan(&x)]: the first row, or [sql.ErrNoRows]. *)
Definition query_row {St W A} `{Dolt W, HasWorld St W} (c : conn) (q : qry A) : M St A :=
  let* rows := lift (query c q) in
  match rows with
  | [] => fail ErrNoRows
  | row :: _ => ret row
  end.

(** Scanning a nullable column into a [string]. *)
Definition scan_string {St} (v : option string) : M St string :=
  match v with
  | Some s => ret s
  | None => fail "sql: Scan error on column index 0: converting NULL to string is unsupported"
  end.

(** Scanning into a [sql.NullString], read as its [String] field. *)
Definition null_string (v : option string) : string := default "" v.
