(* ===== verification/ToyDolt.v ===== *)
(** * A small engine that obeys the laws

    The laws of [Dolt] are satisfiable: this engine keeps a repository in
    memory and has one session.  Closed examples evaluate on it. *)

From Stdlib Require Import ZArith Lia String Ascii.
From stdpp Require Import gmap strings list sorting pretty.
From S2P Require Import Prelude Hlc GoTime GoJson GoJsonFacts Metadata Sql Index Linearize Dolt.

Local Open Scope Z_scope.

Record toy := mkToy {
  t_view : dview;
  t_cur : string;
  t_next : Z;
  t_time : Z;
  t_conflicts : gset string;
}.

Definition toy_hash (n : Z) : string := digits 32 n.

(** A bounded search for an ancestor. *)
Fixpoint anc (n : nat) (v : dview) (a b : string) : bool :=
  String.eqb a b ||
  match n with
  | O => false
  | S n => existsb (anc n v a) (parents v b)
  end.
Definition anc_depth : nat := 12.

Definition with_branches (br : gmap string string) (t : toy) : toy :=
  mkToy (mkView (v_commits (t_view t)) (v_trees (t_view t)) br (v_remote_branches (t_view t)) (v_remotes (t_view t)))
    (t_cur t) (t_next t) (t_time t) (t_conflicts t).

Definition with_remotes (rs : gmap string string) (t : toy) : toy :=
  mkToy (mkView (v_commits (t_view t)) (v_trees (t_view t)) (v_branches (t_view t)) (v_remote_branches (t_view t)) rs)
    (t_cur t) (t_next t) (t_time t) (t_conflicts t).

Definition set_cur (b : string) (t : toy) : toy :=
  mkToy (t_view t) b (t_next t) (t_time t) (t_conflicts t).

(** A new commit on the current branch; its root value is that of [like] when
    it is given, and a new one, named after the commit, otherwise. *)
Definition add_commit (msg : string) (ps : list string) (like : option string) : M toy string := λ t,
  let v := t_view t in
  let h := toy_hash (t_next t) in
  if (0 <=? t_next t) && (t_next t <? 10 ^ 32) then
    match v_commits v !! h with
    | Some _ => (Err "hash collision", t)
    | None =>
        let tree := default h (like ≫= λ old, v_trees v !! old) in
        (Ok h, mkToy (mkView (<[h := (mkCommit h "" "" zero_time msg, ps)]> (v_commits v))
                        (<[h := tree]> (v_trees v))
                        (<[t_cur t := h]> (v_branches v)) (v_remote_branches v) (v_remotes v))
                 (t_cur t) (t_next t + 1) (t_time t) (t_conflicts t))
    end
  else (Err "out of hashes", t).

Definition toy_current (t : toy) : string := t_cur t.

Definition toy_head : M toy string := λ t,
  match v_branches (t_view t) !! t_cur t with
  | Some h => (Ok h, t)
  | None => (Err "branch not found", t)
  end.

Definition toy_resolve (ref : string) : M toy string := λ t,
  match resolve (t_view t) (t_cur t) ref with
  | Some h => (Ok h, t)
  | None => (Err "unknown revision", t)
  end.

Definition set_branch (b h : string) : M toy unit :=
  modify (λ t, with_branches (<[b := h]> (v_branches (t_view t))) t).

Definition toy_merge (rev : string) : M toy unit :=
  let* old := toy_head in
  let* h := toy_resolve rev in
  let* v := gets t_view in
  let* conflicts := gets t_conflicts in
  if bool_decide (h ∈ conflicts) then fail "merge conflict detected"
  else if anc anc_depth v h old then ret tt
  else let* cur := gets t_cur in
    if anc anc_depth v old h then set_branch cur h
    else let* _ := add_commit "Merge" [old; h] None in ret tt.

Definition toy_exec (s : stmt) : M toy unit :=
  match s with
  | DoltBranchForce b start => let* h := toy_resolve start in set_branch b h
  | DoltBranchDelete b =>
      let* cur := gets t_cur in
      if String.eqb b cur then fail "cannot delete checked out branch"
      else modify (λ t, with_branches (delete b (v_branches (t_view t))) t)
  | DoltCheckout b =>
      let* v := gets t_view in
      match v_branches v !! b with
      | Some _ => modify (set_cur b)
      | None => fail "could not find branch"
      end
  | DoltResetHard ref =>
      let* h := toy_resolve ref in
      let* cur := gets t_cur in set_branch cur h
  | DoltMerge rev => toy_merge rev
  | DoltMergeFFOnly rev =>
      let* old := toy_head in
      let* h := toy_resolve rev in
      let* v := gets t_view in
      let* cur := gets t_cur in
      if anc anc_depth v h old then ret tt
      else if anc anc_depth v old h then set_branch cur h
      else fail "fatal: Not possible to fast-forward, aborting"
  | DoltCommitAmend msg _ _ _ =>
      let* old := toy_head in
      let* v := gets t_view in
      let* _ := add_commit (default "" (literal_value msg)) (parents v old) (Some old) in ret tt
  | DoltCommitAll msg _ _ _ =>
      let* old := toy_head in
      let* _ := add_commit (default "" (literal_value msg)) [old] None in ret tt
  | DoltRemoteRemove name =>
      let* v := gets t_view in
      match v_remotes v !! name with
      | Some _ => modify (λ t, with_remotes (delete name (v_remotes (t_view t))) t)
      | None => fail "error: unknown remote"
      end
  | DoltRemoteAdd name url =>
      let* v := gets t_view in
      match v_remotes v !! name with
      | Some _ => fail "error: a remote with this name already exists"
      | None => modify (λ t, with_remotes (<[name := default "" (literal_value url)]> (v_remotes (t_view t))) t)
      end
  | _ => ret tt
  end.

(** The first-parent log. *)
Fixpoint toy_log (n : nat) (v : dview) (h : string) : list Commit :=
  match v_commits v !! h with
  | Some (c, ps) =>
      c :: match n, ps with
           | S n, p :: _ => toy_log n v p
           | _, _ => []
           end
  | None => []
  end.

Definition toy_answer (v : dview) (cur : string) {A} (q : qry A) : result (list A) :=
  match q in qry T return result (list T) with
  | QHashOf ref => Ok (match resolve v cur ref with Some h => [Some h] | None => [] end)
  | QBranchHash name => Ok (match v_branches v !! name with Some h => [Some h] | None => [] end)
  | QRemoteBranchHash name =>
      Ok (match v_remote_branches v !! name with Some h => [Some h] | None => [] end)
  | QCommit h => Ok (match v_commits v !! h with Some (c, _) => [c] | None => [] end)
  | QLog ref =>
      match resolve v cur ref with
      | Some h => match toy_log anc_depth v h with [] => Err "broken" | l => Ok l end
      | None => Ok []
      end
  | QLogHead ref =>
      match resolve v cur ref with
      | Some h => match v_commits v !! h with Some (c, _) => Ok [c] | None => Err "broken" end
      | None => Ok []
      end
  | QParents h => Ok (parent_rows v h)
  | QFirstParent h => Ok (take 1 (parent_rows v h))
  | QMergeBase l r =>
      match resolve v cur l, resolve v cur r with
      | Some a, Some b =>
          match List.filter (λ m, anc anc_depth v m a && anc anc_depth v m b)
                  (map fst (map_to_list (v_commits v))) with
          | m :: _ => Ok [Some m]
          | [] =>
              match parents v a, parents v b with
              | [], [] => if String.eqb a b then Err "broken" else Ok [None]
              | _, _ => Err "no merge base within the bound"
              end
          end
      | _, _ => Ok []
      end
  | QRemoteURL name => Ok (match v_remotes v !! name with Some u => [Some u] | None => [] end)
  | QLogOldest ref =>
      Ok (match resolve v cur ref with Some h => take 1 (rev (toy_log anc_depth v h)) | None => [] end)
  | QLogWhere _ _ => Ok []
  | QContentHash => Ok [Some "content"]
  | QDiffSummary _ _ => Ok []
  | QShowDatabases _ => Ok []
  end.

(** [CALL DOLT_COMMIT] as a query that returns the hash. *)
Definition toy_call (s : stmt) : M toy string :=
  match s with
  | DoltCommitAll msg _ _ _ =>
      let* old := toy_head in add_commit (default "" (literal_value msg)) [old] None
  | _ => fail "not a commit"
  end.

#[export] Instance ToyDolt : Dolt toy := {
  conn := unit;
  pool := tt;
  open_conn := ret tt;
  close_conn _ := ret tt;
  exec _ s := toy_exec s;
  query A _ q := λ t, (toy_answer (t_view t) (t_cur t) q, t);
  call_commit _ s := toy_call s;
  begin_tx := ret tt;
  tx_commit _ := ret tt;
  tx_rollback _ := ret tt;
  time_now := λ t, (Ok (mkTime (t_time t) 0 0), mkToy (t_view t) (t_cur t) (t_next t) (t_time t + 1) (t_conflicts t));
}.

#[export] Instance toy_world : HasWorld toy toy := {
  get_world := id;
  set_world w _ := w;
  get_set_world _ _ := eq_refl;
}.

(** ** The laws hold *)

Lemma length_digits w n : String.length (digits w n) = w.
Proof. revert n. induction w as [|w IH]; intros n; cbn; [done|]. by rewrite IH. Qed.

Lemma hash_chars_digits w n : 0 ≤ n < 10 ^ Z.of_nat w → all_chars hash_char (digits w n) = true.
Proof.
  revert n. induction w as [|w IH]; intros n Hn; [done|]. pose proof (digit_range w n Hn) as Hd.
  cbn [digits all_chars]. rewrite IH by (apply Z.mod_pos_bound; lia).
  unfold hash_char, digit, nat_of_ascii. rewrite N_ascii_embedding by lia.
  rewrite andb_true_r. apply orb_true_iff. left. apply andb_true_iff.
  rewrite !Nat.leb_le. lia.
Qed.

Lemma is_hash_toy n : 0 ≤ n < 10 ^ 32 → is_hash (toy_hash n) = true.
Proof.
  intros Hn. unfold is_hash, toy_hash. rewrite length_digits, Nat.eqb_refl.
  by apply (hash_chars_digits 32).
Qed.

Lemma anc_sound n v a b : anc n v a b = true → ancestor v a b.
Proof.
  revert b. induction n as [|n IH]; intros b; cbn [anc].
  - rewrite orb_false_r. intros ->%String.eqb_eq. constructor.
  - intros [->%String.eqb_eq|He]%orb_prop; [constructor|].
    apply existsb_exists in He as (p & Hp & Ha). apply list_elem_of_In in Hp.
    eapply rtc_r; [by apply IH|done].
Qed.

Lemma resolve_known v cur ref h :
  view_wf v → resolve v cur ref = Some h → is_Some (v_commits v !! h).
Proof.
  intros Hv. unfold resolve. repeat case_match.
  - by apply wf_heads.
  - intros (x & Hx & ->)%fmap_Some. eauto.
  - intros [= <-]. by eapply wf_heads.
  - by apply wf_remote_heads.
Qed.

Lemma view_wf_branches v br :
  view_wf v → (∀ b h, br !! b = Some h → is_Some (v_commits v !! h)) →
  view_wf (mkView (v_commits v) (v_trees v) br (v_remote_branches v) (v_remotes v)).
Proof. intros [] ?. by split. Qed.

Lemma view_wf_set v b h :
  view_wf v → is_Some (v_commits v !! h) →
  view_wf (mkView (v_commits v) (v_trees v) (<[b := h]> (v_branches v)) (v_remote_branches v) (v_remotes v)).
Proof.
  intros Hv Hh. apply view_wf_branches; [done|]. intros b' h'. rewrite lookup_insert.
  case_decide; [by intros [= <-]|by apply wf_heads].
Qed.

Lemma view_wf_add v b h msg ps tree :
  view_wf v → v_commits v !! h = None → is_hash h = true →
  (∀ p, p ∈ ps → is_Some (v_commits v !! p)) →
  view_wf (mkView (<[h := (mkCommit h "" "" zero_time msg, ps)]> (v_commits v)) (<[h := tree]> (v_trees v))
             (<[b := h]> (v_branches v)) (v_remote_branches v) (v_remotes v)).
Proof.
  intros [H1 H2 H3 H4 H5] Hn Hh Hps.
  assert (∀ k, is_Some (v_commits v !! k) →
    is_Some (<[h := (mkCommit h "" "" zero_time msg, ps)]> (v_commits v) !! k)) as Hmono
    by (intros k; rewrite lookup_insert_is_Some'; auto).
  split; simpl.
  - intros k c qs. rewrite lookup_insert. case_decide; [|apply H1]. intros [= <- <-]. by subst.
  - intros k c qs p. rewrite lookup_insert. case_decide; [intros [= <- <-]; eauto|eauto].
  - intros b' k. rewrite lookup_insert. case_decide; [|eauto].
    intros [= <-]. rewrite lookup_insert_is_Some'. by left.
  - eauto.
  - intros k. rewrite !lookup_insert_is_Some'. by rewrite H5.
Qed.

(** What a run of a statement must satisfy. *)
Definition toy_spec (s : stmt) (t : toy) (r : result unit) (t' : toy) : Prop :=
  view_wf (t_view t') ∧ v_commits (t_view t) ⊆ v_commits (t_view t') ∧
  v_trees (t_view t) ⊆ v_trees (t_view t') ∧
  match r with
  | Ok _ => effect (t_view t) (t_cur t) s (t_view t') (t_cur t')
  | Err e => v_branches (t_view t') = v_branches (t_view t) ∧
      v_remotes (t_view t') = v_remotes (t_view t) ∧ t_cur t' = t_cur t ∧ remote_error (t_view t) s e
  | Panic _ => False
  end.

Lemma add_commit_spec msg ps like t :
  view_wf (t_view t) → (∀ p, p ∈ ps → is_Some (v_commits (t_view t) !! p)) →
  (∀ old, like = Some old → is_Some (v_commits (t_view t) !! old)) →
  let '(r, t') := add_commit msg ps like t in
  view_wf (t_view t') ∧ v_commits (t_view t) ⊆ v_commits (t_view t') ∧
  v_trees (t_view t) ⊆ v_trees (t_view t') ∧ t_cur t' = t_cur t ∧
  match r with
  | Ok h => (∃ c, v_commits (t_view t') !! h = Some (c, ps) ∧ c_Message c = msg) ∧
            (∀ old, like = Some old → v_trees (t_view t') !! h = v_trees (t_view t) !! old) ∧
            v_branches (t_view t') = <[t_cur t := h]> (v_branches (t_view t))
  | Err _ => t' = t
  | Panic _ => False
  end.
Proof.
  intros Hv Hps Hl. unfold add_commit. destruct (_ && _) eqn:Hr; [|done].
  apply andb_prop in Hr as [?%Z.leb_le ?%Z.ltb_lt].
  destruct (v_commits (t_view t) !! _) eqn:Hn; [done|]. simpl.
  assert (v_trees (t_view t) !! toy_hash (t_next t) = None) as Ht.
  { apply eq_None_not_Some. rewrite (wf_trees _ Hv), Hn. by intros []. }
  split; [by apply view_wf_add; [..|apply is_hash_toy|]|]. split; [by apply insert_subseteq|].
  split; [by apply insert_subseteq|]. split; [done|]. split; [eexists; by rewrite lookup_insert_eq|].
  split; [|done]. intros old ->. rewrite lookup_insert_eq. simpl.
  destruct (proj2 (wf_trees _ Hv old) (Hl old eq_refl)) as [x ->]. done.
Qed.

(** The readers at the front of a statement. *)
Lemma holds_head {A} (k : string → M toy A) t (Q : result A → toy → Prop) :
  (∀ e, Q (Err e) t) →
  (∀ h, v_branches (t_view t) !! t_cur t = Some h → holds (k h) t Q) →
  holds (bind toy_head k) t Q.
Proof.
  intros He Hk. unfold holds, bind, toy_head.
  destruct (v_branches (t_view t) !! t_cur t) eqn:E; [by apply Hk|apply He].
Qed.

Lemma holds_resolve {A} ref (k : string → M toy A) t (Q : result A → toy → Prop) :
  (∀ e, Q (Err e) t) →
  (∀ h, resolve (t_view t) (t_cur t) ref = Some h → holds (k h) t Q) →
  holds (bind (toy_resolve ref) k) t Q.
Proof.
  intros He Hk. unfold holds, bind, toy_resolve.
  destruct (resolve (t_view t) (t_cur t) ref) eqn:E; [by apply Hk|apply He].
Qed.

Lemma holds_gets {A B} (f : toy → B) (k : B → M toy A) t (Q : result A → toy → Prop) :
  holds (k (f t)) t Q → holds (bind (gets f) k) t Q.
Proof. done. Qed.

Ltac toy_reads :=
  repeat first
    [ apply holds_gets
    | apply holds_head; [done|intros ? ?]
    | apply holds_resolve; [done|intros ? ?] ].

Lemma toy_spec_same s t :
  view_wf (t_view t) → effect (t_view t) (t_cur t) s (t_view t) (t_cur t) →
  holds (ret tt) t (toy_spec s t).
Proof. by split. Qed.

Lemma toy_spec_set s t b h :
  view_wf (t_view t) → is_Some (v_commits (t_view t) !! h) →
  (∀ v', v_branches v' = <[b := h]> (v_branches (t_view t)) →
    v_commits v' = v_commits (t_view t) → effect (t_view t) (t_cur t) s v' (t_cur t)) →
  holds (set_branch b h) t (toy_spec s t).
Proof. intros Hv Hh He. split; [by apply view_wf_set|]. split; [done|]. split; [done|]. by apply He. Qed.

Lemma toy_spec_commit s t msg ps like :
  view_wf (t_view t) → (∀ p, p ∈ ps → is_Some (v_commits (t_view t) !! p)) →
  (∀ old, like = Some old → is_Some (v_commits (t_view t) !! old)) →
  (∀ e, remote_error (t_view t) s e) →
  (∀ v' c h, v_commits v' !! h = Some (c, ps) → c_Message c = msg →
    (∀ old, like = Some old → v_trees v' !! h = v_trees (t_view t) !! old) →
    v_branches v' = <[t_cur t := h]> (v_branches (t_view t)) →
    effect (t_view t) (t_cur t) s v' (t_cur t)) →
  holds (let* _ := add_commit msg ps like in ret tt) t (toy_spec s t).
Proof.
  intros Hv Hps Hl Hre He. pose proof (add_commit_spec msg ps like t Hv Hps Hl) as H.
  unfold holds, bind, toy_spec. destruct (add_commit msg ps like t) as [[h|e|e] t']; simpl; [| |naive_solver].
  - destruct H as (? & ? & ? & Hc & (c & ? & ?) & ? & ?). rewrite Hc. split_and!; eauto.
  - destruct H as (? & ? & ? & ? & ->). split_and!; auto.
Qed.

Lemma parents_known v h p : view_wf v → p ∈ parents v h → is_Some (v_commits v !! p).
Proof.
  intros Hv. unfold parents. destruct (v_commits v !! h) as [[c ps]|] eqn:E; [|set_solver].
  by eapply wf_parents.
Qed.

Lemma toy_merge_spec rev t :
  view_wf (t_view t) → holds (toy_merge rev) t (toy_spec (DoltMerge rev) t).
Proof.
  intros Hv. unfold toy_merge. apply holds_head; [done|intros old Hold].
  apply holds_resolve; [done|intros h Hh]. do 2 apply holds_gets.
  case_bool_decide; [done|]. destruct (anc anc_depth _ h old) eqn:Hup.
  { apply toy_spec_same; [done|]. exists old, h, old. split_and!; [done..| | |done].
    - left. split; [by eapply anc_sound|done].
    - by rewrite insert_id. }
  apply holds_gets. destruct (anc anc_depth _ old h) eqn:Hff.
  - apply toy_spec_set; [done|by eapply resolve_known|]. intros v' Hb Hc.
    exists old, h, h. split_and!; [done..| |done|done]. right; left.
    split; [by eapply anc_sound|done].
  - apply toy_spec_commit; [done| |done|done|].
    + intros p. rewrite elem_of_cons, list_elem_of_singleton.
      intros [->| ->]; [by eapply wf_heads|by eapply resolve_known].
    + intros v' c new Hn _ _ Hb. exists old, h, new. split_and!; [done..| |done|done].
      right; right. eauto.
Qed.

Lemma toy_exec_spec s t :
  view_wf (t_view t) → holds (toy_exec s) t (toy_spec s t).
Proof.
  intros Hv. destruct s; cbn [toy_exec]; try (by apply toy_spec_same).
  - toy_reads. apply toy_spec_set; [done|by eapply resolve_known|]. intros v' Hb Hc. eexists; eauto.
  - toy_reads. destruct (String.eqb_spec name (t_cur t)); [done|].
    split; [|split; [done|split; [done|]]].
    + apply view_wf_branches; [done|]. intros b h [_ ?]%lookup_delete_Some. by eapply wf_heads.
    + done.
  - toy_reads. destruct (v_branches (t_view t) !! branch) eqn:E; [|done].
    split; [done|]. split; [done|]. split; [done|]. simpl. eauto.
  - toy_reads. apply toy_spec_set; [done|by eapply resolve_known|]. intros v' Hb Hc. eexists; eauto.
  - by apply toy_merge_spec.
  - apply holds_head; [done|intros old Hold]. apply holds_resolve; [done|intros h Hh].
    do 2 apply holds_gets. destruct (anc anc_depth _ h old) eqn:Hup.
    + apply toy_spec_same; [done|]. exists old, h, old. split_and!; [done..| | |done].
      * left. split; [by eapply anc_sound|done].
      * by rewrite insert_id.
    + destruct (anc anc_depth _ old h) eqn:Hff; [|done].
      apply toy_spec_set; [done|by eapply resolve_known|]. intros v' Hb Hc.
      exists old, h, h. split_and!; [done..| |done|done]. right. split; [by eapply anc_sound|done].
  - toy_reads. apply toy_spec_commit; [done|intros p; by apply parents_known| |done|].
    + intros old [= <-]. by eapply wf_heads.
    + intros v' c new Hn Hm Ht Hb. eexists _, new, c. split_and!; [done..|by apply Ht| |done|done].
      intros m Hl. by rewrite Hm, Hl.
  - toy_reads. apply toy_spec_commit; [done| |done|done|].
    + intros p ->%list_elem_of_singleton. by eapply wf_heads.
    + intros v' c new Hn Hm _ Hb. eexists _, new, c. split_and!; [done..| |done|done].
      intros m Hl. by rewrite Hm, Hl.
  - toy_reads. destruct (v_remotes (t_view t) !! name) eqn:E.
    + split; [by destruct Hv|]. by split_and!.
    + split_and!; try done. simpl. done.
  - toy_reads. destruct (v_remotes (t_view t) !! name) eqn:E.
    + split_and!; try done. simpl. eauto.
    + split; [by destruct Hv|]. split; [done|]. split; [done|]. simpl. split_and!; [done..|]. by intros u ->.
Qed.

Lemma ancestor_parent v p b h : p ∈ parents v b → ancestor v b h → ancestor v p h.
Proof. intros Hp Ha. by eapply rtc_l. Qed.

Lemma toy_log_sound n v b h c :
  c ∈ toy_log n v b → ancestor v b h →
  ∃ h' ps', v_commits v !! h' = Some (c, ps') ∧ ancestor v h' h.
Proof.
  revert b. induction n as [|n IH]; intros b; cbn [toy_log];
    destruct (v_commits v !! b) as [[c' ps]|] eqn:E; try (intros Hin; by apply not_elem_of_nil in Hin).
  - intros ->%list_elem_of_singleton Ha. eauto.
  - intros [->|Hin]%elem_of_cons Ha; [by eauto|]. destruct ps as [|p ps].
    + by apply not_elem_of_nil in Hin.
    + apply (IH p Hin), (ancestor_parent v p b h); [|done]. unfold parents. rewrite E. set_solver.
Qed.

Lemma toy_answer_ok {A} v cur (q : qry A) rows :
  view_wf v → toy_answer v cur q = Ok rows → answers v cur q rows.
Proof.
  intros Hv. destruct q; cbn [toy_answer answers]; try (by intros [= <-]).
  - destruct (resolve v cur ref) as [h|]; [|by intros [= <-]].
    destruct (toy_log anc_depth v h) as [|c rest] eqn:E; [done|]. intros [= <-].
    pose proof E as E'. cbn [toy_log anc_depth] in E'.
    destruct (v_commits v !! h) as [[c' ps]|] eqn:Ec; [|done]. injection E' as -> _.
    exists c, ps, rest. split; [done|]. split; [done|]. intros c'. rewrite <-E.
    intros Hin. eapply toy_log_sound; [done|constructor].
  - destruct (resolve v cur ref) as [h|]; [|by intros [= <-]].
    destruct (v_commits v !! h) as [[c ps]|] eqn:Ec; [|done]. intros [= <-]. eauto.
  - destruct (resolve v cur leftRef) as [a|]; [|by intros [= <-]].
    destruct (resolve v cur rightRef) as [b|]; [|by intros [= <-]].
    destruct (List.filter _ _) as [|m l] eqn:E.
    { destruct (parents v a) eqn:Ea, (parents v b) eqn:Eb; [|done..].
      destruct (String.eqb a b) eqn:Eab; [done|]. intros [= <-]. right. split; [done|].
      intros m [Hma%rtc_inv_r Hmb%rtc_inv_r]. apply String.eqb_neq in Eab. apply Eab.
      destruct Hma as [->|(p & _ & Hp)]; [|rewrite Ea in Hp; destruct (not_elem_of_nil _ Hp)].
      destruct Hmb as [->|(p & _ & Hp)]; [done|rewrite Eb in Hp; destruct (not_elem_of_nil _ Hp)]. }
    intros [= <-]. left. exists m.
    assert (In m (m :: l)) as Hin by (by left). rewrite <-E in Hin.
    apply filter_In in Hin as [Hm [Ha Hb]%andb_prop]. split; [done|].
    apply in_map_iff in Hm as ([k x] & <- & Hx). apply list_elem_of_In, elem_of_map_to_list in Hx.
    split; [by eauto|]. split; by eapply anc_sound.
Qed.

Lemma toy_answer_err {A} v cur (q : qry A) :
  match toy_answer v cur q with Ok _ => True | Err e => is_no_rows e = false | Panic _ => False end.
Proof. destruct q; cbn [toy_answer]; repeat case_match; simplify_eq; done. Qed.

Lemma toy_call_spec s t :
  view_wf (t_view t) → holds (toy_call s) t (λ r t',
    view_wf (t_view t') ∧ v_commits (t_view t) ⊆ v_commits (t_view t') ∧
    match r with
    | Ok h => effect (t_view t) (t_cur t) s (t_view t') (t_cur t') ∧
              v_branches (t_view t') !! t_cur t' = Some h
    | _ => t' = t
    end).
Proof.
  intros Hv. destruct s; try (by split). cbn [toy_call].
  apply holds_head; [done|intros old Hold].
  pose proof (add_commit_spec (default "" (literal_value msg)) [old] None t Hv) as H. unfold holds.
  destruct (add_commit _ _ _ t) as [[h|e|e] t'].
  - destruct H as (? & ? & ? & Hc & (c & Hx & Hm) & _ & Hb).
    { intros p ->%list_elem_of_singleton. by eapply wf_heads. }
    { done. }
    simpl. rewrite Hb, Hc, lookup_insert_eq. split_and!; [done..| |done].
    exists old, h, c. split_and!; [done..| |done|done]. intros m Hl. by rewrite Hm, Hl.
  - destruct H as (? & ? & ? & ? & ->); [|done..]. intros p ->%list_elem_of_singleton. by eapply wf_heads.
  - destruct H as (? & ? & ? & ? & []); [|done]. intros p ->%list_elem_of_singleton. by eapply wf_heads.
Qed.

#[export] Program Instance ToyDolt_laws : DoltLaws toy := {
  view := t_view;
  current t _ := t_cur t;
  wf_world t := view_wf (t_view t);
}.
Next Obligation. done. Qed.
Next Obligation. intros c s w Hw. by destruct (toy_exec_spec s w Hw) as [? _]. Qed.
Next Obligation.
  intros c s w u w' Hw E. destruct (toy_exec_spec s w Hw) as (_ & _ & _ & H).
  simpl in E. rewrite E in H. by destruct u.
Qed.
Next Obligation.
  intros c s w Hw. destruct (toy_exec_spec s w Hw) as (_ & _ & _ & H). simpl. revert H.
  destruct (toy_exec s w) as [[] ?]; naive_solver.
Qed.
Next Obligation.
  intros c s w e w' Hw E. destruct (toy_exec_spec s w Hw) as (_ & _ & _ & H). simpl in E.
  rewrite E in H. apply H.
Qed.
Next Obligation. intros c s w Hw. by destruct (toy_exec_spec s w Hw) as (_ & ? & _). Qed.
Next Obligation. intros c s w Hw. by destruct (toy_exec_spec s w Hw) as (_ & _ & ? & _). Qed.
Next Obligation.
  intros c s w e Hw E. destruct (toy_exec_spec s w Hw) as (_ & _ & _ & H). simpl in E. by rewrite E in H.
Qed.
Next Obligation. done. Qed.
Next Obligation. intros A c q w rows w' Hw [= E <-]. by apply toy_answer_ok. Qed.
Next Obligation.
  intros A c q w e w' [= E <-]. pose proof (toy_answer_err (t_view w) (t_cur w) q) as H.
  by rewrite E in H.
Qed.
Next Obligation.
  intros A c q w e E. pose proof (toy_answer_err (t_view w) (t_cur w) q) as H.
  cbn in E. by rewrite E in H.
Qed.
Next Obligation. done. Qed.
Next Obligation. done. Qed.
Next Obligation. done. Qed.
Next Obligation. done. Qed.
Next Obligation. intros c s w Hw. by destruct (toy_call_spec s w Hw) as [? _]. Qed.
Next Obligation.
  intros c s w h w' Hw E. destruct (toy_call_spec s w Hw) as (_ & _ & H). simpl in E. by rewrite E in H.
Qed.
Next Obligation.
  intros c s w Hw. destruct (toy_call_spec s w Hw) as (_ & _ & H). simpl. revert H.
  destruct (toy_call s w) as [[] ?]; [done|..]; by intros ->.
Qed.
Next Obligation. intros c s w Hw. by destruct (toy_call_spec s w Hw) as (_ & ? & _). Qed.
Next Obligation. done. Qed.
Next Obligation. done. Qed.
Next Obligation. done. Qed.
Next Obligation. done. Qed.
Next Obligation. done. Qed.

(** ** A closed repository

    A root commit, the head of [main] on top of it, and a second line of
    history fetched from a peer. *)

Definition toy_user_commit (n wall : Z) : Commit :=
  let c := example_commit (toy_hash n) wall in c.

Definition toy_commits : gmap string (Commit * list string) :=
  <[toy_hash 1 := (mkCommit (toy_hash 1) "" "" zero_time "init", [])]>
  (<[toy_hash 2 := (toy_user_commit 2 10, [toy_hash 1])]>
  (<[toy_hash 3 := (toy_user_commit 3 20, [toy_hash 1])]> ∅)).

(** Closed repositories have a root value of its own for each commit. *)
Definition own_trees (commits : gmap string (Commit * list string)) : gmap string string :=
  map_imap (λ h _, Some h) commits.

Definition toy_repo : toy :=
  mkToy (mkView toy_commits (own_trees toy_commits) {["main" := toy_hash 2]} {["remotes/swarm/main" := toy_hash 3]} ∅)
    "main" 100 1700000000 ∅.

(** Integrity of a finite repository is decidable. *)
Definition view_check (v : dview) : bool :=
  forallb (λ kx, is_hash kx.1 && String.eqb (c_Hash kx.2.1) kx.1 &&
             forallb (λ p, bool_decide (is_Some (v_commits v !! p))) kx.2.2)
    (map_to_list (v_commits v)) &&
  forallb (λ bh, bool_decide (is_Some (v_commits v !! bh.2))) (map_to_list (v_branches v)) &&
  bool_decide (dom (v_trees v) = dom (v_commits v)) &&
  forallb (λ bh, bool_decide (is_Some (v_commits v !! bh.2))) (map_to_list (v_remote_branches v)).

Lemma view_check_wf v : view_check v = true → view_wf v.
Proof.
  unfold view_check. intros [[[H1 H2]%andb_prop H4%bool_decide_eq_true]%andb_prop H3]%andb_prop.
  rewrite forallb_forall in H1, H2, H3.
  assert (∀ A (m : gmap string A) k x, m !! k = Some x → In (k, x) (map_to_list m)) as Hin
    by (intros A m k x E; by apply list_elem_of_In, elem_of_map_to_list).
  split.
  - intros h c ps E. specialize (H1 _ (Hin _ _ _ _ E)). simpl in H1. bool_to_prop. done.
  - intros h c ps p E Hp. specialize (H1 _ (Hin _ _ _ _ E)). simpl in H1.
    apply andb_prop in H1 as [_ H1]. rewrite forallb_forall in H1.
    by eapply bool_decide_eq_true, H1, list_elem_of_In.
  - intros b h E. specialize (H2 _ (Hin _ _ _ _ E)). by apply bool_decide_eq_true in H2.
  - intros b h E. specialize (H3 _ (Hin _ _ _ _ E)). by apply bool_decide_eq_true in H3.
  - intros h. by rewrite <-!elem_of_dom, H4.
Qed.

Lemma toy_repo_wf : wf_world toy_repo.
Proof. apply view_check_wf. vm_compute. reflexivity. Qed.
