(* ===== verification/Reconciler.v ===== *)
(** * The reconciler ([core/reconciler_core.go])

    The local linearizer: the walk over the commit graph, and the replay that
    rebuilds the tail of [main] on a temporary branch.  The functions run over
    any state that contains the world; the callbacks for dropped commits act
    on that state. *)

From Stdlib Require Import ZArith Lia String Ascii.
From stdpp Require Import gmap strings list sorting pretty.
From S2P Require Import Prelude Hlc GoTime GoJson GoJsonFacts Metadata Index Linearize Dolt.

Open Scope Z_scope.

Inductive RejectionReason :=
| NotRejected
| RejectedConflict
| RejectedInvalidSignature
| RejectedFetchFailed
| RejectedClockSkew.

Definition errMainAdvancedDuringReplay : string := "main branch advanced during replay".

Section reconciler.
Context {St W : Type} `{D : Dolt W} `{HW : HasWorld St W} `{GoRuntime}.

(** [CommitRejectedCallback]; a callback that was not set is [None]. *)
Definition CommitRejectedCallback : Type := CommitAd → RejectionReason → M St unit.

Record Reconciler := mkReconciler {
  onCommitRejectedInternal : option CommitRejectedCallback;
  onCommitRejected : option CommitRejectedCallback;
}.

Definition NewReconciler : Reconciler := mkReconciler None None.

Definition setCommitRejectedInternalHook (cb : CommitRejectedCallback) (r : Reconciler) : Reconciler :=
  mkReconciler (Some cb) (onCommitRejected r).

Definition SetCommitRejectedCallback (cb : CommitRejectedCallback) (r : Reconciler) : Reconciler :=
  mkReconciler (onCommitRejectedInternal r) (Some cb).

(** ** Reading the repository *)

Definition getFirstParentHash (q : conn) (commitHash : string) : M St string :=
  let* rows := lift (query q (QFirstParent commitHash)) in
  match rows with
  | parent :: _ => ret (null_string parent)
  | [] => fail ("no parent found for commit " +:+ commitHash)
  end.

Definition getHeadHash (q : conn) : M St string :=
  let* row := query_row q (QHashOf "HEAD") in scan_string row.

Definition getBranchHeadHash (q : conn) (branch : string) : M St string :=
  let* r := attempt (let* row := query_row q (QHashOf branch) in scan_string row) in
  match r with
  | Ok hash => ret hash
  | Panic e => panic e
  | Err e =>
    if negb (is_no_rows e) then fail e else
    let* r := attempt (query_row q (QBranchHash branch)) in
    match r with
    | Ok out => ret (null_string out)
    | Panic e => panic e
    | Err e =>
      if negb (is_no_rows e) then fail e else
      let* r := attempt (query_row q (QRemoteBranchHash branch)) in
      match r with
      | Ok out => ret (null_string out)
      | Panic e => panic e
      | Err e => if is_no_rows e then ret "" else fail e
      end
    end
  end.

Definition getCommitByHash (q : conn) (commitHash : string) : M St Commit :=
  let* r := attempt (query_row q (QCommit commitHash)) in
  match r with
  | Ok c => ret c
  | Panic e => panic e
  | Err e =>
      let low := to_lower e in
      if negb (contains low "no rows") && negb (contains low "unknown table")
         && negb (contains low "doesn't exist") && negb (contains low "dolt_commits")
      then fail e
      else query_row q (QLogHead commitHash)
  end.

Definition getParentHashes (q : conn) (commitHash : string) : M St (list string) :=
  let* rows := lift (query q (QParents commitHash)) in
  ret (List.filter (λ p, negb (String.eqb p "")) (omap id rows)).

(** The loop of [getCommitsSince].  Each iteration takes one element of the
    queue; [fuel] bounds the iterations and running out is a separate outcome
    that [getCommitsSince_terminates] excludes. *)
Definition out_of_fuel : string := "out of fuel".

Fixpoint bfs (fuel : nat) (q : conn) (base : string) (seen : gset string) (queue : list string)
    (commits : list Commit) : M St (list Commit) :=
  match queue with
  | [] => ret commits
  | hash :: queue =>
    match fuel with
    | O => panic out_of_fuel
    | S fuel =>
      if String.eqb hash "" || String.eqb hash base || bool_decide (hash ∈ seen)
      then bfs fuel q base seen queue commits
      else
        let seen := {[hash]} ∪ seen in
        let* c := getCommitByHash q hash in
        let* ps := getParentHashes q hash in
        let next := List.filter (λ p, negb (String.eqb p "" || String.eqb p base)
                                      && negb (bool_decide (p ∈ seen))) ps in
        bfs fuel q base seen (queue ++ next) (commits ++ [c])
    end
  end.

Definition getCommitsSince (fuel : nat) (q : conn) (branch base : string) : M St (list Commit) :=
  let* head := getBranchHeadHash q branch in
  if String.eqb head "" || String.eqb head base then ret []
  else bfs fuel q base ∅ [head] [].

(** [db.GetLastCommit(branch)] of [core/db.go]. *)
Definition GetLastCommit (branch : string) : M St Commit :=
  let* commits := wrap_err "failed to retrieve last commit hash: "
                    (lift (query pool (QLogHead branch))) in
  match commits with
  | [] => fail "no commits found"
  | c :: _ => ret c
  end.

(** ** Replay *)

Definition fastForwardToCommit (q : conn) (commitHash : string) : M St unit :=
  lift (exec q (DoltResetHard commitHash)).

(** A callback is invoked when it was set. *)
Definition call_hook (cb : option CommitRejectedCallback) (ad : CommitAd) : M St unit :=
  match cb with
  | Some f => f ad RejectedConflict
  | None => ret tt
  end.

(** The branch of the loop taken when a merge reports conflicts. *)
Definition dropConflict (r : Reconciler) (c : conn) (x : commitWithMeta) : M St unit :=
  ignore (lift (exec c DoltMergeAbort)) ;;*
  let ad := mkCommitAd (PeerID (cwm_hlc x)) (cwm_hlc x) "" (cwm_hash x) "" "" "" zero_time "" in
  call_hook (onCommitRejectedInternal r) ad ;;*
  call_hook (onCommitRejected r) ad.

(** The merge commit's message is replaced by metadata of its own. *)
Definition amendMerge (c : conn) (x : commitWithMeta) : M St unit :=
  let author := "doltswarm" in
  let email := "doltswarm@local" in
  let* mergeDate := lift time_now in
  let meta := NewCommitMetadata "merge" (cwm_hlc x) "" author email mergeDate in
  let* metaJSON := of_result (Marshal meta) in
  lift (exec c (DoltCommitAmend metaJSON author email (format_RFC3339Nano mergeDate))).

(** One iteration of the replay loop: the new [headHash] and [mergeCommits]. *)
Definition replayStep (r : Reconciler) (c : conn) (x : commitWithMeta) (headHash : string)
    (mergeCommits : Z) : M St (string * Z) :=
  let* parent := attempt (getFirstParentHash c (cwm_hash x)) in
  let ff := match parent with Ok p => String.eqb headHash p | _ => false end in
  if ff then
    fastForwardToCommit c (cwm_hash x) ;;*
    let* headHash := getHeadHash c in
    ret (headHash, mergeCommits)
  else
    let* mergeErr := attempt (lift (exec c (DoltMerge (cwm_hash x)))) in
    match mergeErr with
    | Err e =>
        if isConflictError e then dropConflict r c x ;;* ret (headHash, mergeCommits)
        else fail ("failed to merge " +:+ cwm_hash x +:+ ": " +:+ e)
    | Panic e => panic e
    | Ok _ =>
        amendMerge c x ;;*
        let* headHash := getHeadHash c in
        ret (headHash, mergeCommits + 1)
    end.

Fixpoint replayLoop (r : Reconciler) (c : conn) (commits : list commitWithMeta) (headHash : string)
    (mergeCommits : Z) : M St Z :=
  match commits with
  | [] => ret mergeCommits
  | x :: commits =>
      let* next := replayStep r c x headHash mergeCommits in
      replayLoop r c commits next.1 next.2
  end.

(** From the checkout of the temporary branch to the move of [main]. *)
Definition replayBody (r : Reconciler) (c : conn) (base mainHeadBefore : string)
    (commits : list commitWithMeta) : M St Z :=
  wrap_err "failed to checkout temp branch: " (lift (exec c (DoltCheckout "replay_tmp"))) ;;*
  let* mergeCommits := replayLoop r c commits base 0 in
  wrap_err "failed to checkout main: " (lift (exec c (DoltCheckout "main"))) ;;*
  let* curHead := wrap_err "failed to read main head: " (GetLastCommit "main") in
  if negb (String.eqb (c_Hash curHead) mainHeadBefore) then fail errMainAdvancedDuringReplay
  else
    wrap_err "failed to move main to replay_tmp: " (lift (exec c (DoltResetHard "replay_tmp"))) ;;*
    ret mergeCommits.

Definition replayCleanup (c : conn) : M St unit :=
  ignore (lift (exec c (DoltCheckout "main"))) ;;*
  ignore (lift (exec c (DoltBranchDelete "replay_tmp"))).

Definition replayToTempBranchThenUpdateMain (r : Reconciler) (base mainHeadBefore : string)
    (commits : list commitWithMeta) : M St Z :=
  let* c := wrap_err "failed to get sql connection: " (lift open_conn) in
  deferred
    (wrap_err "failed to create temp branch: " (lift (exec c (DoltBranchForce "replay_tmp" base))) ;;*
     deferred (replayBody r c base mainHeadBefore commits) (replayCleanup c))
    (ignore (lift (close_conn c))).

Definition ReplayImportedCommits (r : Reconciler) (fuel : nat) (mergeBase : string)
    (imported : list Commit) (finalizedBase : option FinalizedBase) : M St Z :=
  let* head := GetLastCommit "main" in
  let* effectiveBase :=
    match finalizedBase with
    | Some fb =>
        if negb (String.eqb (fb_CommitHash fb) "") then
          (* the arguments of the debug message are evaluated *)
          let* _ := slice_to (fb_CommitHash fb) 8 in
          let* _ := slice_to mergeBase 8 in
          ret (fb_CommitHash fb)
        else ret mergeBase
    | None => ret mergeBase
    end in
  let* localCommits := wrap_err "failed to get local commits: "
                         (getCommitsSince fuel pool "main" effectiveBase) in
  let userCommits := collectUserCommits localCommits imported finalizedBase in
  match userCommits with
  | [] => ret 0
  | _ => replayToTempBranchThenUpdateMain r effectiveBase (c_Hash head) userCommits
  end.

End reconciler.

Arguments Reconciler St : clear implicits.
Arguments CommitRejectedCallback St : clear implicits.
