(* ===== verification/Walk.v ===== *)
(** * The walk over the commit graph
    ([core/reconciler_core.go]: [getCommitsSince] and what it calls)

    [getCommitsSince] ends, and returns each commit between the head of a
    branch and a base exactly once. *)

From Stdlib Require Import ZArith Lia String Ascii.
From stdpp Require Import gmap strings list sorting pretty.
From S2P Require Import Prelude Hlc GoTime GoJson GoJsonFacts Metadata Index Linearize Dolt ToyDolt Reconciler.

Local Open Scope nat_scope.

(** ** Computations that only read *)

Section reads.
Context {St W : Type} `{D : Dolt W, !DoltLaws W} `{HW : HasWorld St W}.

(** [m] leaves the repository and the sessions alone, does not panic, and a
    value it returns satisfies [P]. *)
Definition reads {A} (m : M St A) (s : St) (P : A → Prop) : Prop :=
  wf_world (get_world s) →
  let '(r, s') := m s in
  wf_world (get_world s') ∧ view (get_world s') = view (get_world s) ∧
  current (get_world s') = current (get_world s) ∧
  match r with Ok a => P a | Err _ => True | Panic _ => False end.

Lemma reads_ret {A} (a : A) s (P : A → Prop) : P a → reads (ret a) s P.
Proof. by intros ??. Qed.

Lemma reads_fail {A} e s (P : A → Prop) : reads (fail e) s P.
Proof. by intros ?. Qed.

Lemma reads_mono {A} (m : M St A) s (P Q : A → Prop) :
  reads m s P → (∀ a, P a → Q a) → reads m s Q.
Proof.
  intros Hm HPQ Hw. specialize (Hm Hw). destruct (m s) as [[] ?]; naive_solver.
Qed.

(** The continuation runs in a state that shows the same world. *)
Definition same_world (s s' : St) : Prop :=
  view (get_world s') = view (get_world s) ∧ current (get_world s') = current (get_world s).

Lemma reads_bind {A B} (m : M St A) (k : A → M St B) s (P : A → Prop) (Q : B → Prop) :
  reads m s P → (∀ a s', same_world s s' → P a → reads (k a) s' Q) → reads (bind m k) s Q.
Proof.
  intros Hm Hk Hw. specialize (Hm Hw). unfold bind.
  destruct (m s) as [[a|e|e] s1]; destruct Hm as (Hw1 & Hv & Hc & HP); [|done|done].
  specialize (Hk a s1 (conj Hv Hc) HP Hw1). destruct (k a s1) as [r s2].
  destruct Hk as (? & Hv2 & Hc2 & ?). by rewrite Hv2, Hc2.
Qed.

Lemma reads_attempt {A} (m : M St A) s (P : A → Prop) :
  reads m s P → reads (attempt m) s (λ r, match r with Ok a => P a | Err _ => True | Panic _ => False end).
Proof.
  intros Hm Hw. specialize (Hm Hw). unfold attempt. by destruct (m s) as [[] ?].
Qed.

Lemma reads_wrap_err {A} p (m : M St A) s (P : A → Prop) : reads m s P → reads (wrap_err p m) s P.
Proof.
  intros Hm Hw. specialize (Hm Hw). unfold wrap_err. by destruct (m s) as [[] ?].
Qed.

Lemma reads_query {A} c (q : qry A) s :
  reads (lift (query c q)) s (answers (view (get_world s)) (current (get_world s) c) q).
Proof.
  intros Hw. unfold lift. destruct (query c q (get_world s)) as [r w'] eqn:E.
  destruct (query_pure A c q (get_world s)) as (Hv & Hc & Hwf).
  pose proof (query_no_panic A c q (get_world s)) as Hp. rewrite E in *. simpl in *.
  rewrite get_set_world. split_and!; [auto..|].
  destruct r; [|done|by eapply Hp]. by eapply query_ok.
Qed.

Lemma reads_query_row {A} c (q : qry A) s :
  reads (query_row c q) s (λ a, ∃ rest,
    answers (view (get_world s)) (current (get_world s) c) q (a :: rest)).
Proof.
  unfold query_row. eapply reads_bind; [apply reads_query|].
  intros [|a rest] s' _ Ha; [apply reads_fail|]. apply reads_ret. eauto.
Qed.

(** ** The queries of the reconciler *)

Lemma reads_getFirstParentHash c h s :
  reads (getFirstParentHash c h) s (λ p,
    ∃ x rest, parent_rows (view (get_world s)) h = x :: rest ∧ p = null_string x).
Proof.
  unfold getFirstParentHash. eapply reads_bind; [apply reads_query|].
  intros [|x rest] s' _ Ha; [apply reads_fail|]. apply reads_ret. simpl in Ha.
  destruct (parent_rows _ h) as [|y l]; [done|]. simpl in Ha. injection Ha as -> _. eauto.
Qed.

Lemma reads_getHeadHash c s :
  reads (getHeadHash c) s (λ h,
    v_branches (view (get_world s)) !! current (get_world s) c = Some h).
Proof.
  unfold getHeadHash. eapply reads_bind; [apply reads_query_row|].
  intros [h|] s' _ [rest Ha]; [|apply reads_fail]. apply reads_ret.
  simpl in Ha. unfold resolve in Ha. simpl in Ha. case_match; congruence.
Qed.

(** A branch name looked up among the local branches, then the remote ones. *)
Definition branch_head (v : dview) (branch : string) : option string :=
  match v_branches v !! branch with
  | Some h => Some h
  | None => v_remote_branches v !! branch
  end.

(** A name that cannot be mistaken for a hash or for [HEAD]. *)
Definition is_branch_name (b : string) : bool := negb (is_hash b) && negb (String.eqb b "HEAD").

Lemma resolve_branch v cur b : is_branch_name b = true → resolve v cur b = branch_head v b.
Proof.
  unfold is_branch_name, resolve, branch_head.
  intros [Hh Hn]%andb_prop. apply negb_true_iff in Hh, Hn. by rewrite Hn, Hh.
Qed.

Lemma reads_GetLastCommit branch s :
  is_branch_name branch = true →
  reads (GetLastCommit branch) s (λ c, ∃ h ps,
    branch_head (view (get_world s)) branch = Some h ∧
    v_commits (view (get_world s)) !! h = Some (c, ps)).
Proof.
  intros Hb. unfold GetLastCommit. eapply reads_bind; [apply reads_wrap_err, reads_query|].
  intros [|c rest] s' _ Ha; [apply reads_fail|]. apply reads_ret. simpl in Ha.
  rewrite resolve_branch in Ha by done. case_match; [|done]. naive_solver.
Qed.

(** A row that is reported missing is missing. *)
Lemma reads_try_row {A} c (q : qry A) s :
  reads (attempt (query_row c q)) s (λ r,
    match r with
    | Ok a => ∃ rest, answers (view (get_world s)) (current (get_world s) c) q (a :: rest)
    | Err e => is_no_rows e = true → answers (view (get_world s)) (current (get_world s) c) q []
    | Panic _ => False
    end).
Proof.
  intros Hw. pose proof (reads_query c q s Hw) as Hq. revert Hq.
  unfold attempt, query_row, bind, lift.
  destruct (query c q (get_world s)) as [r w'] eqn:E.
  destruct r as [[|a rest]|e|e]; simpl; intros (? & ? & ? & Ha); split_and!; try done; [by eauto|].
  intros Hn. apply query_err in E. congruence.
Qed.

Lemma reads_getBranchHeadHash c branch s :
  is_branch_name branch = true →
  reads (getBranchHeadHash c branch) s (λ h,
    h = default "" (branch_head (view (get_world s)) branch)).
Proof.
  intros Hb. unfold getBranchHeadHash.
  eapply reads_bind.
  { apply reads_attempt. eapply reads_bind; [apply reads_query_row|].
    intros [h|] s' _ Ha; [|apply reads_fail].
    apply (reads_ret h s' (λ h, branch_head (view (get_world s)) branch = Some h)).
    destruct Ha as [rest Ha]. simpl in Ha. rewrite resolve_branch in Ha by done.
    case_match; congruence. }
  intros [h|e|e] s1 [Hv1 Hc1] H1; [apply reads_ret; by rewrite H1| |done].
  destruct (is_no_rows e); [simpl|apply reads_fail]. clear H1 e.
  eapply reads_bind; [apply reads_try_row|].
  intros [h|e|e] s2 [Hv2 Hc2] H2; [| |done].
  { apply reads_ret. destruct H2 as [rest H2]. simpl in H2. rewrite Hv1 in H2.
    unfold branch_head. case_match; [|done]. by injection H2 as -> _. }
  destruct (is_no_rows e); [simpl|apply reads_fail]. specialize (H2 eq_refl). simpl in H2.
  eapply reads_bind; [apply reads_try_row|].
  intros [h|e'|e'] s3 [Hv3 Hc3] H3; [| |done]; unfold branch_head;
    rewrite Hv1 in H2; destruct (v_branches _ !! branch); try done.
  - apply reads_ret. destruct H3 as [rest H3]. simpl in H3. rewrite Hv2, Hv1 in H3.
    case_match; [|done]. by injection H3 as -> _.
  - destruct (is_no_rows e'); [|apply reads_fail]. apply reads_ret. specialize (H3 eq_refl).
    simpl in H3. rewrite Hv2, Hv1 in H3. by case_match.
Qed.

Lemma reads_getCommitByHash c h s :
  is_hash h = true →
  reads (getCommitByHash c h) s (λ x, ∃ ps, v_commits (view (get_world s)) !! h = Some (x, ps)).
Proof.
  intros Hh. unfold getCommitByHash. eapply reads_bind; [apply reads_attempt, reads_query_row|].
  intros [x|e|e] s1 [Hv Hc] H1; [| |done].
  - apply reads_ret. destruct H1 as [rest H1]. simpl in H1. case_match; [|done].
    destruct p as [x' ps]. injection H1 as -> _. eauto.
  - simpl. case_match; [apply reads_fail|].
    eapply reads_mono; [apply reads_query_row|]. intros x [rest Hx]. simpl in Hx.
    unfold resolve in Hx. rewrite Hh, Hv in Hx.
    assert (String.eqb h "HEAD" = false) as Hn
      by (apply String.eqb_neq; intros ->; by vm_compute in Hh).
    rewrite Hn in Hx. destruct (v_commits _ !! h) as [[x' ps]|] eqn:E; [|done].
    simpl in Hx. destruct Hx as (x'' & ps' & Hx & Heq). injection Heq as -> _.
    rewrite E in Hx. naive_solver.
Qed.

Lemma is_hash_nonempty h : is_hash h = true → String.eqb h "" = false.
Proof. intros Hh. apply String.eqb_neq. by intros ->. Qed.

Lemma parents_wf v h p :
  view_wf v → p ∈ parents v h → is_Some (v_commits v !! p) ∧ is_hash p = true.
Proof.
  intros Hv. unfold parents. destruct (v_commits v !! h) as [[x ps]|] eqn:E; [|set_solver].
  intros Hp. destruct (wf_parents _ Hv _ _ _ _ E Hp) as [[y qs] Hy].
  split; [eauto|]. by apply (wf_hash _ Hv) in Hy as [? _].
Qed.

Lemma reads_getParentHashes c h s :
  view_wf (view (get_world s)) →
  reads (getParentHashes c h) s (λ ps, ps = parents (view (get_world s)) h).
Proof.
  intros Hv. unfold getParentHashes. eapply reads_bind; [apply reads_query|].
  intros rows s1 _ Hr. apply reads_ret. simpl in Hr. subst rows.
  assert (∀ p, p ∈ parents (view (get_world s)) h → String.eqb p "" = false) as Hne
    by (intros p Hp; by apply is_hash_nonempty, (parents_wf _ _ _ Hv Hp)).
  assert (omap id (parent_rows (view (get_world s)) h) = parents (view (get_world s)) h) as ->.
  { unfold parent_rows, parents. destruct (v_commits _ !! h) as [[x ps]|]; [|done].
    destruct ps as [|p ps]; [done|]. simpl. f_equal. clear. induction ps; simpl; congruence. }
  induction (parents _ h) as [|p ps IH]; [done|]. simpl. rewrite Hne by set_solver. simpl.
  f_equal. apply IH. set_solver.
Qed.
End reads.

(** ** What the walk visits *)

(** The commits reached from [head] along parents without crossing [base]. *)
Inductive since (v : dview) (base head : string) : string → Prop :=
| since_head : head ≠ base → since v base head head
| since_parent x p : since v base head x → p ∈ parents v x → p ≠ base → since v base head p.

(** The parent links that the walk can still follow. *)
Definition links (m : gmap string (Commit * list string)) : nat :=
  map_fold (λ _ x n, length x.2 + n) 0 m.
Definition unseen (v : dview) (seen : gset string) : gmap string (Commit * list string) :=
  filter (λ kv, kv.1 ∉ seen) (v_commits v).
Definition walk_measure (v : dview) (seen : gset string) (queue : list string) : nat :=
  length queue + links (unseen v seen).

(** Enough fuel for any walk over the repository. *)
Definition walk_fuel (v : dview) : nat := S (links (v_commits v)).

Lemma links_insert m k x :
  m !! k = None → links (<[k := x]> m) = length x.2 + links m.
Proof. intros Hk. unfold links. rewrite map_fold_insert_L; [done|intros; lia|done]. Qed.

Lemma unseen_visit v seen h x :
  h ∉ seen → v_commits v !! h = Some x →
  links (unseen v seen) = length x.2 + links (unseen v ({[h]} ∪ seen)).
Proof.
  intros Hs Hx. rewrite <-(links_insert _ h); [f_equal|].
  - apply map_eq. intros k. unfold unseen. destruct (decide (k = h)) as [->|Hk].
    + rewrite lookup_insert_eq. by apply map_lookup_filter_Some.
    + rewrite lookup_insert_ne by done. apply option_eq. intros y.
      rewrite !map_lookup_filter_Some. simpl. set_solver.
  - apply map_lookup_filter_None. right. intros y _. simpl. set_solver.
Qed.

Lemma walk_fuel_enough v head : walk_measure v ∅ [head] ≤ walk_fuel v.
Proof.
  unfold walk_measure, walk_fuel. simpl. apply le_n_S. unfold unseen.
  rewrite map_filter_id; [done|]. intros. simpl. set_solver.
Qed.

(** The state of the walk: what was seen was collected, once, and everything
    that the walk must still reach goes through the queue. *)
Record walk_inv (v : dview) (base head : string) (seen : gset string) (queue : list string)
    (commits : list Commit) : Prop := {
  wi_seen : list_to_set (c_Hash <$> commits) =@{gset string} seen;
  wi_nodup : NoDup (c_Hash <$> commits);
  wi_commits : ∀ c, c ∈ commits → ∃ ps, v_commits v !! c_Hash c = Some (c, ps);
  wi_since : ∀ h, h ∈ seen ∨ h ∈ queue → since v base head h;
  wi_known : ∀ h, h ∈ queue → is_Some (v_commits v !! h);
  wi_head : head ∈ seen ∨ head ∈ queue;
  wi_closed : ∀ h p, h ∈ seen → p ∈ parents v h → p ≠ base → p ∈ seen ∨ p ∈ queue;
}.

Definition walk_result (v : dview) (base head : string) (out : list Commit) : Prop :=
  NoDup (c_Hash <$> out) ∧
  ∀ c, c ∈ out ↔ since v base head (c_Hash c) ∧ ∃ ps, v_commits v !! c_Hash c = Some (c, ps).

Lemma walk_inv_done v base head seen commits :
  walk_inv v base head seen [] commits → walk_result v base head commits.
Proof.
  intros [Hs Hnd Hc Hsi _ Hh Hcl]. split; [done|].
  assert (∀ h, since v base head h → h ∈ seen) as Hall.
  { induction 1 as [|x p _ IH Hp Hb]; [destruct Hh; set_solver|].
    destruct (Hcl x p IH Hp Hb); set_solver. }
  intros c. split.
  - intros Hin. split; [|auto]. apply Hsi. left. rewrite <-Hs, elem_of_list_to_set.
    apply list_elem_of_fmap. eauto.
  - intros [Hi%Hall (ps & Hp)]. rewrite <-Hs, elem_of_list_to_set, list_elem_of_fmap in Hi.
    destruct Hi as (c' & E & Hc'). destruct (Hc c' Hc') as [ps' Hp']. rewrite <-E in Hp'.
    congruence.
Qed.

Lemma walk_inv_skip v base head seen h queue commits :
  walk_inv v base head seen (h :: queue) commits → h ∈ seen →
  walk_inv v base head seen queue commits.
Proof.
  intros [Hs Hnd Hc Hsi Hk Hh Hcl] Hin. split; [done..| | | |].
  - intros x [?|?]; apply Hsi; set_solver.
  - intros x ?. apply Hk. set_solver.
  - destruct Hh; set_solver.
  - intros x p Hx Hp Hb. destruct (Hcl x p Hx Hp Hb); set_solver.
Qed.

(** The elements that one visit appends to the queue. *)
Definition next_queue (base : string) (seen : gset string) (ps : list string) : list string :=
  List.filter (λ p, negb (String.eqb p "" || String.eqb p base) && negb (bool_decide (p ∈ seen))) ps.

Lemma elem_of_next_queue base seen ps p :
  p ∈ next_queue base seen ps ↔ p ∈ ps ∧ p ≠ "" ∧ p ≠ base ∧ p ∉ seen.
Proof.
  unfold next_queue. rewrite list_elem_of_In, filter_In, <-list_elem_of_In.
  rewrite andb_true_iff, !negb_true_iff, orb_false_iff, !String.eqb_neq, bool_decide_eq_false.
  tauto.
Qed.

Lemma walk_inv_visit v base head seen h queue commits c ps :
  view_wf v → walk_inv v base head seen (h :: queue) commits → h ∉ seen →
  v_commits v !! h = Some (c, ps) →
  walk_inv v base head ({[h]} ∪ seen) (queue ++ next_queue base ({[h]} ∪ seen) ps) (commits ++ [c]).
Proof.
  intros Hv [Hs Hnd Hc Hsi Hk Hh Hcl] Hin Hx.
  pose proof (proj2 (wf_hash _ Hv _ _ _ Hx)) as Hch.
  assert (parents v h = ps) as Hps by (unfold parents; by rewrite Hx).
  assert (since v base head h) as Hsh by (apply Hsi; set_solver).
  split.
  - rewrite fmap_app, list_to_set_app_L, Hs. simpl. rewrite Hch. set_solver.
  - rewrite fmap_app. apply NoDup_app. split_and!; [done| |apply NoDup_singleton].
    intros k Hk' Hk''. apply list_elem_of_singleton in Hk''. subst k.
    apply Hin. rewrite <-Hs, elem_of_list_to_set. by rewrite <-Hch.
  - intros x [Hx'| ->%list_elem_of_singleton]%elem_of_app; [auto|]. rewrite Hch. eauto.
  - intros x. rewrite elem_of_union, elem_of_singleton, elem_of_app, elem_of_next_queue.
    intros [[->|?]|[?|(Hp & _ & Hb & _)]]; [done|apply Hsi; set_solver..|].
    apply (since_parent _ _ _ h); [done|by rewrite Hps|done].
  - intros x [Hx'|Hx']%elem_of_app; [apply Hk; set_solver|].
    apply elem_of_next_queue in Hx' as [Hp _]. rewrite <-Hps in Hp. by apply (parents_wf v h).
  - destruct Hh; set_solver.
  - intros x p Hx' Hp Hb. rewrite elem_of_app, elem_of_next_queue.
    destruct (decide (p ∈ {[h]} ∪ seen)) as [?|Hn]; [by left|]. right.
    apply elem_of_union in Hx' as [->%elem_of_singleton|Hx'].
    + right. rewrite Hps in Hp. split_and!; [done| |done|done].
      intros ->. rewrite <-Hps in Hp. by destruct (parents_wf v h _ Hv Hp) as [_ ?].
    + destruct (Hcl x p Hx' Hp Hb); set_solver.
Qed.

Lemma since_not_base v base head h : since v base head h → h ≠ base.
Proof. by destruct 1. Qed.

Lemma walk_measure_skip v seen h queue :
  walk_measure v seen (h :: queue) = S (walk_measure v seen queue).
Proof. done. Qed.

Lemma walk_measure_visit v base seen h queue c ps :
  h ∉ seen → v_commits v !! h = Some (c, ps) →
  S (walk_measure v ({[h]} ∪ seen) (queue ++ next_queue base ({[h]} ∪ seen) ps))
    ≤ walk_measure v seen (h :: queue).
Proof.
  intros Hs Hx. unfold walk_measure. rewrite (unseen_visit v seen h (c, ps) Hs Hx), length_app.
  assert (length (next_queue base ({[h]} ∪ seen) ps) ≤ length ps)
    by apply filter_length_le. simpl. lia.
Qed.

(** A branch that resolves starts the walk at a known commit. *)
Lemma branch_head_known v branch head :
  view_wf v → branch_head v branch = Some head →
  is_Some (v_commits v !! head) ∧ is_hash head = true.
Proof.
  intros Hv Hbh.
  assert (is_Some (v_commits v !! head)) as [[c ps] Hx].
  { unfold branch_head in Hbh. destruct (v_branches v !! branch) as [h'|] eqn:E.
    - injection Hbh as <-. by eapply wf_heads.
    - by eapply wf_remote_heads. }
  split; [by eauto|]. by apply (wf_hash _ Hv _ _ _ Hx).
Qed.

Lemma walk_inv_start v base head :
  is_Some (v_commits v !! head) → head ≠ base → walk_inv v base head ∅ [head] [].
Proof.
  intros Hk Hne. split; [done|apply NoDup_nil_2|set_solver| | |set_solver|set_solver].
  - intros x [?|Hx]; [set_solver|]. apply list_elem_of_singleton in Hx as ->. by constructor.
  - intros x ->%list_elem_of_singleton. done.
Qed.

Section walk.
Context {St W : Type} `{D : Dolt W, !DoltLaws W} `{HW : HasWorld St W}.

Lemma reads_bfs fuel q base head seen queue commits (s : St) :
  walk_inv (view (get_world s)) base head seen queue commits →
  walk_measure (view (get_world s)) seen queue ≤ fuel →
  reads (bfs fuel q base seen queue commits) s (walk_result (view (get_world s)) base head).
Proof.
  revert seen queue commits s.
  induction fuel as [|fuel IH]; intros seen [|h queue] commits s Hinv Hfuel.
  1,3: intros Hw; simpl; split_and!; [done..|]; by eapply walk_inv_done.
  { rewrite walk_measure_skip in Hfuel. lia. }
  intros Hw. pose proof (wf_world_view _ Hw) as Hv. revert Hw. cbn [bfs].
  destruct (wi_known _ _ _ _ _ _ Hinv h) as [[c0 ps0] Hx]; [set_solver|].
  pose proof (proj1 (wf_hash _ Hv _ _ _ Hx)) as Hh.
  assert (h ≠ base) as Hb
    by (apply (since_not_base (view (get_world s)) base head), (wi_since _ _ _ _ _ _ Hinv); set_solver).
  rewrite (is_hash_nonempty h Hh), (proj2 (String.eqb_neq h base) Hb). cbn [orb].
  case_bool_decide as Hs; cbv iota.
  { apply IH; [by eapply walk_inv_skip|]. rewrite walk_measure_skip in Hfuel. lia. }
  eapply reads_bind; [by apply reads_getCommitByHash|].
  intros c s1 [Hv1 Hc1] [ps Hc].
  eapply reads_bind; [apply reads_getParentHashes; by rewrite Hv1|].
  intros ps' s2 [Hv2 Hc2] ->. rewrite Hv1.
  assert (parents (view (get_world s)) h = ps) as -> by (unfold parents; by rewrite Hc).
  rewrite <-Hv1, <-Hv2. apply IH; rewrite Hv2, Hv1.
  - by apply walk_inv_visit.
  - pose proof (walk_measure_visit (view (get_world s)) base seen h queue c ps Hs Hc) as Hm.
    unfold next_queue in Hm. lia.
Qed.

Lemma reads_getCommitsSince fuel q branch base (s : St) :
  is_branch_name branch = true → walk_fuel (view (get_world s)) ≤ fuel →
  reads (getCommitsSince fuel q branch base) s (λ out,
    match branch_head (view (get_world s)) branch with
    | Some head => walk_result (view (get_world s)) base head out
    | None => out = []
    end).
Proof.
  intros Hb Hfuel Hw. pose proof (wf_world_view _ Hw) as Hv. revert Hw.
  unfold getCommitsSince. eapply reads_bind; [by apply reads_getBranchHeadHash|].
  intros h s1 [Hv1 Hc1] ->.
  destruct (branch_head _ branch) as [head|] eqn:Hbh; [|by apply reads_ret].
  change (default "" (Some head)) with head.
  destruct (branch_head_known _ _ _ Hv Hbh) as [Hx Hh].
  rewrite (is_hash_nonempty head Hh). cbn [orb].
  destruct (String.eqb_spec head base) as [->|Hne].
  - apply reads_ret. split; [apply NoDup_nil_2|]. intros x. split; [set_solver|].
    assert (∀ h, ¬ since (view (get_world s)) base base h) as Hno by (induction 1; done).
    intros [?%Hno _]. done.
  - rewrite <-Hv1. apply reads_bfs; rewrite Hv1.
    + by apply walk_inv_start.
    + etrans; [apply walk_fuel_enough|done].
Qed.
End walk.

(** ** Whatever the fuel

    For safety alone the fuel does not matter: a walk that is cut short
    returns nothing. *)

Section quiet.
Context {St W : Type} `{D : Dolt W, !DoltLaws W} `{HW : HasWorld St W}.

Definition quiet {A} (m : M St A) (s : St) (P : A → Prop) : Prop :=
  wf_world (get_world s) →
  let '(r, s') := m s in
  wf_world (get_world s') ∧ view (get_world s') = view (get_world s) ∧
  current (get_world s') = current (get_world s) ∧ ∀ a, r = Ok a → P a.

Lemma reads_quiet {A} (m : M St A) s P : reads m s P → quiet m s P.
Proof.
  intros Hm Hw. specialize (Hm Hw). destruct (m s) as [r s']. destruct Hm as (? & ? & ? & HP).
  split_and!; [done..|]. by intros a ->.
Qed.

Lemma quiet_bind {A B} (m : M St A) (k : A → M St B) s (P : A → Prop) (Q : B → Prop) :
  quiet m s P → (∀ a s', same_world s s' → P a → quiet (k a) s' Q) → quiet (bind m k) s Q.
Proof.
  intros Hm Hk Hw. specialize (Hm Hw). unfold bind.
  destruct (m s) as [[a|e|e] s1]; destruct Hm as (Hw1 & Hv & Hc & HP); [|done|done].
  specialize (Hk a s1 (conj Hv Hc) (HP a eq_refl) Hw1). destruct (k a s1) as [r s2].
  destruct Hk as (? & Hv2 & Hc2 & ?). by rewrite Hv2, Hc2.
Qed.

Definition known_commits (v : dview) (l : list Commit) : Prop :=
  ∀ x, x ∈ l → ∃ ps, v_commits v !! c_Hash x = Some (x, ps).

Lemma quiet_bfs fuel q base seen queue commits (s : St) :
  (∀ h, h ∈ queue → is_Some (v_commits (view (get_world s)) !! h)) →
  known_commits (view (get_world s)) commits →
  quiet (bfs fuel q base seen queue commits) s (known_commits (view (get_world s))).
Proof.
  revert seen queue commits s. induction fuel as [|fuel IH]; intros seen [|h queue] commits s Hq Hk Hw.
  1-3: simpl; split_and!; [done..|]; by intros a [= <-].
  pose proof (wf_world_view _ Hw) as Hv. revert Hw. cbn [bfs].
  destruct (_ || _); [apply IH; [set_solver|done]|].
  destruct (Hq h) as [[c0 ps0] Hx]; [set_solver|].
  destruct (wf_hash _ Hv _ _ _ Hx) as [Hh _].
  eapply quiet_bind; [by apply reads_quiet, reads_getCommitByHash|]. intros c s1 [Hv1 _] [ps Hc].
  eapply quiet_bind; [apply reads_quiet, reads_getParentHashes; by rewrite Hv1|].
  intros ps' s2 [Hv2 _] ->. rewrite <-Hv1, <-Hv2. apply IH; rewrite Hv2, Hv1.
  - intros p [Hp|Hp]%elem_of_app; [apply Hq; set_solver|].
    apply list_elem_of_In, filter_In in Hp as [Hp%list_elem_of_In _]. rewrite ?Hv2, ?Hv1 in Hp.
    by apply (parents_wf _ h).
  - intros x [Hx'| ->%list_elem_of_singleton]%elem_of_app; [auto|]. exists ps.
    by rewrite (proj2 (wf_hash _ Hv _ _ _ Hc)).
Qed.

Lemma quiet_getCommitsSince fuel q branch base (s : St) :
  is_branch_name branch = true →
  quiet (getCommitsSince fuel q branch base) s (known_commits (view (get_world s))).
Proof.
  intros Hb Hw. pose proof (wf_world_view _ Hw) as Hv. revert Hw.
  unfold getCommitsSince. eapply quiet_bind; [by apply reads_quiet, reads_getBranchHeadHash|].
  intros h s1 [Hv1 _] ->.
  assert (known_commits (view (get_world s)) []) as Hnil by (intros x Hx; by apply not_elem_of_nil in Hx).
  destruct (_ || _) eqn:E; [by apply reads_quiet, reads_ret|].
  apply orb_false_iff in E as [E _]. apply String.eqb_neq in E.
  rewrite <-Hv1 in Hnil |- *. apply quiet_bfs; [|done].
  intros h ->%list_elem_of_singleton. rewrite Hv1.
  destruct (branch_head _ branch) as [head|] eqn:Hbh; [|done].
  by apply (branch_head_known _ _ _ Hv Hbh).
Qed.
End quiet.

(** ** Totality when the engine answers *)

Section total.
Context {St W : Type} `{D : Dolt W, !DoltLaws W} `{HW : HasWorld St W}.

(** The engine answers the queries of the walk. *)
Definition walk_query {A} (q : qry A) : bool :=
  match q with
  | QHashOf _ | QBranchHash _ | QRemoteBranchHash _ | QCommit _ | QParents _ => true
  | _ => false
  end.
Definition reliable : Prop :=
  ∀ A c (q : qry A) w, walk_query q = true → is_ok (query c q w).1 = true.

Context (Hrel : reliable).

Lemma total_bind {A B} (m : M St A) (k : A → M St B) s (P : A → Prop) :
  wf_world (get_world s) → reads m s P → is_ok (m s).1 = true →
  (∀ a s', wf_world (get_world s') → same_world s s' → P a → is_ok (k a s').1 = true) →
  is_ok (bind m k s).1 = true.
Proof.
  intros Hw Hm Hok Hk. specialize (Hm Hw). unfold bind.
  destruct (m s) as [[a|e|e] s1]; [|done..]. destruct Hm as (? & ? & ? & ?). by apply Hk.
Qed.

Lemma total_attempt {A} (m : M St A) s (P : A → Prop) :
  wf_world (get_world s) → reads m s P → is_ok (attempt m s).1 = true.
Proof.
  intros Hw Hm. specialize (Hm Hw). unfold attempt. destruct (m s) as [[]?]; [done..|].
  naive_solver.
Qed.

Lemma total_query {A} c (q : qry A) s :
  walk_query q = true → is_ok (lift (St:=St) (query c q) s).1 = true.
Proof.
  intros Hq. unfold lift. pose proof (Hrel A c q (get_world s) Hq). by destruct (query c q (get_world s)) as [[]?].
Qed.

Lemma total_query_row {A} c (q : qry A) s :
  walk_query q = true → wf_world (get_world s) →
  (∀ rows, answers (view (get_world s)) (current (get_world s) c) q rows → rows ≠ []) →
  is_ok (query_row (St:=St) c q s).1 = true.
Proof.
  intros Hq Hw Hne. eapply total_bind; [done|apply reads_query|by apply total_query|].
  intros [|a rest] s' _ _ Ha; [|done]. by apply Hne in Ha.
Qed.

(** A look-up that fails can only have found no row. *)
Definition only_no_rows {A} (m : M St A) : Prop := ∀ s,
  wf_world (get_world s) →
  match m s with
  | (Ok _, s') => wf_world (get_world s')
  | (Err e, s') => is_no_rows e = true ∧ wf_world (get_world s')
  | (Panic _, _) => False
  end.

Lemma only_no_rows_query_row {A} c (q : qry A) :
  walk_query q = true → only_no_rows (query_row c q).
Proof.
  intros Hwq s Hw. pose proof (reads_query c q s Hw) as Hr. pose proof (total_query c q s Hwq) as Hq.
  revert Hr Hq. unfold query_row, bind.
  destruct (lift (query c q) s) as [[[]| |]?]; simpl; naive_solver.
Qed.

Lemma only_no_rows_hashof c branch :
  only_no_rows (let* row := query_row c (QHashOf branch) in scan_string row).
Proof.
  intros s Hw. pose proof (reads_query c (QHashOf branch) s Hw) as Hr.
  pose proof (total_query c (QHashOf branch) s eq_refl) as Hq. revert Hr Hq. unfold query_row, bind.
  destruct (lift (query c (QHashOf branch)) s) as [[rows| |] s1]; simpl; [|done..].
  intros (? & ? & ? & ->) _. by destruct (resolve _ _ _).
Qed.

Lemma total_try {A B} (m : M St A) (k : result A → M St B) s :
  only_no_rows m → wf_world (get_world s) →
  (∀ a s', wf_world (get_world s') → is_ok (k (Ok a) s').1 = true) →
  (∀ e s', wf_world (get_world s') → is_no_rows e = true → is_ok (k (Err e) s').1 = true) →
  is_ok (bind (attempt m) k s).1 = true.
Proof.
  intros Hm Hw HOk HErr. specialize (Hm s Hw). unfold bind, attempt.
  destruct (m s) as [[]?]; naive_solver.
Qed.

Lemma total_getBranchHeadHash c branch s :
  wf_world (get_world s) → is_ok (getBranchHeadHash (St:=St) c branch s).1 = true.
Proof.
  intros Hw. unfold getBranchHeadHash.
  apply total_try; [apply only_no_rows_hashof|done|done|]. intros e s1 Hw1 ->. simpl.
  apply total_try; [by apply only_no_rows_query_row|done|done|]. intros e' s2 Hw2 ->. simpl.
  apply total_try; [by apply only_no_rows_query_row|done|done|]. by intros e'' s3 Hw3 ->.
Qed.

Lemma total_getCommitByHash c h s :
  wf_world (get_world s) → is_Some (v_commits (view (get_world s)) !! h) →
  is_ok (getCommitByHash (St:=St) c h s).1 = true.
Proof.
  intros Hw [[x ps] Hx]. unfold getCommitByHash.
  assert (is_ok (query_row (St:=St) c (QCommit h) s).1 = true) as Hq.
  { apply total_query_row; [done..|]. simpl. intros rows ->. by rewrite Hx. }
  unfold bind, attempt. by destruct (query_row c (QCommit h) s) as [[]?].
Qed.

Lemma total_bfs fuel q base head seen queue commits (s : St) :
  wf_world (get_world s) →
  walk_inv (view (get_world s)) base head seen queue commits →
  walk_measure (view (get_world s)) seen queue ≤ fuel →
  is_ok (bfs fuel q base seen queue commits s).1 = true.
Proof.
  revert seen queue commits s.
  induction fuel as [|fuel IH]; intros seen [|h queue] commits s Hw Hinv Hfuel; [done| |done|].
  { rewrite walk_measure_skip in Hfuel. lia. }
  pose proof (wf_world_view _ Hw) as Hv. cbn [bfs].
  destruct (wi_known _ _ _ _ _ _ Hinv h) as [[c0 ps0] Hx]; [set_solver|].
  pose proof (proj1 (wf_hash _ Hv _ _ _ Hx)) as Hh.
  destruct (String.eqb h "" || String.eqb h base || bool_decide (h ∈ seen)) eqn:Hskip.
  - assert (h ≠ base) as Hb
      by (apply (since_not_base (view (get_world s)) base head), (wi_since _ _ _ _ _ _ Hinv); set_solver).
    rewrite (is_hash_nonempty h Hh), (proj2 (String.eqb_neq h base) Hb) in Hskip. cbn [orb] in Hskip.
    apply bool_decide_eq_true in Hskip. apply IH; [done|by eapply walk_inv_skip|].
    rewrite walk_measure_skip in Hfuel. lia.
  - apply orb_false_iff in Hskip as [_ Hs%bool_decide_eq_false].
    eapply total_bind; [done|by apply reads_getCommitByHash|by apply total_getCommitByHash|].
    intros c s1 Hw1 [Hv1 Hc1] [ps Hc].
    eapply total_bind; [done|apply reads_getParentHashes; by rewrite Hv1| |].
    + eapply total_bind; [done|apply reads_query|by apply total_query|done].
    + intros ps' s2 Hw2 [Hv2 Hc2] ->. rewrite Hv1.
      assert (parents (view (get_world s)) h = ps) as -> by (unfold parents; by rewrite Hc).
      apply IH; [done|rewrite Hv2, Hv1; by apply walk_inv_visit|rewrite Hv2, Hv1].
      pose proof (walk_measure_visit (view (get_world s)) base seen h queue c ps Hs Hc) as Hm.
      unfold next_queue in Hm. lia.
Qed.

Lemma total_getCommitsSince fuel q branch base (s : St) :
  is_branch_name branch = true → wf_world (get_world s) →
  walk_fuel (view (get_world s)) ≤ fuel →
  is_ok (getCommitsSince fuel q branch base s).1 = true.
Proof.
  intros Hb Hw Hfuel. pose proof (wf_world_view _ Hw) as Hv. unfold getCommitsSince.
  eapply total_bind; [done|by apply reads_getBranchHeadHash|by apply total_getBranchHeadHash|].
  intros h s1 Hw1 [Hv1 _] ->. destruct (branch_head _ branch) as [head|] eqn:Hbh; [|done].
  change (default "" (Some head)) with head.
  destruct (branch_head_known _ _ _ Hv Hbh) as [Hx Hh]. rewrite (is_hash_nonempty head Hh). cbn [orb].
  destruct (String.eqb_spec head base) as [->|Hne]; [done|].
  apply (total_bfs _ _ _ head); [done| |]; rewrite Hv1; [by apply walk_inv_start|].
  etrans; [apply walk_fuel_enough|done].
Qed.
End total.

(** ** Properties *)

Section properties.
Context {St W : Type} `{D : Dolt W, !DoltLaws W} `{HW : HasWorld St W}.

(** C10. [getCommitsSince] terminates, within one iteration per parent link of
    the repository plus one, changes nothing, and what it returns is exactly
    the commits reachable from the head of the branch without crossing the
    base, each once; nothing when the branch does not exist.  It returns a
    result whenever the engine answers its queries. *)
Theorem getCommitsSince_exact (fuel : nat) (q : conn) (branch base : string) (s : St)
  (Hb : is_branch_name branch = true) (Hw : wf_world (get_world s))
  (Hfuel : walk_fuel (view (get_world s)) ≤ fuel) :
  let '(r, s') := getCommitsSince fuel q branch base s in
  view (get_world s') = view (get_world s) ∧
  match r with
  | Ok out =>
      match branch_head (view (get_world s)) branch with
      | Some head => walk_result (view (get_world s)) base head out
      | None => out = []
      end
  | Err _ => ¬ reliable (W:=W)
  | Panic _ => False
  end.
Proof.
  pose proof (reads_getCommitsSince fuel q branch base s Hb Hfuel Hw) as Hr.
  pose proof (λ Hrel, total_getCommitsSince Hrel fuel q branch base s Hb Hw Hfuel) as Ht.
  destruct (getCommitsSince fuel q branch base s) as [[out|e|e] s'];
    destruct Hr as (_ & Hv & _ & H); (split; [done|]); [done| |done].
  intros Hrel. by specialize (Ht Hrel).
Qed.
End properties.

Lemma getCommitsSince_exact_witness :
  is_branch_name "main" = true ∧ wf_world (get_world toy_repo) ∧ reliable (W:=toy) ∧
  let '(r, s') := getCommitsSince (W:=toy) 10 pool "main" (toy_hash 3) toy_repo in
  view (get_world s') = view (get_world toy_repo) ∧
  match r with
  | Ok out =>
      match branch_head (view (get_world toy_repo)) "main" with
      | Some head => walk_result (view (get_world toy_repo)) (toy_hash 3) head out
      | None => out = []
      end
  | Err _ => ¬ reliable (W:=toy)
  | Panic _ => False
  end.
Proof.
  split; [reflexivity|]. split; [exact toy_repo_wf|]. split; [intros A c q w Hq; by destruct q|].
  pose proof (getCommitsSince_exact (St:=toy) (W:=toy) 10 pool "main" (toy_hash 3) toy_repo) as H.
  apply H; [reflexivity|exact toy_repo_wf|vm_compute; lia].
Defined.
