(* ===== verification/Replay.v ===== *)
(** * The replay
    ([core/reconciler_core.go]: [replayToTempBranchThenUpdateMain] and
    [ReplayImportedCommits])

    [main] moves only when the whole replay went through; what it then points
    to accounts for every commit of the list. *)

From Stdlib Require Import ZArith Lia String Ascii.
From stdpp Require Import gmap strings list sorting pretty.
From S2P Require Import Prelude Hlc GoTime GoJson GoJsonFacts Metadata Sql Index Linearize Dolt ToyDolt Reconciler Walk.

Local Open Scope Z_scope.

(** ** The commit graph *)

Lemma parents_grow v v' h :
  v_commits v ⊆ v_commits v' → is_Some (v_commits v !! h) → parents v' h = parents v h.
Proof.
  intros Hs [[c ps] Hx]. unfold parents. by rewrite Hx, (lookup_weaken _ _ _ _ Hx Hs).
Qed.

Lemma ancestor_grow v v' a b :
  v_commits v ⊆ v_commits v' → ancestor v a b → ancestor v' a b.
Proof.
  intros Hs. induction 1 as [|a p b Hp _ IH]; [constructor|]. eapply rtc_l; [|done].
  unfold parents in *. destruct (v_commits v !! p) as [[c ps]|] eqn:E; [|set_solver].
  by rewrite (lookup_weaken _ _ _ _ E Hs).
Qed.

Lemma ancestor_refl v a : ancestor v a a.
Proof. constructor. Qed.

Lemma ancestor_trans v a b c : ancestor v a b → ancestor v b c → ancestor v a c.
Proof. intros H1 H2. by etrans. Qed.

Lemma ancestor_of_parent v a p b : ancestor v a p → p ∈ parents v b → ancestor v a b.
Proof. intros Ha Hp. eapply rtc_r; eauto. Qed.

(** An ancestor other than the commit itself is above one of its parents. *)
Lemma ancestor_strict v a b :
  ancestor v a b → a ≠ b → ∃ p, p ∈ parents v b ∧ ancestor v a p.
Proof. intros Ha Hne. apply rtc_inv_r in Ha as [->|(p & Ha & Hp)]; [done|eauto]. Qed.

(** The repository grew: no commit is lost, and each keeps its root value. *)
Definition grows (v v' : dview) : Prop :=
  v_commits v ⊆ v_commits v' ∧ v_trees v ⊆ v_trees v'.

(** [h'] re-creates [h]: the same parents and the same tables under another
    message, which is what amending a commit leaves of it. *)
Definition recreates (v : dview) (h' h : string) : Prop :=
  parents v h' = parents v h ∧ ∃ t, v_trees v !! h' = Some t ∧ v_trees v !! h = Some t.

(** What the replay guarantees of a commit it was given: the history of the
    new head contains it, or the commit that re-creates it under the message
    of a replay. *)
Definition kept (v : dview) (h head : string) : Prop :=
  ∃ h', (h' = h ∨ recreates v h' h) ∧
        is_Some (v_commits v !! h) ∧ is_Some (v_commits v !! h') ∧ ancestor v h' head.

Lemma known_grow_one v v' h :
  v_commits v ⊆ v_commits v' → is_Some (v_commits v !! h) → is_Some (v_commits v' !! h).
Proof. intros Hs [x Hx]. exists x. by eapply lookup_weaken. Qed.

Lemma recreates_grow v v' h' h :
  grows v v' → is_Some (v_commits v !! h) → is_Some (v_commits v !! h') →
  recreates v h' h → recreates v' h' h.
Proof.
  intros [Hs Ht] Hk Hk' (Hp & t & H1 & H2). split; [by rewrite !(parents_grow v v')|].
  exists t. split; by eapply lookup_weaken.
Qed.

Lemma kept_forward v v' h old new :
  grows v v' → kept v h old → ancestor v' old new → kept v' h new.
Proof.
  intros Hs (h' & Hp & Hk & Hk' & Ha) Hn. exists h'. split_and!.
  - destruct Hp as [->|Hp]; [by left|]. right. by apply (recreates_grow v).
  - by eapply known_grow_one, Hk; apply Hs.
  - by eapply known_grow_one, Hk'; apply Hs.
  - eapply ancestor_trans; [|done]. eapply ancestor_grow; [apply Hs|done].
Qed.

(** Amending the head keeps everything. *)
Lemma kept_amend v v' h old new c :
  view_wf v → grows v v' →
  v_commits v' !! new = Some (c, parents v old) → v_trees v' !! new = v_trees v !! old →
  kept v h old → kept v' h new.
Proof.
  intros Hv Hs Hn Ht (h' & Hp & Hk & Hk' & Ha).
  assert (parents v' new = parents v old) as Hpn by (unfold parents at 1; by rewrite Hn).
  destruct (decide (h' = old)) as [->|Hne].
  - exists new. split_and!; [|by apply (known_grow_one v); [apply Hs|]|by eauto|apply ancestor_refl].
    right. destruct Hs as [Hs Hst]. split.
    + rewrite Hpn, (parents_grow v v' h) by done. destruct Hp as [->|[Hp _]]; done.
    + rewrite Ht. destruct Hp as [->|(_ & t & H1 & H2)].
      * destruct (proj2 (wf_trees _ Hv h) Hk) as [t Hth]. exists t. split; [done|by eapply lookup_weaken].
      * exists t. split; [done|by eapply lookup_weaken].
  - destruct (ancestor_strict _ _ _ Ha Hne) as (p & Hpp & Hap).
    apply (kept_forward v v' h p new Hs); [by exists h'|].
    apply (ancestor_of_parent _ _ p); [apply ancestor_refl|]. by rewrite Hpn.
Qed.

(** Moving the head to a commit whose history contains the old one. *)
Lemma ancestor_amend v v' base old new c :
  v_commits v ⊆ v_commits v' → v_commits v' !! new = Some (c, parents v old) →
  ancestor v base old → base ≠ old → ancestor v' base new.
Proof.
  intros Hs Hn Ha Hne. destruct (ancestor_strict _ _ _ Ha Hne) as (p & Hpp & Hap).
  apply (ancestor_of_parent _ _ p); [by eapply ancestor_grow|]. unfold parents. by rewrite Hn.
Qed.

(** After a merge the head has both sides in its history. *)
Lemma merge_result_old v v' old h new :
  v_commits v ⊆ v_commits v' → merge_result v v' old h new → ancestor v' old new.
Proof.
  intros Hs [[_ ->]|[[Ha ->]|[c Hc]]]; [apply ancestor_refl|by eapply ancestor_grow|].
  apply (ancestor_of_parent _ _ old); [apply ancestor_refl|]. unfold parents. rewrite Hc. set_solver.
Qed.

Lemma merge_result_new v v' old h new :
  v_commits v ⊆ v_commits v' → merge_result v v' old h new → ancestor v' h new.
Proof.
  intros Hs [[Ha ->]|[[_ ->]|[c Hc]]]; [by eapply ancestor_grow|apply ancestor_refl|].
  apply (ancestor_of_parent _ _ h); [apply ancestor_refl|]. unfold parents. rewrite Hc. set_solver.
Qed.

(** ** Steps of the replay *)

Section replay.
Context {St W : Type} `{D : Dolt W, !DoltLaws W} `{HW : HasWorld St W}.

(** The commits reported as dropped so far, a part of the state that the
    engine does not touch. *)
Context (dropped : St → CommitAd → Prop).
Context (dropped_world : ∀ w s, dropped (set_world w s) = dropped s).

Local Abbreviation vw s := (view (get_world s)).
Local Abbreviation branches s := (v_branches (view (get_world s))).

(** From [s] to [s'] the repository only grew and no report was lost. *)
Record stepped (s s' : St) : Prop := {
  st_wf : wf_world (get_world s');
  st_grow : v_commits (vw s) ⊆ v_commits (vw s');
  st_trees : v_trees (vw s) ⊆ v_trees (vw s');
  st_dropped : ∀ ad, dropped s ad → dropped s' ad;
}.

Lemma stepped_refl s : wf_world (get_world s) → stepped s s.
Proof. by split. Qed.

Lemma stepped_trans s1 s2 s3 : stepped s1 s2 → stepped s2 s3 → stepped s1 s3.
Proof. intros [???H] [???H']. split; [done|by etrans|by etrans|auto]. Qed.

Lemma stepped_grows s s' : stepped s s' → grows (vw s) (vw s').
Proof. by intros [_ Hg Ht _]. Qed.

(** Nothing moved. *)
Definition still (c : conn) (s s' : St) : Prop :=
  stepped s s' ∧ branches s' = branches s ∧ current (get_world s') c = current (get_world s) c.

Lemma still_trans c s1 s2 s3 : still c s1 s2 → still c s2 s3 → still c s1 s3.
Proof. intros (? & ? & ?) (? & ? & ?). split; [by eapply stepped_trans|]. split; by etrans. Qed.

Lemma lift_dropped {A} (m : M W A) s : dropped (lift m s).2 = dropped s.
Proof. unfold lift. destruct (m (get_world s)). apply dropped_world. Qed.

Lemma preserves_lift_dropped {A} (m : M W A) d : preserves (λ s, dropped s = d) (lift m).
Proof. intros s <-. apply lift_dropped. Qed.

Lemma reads_holds {A} (m : M St A) s (P : A → Prop) c :
  wf_world (get_world s) → reads m s P → (∀ d, preserves (λ s, dropped s = d) m) →
  holds m s (λ r s', still c s s' ∧ vw s' = vw s ∧
    match r with Ok a => P a | Err _ => True | Panic _ => False end).
Proof.
  intros Hw Hm Hd. specialize (Hm Hw). specialize (Hd (dropped s) s eq_refl). unfold holds, still.
  destruct (m s) as [r s']; simpl in *. destruct Hm as (Hw' & Hv & Hc & HP).
  split_and!; [|by rewrite Hv|by rewrite Hc|done|done].
  split; [done|by rewrite Hv|by rewrite Hv|by rewrite Hd].
Qed.

Lemma quiet_holds {A} (m : M St A) s (P : A → Prop) c :
  wf_world (get_world s) → quiet m s P → (∀ d, preserves (λ s, dropped s = d) m) →
  holds m s (λ r s', still c s s' ∧ vw s' = vw s ∧ ∀ a, r = Ok a → P a).
Proof.
  intros Hw Hm Hd. specialize (Hm Hw). specialize (Hd (dropped s) s eq_refl). unfold holds, still.
  destruct (m s) as [r s']; simpl in *. destruct Hm as (Hw' & Hv & Hc & HP).
  split_and!; [|by rewrite Hv|by rewrite Hc|done|done].
  split; [done|by rewrite Hv|by rewrite Hv|by rewrite Hd].
Qed.

Lemma holds_exec c st s :
  wf_world (get_world s) →
  holds (lift (exec c st)) s (λ r s', stepped s s' ∧
    match r with
    | Ok _ => effect (vw s) (current (get_world s) c) st (vw s') (current (get_world s') c)
    | Err _ => branches s' = branches s ∧ current (get_world s') c = current (get_world s) c
    | Panic _ => False
    end).
Proof.
  intros Hw. unfold holds, lift.
  pose proof (exec_wf c st (get_world s) Hw) as Hwf. pose proof (exec_grow c st (get_world s) Hw) as Hg.
  pose proof (exec_trees c st (get_world s) Hw) as Ht. pose proof (exec_err c st (get_world s) Hw) as He.
  pose proof (λ e, exec_no_panic c st (get_world s) e Hw) as Hp.
  destruct (exec c st (get_world s)) as [r w'] eqn:E. simpl in *. rewrite get_set_world. split.
  - split; rewrite ?get_set_world, ?dropped_world; done.
  - destruct r; [by eapply exec_ok|by destruct (He eq_refl) as (? & ? & ?)|by eapply Hp].
Qed.

(** The callbacks finish, leave the repository alone, lose no report, and one
    of them reports the commit. *)
Definition untouched (s s' : St) : Prop :=
  view (get_world s') = view (get_world s) ∧ current (get_world s') = current (get_world s) ∧
  (wf_world (get_world s) → wf_world (get_world s')).

Definition hook_ok (f : CommitRejectedCallback St) (report : bool) : Prop := ∀ ad reason s,
  holds (f ad reason) s (λ r s', r = Ok tt ∧ untouched s s' ∧
    (∀ ad', dropped s ad' → dropped s' ad') ∧ (report = true → dropped s' ad)).

Definition hooks_ok (r : Reconciler St) : Prop :=
  (∃ f, onCommitRejectedInternal r = Some f ∧ hook_ok f true) ∧
  (∀ f, onCommitRejected r = Some f → hook_ok f false).

(** A commit is accounted for on the branch whose head is [head]. *)
Definition reported (s : St) (x : commitWithMeta) : Prop :=
  ∃ ad, dropped s ad ∧ ca_CommitHash ad = cwm_hash x ∧ ca_HLC ad = cwm_hlc x.
Definition accounted (s : St) (head : string) (x : commitWithMeta) : Prop :=
  kept (vw s) (cwm_hash x) head ∨ reported s x.

Lemma reported_step s s' x : stepped s s' → reported s x → reported s' x.
Proof. intros [_ _ _ Hd] (ad & Had & ?). exists ad. auto. Qed.

(** Only the temporary branch moved. *)
Definition frame (s s' : St) : Prop :=
  stepped s s' ∧ ∀ b, b ≠ "replay_tmp" → branches s' !! b = branches s !! b.

Lemma frame_trans s1 s2 s3 : frame s1 s2 → frame s2 s3 → frame s1 s3.
Proof. intros [? H1] [? H2]. split; [by eapply stepped_trans|]. intros b Hb. by rewrite H2, H1. Qed.

Lemma still_frame c s s' : still c s s' → frame s s'.
Proof. intros (? & Hb & _). split; [done|]. intros b _. by rewrite Hb. Qed.

Lemma insert_frame s s' h :
  stepped s s' → branches s' = <["replay_tmp" := h]> (branches s) → frame s s'.
Proof. intros ? Hb. split; [done|]. intros b Hne. by rewrite Hb, lookup_insert_ne. Qed.

(** The replay branch during the loop; [above] says that no commit of the list
    is part of the history of the base. *)
Record replaying (c : conn) (base : string) (above : Prop) (done : list commitWithMeta)
    (head : string) (s : St) : Prop := {
  rp_wf : wf_world (get_world s);
  rp_cur : current (get_world s) c = "replay_tmp";
  rp_tmp : branches s !! "replay_tmp" = Some head;
  rp_done : ∀ x, x ∈ done → accounted s head x;
  rp_base : above → ancestor (vw s) base head;
}.

Lemma holds_hook (cb : option (CommitRejectedCallback St)) report ad s :
  (match cb with Some f => hook_ok f report | None => report = false end) →
  holds (call_hook cb ad) s (λ r s', r = Ok tt ∧ untouched s s' ∧
    (∀ ad', dropped s ad' → dropped s' ad') ∧ (report = true → dropped s' ad)).
Proof. destruct cb as [f|]; simpl; [intros Hf; apply Hf|]. by intros ->. Qed.

Lemma holds_dropConflict r c x s :
  hooks_ok r → wf_world (get_world s) →
  holds (dropConflict r c x) s (λ res s', res = Ok tt ∧ still c s s' ∧ reported s' x).
Proof.
  intros [(f & Hf & Hi) Hu] Hw. unfold dropConflict. apply holds_bind.
  assert (holds (ignore (lift (exec c DoltMergeAbort))) s (λ res s', res = Ok tt ∧ still c s s')) as Ha.
  { pose proof (holds_exec c DoltMergeAbort s Hw) as He. unfold holds, ignore in *.
    destruct (lift (exec c DoltMergeAbort) s) as [[]?]; simpl in *; unfold still; naive_solver. }
  eapply holds_mono; [apply Ha|]. intros ? s1 [-> [Hst1 Hb1]].
  apply holds_bind. rewrite Hf. eapply holds_mono; [by apply (holds_hook (Some f) true)|].
  intros ? s2 (-> & (Hv2 & Hc2 & Hw2) & Hd2 & Hr2). eapply holds_mono.
  { apply (holds_hook (onCommitRejected r) false). destruct (onCommitRejected r); [|done]. by apply Hu. }
  intros ? s3 (-> & (Hv3 & Hc3 & Hw3) & Hd3 & _). split; [done|]. split.
  - destruct Hst1 as [Hwf Hg Htr Hd]. unfold still. rewrite Hv3, Hv2, Hc3, Hc2. split; [|done].
    split; rewrite ?Hv3, ?Hv2; auto.
  - eexists. split; [by apply Hd3, Hr2|done].
Qed.

(** A known commit names itself. *)
Lemma resolve_hash v cur h : view_wf v → is_Some (v_commits v !! h) → resolve v cur h = Some h.
Proof.
  intros Hv [[x ps] Hx]. destruct (wf_hash _ Hv _ _ _ Hx) as [Hh _]. unfold resolve.
  rewrite Hh, Hx.
  assert (String.eqb h "HEAD" = false) as -> by (apply String.eqb_neq; intros ->; by vm_compute in Hh).
  done.
Qed.

Lemma first_parent v h x rest p :
  view_wf v → parent_rows v h = x :: rest → null_string x = p → p ≠ "" →
  p ∈ parents v h ∧ is_Some (v_commits v !! h).
Proof.
  intros Hv. unfold parent_rows, parents. destruct (v_commits v !! h) as [[c [|q ps]]|]; [| |done].
  - by intros [= <- _] <-.
  - intros [= <- _] <- _. split; [set_solver|by eauto].
Qed.

Lemma holds_getHeadHash c s :
  wf_world (get_world s) →
  holds (getHeadHash c) s (λ r s', still c s s' ∧ vw s' = vw s ∧
    match r with
    | Ok h => branches s !! current (get_world s) c = Some h
    | Err _ => True
    | Panic _ => False
    end).
Proof.
  intros Hw. apply reads_holds; [done|apply reads_getHeadHash|].
  intros d. unfold getHeadHash, query_row. walk_preserves; try apply preserves_lift_dropped.
  unfold scan_string. walk_preserves.
Qed.

Lemma holds_getFirstParentHash c h s :
  wf_world (get_world s) →
  holds (getFirstParentHash c h) s (λ r s', still c s s' ∧ vw s' = vw s ∧
    match r with
    | Ok p => ∃ x rest, parent_rows (vw s) h = x :: rest ∧ p = null_string x
    | Err _ => True
    | Panic _ => False
    end).
Proof.
  intros Hw. apply reads_holds; [done|apply reads_getFirstParentHash|].
  intros d. unfold getFirstParentHash. walk_preserves. apply preserves_lift_dropped.
Qed.

Lemma holds_time c s :
  wf_world (get_world s) →
  holds (lift time_now) s (λ r s', still c s s' ∧ vw s' = vw s ∧ is_ok r = true).
Proof.
  intros Hw. destruct (time_pure (get_world s)) as (Hv & Hc & Hwf).
  pose proof (time_ok (get_world s)) as Hok. unfold holds, lift, still.
  destruct (time_now (get_world s)) as [r w']; simpl in *. rewrite get_set_world, Hv, Hc.
  split; [|done]. split; [|done]. split; rewrite ?get_set_world, ?dropped_world, ?Hv; auto.
Qed.

Lemma holds_amendMerge c x s :
  wf_world (get_world s) →
  holds (amendMerge c x) s (λ r s', stepped s s' ∧
    match r with
    | Ok _ => ∃ old new cm, branches s !! current (get_world s) c = Some old ∧
        v_commits (vw s') !! new = Some (cm, parents (vw s) old) ∧
        v_trees (vw s') !! new = v_trees (vw s) !! old ∧
        branches s' = <[current (get_world s) c := new]> (branches s) ∧
        current (get_world s') c = current (get_world s) c
    | _ => branches s' = branches s
    end).
Proof.
  intros Hw. unfold amendMerge. apply holds_bind. eapply holds_mono; [by apply (holds_time c)|].
  intros [t|e|e] s1 ((Hst1 & Hb1 & Hc1) & Hv1 & Hok); [|done..].
  apply holds_bind. unfold holds at 1, of_result. cbn [fst snd].
  destruct (Marshal _) as [js|e|e]; [|done..].
  eapply holds_mono; [apply holds_exec, Hst1|].
  rewrite Hc1, Hv1. intros [u|e|e] s' [Hst' He]; [| |done];
    (split; [by eapply stepped_trans|]); [|naive_solver].
  destruct He as (old & new & cm & Hold & Hnew & Htree & _ & Hb & Hcur). by exists old, new, cm.
Qed.
(** ** The loop keeps its invariant *)

Lemma replaying_still c base above done head s s' :
  still c s s' → vw s' = vw s → replaying c base above done head s →
  replaying c base above done head s'.
Proof.
  intros (Hst & Hb & Hc) Hv [? Hcur Ht Hd Hba]. split.
  - apply Hst.
  - by rewrite Hc.
  - by rewrite Hb.
  - intros x Hx. destruct (Hd x Hx) as [Hk|Hr]; [left; by rewrite Hv|right].
    by eapply reported_step.
  - by rewrite Hv.
Qed.

(** A dropped commit is accounted for by its report. *)
Lemma replaying_drop c base above done head x s s' :
  still c s s' → reported s' x → replaying c base above done head s →
  replaying c base above (done ++ [x]) head s'.
Proof.
  intros (Hst & Hb & Hc) Hr [? Hcur Ht Hd Hba]. pose proof (st_grow _ _ Hst) as Hg. split.
  - apply Hst.
  - by rewrite Hc.
  - by rewrite Hb.
  - intros y [Hy| ->%list_elem_of_singleton]%elem_of_app; [|by right].
    destruct (Hd y Hy) as [Hk|Hry]; [left|right; by eapply reported_step].
    eapply kept_forward; [by apply stepped_grows|done|apply ancestor_refl].
  - intros Ha. by eapply ancestor_grow, Hba.
Qed.

(** The branch moved forward to a head whose history has the old one. *)
Lemma accounted_forward s s' head head' done x :
  stepped s s' → ancestor (vw s') head head' → kept (vw s') (cwm_hash x) head' →
  (∀ y, y ∈ done → accounted s head y) → ∀ y, y ∈ done ++ [x] → accounted s' head' y.
Proof.
  intros Hst Ha Hx Hd y [Hy| ->%list_elem_of_singleton]%elem_of_app; [|by left].
  destruct (Hd y Hy) as [Hk|Hr]; [left|right; by eapply reported_step].
  eapply kept_forward; [by apply stepped_grows|done..].
Qed.

Lemma kept_self v h head : is_Some (v_commits v !! h) → ancestor v h head → kept v h head.
Proof. intros ??. exists h. auto. Qed.

Lemma replaying_ff c base above done head x s s' :
  stepped s s' → branches s' = <["replay_tmp" := cwm_hash x]> (branches s) →
  current (get_world s') c = current (get_world s) c →
  head ∈ parents (vw s) (cwm_hash x) → is_Some (v_commits (vw s) !! cwm_hash x) →
  replaying c base above done head s →
  replaying c base above (done ++ [x]) (cwm_hash x) s'.
Proof.
  intros Hst Hb Hc Hp Hx [? Hcur Ht Hd Hba]. pose proof (st_grow _ _ Hst) as Hg.
  assert (is_Some (v_commits (vw s') !! cwm_hash x)) as Hx'
    by (destruct Hx as [y Hy]; exists y; by eapply lookup_weaken).
  assert (ancestor (vw s') head (cwm_hash x)) as Ha.
  { apply (ancestor_of_parent _ _ head); [apply ancestor_refl|]. by rewrite (parents_grow (vw s)). }
  split.
  - apply Hst.
  - by rewrite Hc.
  - by rewrite Hb, lookup_insert_eq.
  - eapply accounted_forward; [done..|apply kept_self; [done|apply ancestor_refl]|done].
  - intros Hab. eapply ancestor_trans; [|done]. by eapply ancestor_grow, Hba.
Qed.

(** A merge followed by the amended message. *)
Lemma replaying_merge c base above done head x mid new cm s s1 s2 :
  stepped s s1 → stepped s1 s2 →
  merge_result (vw s) (vw s1) head (cwm_hash x) mid →
  v_commits (vw s2) !! new = Some (cm, parents (vw s1) mid) →
  v_trees (vw s2) !! new = v_trees (vw s1) !! mid →
  branches s2 = <["replay_tmp" := new]> (branches s1) →
  current (get_world s2) c = "replay_tmp" →
  is_Some (v_commits (vw s) !! cwm_hash x) →
  (above → ¬ ancestor (vw s1) (cwm_hash x) base) →
  replaying c base above done head s →
  replaying c base above (done ++ [x]) new s2.
Proof.
  intros Hst1 Hst2 Hm Hnew Htree Hb Hc Hx Hab [? Hcur Ht Hd Hba].
  pose proof (st_grow _ _ Hst1) as Hg1. pose proof (st_grow _ _ Hst2) as Hg2.
  pose proof (merge_result_old _ _ _ _ _ Hg1 Hm) as Hold.
  pose proof (merge_result_new _ _ _ _ _ Hg1 Hm) as Hmx.
  assert (is_Some (v_commits (vw s1) !! cwm_hash x)) as Hx1
    by (destruct Hx as [y Hy]; exists y; by eapply lookup_weaken).
  assert (∀ y, y ∈ done ++ [x] → accounted s1 mid y) as Hacc
    by (apply (accounted_forward s s1 head mid); [done..|by apply kept_self|done]).
  split.
  - apply Hst2.
  - done.
  - by rewrite Hb, lookup_insert_eq.
  - intros y Hy. destruct (Hacc y Hy) as [Hk|Hr]; [left|right; by eapply reported_step].
    eapply kept_amend; [apply wf_world_view, Hst1|by apply stepped_grows|done..].
  - intros Ha. eapply ancestor_amend; [done..| |].
    + apply (ancestor_trans _ _ head); [by eapply ancestor_grow, Hba|done].
    + intros <-. by apply (Hab Ha).
Qed.
(** The history of a known commit does not change as the repository grows. *)
Lemma ancestor_shrink v v' a b :
  view_wf v → v_commits v ⊆ v_commits v' → is_Some (v_commits v !! b) →
  ancestor v' a b → ancestor v a b ∧ is_Some (v_commits v !! a).
Proof.
  intros Hv Hs Hb. induction 1 as [|a p b Hp _ IH]; [split; [constructor|done]|].
  destruct (IH Hb) as [Ha Hk]. rewrite (parents_grow v v') in Hp by done.
  split; [by eapply rtc_l|]. by apply (parents_wf v p).
Qed.

Section loop.
Context (r : Reconciler St) (c : conn) (base : string) (above : Prop).
Context (Hr : hooks_ok r).

Definition step_post (done : list commitWithMeta) (x : commitWithMeta) (s : St)
    (res : result (string * Z)) (s' : St) : Prop :=
  frame s s' ∧
  match res with
  | Ok (head', _) => replaying c base above (done ++ [x]) head' s'
  | _ => True
  end.

Lemma holds_step_ff done x head n s :
  replaying c base above done head s →
  head ∈ parents (vw s) (cwm_hash x) → is_Some (v_commits (vw s) !! cwm_hash x) →
  holds (fastForwardToCommit c (cwm_hash x) ;;*
         let* headHash := getHeadHash c in ret (headHash, n)) s (step_post done x s).
Proof.
  intros Hrp Hp Hx. pose proof Hrp as [Hw Hcur Ht _ _]. unfold fastForwardToCommit.
  apply holds_bind. eapply holds_mono; [by apply holds_exec|].
  intros [u|e|e] s1 [Hst He]; [| |done].
  2:{ split; [|done]. eapply still_frame. by split. }
  destruct He as (h & Hh & Hb & Hc). rewrite resolve_hash in Hh by (try done; by apply wf_world_view).
  injection Hh as <-. rewrite Hcur in Hb.
  assert (replaying c base above (done ++ [x]) (cwm_hash x) s1) as Hrp1 by (by eapply replaying_ff).
  apply holds_bind. eapply holds_mono; [apply holds_getHeadHash, Hst|].
  intros [h|e|e] s2 (Hst2 & Hv2 & Hhd); [| |done];
    (split; [eapply frame_trans; [by eapply insert_frame|by eapply still_frame]|]); [|done].
  rewrite Hc, Hcur, (rp_tmp _ _ _ _ _ _ Hrp1) in Hhd. injection Hhd as <-.
  by eapply replaying_still.
Qed.

Lemma holds_step_merged done x head n mid s s1 :
  replaying c base above done head s → stepped s s1 →
  merge_result (vw s) (vw s1) head (cwm_hash x) mid →
  branches s1 = <["replay_tmp" := mid]> (branches s) →
  current (get_world s1) c = "replay_tmp" →
  is_Some (v_commits (vw s) !! cwm_hash x) →
  (above → ¬ ancestor (vw s1) (cwm_hash x) base) →
  holds (amendMerge c x ;;* let* headHash := getHeadHash c in ret (headHash, n)) s1
    (step_post done x s).
Proof.
  intros Hrp Hst1 Hm Hb1 Hc1 Hx Hab.
  assert (frame s s1) as Hf1 by (by eapply insert_frame).
  apply holds_bind. eapply holds_mono; [apply holds_amendMerge, Hst1|].
  intros [u|e|e] s2 [Hst2 He].
  2,3: split; [|done]; eapply frame_trans; [done|]; split; [done|]; intros b _; by rewrite He.
  rewrite Hc1 in He. destruct He as (old & new & cm & Hold & Hnew & Htree & Hb2 & Hc2).
  rewrite Hb1, lookup_insert_eq in Hold. injection Hold as <-.
  assert (replaying c base above (done ++ [x]) new s2) as Hrp2 by (by apply (replaying_merge c base above done head x mid new cm s s1 s2)).
  assert (frame s s2) as Hf2 by (eapply frame_trans; [done|by eapply insert_frame]).
  apply holds_bind. eapply holds_mono; [apply holds_getHeadHash, Hst2|].
  intros [h|e|e] s3 (Hst3 & Hv3 & Hhd); [| |done];
    (split; [eapply frame_trans; [done|by eapply still_frame]|]); [|done].
  rewrite Hc2, (rp_tmp _ _ _ _ _ _ Hrp2) in Hhd. injection Hhd as <-.
  by eapply replaying_still.
Qed.

Lemma holds_replayStep done x head n s :
  replaying c base above done head s → is_Some (v_commits (vw s) !! cwm_hash x) →
  (∀ s1, stepped s s1 → above → ¬ ancestor (vw s1) (cwm_hash x) base) →
  holds (replayStep r c x head n) s (step_post done x s).
Proof.
  intros Hrp Hx Hab. pose proof (rp_wf _ _ _ _ _ _ Hrp) as Hw.
  pose proof (wf_world_view _ Hw) as Hv.
  assert (head ≠ "") as Hne.
  { destruct (wf_heads _ Hv _ _ (rp_tmp _ _ _ _ _ _ Hrp)) as [[c0 ps0] Hh].
    intros ->. by destruct (wf_hash _ Hv _ _ _ Hh). }
  unfold replayStep. apply holds_bind. eapply holds_mono; [apply holds_attempt, holds_getFirstParentHash, Hw|].
  intros [p|e|e] s1 Hp; [|done|naive_solver].
  assert (still c s s1 ∧ vw s1 = vw s) as [Hst1 Hv1] by (destruct p; naive_solver).
  assert (replaying c base above done head s1) as Hrp1 by (by eapply replaying_still).
  assert (∀ res s', step_post done x s1 res s' → step_post done x s res s') as Hpost.
  { intros res s' [Hf ?]. split; [|done]. eapply frame_trans; [by eapply still_frame|done]. }
  destruct (match p with Ok p => String.eqb head p | _ => false end) eqn:Hff.
  - destruct p as [p|e|e]; [|done..]. apply String.eqb_eq in Hff as <-.
    destruct Hp as (_ & _ & x0 & rest & Hrows & Hnull). symmetry in Hnull.
    destruct (first_parent _ _ _ _ _ Hv Hrows Hnull Hne) as [Hpar _].
    eapply holds_mono; [|exact Hpost]. apply holds_step_ff with head; by rewrite ?Hv1.
  - apply holds_bind. eapply holds_mono; [apply holds_attempt, holds_exec, Hrp1|].
    intros [m|e|e] s2 Hm; [|done|naive_solver]. eapply holds_mono; [|exact Hpost].
    destruct m as [u|e|e]; destruct Hm as [Hst2 Hm]; [| |done].
    + destruct Hm as (old & h & mid & Hold & Hh & Hmr & Hb & Hc).
      rewrite (rp_cur _ _ _ _ _ _ Hrp1) in *.
      rewrite (rp_tmp _ _ _ _ _ _ Hrp1) in Hold. injection Hold as <-.
      rewrite resolve_hash in Hh by (rewrite ?Hv1; done). injection Hh as <-.
      apply (holds_step_merged done x head (n + 1) mid s1 s2); try done; [by rewrite Hv1|].
      apply Hab. eapply stepped_trans; [apply Hst1|done].
    + destruct Hm as [Hb Hc]. assert (still c s1 s2) as Hst2' by done.
      destruct (isConflictError e); [|split; [by eapply still_frame|done]].
      apply holds_bind. eapply holds_mono; [apply holds_dropConflict; [done|apply Hst2]|].
      intros ? s3 (-> & Hst3 & Hrep). split.
      * eapply frame_trans; by eapply still_frame.
      * apply (replaying_drop c base above done head x s1 s3); [by eapply still_trans|done..].
Qed.

Lemma holds_replayLoop todo done head n s s0 :
  stepped s0 s → is_Some (v_commits (vw s0) !! base) → view_wf (vw s0) →
  replaying c base above done head s →
  (∀ x, x ∈ todo → is_Some (v_commits (vw s0) !! cwm_hash x)) →
  (above → ∀ x, x ∈ todo → ¬ ancestor (vw s0) (cwm_hash x) base) →
  holds (replayLoop r c todo head n) s (λ res s', frame s s' ∧
    match res with
    | Ok _ => ∃ head', replaying c base above (done ++ todo) head' s'
    | _ => True
    end).
Proof.
  revert done head n s. induction todo as [|x todo IH]; intros done head n s Hst Hbase Hv0 Hrp Hk Hab.
  - split; [|exists head; by rewrite app_nil_r].
    split; [apply stepped_refl, Hrp|done].
  - cbn [replayLoop]. apply holds_bind. eapply holds_mono.
    { apply (holds_replayStep done x); [done| |].
      - destruct (Hk x) as [y Hy]; [set_solver|]. exists y. eapply lookup_weaken; [done|apply Hst].
      - intros s1 Hst1 Ha Hanc. apply (Hab Ha x); [set_solver|].
        apply (ancestor_shrink (vw s0) (vw s1)); [done| |done|done].
        etrans; [apply Hst|apply Hst1]. }
    intros [[head' n']|e|e] s1 [Hf Hrp1]; [|by split..].
    eapply holds_mono; [apply (IH (done ++ [x]) head' n' s1)|]; try done.
    + eapply stepped_trans; [done|apply Hf].
    + set_solver.
    + set_solver.
    + intros res s2 [Hf2 H2]. split; [by eapply frame_trans|].
      destruct res; [|done..]. by rewrite <-app_assoc in H2.
Qed.

(** What the whole replay establishes from [s]. *)
Definition replay_post (mainHeadBefore : string) (commits : list commitWithMeta) (s : St)
    (res : result Z) (s' : St) : Prop :=
  stepped s s' ∧
  (∀ b, b ≠ "main" → b ≠ "replay_tmp" → branches s' !! b = branches s !! b) ∧
  match res with
  | Ok _ => ∃ head, branches s' !! "main" = Some head ∧
      branches s !! "main" = Some mainHeadBefore ∧
      (∀ x, x ∈ commits → accounted s' head x) ∧
      (above → ancestor (vw s') base head)
  | _ => branches s' !! "main" = branches s !! "main"
  end.

Lemma replay_post_fail mhb commits s s' res :
  frame s s' → (∀ n, res ≠ Ok n) → replay_post mhb commits s res s'.
Proof.
  intros [? Hb] Hne. split; [done|]. split; [auto|].
  destruct res; [by destruct (Hne a)|by apply Hb..].
Qed.

Lemma replay_post_before mhb commits s0 s res s' :
  frame s0 s → replay_post mhb commits s res s' → replay_post mhb commits s0 res s'.
Proof.
  intros [Hst Hb] (Hst' & Hb' & H). split; [by eapply stepped_trans|]. split.
  - intros b ??. by rewrite Hb', Hb.
  - rewrite (Hb "main") in H by done. done.
Qed.

Lemma replay_post_after mhb commits s res s1 s2 :
  replay_post mhb commits s res s1 → frame s1 s2 → replay_post mhb commits s res s2.
Proof.
  intros (Hst & Hb & H) [Hst' Hb']. split; [by eapply stepped_trans|]. split.
  - intros b ??. by rewrite Hb', Hb.
  - rewrite (Hb' "main") by done. destruct res; [|done..].
    destruct H as (head & Hm & Hm0 & Hacc & Hanc). exists head. split_and!; [done..| |].
    + intros x Hx. destruct (Hacc x Hx) as [Hk|Hr']; [left|right; by eapply reported_step].
      eapply kept_forward; [by apply stepped_grows|done|apply ancestor_refl].
    + intros Ha. eapply ancestor_grow; [apply Hst'|]. by apply Hanc.
Qed.

Lemma holds_main_head s :
  wf_world (get_world s) →
  holds (GetLastCommit "main") s (λ res s', still c s s' ∧ vw s' = vw s ∧
    match res with
    | Ok x => branch_head (vw s) "main" = Some (c_Hash x)
    | Err _ => True
    | Panic _ => False
    end).
Proof.
  intros Hw. apply reads_holds; [done| |].
  - eapply reads_mono; [by apply reads_GetLastCommit|]. intros x (h & ps & Hb & Hx).
    rewrite Hb. f_equal. symmetry. by apply (wf_hash _ (wf_world_view _ Hw) _ _ _ Hx).
  - intros d. unfold GetLastCommit. walk_preserves. apply preserves_lift_dropped.
Qed.

(** From the end of the loop: the check of the head and the move of [main]. *)
Lemma holds_replayEnd mhb commits n head s :
  replaying c base above commits head s →
  holds (wrap_err "failed to checkout main: " (lift (exec c (DoltCheckout "main"))) ;;*
         let* curHead := wrap_err "failed to read main head: " (GetLastCommit "main") in
         if negb (String.eqb (c_Hash curHead) mhb) then fail errMainAdvancedDuringReplay
         else wrap_err "failed to move main to replay_tmp: " (lift (exec c (DoltResetHard "replay_tmp"))) ;;*
              ret n) s (replay_post mhb commits s).
Proof.
  intros Hrp. pose proof (rp_wf _ _ _ _ _ _ Hrp) as Hw.
  assert (∀ s', frame s s' → ∀ e, replay_post mhb commits s (Err e) s') as Herr
    by (intros; by apply replay_post_fail).
  apply holds_bind. eapply holds_wrap_err; [by apply holds_exec|].
  intros [u|e|e] s1 [Hst1 He]; [|apply Herr; by eapply (still_frame c)|done].
  destruct He as (Hmain & Hb1 & Hc1).
  assert (frame s s1) as Hf1 by (split; [done|]; intros b _; by rewrite Hb1).
  apply holds_bind. eapply holds_wrap_err; [apply holds_main_head, Hst1|].
  intros [x|e|e] s2 (Hst2 & Hv2 & Hx); [| |done].
  2:{ apply Herr. eapply frame_trans; [done|by eapply still_frame]. }
  assert (frame s s2) as Hf2 by (eapply frame_trans; [done|by eapply still_frame]).
  destruct (String.eqb_spec (c_Hash x) mhb) as [<-|]; cbn [negb]; [|by apply Herr].
  apply holds_bind. eapply holds_wrap_err; [apply holds_exec, Hst2|].
  intros [u'|e|e] s3 [Hst3 He3]; [| |done].
  2:{ apply Herr. eapply frame_trans; [done|]. by eapply (still_frame c). }
  destruct Hst2 as (Hst2 & Hb2 & Hc2). destruct He3 as (h & Hh & Hb3 & Hc3).
  rewrite Hc2, Hc1, Hb2, Hb1 in Hb3.
  rewrite resolve_branch in Hh by done. unfold branch_head in Hh, Hx.
  rewrite Hb2, Hb1, (rp_tmp _ _ _ _ _ _ Hrp) in Hh. injection Hh as <-.
  destruct Hmain as [m Hm]. rewrite Hb1, Hm in Hx. injection Hx as ->.
  assert (stepped s s3) as Hst by (eapply stepped_trans; [apply Hf2|done]).
  change (replay_post (c_Hash x) commits s (Ok n) s3).
  split; [done|]. split; [intros b Hne _; by rewrite Hb3, lookup_insert_ne|].
  exists head. rewrite Hb3, lookup_insert_eq. split_and!; [done..| |].
  - intros y Hy. destruct (rp_done _ _ _ _ _ _ Hrp y Hy) as [Hk|Hrep];
      [left|right; by eapply reported_step].
    eapply kept_forward; [by apply stepped_grows|done|apply ancestor_refl].
  - intros Ha. eapply ancestor_grow; [apply Hst|]. by eapply rp_base.
Qed.

Lemma holds_replayCleanup s :
  wf_world (get_world s) → holds (replayCleanup c) s (λ res s', res = Ok tt ∧ frame s s').
Proof.
  intros Hw. unfold replayCleanup. apply holds_bind. eapply holds_ignore; [by apply holds_exec|].
  intros res s1 [Hst1 H1].
  assert (frame s s1) as Hf1.
  { destruct res; [|by eapply (still_frame c)|done]. destruct H1 as (_ & Hb & _).
    split; [done|]. intros b _. by rewrite Hb. }
  destruct res; [| |done];
    (eapply holds_ignore; [apply holds_exec, Hst1|]; intros [?|?|?] s2 [Hst2 H2]; [| |done];
     (split; [done|]); (eapply frame_trans; [done|])).
  1,3: split; [done|]; intros b Hne; destruct H2 as (_ & Hb & _); by rewrite Hb, lookup_delete_ne.
  all: by eapply (still_frame c).
Qed.

Lemma holds_replayBody mhb commits s :
  wf_world (get_world s) → is_Some (v_commits (vw s) !! base) →
  branches s !! "replay_tmp" = Some base →
  (∀ x, x ∈ commits → is_Some (v_commits (vw s) !! cwm_hash x)) →
  (above → ∀ x, x ∈ commits → ¬ ancestor (vw s) (cwm_hash x) base) →
  holds (replayBody r c base mhb commits) s (replay_post mhb commits s).
Proof.
  intros Hw Hbase Htmp Hk Hab. unfold replayBody.
  apply holds_bind. eapply holds_wrap_err; [by apply holds_exec|].
  intros [u|e|e] s1 [Hst1 He]; [|apply replay_post_fail; [by eapply (still_frame c)|done]|done].
  destruct He as (_ & Hb1 & Hc1).
  assert (frame s s1) as Hf1 by (split; [done|]; intros b _; by rewrite Hb1).
  apply holds_bind. eapply holds_mono.
  { apply (holds_replayLoop commits [] base 0 s1 s); [done..|by apply wf_world_view| |done|done].
    split; [apply Hst1|done|by rewrite Hb1|set_solver|intros _; apply ancestor_refl]. }
  intros [n|e|e] s2 [Hf2 H2]; cbn [app] in H2.
  2,3: apply replay_post_fail; [by eapply frame_trans|done].
  destruct H2 as [head Hrp]. eapply holds_mono; [by eapply holds_replayEnd|].
  intros res s3. apply replay_post_before. by eapply frame_trans.
Qed.

End loop.

Lemma holds_open s :
  wf_world (get_world s) →
  holds (lift open_conn) s (λ res s', stepped s s' ∧ vw s' = vw s ∧
    match res with Panic _ => False | _ => True end).
Proof.
  intros Hw. destruct (conn_pure (get_world s)) as [Hv Hwf].
  pose proof (conn_no_panic (get_world s)) as Hnp. unfold holds, lift.
  destruct (open_conn (get_world s)) as [res w']; simpl in *. rewrite get_set_world.
  split_and!; [split; rewrite ?get_set_world, ?dropped_world, ?Hv; auto|done|].
  destruct res; [done..|]. by eapply Hnp.
Qed.

Lemma holds_close c s :
  wf_world (get_world s) →
  holds (ignore (lift (close_conn c))) s (λ res s', res = Ok tt ∧ frame s s').
Proof.
  intros Hw. destruct (close_pure c (get_world s)) as [Hv Hwf].
  pose proof (close_no_panic c (get_world s)) as Hnp. unfold holds, ignore, lift.
  destruct (close_conn c (get_world s)) as [res w']; simpl in *.
  assert (frame s (set_world w' s)) as Hf.
  { split; [split; rewrite ?get_set_world, ?dropped_world, ?Hv; auto|].
    intros b _. by rewrite get_set_world, Hv. }
  destruct res; [done..|]. by destruct (Hnp e).
Qed.

Lemma holds_replay r base above mhb commits s :
  hooks_ok r → wf_world (get_world s) → is_Some (v_commits (vw s) !! base) →
  (∀ x, x ∈ commits → is_Some (v_commits (vw s) !! cwm_hash x)) →
  (above → ∀ x, x ∈ commits → ¬ ancestor (vw s) (cwm_hash x) base) →
  holds (replayToTempBranchThenUpdateMain r base mhb commits) s
    (replay_post base above mhb commits s).
Proof.
  intros Hr Hw Hbase Hk Hab. unfold replayToTempBranchThenUpdateMain.
  apply holds_bind. eapply holds_wrap_err; [by apply holds_open|].
  intros [c|e|e] s1 (Hst1 & Hv1 & Hnp); [| |done].
  2:{ apply replay_post_fail; [|done]. split; [done|]. intros b _. by rewrite Hv1. }
  assert (frame s s1) as Hf1 by (split; [done|]; intros b _; by rewrite Hv1).
  apply holds_deferred. eapply (holds_mono _ _ (replay_post base above mhb commits s)).
  2:{ intros res s' Hpost. eapply holds_mono; [apply holds_close, Hpost|].
      intros ? s'' [-> Hf]. by eapply replay_post_after. }
  apply holds_bind. eapply holds_wrap_err; [apply holds_exec, Hst1|].
  intros [u|e|e] s2 [Hst2 He]; [| |done].
  2:{ apply replay_post_fail; [|done]. eapply frame_trans; [done|]. by eapply (still_frame c). }
  destruct He as (h & Hh & Hb2 & Hc2). rewrite Hv1 in Hh, Hb2.
  rewrite resolve_hash in Hh by (done || by apply wf_world_view). injection Hh as <-.
  rewrite <-Hv1 in Hb2.
  assert (frame s s2) as Hf2 by (eapply frame_trans; [done|by eapply insert_frame]).
  pose proof (st_grow _ _ (proj1 Hf2)) as Hg.
  apply holds_deferred. eapply (holds_mono _ _ (replay_post base above mhb commits s)).
  2:{ intros res s' Hpost. eapply holds_mono; [apply holds_replayCleanup, Hpost|].
      intros ? s'' [-> Hf]. by eapply replay_post_after. }
  eapply holds_mono; [apply (holds_replayBody r c base above Hr mhb commits s2)|].
  - apply Hst2.
  - destruct Hbase as [y Hy]. exists y. by eapply lookup_weaken.
  - by rewrite Hb2, lookup_insert_eq.
  - intros x Hx. destruct (Hk x Hx) as [y Hy]. exists y. by eapply lookup_weaken.
  - intros Ha x Hx Hanc. apply (Hab Ha x Hx).
    by apply (ancestor_shrink (vw s) (vw s2)); [apply wf_world_view|..].
  - intros res s'. by apply replay_post_before.
Qed.

(** ** The entry point *)

Lemma preserves_bfs_dropped fuel q base seen queue commits d :
  preserves (λ s, dropped s = d) (bfs fuel q base seen queue commits).
Proof.
  revert seen queue commits. induction fuel as [|fuel IH]; intros seen [|h queue] commits; cbn [bfs];
    unfold getCommitByHash, getParentHashes, query_row; walk_preserves;
    first [apply IH|apply preserves_lift_dropped].
Qed.

Lemma preserves_getCommitsSince_dropped fuel q branch base d :
  preserves (λ s, dropped s = d) (getCommitsSince fuel q branch base).
Proof.
  unfold getCommitsSince, getBranchHeadHash, scan_string, query_row.
  walk_preserves; first [apply preserves_bfs_dropped|apply preserves_lift_dropped].
Qed.

Lemma known_hash_functional v l : known_commits v l → hash_functional l.
Proof.
  intros Hk x y Hx Hy E. destruct (Hk x Hx) as [ps Hp], (Hk y Hy) as [ps' Hp']. rewrite E in Hp.
  congruence.
Qed.

(** Timestamps respect causality below the finalized base. *)
Definition causal_base (v : dview) (fb : FinalizedBase) : Prop :=
  ∀ h x ps meta, ancestor v h (fb_CommitHash fb) → v_commits v !! h = Some (x, ps) →
    ParseCommitMetadata (c_Message x) = Ok meta → ¬ hlc_lt (fb_HLC fb) (meta_HLC meta).

Context `{R : GoRuntime}.

(** The list that is replayed on top of a finalized base is above it. *)
Lemma collect_above v fb local imported x :
  known_commits v (local ++ imported) → causal_base v fb → IsZero (fb_HLC fb) = false →
  x ∈ collectUserCommits local imported (Some fb) →
  ¬ ancestor v (cwm_hash x) (fb_CommitHash fb).
Proof.
  intros Hk Hc Hz Hx Ha. apply elem_of_collect in Hx; [|by eapply known_hash_functional].
  destruct Hx as [(Hin & (meta & Hp & Hh) & Hafter) _]. destruct (Hk _ Hin) as [ps Hps].
  apply (Hc (cwm_hash x) (cwm_commit x) ps meta); [done..|]. rewrite Hh.
  unfold IsAfterFinalizedBase in Hafter. rewrite Hz in Hafter. by apply Less_spec.
Qed.

Lemma collect_known v local imported fb x :
  known_commits v (local ++ imported) → x ∈ collectUserCommits local imported fb →
  is_Some (v_commits v !! cwm_hash x).
Proof.
  intros Hk Hx. apply elem_of_collect in Hx; [|by eapply known_hash_functional].
  destruct Hx as [(Hin & _) _]. destruct (Hk _ Hin) as [ps Hps]. eauto.
Qed.

Lemma holds_slice_to t n s :
  holds (slice_to (S:=St) t n) s (λ res s', s' = s ∧ match res with Err _ => False | _ => True end).
Proof. unfold slice_to. by case_match. Qed.

(** The replay above a base [b] of what the walk and the import found. *)
Lemma holds_replay_since r fuel b above mhb imported fb s :
  hooks_ok r → wf_world (get_world s) →
  is_Some (v_commits (vw s) !! b) → known_commits (vw s) imported →
  (above → ∀ local x, known_commits (vw s) (local ++ imported) →
     x ∈ collectUserCommits local imported fb → ¬ ancestor (vw s) (cwm_hash x) b) →
  holds (let* localCommits := wrap_err "failed to get local commits: "
                                (getCommitsSince fuel pool "main" b) in
         match collectUserCommits localCommits imported fb with
         | [] => ret 0
         | _ => replayToTempBranchThenUpdateMain r b mhb (collectUserCommits localCommits imported fb)
         end) s
    (λ res s', stepped s s' ∧ (branches s' !! "main" = branches s !! "main" ∨
       ∃ local n, res = Ok n ∧ replay_post b above mhb (collectUserCommits local imported fb) s res s')).
Proof.
  intros Hr Hw Hb Hki Hab. apply holds_bind. eapply holds_wrap_err.
  { eapply (quiet_holds (getCommitsSince fuel pool "main" b) s _ pool); [done|by apply quiet_getCommitsSince|].
    intros d. apply preserves_getCommitsSince_dropped. }
  intros [local|e|e] s1 ((Hst1 & Hb1 & Hc1) & Hv1 & Hl); [|split; [done|left; by rewrite Hb1]..].
  assert (known_commits (vw s) (local ++ imported)) as Hk.
  { intros x [Hx|Hx]%elem_of_app; [by apply (Hl local)|by apply Hki]. }
  destruct (collectUserCommits local imported fb) as [|x0 l] eqn:E.
  { apply holds_ret. split; [done|left; by rewrite Hb1]. }
  rewrite <-E. eapply holds_mono.
  { apply (holds_replay r b above mhb (collectUserCommits local imported fb) s1); rewrite ?Hv1; [done|apply Hst1|done|..].
    - intros x Hx. by eapply collect_known.
    - intros Ha x Hx. by eapply Hab. }
  intros res s2 Hpost. apply (replay_post_before b above mhb _ s) in Hpost.
  2:{ split; [done|]. intros ? _. by rewrite Hb1. }
  split; [apply Hpost|]. destruct res as [n|e|e]; [right; by eauto|left; by apply Hpost..].
Qed.

(** The import above a finalized base. *)
Lemma holds_replay_finalized r fuel mergeBase imported fb s :
  hooks_ok r → wf_world (get_world s) → is_Some (v_commits (vw s) !! fb_CommitHash fb) →
  IsZero (fb_HLC fb) = false → causal_base (vw s) fb → known_commits (vw s) imported →
  holds (ReplayImportedCommits r fuel mergeBase imported (Some fb)) s (λ res s', stepped s s' ∧
    (branches s' !! "main" = branches s !! "main" ∨
     ∃ n head, res = Ok n ∧ branches s' !! "main" = Some head ∧
       ancestor (vw s') (fb_CommitHash fb) head)).
Proof.
  intros Hhooks Hw Hfb Hz Hcausal Himported.
  unfold ReplayImportedCommits. apply holds_bind.
  eapply holds_mono; [by apply (holds_main_head pool)|].
  intros [x|e|e] s1 ((Hst1 & Hb1 & _) & Hv1 & _); [|split; [done|left; by rewrite Hb1]..].
  assert (String.eqb (fb_CommitHash fb) "" = false) as ->.
  { destruct Hfb as [[y ps] Hy]. apply is_hash_nonempty.
    by apply (wf_hash _ (wf_world_view _ Hw) _ _ _ Hy). }
  cbn [negb]. apply holds_bind, holds_bind. eapply holds_mono; [apply holds_slice_to|].
  intros [?|e|e] ? [-> ?]; [|done|split; [done|left; by rewrite Hb1]].
  apply holds_bind. eapply holds_mono; [apply holds_slice_to|].
  intros [?|e|e] ? [-> ?]; [|done|split; [done|left; by rewrite Hb1]].
  apply holds_ret. eapply holds_mono.
  { apply (holds_replay_since r fuel (fb_CommitHash fb) True (c_Hash x) imported (Some fb) s1);
      rewrite ?Hv1; [done|apply Hst1|done|done|].
    intros _ local y Hk Hy. by eapply collect_above. }
  intros res s2 [Hst [Hm|(local & n & -> & Hpost)]];
    (split; [by eapply stepped_trans|]); [left; by rewrite Hm, Hb1|right].
  destruct Hpost as (_ & _ & head & Hh & _ & _ & Ha). exists n, head. auto.
Qed.
End replay.

(** ** Properties *)

Section claims.
Context {St W : Type} `{D : Dolt W, !DoltLaws W} `{HW : HasWorld St W} `{R : GoRuntime}.
Context (dropped : St → CommitAd → Prop).
Context (dropped_world : ∀ w s, dropped (set_world w s) = dropped s).

(** C3. The replay is all or nothing.  Given a base and commits that the
    repository has, and callbacks that leave the repository alone: if it
    fails, at any statement and for any reason, [main] is where it was.  If it
    succeeds, [main] was still the head that the caller had read, and every
    commit of the list is accounted for: it is in the history of the new
    [main], either itself or as a commit with the same parents and the same
    root value (the same tables) under an amended message, or it was reported
    to the callbacks.  No branch other than [main] and the temporary one is
    touched. *)
Theorem replay_all_or_nothing (r : Reconciler St) (base mainHeadBefore : string)
    (commits : list commitWithMeta) (s : St)
  (Hhooks : hooks_ok dropped r) (Hw : wf_world (get_world s))
  (Hbase : is_Some (v_commits (view (get_world s)) !! base))
  (Hknown : ∀ x, x ∈ commits → is_Some (v_commits (view (get_world s)) !! cwm_hash x)) :
  let '(res, s') := replayToTempBranchThenUpdateMain r base mainHeadBefore commits s in
  let before := v_branches (view (get_world s)) in
  let after := v_branches (view (get_world s')) in
  (∀ b, b ≠ "main" → b ≠ "replay_tmp" → after !! b = before !! b) ∧
  match res with
  | Ok _ =>
      before !! "main" = Some mainHeadBefore ∧
      ∃ head, after !! "main" = Some head ∧
        ∀ x, x ∈ commits → kept (view (get_world s')) (cwm_hash x) head ∨ reported dropped s' x
  | _ => after !! "main" = before !! "main"
  end.
Proof.
  pose proof (holds_replay dropped dropped_world r base False mainHeadBefore commits s
    Hhooks Hw Hbase Hknown (False_ind _)) as Hp.
  unfold holds in Hp. destruct (replayToTempBranchThenUpdateMain r base mainHeadBefore commits s) as [res s'].
  destruct Hp as (_ & Hb & H). split; [done|]. destruct res; [|done..].
  destruct H as (head & Hh & Hm & Hacc & _). split; [done|]. by exists head.
Qed.

(** C4. Finalized history is not rewritten as long as timestamps respect
    causality below it: when a finalized base is set whose commit the
    repository has, and no commit in the history of that commit carries a
    later timestamp than the base ([causal_base]), importing commits either
    leaves [main] where it was or moves it to a head that still has the
    finalized commit in its history, whatever the merge base is and whatever
    goes wrong on the way.  The code does not check the condition, and without
    it the finalized commit can be lost ([late_ancestor_replaces_finalized]). *)
Theorem finalized_commit_survives (r : Reconciler St) (fuel : nat) (mergeBase : string)
    (imported : list Commit) (fb : FinalizedBase) (s : St)
  (Hhooks : hooks_ok dropped r) (Hw : wf_world (get_world s))
  (Hfb : is_Some (v_commits (view (get_world s)) !! fb_CommitHash fb))
  (Hz : IsZero (fb_HLC fb) = false)
  (Hcausal : causal_base (view (get_world s)) fb)
  (Himported : known_commits (view (get_world s)) imported) :
  let '(res, s') := ReplayImportedCommits r fuel mergeBase imported (Some fb) s in
  let before := v_branches (view (get_world s)) in
  let after := v_branches (view (get_world s')) in
  after !! "main" = before !! "main" ∨
  ∃ n head, res = Ok n ∧ after !! "main" = Some head ∧
    ancestor (view (get_world s')) (fb_CommitHash fb) head.
Proof.
  pose proof (holds_replay_finalized dropped dropped_world r fuel mergeBase imported fb s
    Hhooks Hw Hfb Hz Hcausal Himported) as H. unfold holds in H.
  destruct (ReplayImportedCommits r fuel mergeBase imported (Some fb) s) as [res s'].
  by destruct H as [_ H].
Qed.
End claims.

(** ** Closed examples *)

(** The engine with a record of the dropped commits. *)
Definition logged : Type := toy * list CommitAd.
#[export] Instance logged_world : HasWorld logged toy := {
  get_world s := s.1;
  set_world w s := (w, s.2);
  get_set_world _ _ := eq_refl;
}.
Definition log_hook : CommitRejectedCallback logged := λ ad _ s, (Ok tt, (s.1, s.2 ++ [ad])).
Definition log_reconciler : Reconciler logged := setCommitRejectedInternalHook log_hook NewReconciler.

Definition log_dropped (s : logged) (ad : CommitAd) : Prop := ad ∈ s.2.

Lemma log_reconciler_ok : hooks_ok log_dropped log_reconciler.
Proof.
  split; [|done]. exists log_hook. split; [done|]. intros ad reason s.
  unfold holds, untouched, log_dropped; simpl. set_solver.
Qed.

Definition toy_list : list commitWithMeta :=
  [mkCWM (toy_user_commit 2 10) (mkHLC 10 0 "p"); mkCWM (toy_user_commit 3 20) (mkHLC 20 0 "p")].

Definition toy_start : logged := (toy_repo, []).

(** The outcome and the head of [main] after a run. *)
Definition main_after {A} (p : result A * logged) : result A * option string :=
  (p.1, v_branches (t_view p.2.1) !! "main").

Lemma replay_all_or_nothing_witness :
  main_after (replayToTempBranchThenUpdateMain log_reconciler (toy_hash 1) (toy_hash 2) toy_list toy_start)
    = (Ok 1, Some (toy_hash 101)) ∧
  let '(res, s') := replayToTempBranchThenUpdateMain log_reconciler (toy_hash 1) (toy_hash 2)
                      toy_list toy_start in
  let before := v_branches (view (get_world toy_start)) in
  let after := v_branches (view (get_world s')) in
  (∀ b, b ≠ "main" → b ≠ "replay_tmp" → after !! b = before !! b) ∧
  match res with
  | Ok _ =>
      before !! "main" = Some (toy_hash 2) ∧
      ∃ head, after !! "main" = Some head ∧
        ∀ x, x ∈ toy_list → kept (view (get_world s')) (cwm_hash x) head ∨ reported log_dropped s' x
  | _ => after !! "main" = before !! "main"
  end.
Proof.
  split; [vm_compute; reflexivity|].
  pose proof (replay_all_or_nothing (St:=logged) (W:=toy) log_dropped (λ _ _, eq_refl) log_reconciler
    (toy_hash 1) (toy_hash 2) toy_list toy_start) as H.
  apply H.
  - exact log_reconciler_ok.
  - exact toy_repo_wf.
  - vm_compute. eauto.
  - intros x Hx. apply list_elem_of_In in Hx as [<-|[<-|[]]]; vm_compute; eauto.
Defined.

(** A commit is not kept by its siblings: commit 3, which a peer made on the
    same parent, is not kept by the history of [main], which has commit 2. *)
Lemma ancestor_closed v (l : list string) a b :
  (∀ x, x ∈ l → ∀ p, p ∈ parents v x → p ∈ l) → ancestor v a b → b ∈ l → a ∈ l.
Proof. intros Hl. induction 1 as [|a p b Hp _ IH]; [done|]. intros Hb. by apply (Hl p), Hp; apply IH. Qed.

Lemma ancestor_closed_check v (l : list string) a b :
  forallb (λ x, forallb (λ p, bool_decide (p ∈ l)) (parents v x)) l = true → b ∈ l → a ∉ l → ¬ ancestor v a b.
Proof.
  intros Hc Hb Ha Hanc. apply Ha, (ancestor_closed v l a b); [|done..]. intros x Hx p Hp.
  rewrite forallb_forall in Hc. specialize (Hc x (proj1 (list_elem_of_In _ _) Hx)).
  rewrite forallb_forall in Hc. by eapply bool_decide_eq_true, Hc, list_elem_of_In.
Qed.

Lemma sibling_not_kept : ¬ kept (t_view toy_repo) (toy_hash 3) (toy_hash 2).
Proof.
  intros (h' & Hh & _ & _ & Ha).
  assert (h' ∈ [toy_hash 1; toy_hash 2]) as Hin.
  { apply (ancestor_closed (t_view toy_repo) _ h' (toy_hash 2)); [|done|set_solver].
    intros x Hx p. apply list_elem_of_In in Hx as [<-|[<-|[]]].
    - assert (parents (t_view toy_repo) (toy_hash 1) = []) as -> by (vm_compute; reflexivity). set_solver.
    - assert (parents (t_view toy_repo) (toy_hash 2) = [toy_hash 1]) as -> by (vm_compute; reflexivity). set_solver. }
  apply list_elem_of_In in Hin as [<-|[<-|[]]]; (destruct Hh as [Hh|(_ & t & H1 & H2)];
    [vm_compute in Hh; discriminate Hh|]; vm_compute in H1, H2; congruence).
Qed.

Definition toy_base : FinalizedBase := mkBase (mkHLC 10 0 "p") (toy_hash 2) zero_time.

Lemma toy_base_causal : causal_base (view (get_world toy_start)) toy_base.
Proof.
  intros h x ps meta Ha Hx Hp Hlt.
  assert (h = toy_hash 2 ∨ h = toy_hash 1) as Hh.
  { change (fb_CommitHash toy_base) with (toy_hash 2) in Ha.
    apply rtc_inv_r in Ha as [->|(p & Ha & Hpar)]; [by left|right].
    assert (parents (view (get_world toy_start)) (toy_hash 2) = [toy_hash 1]) as E
      by (vm_compute; reflexivity).
    rewrite E in Hpar. apply list_elem_of_singleton in Hpar as ->.
    apply rtc_inv_r in Ha as [->|(p & _ & Hpar)]; [done|].
    assert (parents (view (get_world toy_start)) (toy_hash 1) = []) as E1 by (vm_compute; reflexivity).
    rewrite E1 in Hpar. destruct (not_elem_of_nil _ Hpar). }
  apply Less_spec in Hlt.
  destruct Hh as [->| ->].
  - assert (v_commits (view (get_world toy_start)) !! toy_hash 2
      = Some (toy_user_commit 2 10, [toy_hash 1])) as E by (vm_compute; reflexivity).
    rewrite E in Hx. injection Hx as <- _.
    assert (meta_HLC <$> (match ParseCommitMetadata (c_Message (toy_user_commit 2 10)) with
      Ok m => Some m | _ => None end) = Some (mkHLC 10 0 "p")) as Em by (vm_compute; reflexivity).
    rewrite Hp in Em. simpl in Em. injection Em as Em. rewrite Em in Hlt. vm_compute in Hlt. discriminate Hlt.
  - assert (v_commits (view (get_world toy_start)) !! toy_hash 1
      = Some (mkCommit (toy_hash 1) "" "" zero_time "init", [])) as E by (vm_compute; reflexivity).
    rewrite E in Hx. injection Hx as <- _. vm_compute in Hp. discriminate Hp.
Qed.

Lemma finalized_commit_survives_witness :
  let run := ReplayImportedCommits log_reconciler 10 (toy_hash 1) [toy_user_commit 3 20]
               (Some toy_base) toy_start in
  main_after run = (Ok 1, Some (toy_hash 101)) ∧
  let '(res, s') := run in
  let before := v_branches (view (get_world toy_start)) in
  let after := v_branches (view (get_world s')) in
  after !! "main" = before !! "main" ∨
  ∃ n head, res = Ok n ∧ after !! "main" = Some head ∧
    ancestor (view (get_world s')) (fb_CommitHash toy_base) head.
Proof.
  split; [vm_compute; reflexivity|].
  pose proof (finalized_commit_survives (St:=logged) (W:=toy) log_dropped (λ _ _, eq_refl) log_reconciler
    10 (toy_hash 1) [toy_user_commit 3 20] toy_base toy_start) as H.
  apply H.
  - exact log_reconciler_ok.
  - exact toy_repo_wf.
  - vm_compute. eauto.
  - reflexivity.
  - exact toy_base_causal.
  - intros x Hx. apply list_elem_of_In in Hx as [<-|[]]. exists [toy_hash 1]. vm_compute. reflexivity.
Defined.

(** ** Without causal timestamps a finalized commit can be lost

    [main] is the line 1, 2, 3, whose commits 1 and 2 carry the timestamp 30,
    and the finalized commit 3 the earlier timestamp 10.  A peer has 4, on 1,
    and the merge 5 of 2 and 4. *)
Definition late_commits : gmap string (Commit * list string) :=
  <[toy_hash 1 := (toy_user_commit 1 30, [])]>
  (<[toy_hash 2 := (toy_user_commit 2 31, [toy_hash 1])]>
  (<[toy_hash 3 := (toy_user_commit 3 10, [toy_hash 2])]>
  (<[toy_hash 4 := (toy_user_commit 4 40, [toy_hash 1])]>
  (<[toy_hash 5 := (toy_user_commit 5 60, [toy_hash 2; toy_hash 4])]> ∅)))).

Definition late_repo : toy :=
  mkToy (mkView late_commits (own_trees late_commits) {["main" := toy_hash 3]}
           {["remotes/swarm/main" := toy_hash 5]} ∅) "main" 100 1700000000 ∅.

Definition late_base : FinalizedBase := mkBase (mkHLC 10 0 "p") (toy_hash 3) zero_time.

Definition late_run : result Z * logged :=
  ReplayImportedCommits log_reconciler 50 (toy_hash 2)
    [toy_user_commit 5 60; toy_user_commit 4 40; toy_user_commit 1 30] (Some late_base) (late_repo, []).

(** The imported commit 1 is below the finalized commit and carries a later
    timestamp, so it is replayed: merging it changes nothing, and the amended
    message then goes to the head, which is the finalized commit.  The replay
    reports success and no rejection, and the history of the new [main] has a
    re-creation of commit 3 under another hash and timestamp instead of
    commit 3. *)
Theorem late_ancestor_replaces_finalized :
  ¬ causal_base (t_view late_repo) late_base ∧
  main_after late_run = (Ok 3, Some (toy_hash 104)) ∧ late_run.2.2 = [] ∧
  ¬ ancestor (t_view late_run.2.1) (toy_hash 3) (toy_hash 104).
Proof.
  split.
  { intros Hc. destruct (ParseCommitMetadata (c_Message (toy_user_commit 2 31))) as [meta|e|e] eqn:Ep;
      [|apply (f_equal is_ok) in Ep; vm_compute in Ep; discriminate Ep..].
    apply (Hc (toy_hash 2) (toy_user_commit 2 31) [toy_hash 1] meta); [| |done|].
    - apply (anc_sound 3). vm_compute. reflexivity.
    - vm_compute. reflexivity.
    - apply (f_equal (λ r, match r with Ok m => Less (fb_HLC late_base) (meta_HLC m) | _ => false end)) in Ep.
      apply Less_spec. rewrite <-Ep. vm_compute. reflexivity. }
  split; [vm_compute; reflexivity|]. split; [vm_compute; reflexivity|].
  apply (ancestor_closed_check _ (toy_hash <$> [104; 102; 100; 5; 4; 2; 1])).
  - vm_compute. reflexivity.
  - apply (bool_decide_eq_true_1 _). vm_compute. reflexivity.
  - apply (bool_decide_eq_false_1 _). vm_compute. reflexivity.
Qed.

(** ** A user commit can be replaced by an unsigned one

    [main] holds a commit without metadata (2) and a user commit (3) on top of
    it; commit 4 arrives from a peer.  All fork from commit 1. *)
Definition ff_commits : gmap string (Commit * list string) :=
  <[toy_hash 1 := (mkCommit (toy_hash 1) "" "" zero_time "init", [])]>
  (<[toy_hash 2 := (mkCommit (toy_hash 2) "" "" zero_time "plain", [toy_hash 1])]>
  (<[toy_hash 3 := (toy_user_commit 3 20, [toy_hash 2])]>
  (<[toy_hash 4 := (toy_user_commit 4 30, [toy_hash 1])]> ∅))).

Definition ff_start : logged :=
  (mkToy (mkView ff_commits (own_trees ff_commits) {["main" := toy_hash 3]} {["remotes/swarm/main" := toy_hash 4]} ∅)
    "main" 100 1700000000 ∅, []).

Definition ff_run : result Z * logged :=
  ReplayImportedCommits log_reconciler 50 (toy_hash 1) [toy_user_commit 4 30] None ff_start.

(** What the history of [main] holds afterwards: hashes, and the authors that
    the metadata names. *)
Definition history_after (s : logged) : result (list (string * option string)) :=
  match (getCommitsSince (W:=toy) 50 pool "main" "" s).1 with
  | Ok l => Ok (map (λ c, (c_Hash c,
      match ParseCommitMetadata (c_Message c) with Ok m => Some (Author m) | _ => None end)) l)
  | Err e => Err e
  | Panic e => Panic e
  end.

(** The replay merges a commit that it could not fast-forward to, and then
    amends the message of whatever commit is at the head.  When the merge was
    itself a fast-forward, that commit is the user's: here the replay succeeds,
    reports nothing, and the user commit 3 is gone from [main], replaced by
    commit 100, which names the author "doltswarm" instead of the user. *)
Theorem replay_replaces_user_commit :
  ff_run.1 = Ok 2 ∧ ff_run.2.2 = [] ∧
  history_after ff_start = Ok [(toy_hash 3, Some "p"); (toy_hash 2, None); (toy_hash 1, None)] ∧
  history_after ff_run.2 =
    Ok [(toy_hash 102, Some "doltswarm"); (toy_hash 100, Some "doltswarm"); (toy_hash 4, Some "p");
        (toy_hash 2, None); (toy_hash 1, None)].
Proof. vm_compute. repeat split. Qed.

(** ** A merge commit depends on the clock *)

(** The repository of [toy_start] on a machine whose clock shows [t]. *)
Definition start_at (t : Z) : logged :=
  (mkToy (t_view toy_repo) (t_cur toy_repo) (t_next toy_repo) t ∅, []).

(** The head of [main] after the import of commit 3: its parents, the
    timestamp and the date in its metadata. *)
Definition head_after (t : Z) : option (list string * option (HLCTimestamp * Time)) :=
  let s := (ReplayImportedCommits log_reconciler 50 (toy_hash 1) [toy_user_commit 3 20] None (start_at t)).2 in
  match v_branches (t_view s.1) !! "main" with
  | Some h =>
      match v_commits (t_view s.1) !! h with
      | Some (c, ps) =>
          Some (ps, match ParseCommitMetadata (c_Message c) with
                    | Ok m => Some (meta_HLC m, Date m) | _ => None end)
      | None => None
      end
  | None => None
  end.

(** On the toy engine: two peers with the same repository that import the
    same commit, one when its clock shows 100 and the other when it shows 200,
    both end with a merge of the same parents under the same timestamp, but
    with different dates in the metadata. *)
Lemma replay_depends_on_clock :
  ∃ ps d1 d2, head_after 100 = Some (ps, Some (mkHLC 20 0 "p", d1)) ∧
    head_after 200 = Some (ps, Some (mkHLC 20 0 "p", d2)) ∧ ps = [toy_hash 2; toy_hash 3] ∧ d1 ≠ d2.
Proof.
  exists [toy_hash 2; toy_hash 3]. eexists _, _. split; [vm_compute; reflexivity|].
  split; [vm_compute; reflexivity|]. split; [reflexivity|]. discriminate.
Qed.

(** The metadata of the merge commit for [x] made at [t]. *)
Definition merge_meta (x : commitWithMeta) (t : Time) : CommitMetadata :=
  NewCommitMetadata "merge" (cwm_hlc x) "" "doltswarm" "doltswarm@local" t.

(** Metadata that survives its way into the commit log: well formed, and its
    JSON has no backslash for the SQL literal to lose. *)
Definition survives_log (m : CommitMetadata) : Prop :=
  meta_ok m ∧ ∀ js, Marshal m = Ok js → str_free "\" js.

(** The head of the current branch after a successful amend, and its message. *)
Lemma amendMerge_message {St W} `{D : Dolt W, !DoltLaws W} `{HW : HasWorld St W}
    (c : conn) (x : commitWithMeta) (s s' : St) (t : Time) u :
  wf_world (get_world s) → (time_now (get_world s)).1 = Ok t → survives_log (merge_meta x t) →
  amendMerge c x s = (Ok u, s') →
  ∃ h cm ps, v_branches (view (get_world s')) !! current (get_world s') c = Some h ∧
    v_commits (view (get_world s')) !! h = Some (cm, ps) ∧
    ParseCommitMetadata (c_Message cm) = Ok (merge_meta x t).
Proof.
  intros Hw Ht [Hok Hfree] (t' & s1 & Hnow & H)%bind_Ok.
  destruct (time_pure (get_world s)) as (Hv1 & Hc1 & Hw1). unfold lift in Hnow.
  destruct (time_now (get_world s)) as [r w1]. simpl in *. subst r. injection Hnow as -> <-.
  apply bind_Ok in H as (js & s2 & Hjs & H). unfold of_result in Hjs. injection Hjs as Hjs <-.
  unfold lift in H. rewrite get_set_world in H.
  destruct (exec c _ w1) as [r w2] eqn:E. injection H as -> <-. rewrite get_set_world.
  apply exec_ok in E as (old & new & cm & _ & Hnew & _ & Hmsg & Hb & Hcur); [|auto].
  exists new, cm, (parents (view w1) old). rewrite Hb, Hcur, lookup_insert_eq. split_and!; [done..|].
  rewrite (Hmsg js) by (apply literal_value_id, Hfree, Hjs). apply ParseCommitMetadata_Ok.
  split; [by apply Unmarshal_Marshal|done].
Qed.

(** C40. A merge commit depends on the machine that makes it: when two peers,
    whatever their repositories hold, merge the same commit and
    amend the message of the merge at different local times, both heads carry
    the timestamp of that commit, but their metadata differ in the date, which
    is the local time, so their messages differ and the two heads are
    different commits.  The times and the timestamp are ones that the metadata
    can write, and its JSON has no backslash. *)
Theorem merge_commit_depends_on_clock {St W} `{D : Dolt W, !DoltLaws W} `{HW : HasWorld St W}
    (c1 c2 : conn) (x : commitWithMeta) (s1 s2 s1' s2' : St) (t1 t2 : Time)
  (Hw1 : wf_world (get_world s1)) (Hw2 : wf_world (get_world s2))
  (Ht1 : (time_now (get_world s1)).1 = Ok t1) (Ht2 : (time_now (get_world s2)).1 = Ok t2)
  (Hm1 : survives_log (merge_meta x t1)) (Hm2 : survives_log (merge_meta x t2))
  (Hrun1 : amendMerge c1 x s1 = (Ok tt, s1')) (Hrun2 : amendMerge c2 x s2 = (Ok tt, s2'))
  (Hne : t1 ≠ t2) :
  ∃ h1 h2 cm1 cm2 ps1 ps2 m1 m2,
    v_branches (view (get_world s1')) !! current (get_world s1') c1 = Some h1 ∧
    v_branches (view (get_world s2')) !! current (get_world s2') c2 = Some h2 ∧
    v_commits (view (get_world s1')) !! h1 = Some (cm1, ps1) ∧
    v_commits (view (get_world s2')) !! h2 = Some (cm2, ps2) ∧
    ParseCommitMetadata (c_Message cm1) = Ok m1 ∧ ParseCommitMetadata (c_Message cm2) = Ok m2 ∧
    meta_HLC m1 = cwm_hlc x ∧ meta_HLC m2 = cwm_hlc x ∧ Date m1 = t1 ∧ Date m2 = t2 ∧
    c_Message cm1 ≠ c_Message cm2.
Proof.
  destruct (amendMerge_message c1 x s1 s1' t1 tt Hw1 Ht1 Hm1 Hrun1) as (h1 & cm1 & ps1 & Hb1 & Hc1 & Hp1).
  destruct (amendMerge_message c2 x s2 s2' t2 tt Hw2 Ht2 Hm2 Hrun2) as (h2 & cm2 & ps2 & Hb2 & Hc2 & Hp2).
  exists h1, h2, cm1, cm2, ps1, ps2, (merge_meta x t1), (merge_meta x t2). split_and!; try done.
  intros E. rewrite E, Hp2 in Hp1. injection Hp1 as E'. done.
Qed.

Definition clock_x : commitWithMeta := mkCWM (toy_user_commit 3 20) (mkHLC 20 0 "p").

(** A peer whose clock shows [t], and its state after the amend. *)
Definition amended_at (t : Z) : logged := (amendMerge (W:=toy) pool clock_x (start_at t)).2.

Lemma clock_survives (t : Z) : t = 100 ∨ t = 200 → survives_log (merge_meta clock_x (mkTime t 0 0)).
Proof.
  intros Ht. split.
  - unfold meta_ok, hlc_ok, hlc_wf, time_wf, is_int64, is_int32. destruct Ht as [->| ->];
      split_and!; vm_compute; congruence.
  - intros js. destruct Ht as [->| ->]; intros Hjs; vm_compute in Hjs; injection Hjs as <-;
      repeat split; discriminate.
Qed.

Lemma merge_commit_depends_on_clock_witness :
  ∃ h1 h2 cm1 cm2 ps1 ps2 m1 m2,
    v_branches (view (get_world (amended_at 100))) !! current (get_world (amended_at 100)) pool = Some h1 ∧
    v_branches (view (get_world (amended_at 200))) !! current (get_world (amended_at 200)) pool = Some h2 ∧
    v_commits (view (get_world (amended_at 100))) !! h1 = Some (cm1, ps1) ∧
    v_commits (view (get_world (amended_at 200))) !! h2 = Some (cm2, ps2) ∧
    ParseCommitMetadata (c_Message cm1) = Ok m1 ∧ ParseCommitMetadata (c_Message cm2) = Ok m2 ∧
    meta_HLC m1 = cwm_hlc clock_x ∧ meta_HLC m2 = cwm_hlc clock_x ∧
    Date m1 = mkTime 100 0 0 ∧ Date m2 = mkTime 200 0 0 ∧ c_Message cm1 ≠ c_Message cm2.
Proof.
  assert (∀ t, amendMerge (W:=toy) pool clock_x (start_at t) = ((amendMerge (W:=toy) pool clock_x (start_at t)).1, amended_at t))
    as E by (intros; apply surjective_pairing).
  apply (merge_commit_depends_on_clock (St:=logged) (W:=toy) pool pool clock_x (start_at 100) (start_at 200)
    (amended_at 100) (amended_at 200) (mkTime 100 0 0) (mkTime 200 0 0)).
  - exact toy_repo_wf.
  - exact toy_repo_wf.
  - reflexivity.
  - reflexivity.
  - apply clock_survives. by left.
  - apply clock_survives. by right.
  - rewrite E. apply pair_equal_spec. split; [vm_compute; reflexivity|reflexivity].
  - rewrite E. apply pair_equal_spec. split; [vm_compute; reflexivity|reflexivity].
  - discriminate.
Defined.
