(* ===== verification/Db.v ===== *)
(** * The database layer
    ([core/db.go], [core/sql.go], [core/commit_sql_helpers.go])

    Lookups of branches, commits and remotes, and the two operations that
    create user commits.  The mutex that [Commit] and [ExecAndCommit] hold
    makes each of them one step; [DB] is the state they change. *)

From Stdlib Require Import ZArith Lia String Ascii.
From stdpp Require Import gmap strings list sorting pretty.
From S2P Require Import Prelude Hlc GoTime GoJson GoJsonFacts Metadata Sql Index Linearize Dolt ToyDolt Reconciler.
From S2P Require Import Walk.

Local Open Scope Z_scope.

(** ** Reading *)

Section reading.
Context {St W : Type} `{D : Dolt W} `{HW : HasWorld St W}.

(** The loop over the rows of the log: the first that is a user commit. *)
Fixpoint first_user_commit (rows : list Commit) : option (Commit * CommitMetadata) :=
  match rows with
  | [] => None
  | c :: rows =>
      match ParseCommitMetadata (c_Message c) with
      | Ok meta => if String.eqb (Kind meta) CommitKindUser then Some (c, meta) else first_user_commit rows
      | _ => first_user_commit rows
      end
  end.

Definition GetLastUserCommit (branch : string) : M St (Commit * CommitMetadata) :=
  let* rows := wrap_err "failed to retrieve commits: " (lift (query pool (QLog branch))) in
  match first_user_commit rows with
  | Some p => ret p
  | None => fail "no user commits found"
  end.

(** [DatabaseExists] scans into a [string] that starts empty; it looks for the
    name of the database, not for its argument. *)
Definition DatabaseExists (db_name name : string) : M St (bool * option string) :=
  let* r := attempt (let* row := query_row pool (QShowDatabases db_name) in scan_string row) in
  match r with
  | Ok dbName => ret (negb (String.eqb "" dbName), None)
  | Err e => ret (false, Some e)
  | Panic e => panic e
  end.

Definition GetFirstCommit : M St Commit :=
  let* commits := wrap_err "failed to retrieve last commit hash: "
                    (lift (query pool (QLogOldest "main"))) in
  match commits with
  | [] => fail "no commits found"
  | c :: _ => ret c
  end.

Definition CheckIfCommitPresent (commitHash : string) : M St bool :=
  let* r := attempt (query_row pool (QLogWhere "main" commitHash)) in
  match r with
  | Ok commit => ret (String.eqb (c_Hash commit) commitHash)
  | Err e => if contains e "no rows in result set" then ret false
             else fail ("failed to look up commit hash: " +:+ e)
  | Panic e => panic e
  end.

Definition GetAllCommits (fuel : nat) : M St (list Commit) :=
  let* r := attempt (getCommitsSince fuel pool "main" "") in
  match r with
  | Ok commits => ret commits
  | Panic e => panic e
  | Err _ => wrap_err "failed to retrieve last commit hash: " (lift (query pool (QLog "main")))
  end.

(** A hash, and whether the reference exists. *)
Definition GetBranchHead (refName : string) : M St (string * bool) :=
  let found (out : option string) :=
    (null_string out, match out with Some h => negb (String.eqb h "") | None => false end) in
  let* r := attempt (query_row pool (QBranchHash refName)) in
  match r with
  | Ok out => ret (found out)
  | Panic e => panic e
  | Err e =>
      if negb (is_no_rows e) then fail e else
      let* r := attempt (query_row pool (QRemoteBranchHash refName)) in
      match r with
      | Ok out => ret (found out)
      | Panic e => panic e
      | Err e => if is_no_rows e then ret ("", false) else fail e
      end
  end.

Definition MergeBase (leftRef rightRef : string) : M St string :=
  let* r := attempt (query_row pool (QMergeBase leftRef rightRef)) in
  match r with
  | Ok out => ret (null_string out)
  | Panic e => panic e
  | Err e => if is_no_rows e then ret "" else fail e
  end.

(** ** Remotes *)

Definition SwarmDBFactoryScheme : string := "swarm".

Definition swarm_url (repo : RepoID) : string :=
  if negb (String.eqb (Org repo) "")
  then SwarmDBFactoryScheme +:+ "://" +:+ Org repo +:+ "/" +:+ RepoName repo
  else SwarmDBFactoryScheme +:+ "://" +:+ RepoName repo.

(** [if err != nil && !strings.Contains(err.Error(), tolerated) { return ... }] *)
Definition exec_unless (tolerated prefix : string) (st : stmt) : M St unit :=
  let* r := attempt (lift (exec pool st)) in
  match r with
  | Err e => if contains e tolerated then ret tt else fail (prefix +:+ e)
  | Panic e => panic e
  | Ok _ => ret tt
  end.

Definition EnsureSwarmRemote (repo : RepoID) : M St unit :=
  if String.eqb (RepoName repo) "" then fail "repo name is required" else
  let url := swarm_url repo in
  let* q := attempt (query_row pool (QRemoteURL "swarm")) in
  let same := match q with Ok (Some cur) => String.eqb cur url | _ => false end in
  if same then ret tt else
  let needRewrite :=
    match q with
    | Ok _ => true
    | Err e => negb (is_no_rows e)
    | Panic _ => true
    end in
  (if needRewrite
   then exec_unless "unknown remote" "failed to remove swarm remote: " (DoltRemoteRemove "swarm")
   else ret tt) ;;*
  exec_unless "already exists" "failed to add swarm remote: " (DoltRemoteAdd "swarm" url).

Definition FetchSwarm : M St unit := lift (exec pool (DoltFetch "swarm")).

(** ** Creating commits *)

Definition getContentHash (q : conn) : M St string :=
  let* row := query_row q QContentHash in scan_string row.

Definition signer_email (author : string) : string := author +:+ "@doltswarm".

(** Metadata for the author that the signer identifies, signed. *)
Definition signed_metadata (signer : Signer) (msg : string) (hlc : HLCTimestamp) (contentHash : string) :
    M St CommitMetadata :=
  let author := GetID signer in
  let* commitDate := lift time_now in
  let metadata := NewCommitMetadata msg hlc contentHash author (signer_email author) commitDate in
  wrap_err "failed to sign: " (of_result (meta_Sign metadata signer)).

Definition CreateCommitMetadata (signer : Signer) (msg : string) (hlc : HLCTimestamp) :
    M St CommitMetadata :=
  let* contentHash := wrap_err "failed to get content hash: " (getContentHash pool) in
  signed_metadata signer msg hlc contentHash.

(** Signs the hash of a commit and tags the commit with the signature. *)
Definition tag_commit (tx : conn) (signer : Signer) (author email commitHash : string) : M St unit :=
  let* signature := wrap_err ("failed to sign commit '" +:+ commitHash +:+ "': ")
                      (of_result (Sign signer commitHash)) in
  wrap_err ("failed to create signature tag (" +:+ signature +:+ "): ")
    (lift (exec tx (DoltTag (PublicKey signer) author email signature commitHash))).

Definition doCommitWithMetadata (tx : conn) (metadata : CommitMetadata) (signer : option Signer) :
    M St string :=
  match signer with
  | None => fail "no signer available"
  | Some signer =>
      let* metadataJSON := wrap_err "failed to marshal metadata: " (of_result (Marshal metadata)) in
      let* commitHash := wrap_err "failed to run commit procedure: "
        (lift (call_commit tx (DoltCommitAll metadataJSON (Author metadata) (Email metadata)
                                 (format_RFC3339Nano (Date metadata))))) in
      tag_commit tx signer (Author metadata) (Email metadata) commitHash ;;*
      ret commitHash
  end.

Definition getChangedTables (q : conn) (from to : string) : M St (list string) :=
  let* rows := wrap_err "failed to query changed tables: " (lift (query q (QDiffSummary from to))) in
  wrap_err "failed to scan table name: " (of_result
    (foldr (λ row acc, match row, acc with
                       | Some t, Ok l => Ok (t :: l)
                       | Some _, e => e
                       | None, _ => Err "converting NULL to string is unsupported"
                       end) (Ok []) rows)).
End reading.

(** ** The state of a database handle *)

Record DB (W : Type) := mkDB {
  db_world : W;
  db_hlc : HLC;                    (* db.reconciler.hlc *)
  db_callbacks : list string;      (* the keys of db.tableChangeCallbacks *)
  db_notified : list string;       (* the keys whose Notify was started *)
}.
Arguments mkDB {W} db_world db_hlc db_callbacks db_notified.
Arguments db_world {W} _.
Arguments db_hlc {W} _.
Arguments db_callbacks {W} _.
Arguments db_notified {W} _.

#[export] Instance DB_world W : HasWorld (DB W) W := {
  get_world := db_world;
  set_world w s := mkDB w (db_hlc s) (db_callbacks s) (db_notified s);
  get_set_world _ _ := eq_refl;
}.

Section committing.
Context {W : Type} `{D : Dolt W} `{R : GoRuntime} (signer : Signer).

(** [reconciler.GetHLC().Now()] *)
Definition hlc_Now : M (DB W) HLCTimestamp :=
  let* t := lift time_now in
  let* s := gets id in
  let '(ts, clock) := Now (UnixNano t) (db_hlc s) in
  modify (λ s, mkDB (db_world s) clock (db_callbacks s) (db_notified s)) ;;*
  ret ts.

(** [guid] is the value of [xid.New()]. *)
Definition RegisterTableChangeCallback (guid tableName : string) : M (DB W) unit :=
  modify (λ s, mkDB (db_world s) (db_hlc s) (db_callbacks s ++ [tableName +:+ "_" +:+ guid]) (db_notified s)).

Definition triggerTableChangeCallbacks (tableName : string) : M (DB W) unit :=
  modify (λ s, mkDB (db_world s) (db_hlc s) (db_callbacks s)
    (db_notified s ++ List.filter (λ table, contains table tableName) (range_map (db_callbacks s)))).

Fixpoint trigger_all (tables : list string) : M (DB W) unit :=
  match tables with
  | [] => ret tt
  | t :: tables => triggerTableChangeCallbacks t ;;* trigger_all tables
  end.

Definition db_Commit (commitMsg : string) : M (DB W) string :=
  let* hlc := hlc_Now in
  let* tx := wrap_err "failed to start transaction: " (lift begin_tx) in
  deferred
    (let* metadata := wrap_err "failed to create commit metadata: "
                        (CreateCommitMetadata signer commitMsg hlc) in
     let* commitHash := wrap_err "failed to commit: " (doCommitWithMetadata tx metadata (Some signer)) in
     let* changedTables := wrap_err "failed to get changed tables: " (getChangedTables tx "HEAD^" "HEAD") in
     wrap_err "failed to commit transaction: " (lift (tx_commit tx)) ;;*
     trigger_all changedTables ;;*
     ret commitHash)
    (ignore (lift (tx_rollback tx))).

Definition db_ExecAndCommit (execFunc : conn → M (DB W) unit) (commitMsg : string) : M (DB W) string :=
  let* hlc := hlc_Now in
  let* tx := wrap_err "failed to start transaction: " (lift begin_tx) in
  deferred
    (wrap_err "failed to checkout main branch: " (lift (exec tx (DoltCheckout "main"))) ;;*
     wrap_err "failed to run exec function: " (execFunc tx) ;;*
     let* changedTables := getChangedTables tx "WORKING" "HEAD" in
     let* contentHash := wrap_err "failed to get content hash: " (getContentHash tx) in
     let* metadata := signed_metadata signer commitMsg hlc contentHash in
     let* commitHash := wrap_err "failed to commit: " (doCommitWithMetadata tx metadata (Some signer)) in
     wrap_err "failed to commit transaction: " (lift (tx_commit tx)) ;;*
     trigger_all changedTables ;;*
     ret commitHash)
    (ignore (lift (tx_rollback tx))).
End committing.

(** ** Facts about the lookups *)

Section facts.
Context {St W : Type} `{D : Dolt W, !DoltLaws W} `{HW : HasWorld St W}.

Lemma reads_GetBranchHead ref s :
  wf_world (get_world s) →
  reads (GetBranchHead ref) s (λ p,
    match branch_head (view (get_world s)) ref with
    | Some h => p = (h, true)
    | None => p = ("", false)
    end).
Proof.
  intros Hw. pose proof (wf_world_view _ Hw) as Hv. unfold GetBranchHead.
  assert (∀ h, branch_head (view (get_world s)) ref = Some h → String.eqb h "" = false) as Hne.
  { intros h Hh. by destruct (branch_head_known _ _ _ Hv Hh) as [_ ?%is_hash_nonempty]. }
  unfold branch_head in *. eapply reads_bind; [apply reads_try_row|].
  intros [out|e|e] s1 [Hv1 Hc1] H1; [| |done].
  { apply reads_ret. destruct H1 as [rest H1]. simpl in H1.
    destruct (v_branches _ !! ref) as [h|]; [|done]. injection H1 as -> _. by rewrite (Hne h). }
  destruct (is_no_rows e); [simpl|apply reads_fail]. specialize (H1 eq_refl). simpl in H1.
  destruct (v_branches _ !! ref); [done|]. clear H1 e.
  eapply reads_bind; [apply reads_try_row|]. rewrite Hv1.
  intros [out|e|e] s2 _ H2; [| |done].
  - apply reads_ret. destruct H2 as [rest H2]. simpl in H2.
    destruct (v_remote_branches _ !! ref) as [h|]; [|done]. injection H2 as -> _. by rewrite (Hne h).
  - destruct (is_no_rows e); [|apply reads_fail]. apply reads_ret. specialize (H2 eq_refl).
    simpl in H2. by destruct (v_remote_branches _ !! ref).
Qed.

(** A merge base is a common ancestor; no answer means there is none. *)
Lemma reads_MergeBase l r s a b :
  wf_world (get_world s) → is_branch_name l = true → is_branch_name r = true →
  branch_head (view (get_world s)) l = Some a → branch_head (view (get_world s)) r = Some b →
  reads (MergeBase l r) s (λ m,
    (m ≠ "" → is_Some (v_commits (view (get_world s)) !! m) ∧
              ancestor (view (get_world s)) m a ∧ ancestor (view (get_world s)) m b) ∧
    (m = "" → ∀ m', ¬ (ancestor (view (get_world s)) m' a ∧ ancestor (view (get_world s)) m' b))).
Proof.
  intros Hw Hl Hr Ha Hb. pose proof (wf_world_view _ Hw) as Hv. unfold MergeBase.
  eapply reads_bind; [apply reads_try_row|]. intros [out|e|e] s1 _ H1; [| |done];
    simpl in H1; rewrite !resolve_branch, Ha, Hb in H1 by done.
  - apply reads_ret. destruct H1 as [rest [(m & Hm & Hk & H1 & H2)|[Hm Hno]]].
    + injection Hm as -> _. simpl. split; [done|]. intros ->. destruct Hk as [[c ps] Hc].
      by destruct (wf_hash _ Hv _ _ _ Hc).
    + injection Hm as -> _. simpl. done.
  - destruct (is_no_rows e); [|apply reads_fail]. apply reads_ret. specialize (H1 eq_refl). naive_solver.
Qed.

Lemma holds_exec_remotes c st s :
  wf_world (get_world s) →
  holds (attempt (lift (St:=St) (exec c st))) s (λ res s', wf_world (get_world s') ∧
    match res with
    | Ok (Ok _) => effect (view (get_world s)) (current (get_world s) c) st
                     (view (get_world s')) (current (get_world s') c)
    | Ok (Err e) => v_branches (view (get_world s')) = v_branches (view (get_world s)) ∧
        v_remotes (view (get_world s')) = v_remotes (view (get_world s)) ∧
        remote_error (view (get_world s)) st e
    | _ => False
    end).
Proof.
  intros Hw. unfold holds, attempt, lift.
  pose proof (exec_wf c st (get_world s) Hw) as Hwf. pose proof (exec_err c st (get_world s) Hw) as He.
  pose proof (λ e, exec_no_panic c st (get_world s) e Hw) as Hp.
  destruct (exec c st (get_world s)) as [[u|e|e] w'] eqn:E; simpl in *; rewrite get_set_world.
  - split; [done|]. by eapply exec_ok.
  - split; [done|]. destruct (He eq_refl) as (? & ? & ?). split_and!; [done..|]. by eapply exec_err_text.
  - by destruct (Hp e).
Qed.

(** The remote is not there, or the statement that removes it made it so. *)
Lemma holds_remove_remote s :
  wf_world (get_world s) →
  holds (exec_unless (St:=St) "unknown remote" "failed to remove swarm remote: " (DoltRemoteRemove "swarm")) s
    (λ res s', wf_world (get_world s') ∧
      v_branches (view (get_world s')) = v_branches (view (get_world s)) ∧
      match res with
      | Ok _ => v_remotes (view (get_world s')) !! "swarm" = None
      | Err _ => True
      | Panic _ => False
      end).
Proof.
  intros Hw. apply holds_bind. eapply holds_mono; [by apply holds_exec_remotes|].
  intros [[u|e|e]|e|e] s2 [Hw2 H2]; try done.
  - destruct H2 as (Hb & _ & Hr). apply holds_ret. split_and!; [done..|]. by rewrite Hr, lookup_delete_eq.
  - destruct H2 as (Hb & Hr & He). simpl in He. destruct (contains e "unknown remote").
    + apply holds_ret. split_and!; [done..|]. rewrite Hr. by apply He.
    + by apply holds_fail.
Qed.

Lemma holds_add_remote url s :
  wf_world (get_world s) → str_free "\" url → v_remotes (view (get_world s)) !! "swarm" = None →
  holds (exec_unless (St:=St) "already exists" "failed to add swarm remote: " (DoltRemoteAdd "swarm" url)) s
    (λ res s', wf_world (get_world s') ∧
      v_branches (view (get_world s')) = v_branches (view (get_world s)) ∧
      match res with
      | Ok _ => v_remotes (view (get_world s')) !! "swarm" = Some url
      | Err _ => True
      | Panic _ => False
      end).
Proof.
  intros Hw Hurl Hn. apply holds_bind. eapply holds_mono; [by apply holds_exec_remotes|].
  intros [[u|e|e]|e|e] s2 [Hw2 H2]; try done.
  - destruct H2 as (Hb & _ & Hr). apply holds_ret. split_and!; [done..|].
    rewrite (Hr url) by (by apply literal_value_id). by rewrite lookup_insert_eq.
  - destruct H2 as (Hb & Hr & He). simpl in He. destruct (contains e "already exists").
    + destruct (He eq_refl) as [? He']. congruence.
    + by apply holds_fail.
Qed.

Lemma holds_EnsureSwarmRemote repo s :
  wf_world (get_world s) → str_free "\" (swarm_url repo) →
  holds (EnsureSwarmRemote repo) s (λ res s', wf_world (get_world s') ∧
    v_branches (view (get_world s')) = v_branches (view (get_world s)) ∧
    match res with
    | Ok _ => v_remotes (view (get_world s')) !! "swarm" = Some (swarm_url repo)
    | Err _ => True
    | Panic _ => False
    end).
Proof.
  intros Hw Hurl. unfold EnsureSwarmRemote. destruct (String.eqb (RepoName repo) ""); [done|].
  apply holds_bind. pose proof (reads_try_row pool (QRemoteURL "swarm") s Hw) as Hq. unfold holds at 1.
  destruct (attempt (query_row pool (QRemoteURL "swarm")) s) as [[q|e|e] s1]; cbn [fst snd];
    destruct Hq as (Hw1 & Hv1 & _ & Hq); [|by rewrite Hv1|done].
  destruct (match q with Ok (Some cur) => String.eqb cur (swarm_url repo) | _ => false end) eqn:Hsame.
  { destruct q as [[cur|]|e|e]; try done. apply String.eqb_eq in Hsame as ->. apply holds_ret.
    rewrite Hv1. split_and!; [done..|]. destruct Hq as [rest Hq]. simpl in Hq.
    destruct (v_remotes _ !! "swarm"); [|done]. by injection Hq as -> _. }
  apply holds_bind.
  destruct (match q with Ok _ => true | Err e => negb (is_no_rows e) | Panic _ => true end) eqn:Hre.
  - eapply holds_mono; [by apply holds_remove_remote|]. rewrite Hv1.
    intros [u|e|e] s2 (Hw2 & Hb2 & H2); [|done..]. rewrite <-Hb2. by apply holds_add_remote.
  - apply holds_ret. rewrite <-Hv1. apply holds_add_remote; [done..|]. rewrite Hv1.
    destruct q as [q|e|e]; [done| |done].
    apply negb_false_iff in Hre. specialize (Hq Hre). simpl in Hq. by destruct (v_remotes _ !! "swarm").
Qed.
End facts.

(** ** What a commit contains *)

Section commit_facts.
Context {W : Type} `{D : Dolt W, !DoltLaws W} `{R : GoRuntime} (signer : Signer).

(** The repository and the clock are as they were. *)
Definition idle (v : dview) (k : HLC) (s : DB W) : Prop :=
  wf_world (db_world s) ∧ view (db_world s) = v ∧ db_hlc s = k.

Lemma idle_lift {A} v k (m : M W A) :
  (∀ w, view (m w).2 = view w ∧ (wf_world w → wf_world (m w).2)) → preserves (idle v k) (lift m).
Proof.
  intros Hm s (Hw & Hv & Hk). unfold lift, idle. destruct (Hm (get_world s)) as [Hv' Hw'].
  destruct (m (get_world s)) as [r w']; simpl in *. split; [by apply Hw'|]. by rewrite Hv'.
Qed.

Lemma idle_query {A} v k c (q : qry A) : preserves (idle v k) (lift (query c q)).
Proof. apply idle_lift. intros w. by destruct (query_pure A c q w) as (? & _ & ?). Qed.

Lemma idle_time v k : preserves (idle v k) (lift time_now).
Proof. apply idle_lift. intros w. by destruct (time_pure w) as (? & _ & ?). Qed.

Lemma idle_CreateCommitMetadata v k msg hlc :
  preserves (idle v k) (CreateCommitMetadata signer msg hlc).
Proof.
  unfold CreateCommitMetadata, getContentHash, signed_metadata, query_row, scan_string.
  walk_preserves; first [apply idle_query|apply idle_time].
Qed.

Lemma wrap_err_Ok {S A} p (m : M S A) s a s' : wrap_err p m s = (Ok a, s') → m s = (Ok a, s').
Proof. unfold wrap_err. destruct (m s) as [[] ?]; naive_solver. Qed.

Lemma signed_metadata_Ok {St} `{HW : HasWorld St W} msg hlc content (s s' : St) m :
  signed_metadata signer msg hlc content s = (Ok m, s') →
  ∃ date, (time_now (get_world s)).1 = Ok date ∧
    meta_Sign (NewCommitMetadata msg hlc content (GetID signer)
                 (signer_email (GetID signer)) date) signer = Ok m.
Proof.
  intros (date & s1 & Ht & H)%bind_Ok. apply wrap_err_Ok in H. exists date. split.
  - unfold lift in Ht. destruct (time_now (get_world s)). by injection Ht.
  - unfold of_result in H. congruence.
Qed.

Lemma CreateCommitMetadata_Ok msg hlc (s s' : DB W) m :
  CreateCommitMetadata signer msg hlc s = (Ok m, s') →
  ∃ content date s1, getContentHash pool s = (Ok content, s1) ∧
    (time_now (db_world s1)).1 = Ok date ∧
    meta_Sign (NewCommitMetadata msg hlc content (GetID signer)
                 (signer_email (GetID signer)) date) signer = Ok m.
Proof.
  intros (content & s1 & Hc & H)%bind_Ok. apply wrap_err_Ok in Hc.
  apply signed_metadata_Ok in H as (date & Ht & H). by exists content, date, s1.
Qed.

(** Queries and the clock leave every session on its branch. *)
Lemma session_query {A} k (q : qry A) :
  preserves (λ s : DB W, current (db_world s) = k) (lift (query pool q)).
Proof.
  intros s <-. unfold lift. destruct (query_pure A pool q (db_world s)) as (_ & E & _).
  simpl. by destruct (query pool q (db_world s)).
Qed.

Lemma session_time k : preserves (λ s : DB W, current (db_world s) = k) (lift time_now).
Proof.
  intros s <-. unfold lift. destruct (time_pure (db_world s)) as (_ & E & _).
  simpl. by destruct (time_now (db_world s)).
Qed.

Lemma session_getContentHash k :
  preserves (λ s : DB W, current (db_world s) = k) (getContentHash pool).
Proof. unfold getContentHash, query_row, scan_string. walk_preserves. apply session_query. Qed.

Lemma session_CreateCommitMetadata k msg hlc :
  preserves (λ s : DB W, current (db_world s) = k) (CreateCommitMetadata signer msg hlc).
Proof.
  unfold CreateCommitMetadata, signed_metadata. walk_preserves;
    first [apply session_getContentHash|apply session_time].
Qed.

Lemma meta_Sign_kind m m' : meta_Sign m signer = Ok m' → Kind m' = Kind m.
Proof.
  unfold meta_Sign. destruct (SignableData _); try done. destruct (Sign signer _); try done.
  by intros [= <-].
Qed.

(** A commit [h] in view [v'] on top of [old] carries the metadata [m], when
    its JSON has no backslash to lose. *)
Definition carries (v' : dview) (old h : string) (m : CommitMetadata) : Prop :=
  ∃ c, v_commits v' !! h = Some (c, [old]) ∧
    ∀ js, Marshal m = Ok js → str_free "\" js → c_Message c = js.

Lemma lift_exec_Ok c st (s s' : DB W) u :
  wf_world (db_world s) → lift (exec c st) s = (Ok u, s') →
  wf_world (db_world s') ∧ v_commits (view (db_world s)) ⊆ v_commits (view (db_world s')) ∧
  db_hlc s' = db_hlc s ∧
  effect (view (db_world s)) (current (db_world s) c) st (view (db_world s')) (current (db_world s') c).
Proof.
  intros Hw. unfold lift. simpl. pose proof (exec_wf c st (db_world s) Hw) as Hw'.
  pose proof (exec_grow c st (db_world s) Hw) as Hg.
  destruct (exec c st (db_world s)) as [r w'] eqn:E. intros [= -> <-]. simpl in *.
  split_and!; [done..|]. by eapply exec_ok.
Qed.

Lemma lift_call_Ok c st (s s' : DB W) h :
  wf_world (db_world s) → lift (call_commit c st) s = (Ok h, s') →
  wf_world (db_world s') ∧ v_commits (view (db_world s)) ⊆ v_commits (view (db_world s')) ∧
  db_hlc s' = db_hlc s ∧
  effect (view (db_world s)) (current (db_world s) c) st (view (db_world s')) (current (db_world s') c) ∧
  v_branches (view (db_world s')) !! current (db_world s') c = Some h.
Proof.
  intros Hw. unfold lift. simpl. pose proof (call_wf c st (db_world s) Hw) as Hw'.
  pose proof (call_grow c st (db_world s) Hw) as Hg.
  destruct (call_commit c st (db_world s)) as [r w'] eqn:E. intros [= -> <-]. simpl in *.
  destruct (call_ok _ _ _ _ _ Hw E). done.
Qed.

Lemma of_result_Ok {S A} (r : result A) (s s' : S) a :
  of_result r s = (Ok a, s') → r = Ok a ∧ s' = s.
Proof. unfold of_result. by intros [= -> <-]. Qed.

Lemma tag_commit_Ok tx author email h (s s' : DB W) u :
  wf_world (db_world s) → tag_commit tx signer author email h s = (Ok u, s') →
  wf_world (db_world s') ∧ v_commits (view (db_world s)) ⊆ v_commits (view (db_world s')) ∧
  db_hlc s' = db_hlc s ∧ v_branches (view (db_world s')) = v_branches (view (db_world s)).
Proof.
  intros Hw (sig & s4 & Hsig & Htag)%bind_Ok. apply wrap_err_Ok in Hsig, Htag.
  apply of_result_Ok in Hsig as [_ ->].
  apply lift_exec_Ok in Htag as (? & ? & ? & ? & _); [|done]. done.
Qed.

Lemma doCommitWithMetadata_Ok tx m (s s' : DB W) h :
  wf_world (db_world s) → doCommitWithMetadata tx m (Some signer) s = (Ok h, s') →
  wf_world (db_world s') ∧ v_commits (view (db_world s)) ⊆ v_commits (view (db_world s')) ∧
  db_hlc s' = db_hlc s ∧
  v_branches (view (db_world s')) !! current (db_world s) tx = Some h ∧
  ∃ old, v_branches (view (db_world s)) !! current (db_world s) tx = Some old ∧
    carries (view (db_world s')) old h m.
Proof.
  intros Hw (js & s1 & Hjs & H)%bind_Ok. apply wrap_err_Ok, of_result_Ok in Hjs as [Hjs ->].
  apply bind_Ok in H as (h' & s2 & Hcall & H). apply wrap_err_Ok in Hcall.
  apply bind_Ok in H as (u & s3 & Htag & H). injection H as <- <-.
  apply lift_call_Ok in Hcall as (Hw2 & Hg2 & Hk2 & Heff & Hhead); [|done].
  apply tag_commit_Ok in Htag as (Hw3 & Hg3 & Hk3 & Hb3); [|done].
  destruct Heff as (old & new & c & Hold & Hnew & Hmsg & Hbr & Hcur).
  rewrite Hcur, Hbr, lookup_insert_eq in Hhead. injection Hhead as <-.
  split; [done|]. split; [by etrans|]. split; [congruence|].
  split; [by rewrite Hb3, Hbr, lookup_insert_eq|]. exists old. split; [done|].
  exists c. split; [by eapply lookup_weaken|]. intros js' Hjs' Hfree.
  apply Hmsg. replace js with js' by congruence. by apply literal_value_id.
Qed.

(** The rest of a commit leaves the repository alone. *)
Lemma idle_getChangedTables v k c from to : preserves (idle v k) (getChangedTables c from to).
Proof. unfold getChangedTables. walk_preserves. apply idle_query. Qed.

Lemma idle_trigger_all v k tables : preserves (idle v k) (trigger_all tables).
Proof.
  induction tables as [|t tables IH]; [apply preserves_ret|]. simpl.
  apply preserves_bind; [|done]. by apply preserves_modify.
Qed.

Lemma idle_tx_commit v k c : preserves (idle v k) (lift (tx_commit c)).
Proof. apply idle_lift. intros w. apply tx_commit_pure. Qed.
Lemma idle_tx_rollback v k c : preserves (idle v k) (lift (tx_rollback c)).
Proof. apply idle_lift. intros w. apply tx_rollback_pure. Qed.
Lemma idle_begin_tx v k : preserves (idle v k) (lift begin_tx).
Proof. apply idle_lift. intros w. apply tx_pure. Qed.

(** An invariant carried over a step that returned a value. *)
Lemma idle_Ok {A} (m : M (DB W) A) s a s' v k :
  preserves (idle v k) m → m s = (Ok a, s') → idle v k s → idle v k s'.
Proof. intros Hm E Hs. specialize (Hm s Hs). by rewrite E in Hm. Qed.

Lemma hlc_Now_Ok (s s' : DB W) ts :
  wf_world (db_world s) → hlc_Now s = (Ok ts, s') →
  ∃ t, (time_now (db_world s)).1 = Ok t ∧ Now (UnixNano t) (db_hlc s) = (ts, db_hlc s') ∧
    wf_world (db_world s') ∧ view (db_world s') = view (db_world s).
Proof.
  intros Hw (t & s1 & Ht & H)%bind_Ok. exists t.
  pose proof (idle_Ok _ _ _ _ (view (db_world s)) (db_hlc s) (idle_time _ _) Ht) as (Hw1 & Hv1 & Hk1);
    [done|].
  split; [unfold lift in Ht; simpl in Ht; destruct (time_now (db_world s)); by injection Ht|].
  unfold bind, gets in H. destruct (Now (UnixNano t) (db_hlc s1)) as [ts' clock] eqn:E.
  unfold modify, ret in H. injection H as <- <-. simpl. rewrite <-Hk1. split; [done|]. done.
Qed.
End commit_facts.

(** ** Properties *)

(** What [Commit] reads before it signs: a tick of the clock, the transaction
    it opens, and the content hash. *)
Definition commit_inputs {W} `{D : Dolt W} : M (DB W) (conn * string) :=
  let* _ := hlc_Now in
  let* tx := lift begin_tx in
  let* content := getContentHash pool in
  ret (tx, content).

(** C21. A successful [Commit] returns the new head of the branch that its
    transaction is on, a commit on top of the old head of that branch.  The
    commit was made with metadata signed by the database's signer: the
    caller's message, the timestamp of a new tick of the hybrid clock at the
    machine's time, the content hash that was read and the machine's time as
    its date.  When the metadata is well formed (valid UTF-8, a date that RFC
    3339 can write) and its JSON has no backslash, the message of the commit
    parses back to that metadata at every reader; with a backslash it need not
    ([Sql.escapeSQL_backslash]). *)
Theorem commit_carries_signed_metadata {W} `{D : Dolt W, !DoltLaws W} `{R : GoRuntime}
    (signer : Signer) (msg h : string) (s s' : DB W)
  (Hw : wf_world (db_world s)) (Hrun : db_Commit signer msg s = (Ok h, s')) :
  ∃ t tx content s1 date m old c,
    let ts := (Now (UnixNano t) (db_hlc s)).1 in
    let branch := current (db_world s1) tx in
    (time_now (db_world s)).1 = Ok t ∧ db_hlc s' = (Now (UnixNano t) (db_hlc s)).2 ∧
    commit_inputs s = (Ok (tx, content), s1) ∧ (time_now (db_world s1)).1 = Ok date ∧
    meta_Sign (NewCommitMetadata msg ts content (GetID signer) (signer_email (GetID signer)) date) signer
      = Ok m ∧
    v_branches (view (db_world s)) !! branch = Some old ∧
    v_branches (view (db_world s')) !! branch = Some h ∧
    v_commits (view (db_world s')) !! h = Some (c, [old]) ∧
    ∀ js, Marshal m = Ok js → str_free "\" js → meta_ok m → ParseCommitMetadata (c_Message c) = Ok m.
Proof.
  unfold db_Commit in Hrun. apply bind_Ok in Hrun as (ts & s1 & Hnow & H).
  pose proof Hnow as (t & Ht & Hnow' & Hw1 & Hv1)%hlc_Now_Ok; [|done].
  apply bind_Ok in H as (tx & s2 & Htx & H). apply wrap_err_Ok in Htx.
  pose proof (idle_Ok _ _ _ _ (view (db_world s1)) (db_hlc s1) (idle_begin_tx _ _) Htx) as Hi2.
  apply deferred_Ok in H as (s3 & H & -> & _).
  apply bind_Ok in H as (m & s4 & Hm & H). apply wrap_err_Ok in Hm.
  pose proof (idle_Ok _ _ _ _ _ _ (idle_CreateCommitMetadata signer _ _ _ _) Hm (Hi2 (conj Hw1 (conj eq_refl eq_refl)))) as Hi4.
  pose proof (session_CreateCommitMetadata signer (current (db_world s2)) msg ts s2 eq_refl) as Hcur.
  rewrite Hm in Hcur. cbn [snd] in Hcur.
  apply CreateCommitMetadata_Ok in Hm as (content & date & s2' & Hcontent & Hdate & Hsign).
  assert (current (db_world s2') = current (db_world s2)) as Hcur'.
  { pose proof (session_getContentHash _ s2 eq_refl) as E. by rewrite Hcontent in E. }
  apply bind_Ok in H as (h' & s5 & Hdo & H). apply wrap_err_Ok in Hdo.
  apply doCommitWithMetadata_Ok in Hdo as (Hw5 & _ & Hk5 & Hbr & old & Hold & c & Hc & Hmsg); [|apply Hi4].
  apply bind_Ok in H as (tables & s6 & Htab & H). apply wrap_err_Ok in Htab.
  apply bind_Ok in H as ([] & s7 & Hcom & H). apply wrap_err_Ok in Hcom.
  apply bind_Ok in H as ([] & s8 & Htrig & H). injection H as -> <-.
  assert (idle (view (db_world s5)) (db_hlc s5) s8) as Hi8.
  { eapply idle_Ok; [apply idle_trigger_all|done|]. eapply idle_Ok; [apply idle_tx_commit|done|].
    eapply idle_Ok; [apply idle_getChangedTables|done|]. done. }
  apply (preserves_ignore _ _ (idle_tx_rollback _ _ tx)) in Hi8 as (_ & Hv8 & Hk8).
  exists t, tx, content, s2', date, m, old, c. cbv zeta. rewrite Hnow', Hv8, Hk8, Hk5, Hcur'. simpl.
  rewrite Hcur in *. destruct Hi4 as (_ & Hv4 & Hk4). rewrite Hv4, Hv1 in Hold.
  split_and!; [done..| |done|done|done|done|done|].
  - unfold commit_inputs, bind. by rewrite Hnow, Htx, Hcontent.
  - intros js Hjs Hfree Hok. rewrite (Hmsg js Hjs Hfree). apply ParseCommitMetadata_Ok.
    split; [by apply Unmarshal_Marshal|]. apply (meta_Sign_kind signer _ _ Hsign).
Qed.

Definition toy_db : DB toy := mkDB toy_repo (mkClock (mkHLC 5 0 "k") "k") ["users_1"] [].

Lemma commit_carries_signed_metadata_witness :
  ∃ s', db_Commit (toy_signer "k") "hello" toy_db = (Ok (toy_hash 100), s') ∧
  ∃ t tx content s1 date m old c,
    let ts := (Now (UnixNano t) (db_hlc toy_db)).1 in
    let branch := current (db_world s1) tx in
    (time_now (db_world toy_db)).1 = Ok t ∧ db_hlc s' = (Now (UnixNano t) (db_hlc toy_db)).2 ∧
    commit_inputs toy_db = (Ok (tx, content), s1) ∧ (time_now (db_world s1)).1 = Ok date ∧
    meta_Sign (NewCommitMetadata "hello" ts content (GetID (toy_signer "k"))
                 (signer_email (GetID (toy_signer "k"))) date) (toy_signer "k") = Ok m ∧
    v_branches (view (db_world toy_db)) !! branch = Some old ∧
    v_branches (view (db_world s')) !! branch = Some (toy_hash 100) ∧
    v_commits (view (db_world s')) !! toy_hash 100 = Some (c, [old]) ∧
    ∀ js, Marshal m = Ok js → str_free "\" js → meta_ok m → ParseCommitMetadata (c_Message c) = Ok m.
Proof.
  exists (db_Commit (toy_signer "k") "hello" toy_db).2.
  assert (db_Commit (toy_signer "k") "hello" toy_db
    = (Ok (toy_hash 100), (db_Commit (toy_signer "k") "hello" toy_db).2)) as E
    by (rewrite (surjective_pairing (db_Commit (toy_signer "k") "hello" toy_db)) at 1;
        f_equal; vm_compute; reflexivity).
  split; [exact E|].
  exact (commit_carries_signed_metadata (toy_signer "k") "hello" (toy_hash 100) toy_db _ toy_repo_wf E).
Defined.

(** [EnsureSwarmRemote] does what it says: when it returns without error
    the remote [swarm] exists and points at the URL of the repository, whether
    it was missing, stale or already right; it never moves a branch. *)
Theorem EnsureSwarmRemote_sets {St W} `{D : Dolt W, !DoltLaws W} `{HW : HasWorld St W}
    (repo : RepoID) (s : St)
  (Hw : wf_world (get_world s)) (Hurl : str_free "\" (swarm_url repo)) :
  let '(res, s') := EnsureSwarmRemote repo s in
  v_branches (view (get_world s')) = v_branches (view (get_world s)) ∧
  match res with
  | Ok _ => v_remotes (view (get_world s')) !! "swarm" = Some (swarm_url repo)
  | Err _ => True
  | Panic _ => False
  end.
Proof.
  pose proof (holds_EnsureSwarmRemote repo s Hw Hurl) as H. unfold holds in H.
  destruct (EnsureSwarmRemote repo s) as [res s']. by destruct H.
Qed.

Lemma EnsureSwarmRemote_sets_witness :
  let '(res, s') := EnsureSwarmRemote (mkRepo "org" "repo") toy_db in
  v_branches (view (get_world s')) = v_branches (view (get_world toy_db)) ∧
  match res with
  | Ok _ => v_remotes (view (get_world s')) !! "swarm" = Some (swarm_url (mkRepo "org" "repo"))
  | Err _ => True
  | Panic _ => False
  end.
Proof.
  pose proof (EnsureSwarmRemote_sets (St:=DB toy) (W:=toy) (mkRepo "org" "repo") toy_db) as H.
  apply H; [exact toy_repo_wf|]. vm_compute. repeat split; discriminate.
Defined.
