(* ===== verification/Node.v ===== *)
(** * The node ([core/node.go])

    A node joins the gossip of a swarm: it indexes the commits that peers
    advertise, tracks the clocks of peers, finalizes what every peer has moved
    past, and synchronizes [main] with the swarm remote.  Each handler is one
    function over the state [Node]; the mutexes of the code make [syncOnce]
    and the commits atomic with respect to each other. *)

From Stdlib Require Import ZArith Lia String Ascii.
From stdpp Require Import gmap strings list sorting pretty.
From S2P Require Import Prelude Hlc GoTime GoJson GoJsonFacts Metadata Sql Index Linearize Dolt ToyDolt Reconciler.
From S2P Require Import Walk Replay Db.

Local Open Scope Z_scope.

(** ** Configuration *)

(** [NodeConfig] as the caller fills it: a pointer or interface that may be
    nil is an option; durations are nanoseconds.  [in_HasDB] tells whether an
    open database was passed. *)
Record NodeConfigIn := mkConfigIn {
  in_Dir : string;
  in_Repo : RepoID;
  in_Signer : option Signer;
  in_Transport : option (bool * bool);   (* Gossip() != nil, Providers() != nil *)
  in_HasDB : bool;
  in_MaxClockSkew : Z;
  in_RepairInterval : Z;
  in_Identity : option (string → result string);
  in_HeartbeatInterval : Z;
}.

(** What [OpenNode] works with once the checks have passed. *)
Record NodeConfig := mkConfig {
  cfg_Repo : RepoID;
  cfg_Signer : Signer;
  cfg_Gossip : bool;
  cfg_MaxClockSkew : Z;
  cfg_RepairInterval : Z;
  cfg_Identity : option (string → result string);
  cfg_HeartbeatInterval : Z;
}.

Definition second : Z := 1000000000.
Definition or_default (d def : Z) : Z := if d =? 0 then def else d.

(** The checks of [OpenNode], in the order of the code, and the defaults. *)
Definition OpenNode_config (cfg : NodeConfigIn) : result NodeConfig :=
  if String.eqb (RepoName (in_Repo cfg)) "" then Err "Repo is required" else
  match in_Signer cfg with
  | None => Err "Signer is required"
  | Some signer =>
      match in_Transport cfg with
      | None => Err "Transport is required"
      | Some (gossip, providers) =>
          if negb providers then Err "Transport.Providers is required" else
          if negb (in_HasDB cfg) && String.eqb (in_Dir cfg) "" then Err "Dir is required" else
          Ok (mkConfig (in_Repo cfg) signer gossip
                (or_default (in_MaxClockSkew cfg) MaxClockSkew)
                (or_default (in_RepairInterval cfg) (30 * second))
                (in_Identity cfg)
                (or_default (in_HeartbeatInterval cfg) (5 * second)))
      end
  end.

(** ** State *)

(** Messages handed to the gossip transport. *)
Inductive gossip_msg :=
| MsgCommitAd (ad : CommitAdV1)
| MsgHeartbeat (hb : HeartbeatV1).

Record GossipEvent := mkEvent {
  ev_From : string;
  ev_CommitAd : option CommitAdV1;
  ev_Heartbeat : option HeartbeatV1;
}.

Record Node (W : Type) := mkNode {
  n_db : DB W;
  n_idx : MemoryCommitIndex;
  n_peerHLC : gmap string HLCTimestamp;
  n_outbox : list gossip_msg;
  n_trigger : bool;                 (* the channel [trigger], of capacity one *)
}.
Arguments mkNode {W} n_db n_idx n_peerHLC n_outbox n_trigger.
Arguments n_db {W} _.
Arguments n_idx {W} _.
Arguments n_peerHLC {W} _.
Arguments n_outbox {W} _.
Arguments n_trigger {W} _.

Section node.
Context {W : Type} `{D : Dolt W} `{R : GoRuntime} (cfg : NodeConfig).

Definition with_db (d : DB W) (n : Node W) : Node W :=
  mkNode d (n_idx n) (n_peerHLC n) (n_outbox n) (n_trigger n).
Definition with_idx (i : MemoryCommitIndex) (n : Node W) : Node W :=
  mkNode (n_db n) i (n_peerHLC n) (n_outbox n) (n_trigger n).
Definition with_peerHLC (p : gmap string HLCTimestamp) (n : Node W) : Node W :=
  mkNode (n_db n) (n_idx n) p (n_outbox n) (n_trigger n).
Definition with_trigger (b : bool) (n : Node W) : Node W :=
  mkNode (n_db n) (n_idx n) (n_peerHLC n) (n_outbox n) b.

#[export] Instance Node_world : HasWorld (Node W) W := {
  get_world n := db_world (n_db n);
  set_world w n := with_db (set_world w (n_db n)) n;
  get_set_world _ _ := eq_refl;
}.

Definition on_db {A} (m : M (DB W) A) : M (Node W) A := λ n,
  let '(r, d) := m (n_db n) in (r, with_db d n).

(** [idx.Upsert(ctx, e)]: the clock is read for entries without [UpdatedAt]. *)
Definition Upsert (e : CommitIndexEntry) : M (Node W) unit :=
  let* now := lift time_now in
  modify (λ n, with_idx (mem_Upsert now e (n_idx n)) n).

(** [Upsert] of an entry with [UpdatedAt: time.Now()]. *)
Definition UpsertStatus (hlc : HLCTimestamp) (commitHash : string) (st : CommitStatus) : M (Node W) unit :=
  let* now := lift time_now in
  Upsert (mkEntry hlc commitHash st zero_time now).

(** [rec.GetHLC().Update(remote)] *)
Definition hlc_Update (remote : HLCTimestamp) : M (Node W) unit :=
  let* t := lift time_now in
  modify (λ n, with_db (mkDB (db_world (n_db n)) (Update (UnixNano t) remote (db_hlc (n_db n)))
                          (db_callbacks (n_db n)) (db_notified (n_db n))) n).

Definition publish (m : gossip_msg) : M (Node W) unit :=
  modify (λ n, mkNode (n_db n) (n_idx n) (n_peerHLC n) (n_outbox n ++ [m]) (n_trigger n)).

Definition requestSync : M (Node W) unit := modify (with_trigger true).

(** A node that was just opened on a database. *)
Definition new_node (db : DB W) : Node W := mkNode db NewMemoryCommitIndex ∅ [] false.

(** ** Rejected commits *)

Definition rejected_hook : CommitRejectedCallback (Node W) := λ ad _,
  if IsZero (ca_HLC ad) then ret tt
  else UpsertStatus (ca_HLC ad) (ca_CommitHash ad) CommitStatusRejected.

Definition installReconcilerHooks (r : Reconciler (Node W)) : Reconciler (Node W) :=
  setCommitRejectedInternalHook rejected_hook r.

(** ** Local commits *)

Definition publishLocalCommitAd (commitHash : string) : M (Node W) unit :=
  if negb (cfg_Gossip cfg) then ret tt else
  let* r := attempt (GetLastUserCommit "main") in
  match r with
  | Ok (head, meta) =>
      if negb (String.eqb (c_Hash head) commitHash) then ret tt else
      if negb (String.eqb (Kind meta) CommitKindUser) then ret tt else
      UpsertStatus (meta_HLC meta) (c_Hash head) CommitStatusApplied ;;*
      let* now := lift time_now in
      publish (MsgCommitAd (mkAd (cfg_Repo cfg) (meta_HLC meta) (c_Message head) (Signature meta) now))
  | Panic e => panic e
  | Err _ => ret tt
  end.

Definition node_Commit (msg : string) : M (Node W) string :=
  let* commitHash := on_db (db_Commit (cfg_Signer cfg) msg) in
  publishLocalCommitAd commitHash ;;* ret commitHash.

Definition node_ExecAndCommit (exec : conn → M (DB W) unit) (msg : string) : M (Node W) string :=
  let* commitHash := on_db (db_ExecAndCommit (cfg_Signer cfg) exec msg) in
  publishLocalCommitAd commitHash ;;* ret commitHash.

(** ** Heartbeats and finalization *)

Definition publishHeartbeat : M (Node W) unit :=
  if negb (cfg_Gossip cfg) then ret tt else
  let* ts := on_db hlc_Now in
  publish (MsgHeartbeat (mkHeartbeat (cfg_Repo cfg) ts (GetID (cfg_Signer cfg)))).

(** The entry of a peer becomes the later of the two. *)
Definition track_peer (peer : string) (hlc : HLCTimestamp) (m : gmap string HLCTimestamp) :
    gmap string HLCTimestamp :=
  match m !! peer with
  | Some cur => if Less cur hlc then <[peer := hlc]> m else m
  | None => <[peer := hlc]> m
  end.

Definition onHeartbeat (from : string) (hb : HeartbeatV1) : M (Node W) unit :=
  if negb (bool_decide (hb_Repo hb = cfg_Repo cfg)) then ret tt else
  if String.eqb (hb_PeerID hb) (GetID (cfg_Signer cfg)) then ret tt else
  modify (λ n, with_peerHLC (track_peer (hb_PeerID hb) (hb_HLC hb) (n_peerHLC n)) n) ;;*
  hlc_Update (hb_HLC hb).

(** The loop that computes [stableHLC]: the flag [first] and the minimum. *)
Definition min_step (acc : bool * HLCTimestamp) (hlc : HLCTimestamp) : bool * HLCTimestamp :=
  if acc.1 || Less hlc acc.2 then (false, hlc) else acc.
Definition stable_hlc (m : gmap string HLCTimestamp) : HLCTimestamp :=
  (foldl min_step (true, zero_HLC) (range_map (map snd (map_to_list m)))).2.

(** One iteration of the search for [bestEntry]. *)
Definition best_step (stableHLC : HLCTimestamp) (base : option FinalizedBase)
    (best : option CommitIndexEntry) (e : CommitIndexEntry) : option CommitIndexEntry :=
  if negb (bool_decide (e_Status e = CommitStatusApplied)) then best
  else if negb (Less (e_HLC e) stableHLC) then best
  else if match base with Some b => negb (Less (fb_HLC b) (e_HLC e)) | None => false end then best
  else match best with
       | None => Some e
       | Some b => if Less (e_HLC b) (e_HLC e) then Some e else best
       end.

Definition tryFinalize : M (Node W) unit :=
  let* n := gets id in
  if bool_decide (n_peerHLC n = ∅) then ret tt else
  let stableHLC := stable_hlc (n_peerHLC n) in
  if IsZero stableHLC then ret tt else
  let entries := mem_ListAfter zero_HLC 0 (n_idx n) in
  let base := mem_FinalizedBase (n_idx n) in
  match foldl (best_step stableHLC base) None entries with
  | None => ret tt
  | Some best =>
      let* now := lift time_now in
      modify (λ n, with_idx (mem_SetFinalizedBase now (mkBase (e_HLC best) (e_CommitHash best) now)
                               (n_idx n)) n)
  end.

(** ** Commit advertisements *)

Definition onCommitAd (from : string) (ad : CommitAdV1) : M (Node W) unit :=
  if negb (bool_decide (ad_Repo ad = cfg_Repo cfg)) then ret tt else
  let reject := UpsertStatus (ad_HLC ad) "" CommitStatusRejected in
  let* n := gets id in
  let decided :=
    match mem_Get (ad_HLC ad) (n_idx n) with
    | Some e => bool_decide (e_Status e = CommitStatusApplied)
                || bool_decide (e_Status e = CommitStatusRejected)
    | None => false
    end in
  if decided then ret tt else
  if String.eqb (PeerID (ad_HLC ad)) (GetID (cfg_Signer cfg)) then ret tt else
  let* now := lift time_now in
  if (0 <? cfg_MaxClockSkew cfg) && (wrap64 (UnixNano now + cfg_MaxClockSkew cfg) <? Wall (ad_HLC ad))
  then reject else
  match ParseCommitMetadata (MetadataJSON ad) with
  | Ok meta =>
      if negb (String.eqb (Kind meta) CommitKindUser) then ret tt else
      if negb (Equal (meta_HLC meta) (ad_HLC ad)) then reject else
      if negb (String.eqb (MetadataSig ad) "") && negb (String.eqb (Signature meta) (MetadataSig ad))
      then reject else
      let verified :=
        match cfg_Identity cfg with
        | None => true
        | Some resolver =>
            match resolver (PeerID (ad_HLC ad)) with
            | Ok pub => negb (String.eqb pub "") && is_ok (meta_Verify meta (cfg_Signer cfg) pub)
            | _ => false
            end
        end in
      if negb verified then reject else
      hlc_Update (ad_HLC ad) ;;*
      UpsertStatus (ad_HLC ad) "" CommitStatusPending ;;*
      requestSync
  | _ => ret tt
  end.

(** ** Rebuilding the index *)

Definition index_commit (c : Commit) : M (Node W) unit :=
  match ParseCommitMetadata (c_Message c) with
  | Ok meta =>
      if negb (String.eqb (Kind meta) CommitKindUser) then ret tt
      else UpsertStatus (meta_HLC meta) (c_Hash c) CommitStatusApplied
  | _ => ret tt
  end.

Definition restore_entry (e : CommitIndexEntry) : M (Node W) unit :=
  let* n := gets id in
  match mem_Get (e_HLC e) (n_idx n) with
  | Some cur => if bool_decide (e_Status cur = CommitStatusApplied) then ret tt else Upsert e
  | None => Upsert e
  end.

Fixpoint for_each {A} (f : A → M (Node W) unit) (l : list A) : M (Node W) unit :=
  match l with
  | [] => ret tt
  | x :: l => f x ;;* for_each f l
  end.

Definition initIndexFromDB (fuel : nat) : M (Node W) unit :=
  let* n := gets id in
  let preserved :=
    List.filter (λ e, negb (bool_decide (e_Status e = CommitStatusApplied))
                      && negb (bool_decide (e_Status e = CommitStatusUnknown)))
      (mem_ListAfter zero_HLC 0 (n_idx n)) in
  modify (λ n, with_idx (resetForRebuild (n_idx n)) n) ;;*
  let* commits := GetAllCommits fuel in
  for_each index_commit commits ;;*
  for_each restore_entry preserved.

(** ** Synchronization *)

Definition tmp_name (prefix : string) (t : Time) : string := prefix +:+ pretty (UnixNano t).

Definition tryFastForward (targetHash : string) : M (Node W) bool :=
  let* c := lift open_conn in
  deferred
    (let* t := lift time_now in
     let tmp := tmp_name "swarm_ff_" t in
     lift (exec c (DoltCheckout "main")) ;;*
     lift (exec c (DoltBranchForce tmp targetHash)) ;;*
     deferred
       (lift (exec c (DoltMergeFFOnly tmp)) ;;* ret true)
       (ignore (lift (exec c (DoltCheckout "main"))) ;;*
        ignore (lift (exec c (DoltBranchDelete tmp)))))
    (ignore (lift (close_conn c))).

Definition forceResetMainTo (targetHash : string) : M (Node W) unit :=
  let* c := lift open_conn in
  deferred
    (let* t := lift time_now in
     let tmp := tmp_name "swarm_bootstrap_" t in
     lift (exec c (DoltBranchForce tmp targetHash)) ;;*
     deferred
       (lift (exec c (DoltCheckout "main")) ;;*
        lift (exec c (DoltResetHard tmp)))
       (ignore (lift (exec c (DoltCheckout "main"))) ;;*
        ignore (lift (exec c (DoltBranchDelete tmp)))))
    (ignore (lift (close_conn c))).

Definition remoteRef : string := "remotes/swarm/main".

Definition syncOnce (r : Reconciler (Node W)) (fuel : nat) : M (Node W) bool :=
  EnsureSwarmRemote (cfg_Repo cfg) ;;*
  FetchSwarm ;;*
  let* remoteHead := GetBranchHead remoteRef in
  if negb remoteHead.2 then ret false else
  let* mergeBase := MergeBase "main" remoteRef in
  if String.eqb mergeBase "" then
    forceResetMainTo remoteHead.1 ;;*
    ignore (initIndexFromDB fuel) ;;*
    ret true
  else
    let* imported := getCommitsSince fuel pool remoteRef mergeBase in
    match imported with
    | [] => ret false
    | _ =>
        let* n := gets id in
        let fb := mem_FinalizedBase (n_idx n) in
        let* ff := attempt (tryFastForward remoteHead.1) in
        match ff with
        | Ok true => ignore (initIndexFromDB fuel) ;;* ret true
        | _ =>
            let* _ := ReplayImportedCommits r fuel mergeBase imported fb in
            ignore (initIndexFromDB fuel) ;;*
            ret true
        end
    end.

(** The hash of the last user commit, when there is one. *)
Definition last_user_hash : M (Node W) (option string) :=
  let* r := attempt (GetLastUserCommit "main") in
  match r with
  | Ok p => ret (Some (c_Hash p.1))
  | Err _ => ret None
  | Panic e => panic e
  end.

Definition SyncHint (r : Reconciler (Node W)) (fuel : nat) (hint : HLCTimestamp) : M (Node W) bool :=
  let* before := last_user_hash in
  let* _ := syncOnce r fuel in
  let* after := last_user_hash in
  ret (match before, after with
       | Some b, Some a => negb (String.eqb b "") && negb (String.eqb b a)
       | _, _ => false
       end).

Definition Sync (r : Reconciler (Node W)) (fuel : nat) : M (Node W) bool := SyncHint r fuel zero_HLC.

(** ** The event loop

    The cases of the [select] statement of [Run] that handle something; a
    handler runs to completion before the next case is chosen. *)

Inductive run_event :=
| EvHeartbeatTick
| EvRepairTick
| EvGossip (evt : GossipEvent).

Definition option_run {A} (f : A → M (Node W) unit) (o : option A) : M (Node W) unit :=
  match o with Some a => f a | None => ret tt end.

Definition handle (e : run_event) : M (Node W) unit :=
  match e with
  | EvHeartbeatTick => publishHeartbeat ;;* tryFinalize
  | EvRepairTick => requestSync
  | EvGossip evt =>
      option_run (onCommitAd (ev_From evt)) (ev_CommitAd evt) ;;*
      option_run (onHeartbeat (ev_From evt)) (ev_Heartbeat evt)
  end.
End node.
