(* ===== verification/NodeFacts.v ===== *)
(** * Finalization, advertisements and the index of a node
    ([core/node.go]: [tryFinalize], [onCommitAd], [onHeartbeat], [Run]) *)

From Stdlib Require Import ZArith Lia String Ascii.
From stdpp Require Import gmap strings list sorting pretty.
From S2P Require Import Prelude Hlc GoTime GoJson GoJsonFacts Metadata Sql Index Linearize Dolt ToyDolt Reconciler.
From S2P Require Import Walk Replay Db Node.

Local Open Scope Z_scope.

(** ** The stable timestamp is the minimum over the peers *)

Lemma min_fold_false l acc :
  ((foldl min_step (false, acc) l).2 = acc ∨ (foldl min_step (false, acc) l).2 ∈ l) ∧
  hlc_le (foldl min_step (false, acc) l).2 acc ∧
  ∀ h, h ∈ l → hlc_le (foldl min_step (false, acc) l).2 h.
Proof.
  revert acc. induction l as [|x l IH]; intros acc; cbn [foldl].
  - cbn. split; [by left|]. split; [apply hlc_le_refl|]. intros h Hh. by apply not_elem_of_nil in Hh.
  - change (min_step (false, acc) x) with (if Less x acc then (false, x) else (false, acc)).
    destruct (Less x acc) eqn:E.
    + apply Less_spec in E. destruct (IH x) as (Hin & Hle & Hall). split_and!.
      * right. destruct Hin as [->|?]; set_solver.
      * eapply hlc_le_trans; [done|]. by left.
      * intros h [->|Hh]%elem_of_cons; auto.
    + apply Less_false, hlc_nlt_le in E. destruct (IH acc) as (Hin & Hle & Hall). split_and!.
      * destruct Hin as [->|?]; [by left|right; set_solver].
      * done.
      * intros h [->|Hh]%elem_of_cons; [by eapply hlc_le_trans|auto].
Qed.

Lemma elem_of_peer_values `{R : GoRuntime} (m : gmap string HLCTimestamp) h :
  h ∈ range_map (map snd (map_to_list m)) ↔ ∃ p, m !! p = Some h.
Proof.
  rewrite elem_of_range_map. change (map snd ?l) with (snd <$> l). rewrite list_elem_of_fmap. split.
  - intros ([p h'] & -> & Hin). exists p. by apply elem_of_map_to_list.
  - intros [p Hp]. exists (p, h). split; [done|]. by apply elem_of_map_to_list.
Qed.

Lemma stable_hlc_min `{R : GoRuntime} (m : gmap string HLCTimestamp) :
  m ≠ ∅ → (∃ p, m !! p = Some (stable_hlc m)) ∧ ∀ p h, m !! p = Some h → hlc_le (stable_hlc m) h.
Proof.
  intros Hm. unfold stable_hlc.
  destruct (map_choose m Hm) as (p0 & h0 & Hp0).
  pose proof (elem_of_peer_values m) as Hv.
  destruct (range_map (map snd (map_to_list m))) as [|x l] eqn:E.
  { exfalso. apply (not_elem_of_nil h0), Hv. eauto. }
  cbn [foldl]. change (min_step (true, zero_HLC) x) with (false, x).
  destruct (min_fold_false l x) as (Hin & Hle & Hall). split.
  - apply Hv. destruct Hin as [->|?]; set_solver.
  - intros p h Hp. assert (h ∈ x :: l) as [->|Hh]%elem_of_cons by (apply Hv; eauto); auto.
Qed.

(** ** The best entry *)

(** The conditions that [tryFinalize] puts on an entry. *)
Definition candidate_entry (stableHLC : HLCTimestamp) (base : option FinalizedBase)
    (e : CommitIndexEntry) : Prop :=
  e_Status e = CommitStatusApplied ∧ hlc_lt (e_HLC e) stableHLC ∧
  ∀ b, base = Some b → hlc_lt (fb_HLC b) (e_HLC e).

Lemma best_step_spec st base best e :
  best_step st base best e = best ∧ (candidate_entry st base e → ∃ b, best = Some b ∧ hlc_le (e_HLC e) (e_HLC b)) ∨
  best_step st base best e = Some e ∧ candidate_entry st base e ∧
    (∀ b, best = Some b → hlc_lt (e_HLC b) (e_HLC e)).
Proof.
  unfold best_step, candidate_entry. case_bool_decide as Hs; cbn [negb]; [|left; naive_solver].
  destruct (Less (e_HLC e) st) eqn:Hl; cbn [negb].
  2:{ left. split; [done|]. intros (_ & Hl' & _). apply Less_spec in Hl'. congruence. }
  apply Less_spec in Hl. destruct base as [b|].
  - destruct (Less (fb_HLC b) (e_HLC e)) eqn:Hb; cbn [negb].
    2:{ left. split; [done|]. intros (_ & _ & Hb'). specialize (Hb' b eq_refl).
        apply Less_spec in Hb'. congruence. }
    apply Less_spec in Hb. destruct best as [bb|]; [|right; naive_solver].
    destruct (Less (e_HLC bb) (e_HLC e)) eqn:Hbb; [apply Less_spec in Hbb; right; naive_solver|].
    left. apply Less_false, hlc_nlt_le in Hbb. split; [done|]. eauto.
  - destruct best as [bb|]; [|right; naive_solver].
    destruct (Less (e_HLC bb) (e_HLC e)) eqn:Hbb; [apply Less_spec in Hbb; right; naive_solver|].
    left. apply Less_false, hlc_nlt_le in Hbb. split; [done|]. eauto.
Qed.

(** The search finds the candidate with the highest timestamp. *)
Definition best_ok (st : HLCTimestamp) (base : option FinalizedBase) (l : list CommitIndexEntry)
    (best : option CommitIndexEntry) : Prop :=
  match best with
  | Some b => b ∈ l ∧ candidate_entry st base b ∧
      ∀ e, e ∈ l → candidate_entry st base e → hlc_le (e_HLC e) (e_HLC b)
  | None => ∀ e, e ∈ l → ¬ candidate_entry st base e
  end.

Lemma best_fold st base l : best_ok st base l (foldl (best_step st base) None l).
Proof.
  induction l as [|x l IH] using rev_ind.
  { intros e He. by apply not_elem_of_nil in He. }
  rewrite foldl_snoc. set (b := foldl _ _ _) in *.
  destruct (best_step_spec st base b x) as [[-> Hx]|(-> & Hc & Hlt)].
  - destruct b as [b|]; simpl in *.
    + destruct IH as (Hin & Hb & Hmax). split_and!; [set_solver|done|].
      intros e [He| ->%list_elem_of_singleton]%elem_of_app Hce; [auto|].
      destruct (Hx Hce) as (b' & [= <-] & ?). done.
    + intros e [He| ->%list_elem_of_singleton]%elem_of_app Hce; [by eapply IH|].
      destruct (Hx Hce) as (b' & ? & ?). done.
  - simpl. split_and!; [set_solver|done|].
    intros e [He| ->%list_elem_of_singleton]%elem_of_app Hce; [|apply hlc_le_refl].
    destruct b as [b|]; simpl in IH; [|by destruct (IH e He)].
    left. eapply hlc_le_lt_trans; [by apply IH|]. by apply Hlt.
Qed.

(** ** Finalization *)

(** An entry that may become the finalized base: applied here, behind the
    clock of every tracked peer, and ahead of the current base. *)
Definition finalizable {W} (n : Node W) (e : CommitIndexEntry) : Prop :=
  mem_Get (e_HLC e) (n_idx n) = Some e ∧ hlc_lt zero_HLC (e_HLC e) ∧
  e_Status e = CommitStatusApplied ∧
  (∀ p h, n_peerHLC n !! p = Some h → hlc_lt (e_HLC e) h) ∧
  (∀ b, mem_FinalizedBase (n_idx n) = Some b → hlc_lt (fb_HLC b) (e_HLC e)).

Section finalize.
Context {W : Type} `{D : Dolt W, !DoltLaws W} `{R : GoRuntime}.

Lemma run_time (n : Node W) {A} (k : Time → M (Node W) A) :
  ∃ t w, (let* t := lift time_now in k t) n = k t (set_world w n).
Proof.
  unfold bind, lift. pose proof (time_ok (get_world n)) as Hok.
  destruct (time_now (get_world n)) as [[t|e|e] w]; [|done..]. by exists t, w.
Qed.

Lemma finalizable_candidate (n : Node W) e :
  mem_inv (n_idx n) → n_peerHLC n ≠ ∅ →
  finalizable n e ↔ e ∈ mem_ListAfter zero_HLC 0 (n_idx n) ∧
    candidate_entry (stable_hlc (n_peerHLC n)) (mem_FinalizedBase (n_idx n)) e.
Proof.
  intros Hi Hp. destruct (stable_hlc_min (n_peerHLC n) Hp) as [[p0 Hp0] Hmin].
  rewrite mem_ListAfter_0, elem_of_mem_listing by done. unfold finalizable, candidate_entry.
  split; [naive_solver|]. intros ([Hg Hz] & Hs & Hl & Hb). split_and!; [done..| |done].
  intros p h Hph. eapply hlc_lt_le_trans; [done|]. by eapply Hmin.
Qed.

Definition set_base (best : CommitIndexEntry) : M (Node W) unit :=
  let* now := lift time_now in
  modify (λ n, with_idx (mem_SetFinalizedBase now (mkBase (e_HLC best) (e_CommitHash best) now)
                           (n_idx n)) n).

Lemma tryFinalize_eq (n : Node W) :
  tryFinalize n =
    (if bool_decide (n_peerHLC n = ∅) then ret tt
     else if IsZero (stable_hlc (n_peerHLC n)) then ret tt
     else match foldl (best_step (stable_hlc (n_peerHLC n)) (mem_FinalizedBase (n_idx n))) None
                  (mem_ListAfter zero_HLC 0 (n_idx n)) with
          | None => ret tt
          | Some best => set_base best
          end) n.
Proof. done. Qed.

Lemma tryFinalize_cases (n : Node W) :
  mem_inv (n_idx n) →
  (∃ e, n_peerHLC n ≠ ∅ ∧ finalizable n e ∧
     (∀ e', finalizable n e' → hlc_le (e_HLC e') (e_HLC e)) ∧
     ∃ t w, tryFinalize n = (Ok tt, with_idx (mkMemIndex (entries (n_idx n))
              (Some (stamp_base t (mkBase (e_HLC e) (e_CommitHash e) t)))) (set_world w n))) ∨
  ((n_peerHLC n = ∅ ∨ ∀ e, ¬ finalizable n e) ∧ tryFinalize n = (Ok tt, n)).
Proof.
  intros Hi. rewrite tryFinalize_eq.
  case_bool_decide as Hp; [right; split; [by left|done]|].
  pose proof (finalizable_candidate n) as Hfc.
  pose proof (best_fold (stable_hlc (n_peerHLC n)) (mem_FinalizedBase (n_idx n))
    (mem_ListAfter zero_HLC 0 (n_idx n))) as Hbest.
  destruct (IsZero (stable_hlc (n_peerHLC n))) eqn:Hz.
  { right. split; [right|done]. intros e He. apply IsZero_spec in Hz.
    destruct (stable_hlc_min (n_peerHLC n) Hp) as [[p Hp'] _]. destruct He as (_ & H0 & _ & Hall & _).
    specialize (Hall p _ Hp'). rewrite Hz in Hall. by eapply (hlc_lt_asym (e_HLC e)). }
  destruct (foldl _ _ _) as [best|].
  - left. destruct Hbest as (Hin & Hc & Hmax). exists best. split_and!; [done|by apply Hfc| |].
    + intros e' [He Hce]%Hfc; auto.
    + unfold set_base. destruct (run_time n (λ now, modify (λ n, with_idx (mem_SetFinalizedBase now
        (mkBase (e_HLC best) (e_CommitHash best) now) (n_idx n)) n))) as (t & w & E).
      exists t, w. rewrite E. unfold modify. do 2 f_equal. unfold mem_SetFinalizedBase.
      cbn [n_idx with_idx set_world Node_world with_db fb_HLC].
      destruct (finalizedBase (n_idx n)) as [b|] eqn:Eb; [|done].
      destruct Hc as (_ & _ & Hbase). specialize (Hbase b Eb).
      assert (Less (e_HLC best) (fb_HLC b) || Equal (e_HLC best) (fb_HLC b) = false) as ->; [|done].
      apply orb_false_iff. split; [by apply Less_false, hlc_lt_asym|].
      destruct (Equal _ _) eqn:Eq; [|done]. apply Equal_spec in Eq. rewrite Eq in Hbase.
      by apply hlc_lt_irrefl in Hbase.
  - right. split; [right|done]. intros e [He Hce]%Hfc; [by eapply Hbest|done|done].
Qed.
End finalize.

(** C18. Finalization is exactly the stable-minimum rule: with peers tracked,
    [tryFinalize] moves the base to the applied commit with the highest
    timestamp among those behind every tracked peer and ahead of the base, and
    leaves the index alone when there is none. *)
Theorem tryFinalize_exact {W} `{D : Dolt W, !DoltLaws W} `{R : GoRuntime} (n : Node W)
  (Hi : mem_inv (n_idx n)) :
  let '(res, n') := tryFinalize n in
  res = Ok tt ∧ entries (n_idx n') = entries (n_idx n) ∧
  (∀ e, n_peerHLC n ≠ ∅ → finalizable n e →
     (∀ e', finalizable n e' → hlc_le (e_HLC e') (e_HLC e)) →
     ∃ b, mem_FinalizedBase (n_idx n') = Some b ∧ fb_HLC b = e_HLC e ∧
          fb_CommitHash b = e_CommitHash e) ∧
  ((n_peerHLC n = ∅ ∨ ∀ e, ¬ finalizable n e) → n' = n).
Proof.
  destruct (tryFinalize_cases n Hi) as [(e & Hp & He & Hmax & t & w & ->)|(Hno & ->)].
  - split; [done|]. split; [done|]. split; [|by intros [?|Hn]; [|destruct (Hn e)]].
    intros e' _ He' Hmax'. eexists. split; [done|]. rewrite stamp_base_HLC, stamp_base_CommitHash.
    assert (e' = e) as ->; [|done].
    assert (e_HLC e' = e_HLC e) as E.
    { destruct (Hmax e' He') as [Hlt|?]; [|done]. destruct (Hmax' e He) as [Hlt'|?]; [|done].
      by destruct (hlc_lt_asym _ _ Hlt). }
    destruct He as (Hg & _), He' as (Hg' & _). rewrite E in Hg'. congruence.
  - split; [done|]. split; [done|]. split; [|done]. intros e Hp He.
    destruct Hno as [?|Hn]; [done|by destruct (Hn e)].
Qed.

(** ** Advertisements *)

Definition status_of {W} (h : HLCTimestamp) (n : Node W) : option CommitStatus :=
  e_Status <$> mem_Get h (n_idx n).

Definition is_decided {W} (h : HLCTimestamp) (n : Node W) : Prop :=
  status_of h n = Some CommitStatusApplied ∨ status_of h n = Some CommitStatusRejected.

(** The timestamp is not ahead of the clock by more than the allowed skew. *)
Definition in_skew (cfg : NodeConfig) (t : Time) (ad : CommitAdV1) : Prop :=
  0 < cfg_MaxClockSkew cfg → Wall (ad_HLC ad) ≤ wrap64 (UnixNano t + cfg_MaxClockSkew cfg).

(** What an advertisement received at time [t] must satisfy to be accepted:
    its timestamp is not too far ahead, its metadata parses to a user commit
    with the same timestamp and signature, and the signature verifies with
    the key of the peer that the timestamp names. *)
Definition authentic (cfg : NodeConfig) (t : Time) (ad : CommitAdV1) : Prop :=
  in_skew cfg t ad ∧
  ∃ meta, ParseCommitMetadata (MetadataJSON ad) = Ok meta ∧
    meta_HLC meta = ad_HLC ad ∧
    (MetadataSig ad = "" ∨ Signature meta = MetadataSig ad) ∧
    ∀ resolver, cfg_Identity cfg = Some resolver →
      ∃ pub, resolver (PeerID (ad_HLC ad)) = Ok pub ∧ pub ≠ "" ∧
             is_ok (meta_Verify meta (cfg_Signer cfg) pub) = true.

(** The parts of a node that a handler leaves alone. *)
Definition same_node {W} (n n' : Node W) : Prop :=
  n_idx n' = n_idx n ∧ db_hlc (n_db n') = db_hlc (n_db n) ∧ n_trigger n' = n_trigger n ∧
  n_peerHLC n' = n_peerHLC n ∧ n_outbox n' = n_outbox n.

Section ads.
Context {W : Type} `{D : Dolt W, !DoltLaws W} `{R : GoRuntime} (cfg : NodeConfig).

(** The index after an upsert for [h], everything else as before. *)
Definition upserted (h : HLCTimestamp) (st : CommitStatus) (n n' : Node W) : Prop :=
  status_of h n' = Some st ∧
  (∀ h', h' ≠ h → mem_Get h' (n_idx n') = mem_Get h' (n_idx n)) ∧
  mem_FinalizedBase (n_idx n') = mem_FinalizedBase (n_idx n) ∧
  db_hlc (n_db n') = db_hlc (n_db n) ∧ n_trigger n' = n_trigger n ∧
  n_peerHLC n' = n_peerHLC n ∧ n_outbox n' = n_outbox n.

Lemma run_UpsertStatus h hash st (n : Node W) :
  ∃ n', UpsertStatus h hash st n = (Ok tt, n') ∧ upserted h st n n'.
Proof.
  unfold UpsertStatus. destruct (run_time n (λ now, Upsert (mkEntry h hash st zero_time now)))
    as (t & w & ->). unfold Upsert.
  destruct (run_time (set_world w n) (λ now, modify (λ n, with_idx (mem_Upsert now
    (mkEntry h hash st zero_time t) (n_idx n)) n))) as (t' & w' & ->).
  eexists. split; [done|]. unfold upserted, status_of. cbn [n_idx with_idx].
  split_and!; try done.
  - rewrite mem_Get_Upsert. cbn [e_HLC]. rewrite decide_True by done. cbn.
    by rewrite stamp_entry_Status.
  - intros h' Hne. rewrite mem_Get_Upsert. cbn [e_HLC]. by rewrite decide_False.
Qed.

Lemma run_hlc_Update remote (n : Node W) :
  ∃ t n', hlc_Update remote n = (Ok tt, n') ∧ db_hlc (n_db n') = Update t remote (db_hlc (n_db n)) ∧
    n_idx n' = n_idx n ∧ n_trigger n' = n_trigger n ∧ n_peerHLC n' = n_peerHLC n ∧
    n_outbox n' = n_outbox n.
Proof.
  unfold hlc_Update. destruct (run_time n (λ t, modify (λ n, with_db (mkDB (db_world (n_db n))
    (Update (UnixNano t) remote (db_hlc (n_db n))) (db_callbacks (n_db n)) (db_notified (n_db n))) n)))
    as (t & w & ->).
  by eexists (UnixNano t), _.
Qed.

(** The decision of the handler, once the clock has been read. *)
Definition ad_verdict (t : Time) (ad : CommitAdV1) : option bool :=
  if (0 <? cfg_MaxClockSkew cfg) && (wrap64 (UnixNano t + cfg_MaxClockSkew cfg) <? Wall (ad_HLC ad))
  then Some false else
  match ParseCommitMetadata (MetadataJSON ad) with
  | Ok meta =>
      if negb (String.eqb (Kind meta) CommitKindUser) then None else
      if negb (Equal (meta_HLC meta) (ad_HLC ad)) then Some false else
      if negb (String.eqb (MetadataSig ad) "") && negb (String.eqb (Signature meta) (MetadataSig ad))
      then Some false else
      Some (match cfg_Identity cfg with
            | None => true
            | Some resolver =>
                match resolver (PeerID (ad_HLC ad)) with
                | Ok pub => negb (String.eqb pub "") && is_ok (meta_Verify meta (cfg_Signer cfg) pub)
                | _ => false
                end
            end)
  | _ => None
  end.

Lemma ad_verdict_authentic t ad : ad_verdict t ad = Some true ↔ authentic cfg t ad.
Proof.
  unfold ad_verdict, authentic, in_skew. destruct (_ && _) eqn:Hsk.
  { split; [done|]. intros [Hs _]. bool_to_prop. lia. }
  assert (0 < cfg_MaxClockSkew cfg →
    Wall (ad_HLC ad) ≤ wrap64 (UnixNano t + cfg_MaxClockSkew cfg)) as Hskew.
  { intros Hp. apply andb_false_iff in Hsk as [?%Z.ltb_ge|?%Z.ltb_ge]; lia. }
  destruct (ParseCommitMetadata _) as [meta| |] eqn:Hp; [|naive_solver..].
  rewrite (Parse_kind _ _ Hp). cbn [negb String.eqb]. rewrite String.eqb_refl. cbn [negb].
  destruct (Equal (meta_HLC meta) (ad_HLC ad)) eqn:Heq; cbn [negb].
  2:{ split; [done|]. intros (_ & m & [= <-] & Hh & _). apply Equal_spec in Hh. congruence. }
  apply Equal_spec in Heq.
  destruct (negb (MetadataSig ad =? "")%string && _) eqn:Hsig.
  { apply andb_prop in Hsig as [H1%negb_true_iff H2%negb_true_iff].
    apply String.eqb_neq in H1, H2. naive_solver. }
  assert (MetadataSig ad = "" ∨ Signature meta = MetadataSig ad) as Hs.
  { apply andb_false_iff in Hsig as [H1%negb_false_iff|H1%negb_false_iff];
      apply String.eqb_eq in H1; auto. }
  split.
  - intros [= Hv]. split; [done|]. exists meta. split_and!; [done..|]. intros resolver Hr.
    rewrite Hr in Hv. destruct (resolver _) as [pub| |]; try done.
    apply andb_prop in Hv as [Hne%negb_true_iff Hv]. apply String.eqb_neq in Hne. by exists pub.
  - intros (_ & m & [= <-] & _ & _ & Hid). f_equal. destruct (cfg_Identity cfg) as [resolver|]; [|done].
    destruct (Hid resolver eq_refl) as (pub & -> & Hne & Hok). rewrite Hok.
    by rewrite (proj2 (String.eqb_neq _ _) Hne).
Qed.

Definition on_verdict (ad : CommitAdV1) (v : option bool) : M (Node W) unit :=
  match v with
  | None => ret tt
  | Some false => UpsertStatus (ad_HLC ad) "" CommitStatusRejected
  | Some true =>
      hlc_Update (ad_HLC ad) ;;* UpsertStatus (ad_HLC ad) "" CommitStatusPending ;;* requestSync
  end.

(** An advertisement that the node looks at. *)
Definition relevant (ad : CommitAdV1) (n : Node W) : Prop :=
  ad_Repo ad = cfg_Repo cfg ∧ ¬ is_decided (ad_HLC ad) n ∧
  PeerID (ad_HLC ad) ≠ GetID (cfg_Signer cfg).

Lemma onCommitAd_at from ad n t w :
  relevant ad n → time_now (get_world n) = (Ok t, w) →
  onCommitAd cfg from ad n = on_verdict ad (ad_verdict t ad) (set_world w n).
Proof.
  intros (Hrepo & Hdec & Hown) Ht. unfold onCommitAd. rewrite bool_decide_true by done. cbn [negb].
  unfold bind at 1, gets, id.
  assert (match mem_Get (ad_HLC ad) (n_idx n) with
    | Some e => bool_decide (e_Status e = CommitStatusApplied) || bool_decide (e_Status e = CommitStatusRejected)
    | None => false end = false) as ->.
  { unfold is_decided, status_of in Hdec. destruct (mem_Get _ _) as [e|]; [|done]. simpl in Hdec.
    apply orb_false_iff. rewrite !bool_decide_eq_false. split; intros E; apply Hdec; rewrite E; auto. }
  rewrite (proj2 (String.eqb_neq _ _) Hown).
  unfold bind at 1, lift at 1. rewrite Ht. unfold ad_verdict. destruct (_ && _); [done|].
  destruct (ParseCommitMetadata _) as [meta| |]; [|done..].
  destruct (negb (Kind meta =? CommitKindUser)%string); [done|].
  destruct (negb (Equal _ _)); [done|]. destruct (_ && _); [done|].
  destruct (cfg_Identity cfg) as [resolver|]; [|done].
  destruct (resolver _) as [pub| |]; [|done..]. by destruct (negb _ && _).
Qed.

(** A message without readable metadata, within the clock skew, is ignored. *)
Lemma ad_verdict_ignored t ad :
  ad_verdict t ad = None ↔
  in_skew cfg t ad ∧ is_ok (ParseCommitMetadata (MetadataJSON ad)) = false.
Proof.
  unfold ad_verdict, in_skew. destruct (_ && _) eqn:Hsk.
  { split; [done|]. intros [Hs _]. bool_to_prop. lia. }
  destruct (ParseCommitMetadata _) as [meta| |] eqn:Hp.
  - rewrite (Parse_kind _ _ Hp), String.eqb_refl. cbn [negb is_ok]. split; [|by intros []].
    repeat case_match; done.
  - split; [|done]. intros _. split; [|done]. intros Hpos.
    apply andb_false_iff in Hsk as [?%Z.ltb_ge|?%Z.ltb_ge]; lia.
  - split; [|done]. intros _. split; [|done]. intros Hpos.
    apply andb_false_iff in Hsk as [?%Z.ltb_ge|?%Z.ltb_ge]; lia.
Qed.

Lemma onCommitAd_relevant from ad n :
  relevant ad n → ∃ t w, (time_now (get_world n)).1 = Ok t ∧
    onCommitAd cfg from ad n = on_verdict ad (ad_verdict t ad) (set_world w n).
Proof.
  intros Hrel. pose proof (time_ok (get_world n)) as Ht.
  destruct (time_now (get_world n)) as [[t|e|e] w] eqn:E; [|done..].
  exists t, w. split; [done|]. by apply onCommitAd_at.
Qed.

(** An accepted advertisement. *)
Lemma run_accept ad n :
  ∃ n' pt, on_verdict ad (Some true) n = (Ok tt, n') ∧
    status_of (ad_HLC ad) n' = Some CommitStatusPending ∧ n_trigger n' = true ∧
    db_hlc (n_db n') = Update pt (ad_HLC ad) (db_hlc (n_db n)) ∧
    (∀ h, h ≠ ad_HLC ad → mem_Get h (n_idx n') = mem_Get h (n_idx n)) ∧
    mem_FinalizedBase (n_idx n') = mem_FinalizedBase (n_idx n).
Proof.
  unfold on_verdict.
  destruct (run_hlc_Update (ad_HLC ad) n) as (pt & n1 & E1 & Hk & Hi & Ht & _).
  destruct (run_UpsertStatus (ad_HLC ad) "" CommitStatusPending n1) as (n2 & E2 & Hs & Ho & Hb & Hk2 & _).
  unfold bind. rewrite E1, E2. unfold requestSync, modify. rewrite Hi in Ho, Hb.
  eexists _, pt. split; [done|]. split; [exact Hs|]. split; [done|]. cbn [n_db n_idx with_trigger].
  by rewrite Hk2, Hk.
Qed.

Lemma onCommitAd_irrelevant from ad n : ¬ relevant ad n → onCommitAd cfg from ad n = (Ok tt, n).
Proof.
  intros Hrel. unfold onCommitAd. case_bool_decide as Hrepo; cbn [negb]; [|done].
  unfold bind at 1, gets, id.
  destruct (match mem_Get (ad_HLC ad) (n_idx n) with
    | Some e => bool_decide (e_Status e = CommitStatusApplied) || bool_decide (e_Status e = CommitStatusRejected)
    | None => false end) eqn:Hdec; [done|].
  destruct (String.eqb_spec (PeerID (ad_HLC ad)) (GetID (cfg_Signer cfg))); [done|].
  destruct Hrel. split_and!; [done| |done]. unfold is_decided, status_of.
  destruct (mem_Get _ _) as [e|]; simpl; [|naive_solver].
  apply orb_false_iff in Hdec as [H1%bool_decide_eq_false H2%bool_decide_eq_false]. naive_solver.
Qed.
End ads.

(** C19. The gate on advertisements: a node changes nothing for another
    repository, for its own commits, and for a timestamp whose fate is already
    decided.  Otherwise it reads the machine's clock, and with the instant [t]
    that it shows, it accepts an advertisement exactly when it is authentic at
    [t], marking it pending, moving its hybrid clock past it and requesting a
    synchronization.  In every other case it requests nothing and keeps its
    clock: an advertisement that is not ahead of [t] by more than the allowed
    skew and whose metadata does not parse leaves the index as it is, any other
    one marks the timestamp rejected.  No other entry of the index and never
    the finalized base is affected. *)
Theorem onCommitAd_gate {W} `{D : Dolt W, !DoltLaws W} `{R : GoRuntime} (cfg : NodeConfig)
    (from : string) (ad : CommitAdV1) (n : Node W) :
  let '(res, n') := onCommitAd cfg from ad n in
  res = Ok tt ∧
  (¬ relevant cfg ad n → n' = n) ∧
  (relevant cfg ad n → ∃ t, (time_now (get_world n)).1 = Ok t ∧
    (authentic cfg t ad →
       status_of (ad_HLC ad) n' = Some CommitStatusPending ∧ n_trigger n' = true ∧
       ∃ pt, db_hlc (n_db n') = Update pt (ad_HLC ad) (db_hlc (n_db n))) ∧
    (¬ authentic cfg t ad →
       n_trigger n' = n_trigger n ∧ db_hlc (n_db n') = db_hlc (n_db n) ∧
       let unreadable := in_skew cfg t ad ∧ is_ok (ParseCommitMetadata (MetadataJSON ad)) = false in
       (unreadable → n_idx n' = n_idx n) ∧
       (¬ unreadable → status_of (ad_HLC ad) n' = Some CommitStatusRejected))) ∧
  (∀ h, h ≠ ad_HLC ad → mem_Get h (n_idx n') = mem_Get h (n_idx n)) ∧
  mem_FinalizedBase (n_idx n') = mem_FinalizedBase (n_idx n).
Proof.
  assert (Decision (relevant cfg ad n)) as [Hrel|Hrel]
    by (unfold relevant, is_decided; apply _).
  2:{ rewrite onCommitAd_irrelevant by done. done. }
  destruct (onCommitAd_relevant cfg from ad n Hrel) as (t & w & Hnow & ->).
  pose proof (ad_verdict_authentic cfg t ad) as Hv. pose proof (ad_verdict_ignored cfg t ad) as Hi.
  destruct (ad_verdict cfg t ad) as [[]|]; unfold on_verdict.
  - destruct (run_accept ad (set_world w n)) as (n' & pt & E & Hs & Ht & Hk & Ho & Hb).
    unfold on_verdict in E. rewrite E.
    split; [done|]. split; [done|]. split; [|done]. intros _. exists t. split; [done|].
    split; [|naive_solver]. intros _. split; [exact Hs|]. split; [done|]. by exists pt.
  - destruct (run_UpsertStatus (ad_HLC ad) "" CommitStatusRejected (set_world w n))
      as (n2 & -> & Hs & Ho & Hb & Hk2 & Ht & _).
    split; [done|]. split; [done|]. split; [|done]. intros _. exists t. split; [done|]. split; [naive_solver|].
    intros _. split; [done|]. split; [done|]. split; [naive_solver|]. done.
  - split; [done|]. split; [done|]. split; [|done]. intros _. exists t. split; [done|]. split; [naive_solver|].
    intros _. split; [done|]. split; [done|]. split; [done|]. naive_solver.
Qed.

(** ** Every handler respects the index *)

Section index_invariant.
Context {W : Type} `{D : Dolt W} `{R : GoRuntime} (cfg : NodeConfig).

(** A property of the index and of the channel [trigger] that the operations
    of the index and a request keep. *)
Context (P : MemoryCommitIndex → bool → Prop).
Context (P_Upsert : ∀ now e i b, P i b → P (mem_Upsert now e i) b).
Context (P_Set : ∀ now fb i b, P i b → P (mem_SetFinalizedBase now fb i) b).
Context (P_reset : ∀ i b, P i b → P (resetForRebuild i) b).
Context (P_request : ∀ i b, P i b → P i true).

Definition keeps {A} (m : M (Node W) A) : Prop := preserves (λ n, P (n_idx n) (n_trigger n)) m.

Lemma keeps_lift {A} (m : M W A) : keeps (lift m).
Proof. intros n Hn. unfold lift. by destruct (m (get_world n)). Qed.

Lemma keeps_on_db {A} (m : M (DB W) A) : keeps (on_db m).
Proof. intros n Hn. unfold on_db. by destruct (m (n_db n)). Qed.

(** The primitive steps of a handler. *)
Ltac keeps_prim :=
  lazymatch goal with
  | |- preserves _ (lift _) => apply keeps_lift
  | |- preserves _ (on_db _) => apply keeps_on_db
  | |- preserves _ (modify _) => apply preserves_modify; intros; simpl; auto
  end.
Ltac keeps_walk := unfold keeps; walk_preserves; try keeps_prim.

Lemma keeps_Upsert e : keeps (Upsert e).
Proof. unfold Upsert. keeps_walk. Qed.

Lemma keeps_UpsertStatus h hash st : keeps (UpsertStatus h hash st).
Proof. unfold UpsertStatus. keeps_walk; by apply keeps_Upsert. Qed.

Lemma keeps_for_each {A} (f : A → M (Node W) unit) l : (∀ x, keeps (f x)) → keeps (for_each f l).
Proof.
  intros Hf. induction l as [|x l IH]; [apply preserves_ret|].
  apply preserves_bind; [apply Hf|]. intros _. apply IH.
Qed.

Lemma keeps_query_row {A} c (q : qry A) : keeps (query_row c q).
Proof. unfold query_row. keeps_walk. Qed.

Lemma keeps_bfs fuel q base seen queue commits : keeps (bfs fuel q base seen queue commits).
Proof.
  revert seen queue commits. induction fuel as [|fuel IH]; intros seen [|h queue] commits; cbn [bfs];
    unfold getCommitByHash, getParentHashes, query_row; keeps_walk; by apply IH.
Qed.

Lemma keeps_getCommitsSince fuel q branch base : keeps (getCommitsSince fuel q branch base).
Proof.
  unfold getCommitsSince, getBranchHeadHash, scan_string, query_row. keeps_walk; by apply keeps_bfs.
Qed.

Lemma keeps_index_commit c : keeps (index_commit c).
Proof. unfold index_commit. keeps_walk; by apply keeps_UpsertStatus. Qed.

Lemma keeps_restore_entry e : keeps (restore_entry e).
Proof. unfold restore_entry. keeps_walk; by apply keeps_Upsert. Qed.

Lemma keeps_initIndexFromDB fuel : keeps (initIndexFromDB fuel).
Proof.
  unfold initIndexFromDB, GetAllCommits.
  keeps_walk; first [by apply keeps_getCommitsSince
                    |by apply keeps_for_each; intros; apply keeps_index_commit
                    |by apply keeps_for_each; intros; apply keeps_restore_entry].
Qed.

(** Callbacks that respect the index. *)
Context (r : Reconciler (Node W)).
Context (Hr : ∀ f ad reason, onCommitRejected r = Some f → keeps (f ad reason)).

Lemma keeps_rejected_hook ad reason : keeps (rejected_hook ad reason).
Proof. unfold rejected_hook. keeps_walk; by apply keeps_UpsertStatus. Qed.

Lemma keeps_dropConflict c x : keeps (dropConflict (installReconcilerHooks r) c x).
Proof.
  unfold dropConflict, call_hook.
  cbn [onCommitRejected onCommitRejectedInternal installReconcilerHooks setCommitRejectedInternalHook].
  keeps_walk; [apply keeps_rejected_hook|by eapply Hr].
Qed.

Lemma keeps_replayLoop c commits head k : keeps (replayLoop (installReconcilerHooks r) c commits head k).
Proof.
  revert head k. induction commits as [|x commits IH]; intros head k; [apply preserves_ret|].
  cbn [replayLoop]. apply preserves_bind; [|intros; apply IH].
  unfold replayStep, getFirstParentHash, fastForwardToCommit, getHeadHash, amendMerge, scan_string, query_row.
  keeps_walk; by apply keeps_dropConflict.
Qed.

Lemma keeps_ReplayImportedCommits fuel mb imported fb :
  keeps (ReplayImportedCommits (installReconcilerHooks r) fuel mb imported fb).
Proof.
  unfold ReplayImportedCommits, GetLastCommit, slice_to, replayToTempBranchThenUpdateMain, replayBody,
    replayCleanup, GetLastCommit.
  keeps_walk; first [by apply keeps_getCommitsSince|by apply keeps_replayLoop].
Qed.

Lemma keeps_syncOnce fuel : keeps (syncOnce cfg (installReconcilerHooks r) fuel).
Proof.
  unfold syncOnce, EnsureSwarmRemote, exec_unless, FetchSwarm, GetBranchHead, MergeBase, tryFastForward,
    forceResetMainTo, query_row.
  keeps_walk; first [by apply keeps_initIndexFromDB|by apply keeps_getCommitsSince|by apply keeps_ReplayImportedCommits].
Qed.

Lemma keeps_db_Commit msg : keeps (on_db (db_Commit (cfg_Signer cfg) msg)).
Proof. keeps_walk. Qed.

Lemma keeps_publish h : keeps (publishLocalCommitAd cfg h).
Proof.
  unfold publishLocalCommitAd, GetLastUserCommit, publish. keeps_walk; by apply keeps_UpsertStatus.
Qed.

Lemma keeps_handle e : keeps (handle cfg e).
Proof.
  destruct e as [| |evt]; cbn [handle].
  - unfold publishHeartbeat, publish, tryFinalize. keeps_walk.
  - unfold requestSync. keeps_walk; eauto.
  - unfold option_run, onCommitAd, onHeartbeat, hlc_Update, requestSync.
    keeps_walk; eauto; by apply keeps_UpsertStatus.
Qed.
End index_invariant.

(** The base [b], or a later one. *)
Definition base_from (b : FinalizedBase) (i : MemoryCommitIndex) : Prop :=
  mem_inv i ∧ ∃ b', mem_FinalizedBase i = Some b' ∧ (b' = b ∨ hlc_lt (fb_HLC b) (fb_HLC b')).

Lemma base_from_Upsert b now e i : base_from b i → base_from b (mem_Upsert now e i).
Proof. intros [Hi Hb]. split; [by apply mem_inv_Upsert|done]. Qed.

Lemma base_from_Set b now fb i : base_from b i → base_from b (mem_SetFinalizedBase now fb i).
Proof.
  intros [Hi (b' & Hb & Hle)]. split.
  - unfold mem_SetFinalizedBase. by case_match.
  - rewrite mem_Base_Set, Hb. case_decide as Hd; [|by eauto].
    eexists. split; [done|]. right. rewrite stamp_base_HLC.
    destruct Hle as [->|?]; [done|]. by eapply hlc_lt_trans.
Qed.

Lemma base_from_reset b i : base_from b i → base_from b (resetForRebuild i).
Proof. intros [Hi Hb]. split; [|done]. intros k e. simpl. by rewrite lookup_empty. Qed.

(** ** Closed examples *)

Definition toy_cfg : NodeConfig :=
  mkConfig (mkRepo "" "repo") (toy_signer "k") true MaxClockSkew (30 * second) None (5 * second).

Definition toy_idx : MemoryCommitIndex :=
  mem_Upsert (mkTime 1 0 0) (example_entry 7 CommitStatusApplied)
    (mem_Upsert (mkTime 1 0 0) (example_entry 9 CommitStatusApplied)
       (mem_Upsert (mkTime 1 0 0) (example_entry 20 CommitStatusApplied) NewMemoryCommitIndex)).

Lemma toy_idx_inv : mem_inv toy_idx.
Proof. do 3 apply mem_inv_Upsert. apply mem_inv_new. Qed.

Definition toy_node : Node toy :=
  mkNode toy_db toy_idx {["a" := mkHLC 15 0 "a"; "b" := mkHLC 12 0 "b"]} [] false.

Lemma tryFinalize_exact_witness :
  (fb_HLC <$> mem_FinalizedBase (n_idx (tryFinalize toy_node).2)) = Some (mkHLC 9 0 "peer") ∧
  let '(res, n') := tryFinalize toy_node in
  res = Ok tt ∧ entries (n_idx n') = entries (n_idx toy_node) ∧
  (∀ e, n_peerHLC toy_node ≠ ∅ → finalizable toy_node e →
     (∀ e', finalizable toy_node e' → hlc_le (e_HLC e') (e_HLC e)) →
     ∃ b, mem_FinalizedBase (n_idx n') = Some b ∧ fb_HLC b = e_HLC e ∧
          fb_CommitHash b = e_CommitHash e) ∧
  ((n_peerHLC toy_node = ∅ ∨ ∀ e, ¬ finalizable toy_node e) → n' = toy_node).
Proof.
  split; [vm_compute; reflexivity|].
  pose proof (tryFinalize_exact toy_node) as H. apply H. exact toy_idx_inv.
Defined.

Definition toy_ad : CommitAdV1 :=
  mkAd (mkRepo "" "repo") (mkHLC 20 0 "p") (c_Message (toy_user_commit 3 20)) "" zero_time.
