(* ===== verification/Sync.v ===== *)
(** * Synchronization keeps finalized history ([core/node.go]: [syncOnce])

    Fetching, fast-forwarding and replaying leave the finalized commit in the
    history of [main]; only a bootstrap, when the remote shares no history
    with [main], can take it away. *)

From Stdlib Require Import ZArith Lia String Ascii.
From stdpp Require Import gmap strings list sorting pretty.
From S2P Require Import Prelude Hlc GoTime GoJson GoJsonFacts Metadata Sql Index Linearize Dolt ToyDolt Reconciler.
From S2P Require Import Walk Replay Db Node NodeFacts.

Local Open Scope Z_scope.

(** Statements that leave [main] where it is, whatever the session. *)
Definition spares_main (st : stmt) : bool :=
  match st with
  | DoltBranchForce b _ | DoltBranchDelete b => negb (String.eqb b "main")
  | DoltResetHard _ | DoltMerge _ | DoltMergeFFOnly _ | DoltCommitAmend _ _ _ _ | DoltCommitAll _ _ _ _ => false
  | _ => true
  end.

Lemma effect_spares_main v cur st v' cur' :
  spares_main st = true → effect v cur st v' cur' → v_branches v' !! "main" = v_branches v !! "main".
Proof.
  destruct st; simpl; intros Hs He; try done.
  - apply negb_true_iff, String.eqb_neq in Hs. destruct He as (h & _ & -> & _). by apply lookup_insert_ne.
  - apply negb_true_iff, String.eqb_neq in Hs. destruct He as (_ & -> & _). by apply lookup_delete_ne.
  - by destruct He as (_ & -> & _).
  - by destruct He as [-> _].
  - by destruct He as [-> _].
  - by destruct He as (-> & _).
  - by destruct He as (-> & _).
  - by destruct He as [-> _].
  - by destruct He as [-> _].
  - by destruct He as [-> _].
  - by destruct He as [-> _].
Qed.

Section sync.
Context {W : Type} `{D : Dolt W, !DoltLaws W} `{R : GoRuntime} (cfg : NodeConfig).

Local Abbreviation vw n := (view (get_world n)).
Local Abbreviation main n := (v_branches (view (get_world n)) !! "main").

(** [main] points at a commit that satisfies [P] in the current view; the
    repository has grown from [v0]. *)
Definition main_ok (v0 : dview) (P : dview → string → Prop) (n : Node W) : Prop :=
  wf_world (get_world n) ∧ v_commits v0 ⊆ v_commits (vw n) ∧ ∃ m, main n = Some m ∧ P (vw n) m.

(** Properties of a head that survive growth of the repository. *)
Definition growing (P : dview → string → Prop) : Prop :=
  ∀ v v' m, v_commits v ⊆ v_commits v' → P v m → P v' m.

Section keep.
Context (v0 : dview) (P : dview → string → Prop) (HP : growing P).

Definition holds_main {A} (m : M (Node W) A) : Prop := preserves (main_ok v0 P) m.

Lemma main_lift {A} (m : M W A) :
  (∀ w, view (m w).2 = view w ∧ (wf_world w → wf_world (m w).2)) → holds_main (lift m).
Proof.
  intros Hm n (Hw & Hg & Hmain). unfold lift, main_ok. destruct (Hm (get_world n)) as [Hv Hwf].
  destruct (m (get_world n)) as [r w']; simpl in *. rewrite Hv. auto.
Qed.

Lemma main_query {A} c (q : qry A) : holds_main (lift (query c q)).
Proof. apply main_lift. intros w. by destruct (query_pure A c q w) as (? & _ & ?). Qed.
Lemma main_time : holds_main (lift time_now).
Proof. apply main_lift. intros w. by destruct (time_pure w) as (? & _ & ?). Qed.
Lemma main_open : holds_main (lift open_conn).
Proof. apply main_lift. apply conn_pure. Qed.
Lemma main_close c : holds_main (lift (close_conn c)).
Proof. apply main_lift. apply close_pure. Qed.

Lemma main_exec c st : spares_main st = true → holds_main (lift (exec c st)).
Proof.
  intros Hs n (Hw & Hg & m & Hm & HPm). unfold lift.
  pose proof (exec_wf c st (get_world n) Hw) as Hwf. pose proof (exec_grow c st (get_world n) Hw) as Hgr.
  pose proof (exec_err c st (get_world n) Hw) as He.
  pose proof (λ u w', exec_ok c st (get_world n) u w' Hw) as Hok.
  destruct (exec c st (get_world n)) as [res w'] eqn:E; simpl in *.
  assert (v_branches (view w') !! "main" = Some m) as Hm'.
  { rewrite <-Hm. destruct res as [u|e|e].
    - by eapply effect_spares_main, Hok.
    - by destruct (He eq_refl) as (-> & _).
    - by destruct (He eq_refl) as (-> & _). }
  split; [done|]. split; [by etrans|]. exists m. split; [done|]. by eapply HP.
Qed.

Lemma main_modify f : (∀ n, get_world (f n) = get_world n) → holds_main (modify f).
Proof. intros Hf n Hn. unfold main_ok, modify. cbn [snd]. by rewrite Hf. Qed.

Ltac main_prim :=
  lazymatch goal with
  | |- preserves _ (lift (query _ _)) => apply main_query
  | |- preserves _ (lift time_now) => apply main_time
  | |- preserves _ (lift open_conn) => apply main_open
  | |- preserves _ (lift (close_conn _)) => apply main_close
  | |- preserves _ (lift (exec _ _)) => apply main_exec; done
  | |- preserves _ (modify _) => apply main_modify; done
  end.
Ltac main_walk := unfold holds_main; walk_preserves; try main_prim.

Lemma main_bfs fuel q base seen queue commits : holds_main (bfs fuel q base seen queue commits).
Proof.
  revert seen queue commits. induction fuel as [|fuel IH]; intros seen [|h queue] commits; cbn [bfs];
    unfold getCommitByHash, getParentHashes, query_row; main_walk; by apply IH.
Qed.

Lemma main_getCommitsSince fuel q branch base : holds_main (getCommitsSince fuel q branch base).
Proof.
  unfold getCommitsSince, getBranchHeadHash, scan_string, query_row. main_walk; by apply main_bfs.
Qed.

Lemma main_for_each {A} (f : A → M (Node W) unit) l : (∀ x, holds_main (f x)) → holds_main (for_each f l).
Proof.
  intros Hf. induction l as [|x l IH]; [apply preserves_ret|].
  apply preserves_bind; [apply Hf|]. intros _. apply IH.
Qed.

Lemma main_initIndexFromDB fuel : holds_main (initIndexFromDB fuel).
Proof.
  unfold initIndexFromDB, GetAllCommits. main_walk; try by apply main_getCommitsSince.
  - apply main_for_each. intros x. unfold index_commit, UpsertStatus, Upsert. main_walk.
  - apply main_for_each. intros x. unfold restore_entry, Upsert. main_walk.
Qed.

Lemma main_EnsureSwarmRemote repo : holds_main (EnsureSwarmRemote repo).
Proof. unfold EnsureSwarmRemote, exec_unless, query_row. main_walk. Qed.

Lemma main_FetchSwarm : holds_main FetchSwarm.
Proof. unfold FetchSwarm. main_walk. Qed.

Lemma main_GetBranchHead ref : holds_main (GetBranchHead ref).
Proof. unfold GetBranchHead, query_row. main_walk. Qed.

Lemma main_MergeBase l r : holds_main (MergeBase l r).
Proof. unfold MergeBase, query_row. main_walk. Qed.

(** Properties that pass from a head to its descendants. *)
Context (HPanc : ∀ v m m', P v m → ancestor v m m' → P v m').

Lemma main_ff c rev : holds_main (lift (exec c (DoltMergeFFOnly rev))).
Proof.
  intros n (Hw & Hg & m & Hm & HPm). unfold lift.
  pose proof (exec_wf c (DoltMergeFFOnly rev) (get_world n) Hw) as Hwf.
  pose proof (exec_grow c (DoltMergeFFOnly rev) (get_world n) Hw) as Hgr.
  pose proof (exec_err c (DoltMergeFFOnly rev) (get_world n) Hw) as He.
  pose proof (λ u w', exec_ok c (DoltMergeFFOnly rev) (get_world n) u w' Hw) as Hok.
  destruct (exec c (DoltMergeFFOnly rev) (get_world n)) as [res w'] eqn:E; simpl in *.
  split; [done|]. split; [by etrans|].
  destruct res as [u|e|e].
  2,3: exists m; destruct (He eq_refl) as (Hbr & _);
    (split; [rewrite <-Hm; exact (f_equal (lookup "main") Hbr)|by eapply HP]).
  destruct (Hok u w' eq_refl) as (old & h & new & Hold & _ & Hnew & Hb & _). simpl. rewrite Hb.
  destruct (decide (current (db_world (n_db n)) c = "main")) as [Hc|Hc].
  - rewrite Hc in *. rewrite lookup_insert_eq. exists new. split; [done|].
    rewrite Hm in Hold. injection Hold as <-. eapply HP; [done|].
    destruct Hnew as [[_ ->]|[Ha ->]]; [done|]. by eapply HPanc.
  - rewrite lookup_insert_ne by done. exists m. split; [done|]. by eapply HP.
Qed.

Lemma main_tryFastForward h : holds_main (tryFastForward h).
Proof. unfold tryFastForward. main_walk. apply main_ff. Qed.
End keep.

(** ** The bootstrap *)

Definition none_dropped (n : Node W) (ad : CommitAd) : Prop := True.

Lemma holds_exec_node c st (n : Node W) :
  wf_world (get_world n) →
  holds (lift (exec c st)) n (λ r n', stepped none_dropped n n' ∧
    match r with
    | Ok _ => effect (vw n) (current (get_world n) c) st (vw n') (current (get_world n') c)
    | Err _ => v_branches (vw n') = v_branches (vw n) ∧
               current (get_world n') c = current (get_world n) c
    | Panic _ => False
    end).
Proof. apply holds_exec. done. Qed.

Lemma tmp_is_branch t : is_branch_name (tmp_name "swarm_bootstrap_" t) = true.
Proof.
  unfold is_branch_name, tmp_name, is_hash. rewrite !append_cons. cbn [all_chars].
  change (hash_char "w") with false. cbn [andb]. rewrite !andb_false_r. done.
Qed.

Section bootstrap.
Context (v0 : dview) (P : dview → string → Prop) (HP : growing P) (h : string).
Context (Hh : is_Some (v_commits v0 !! h)).
Context (HPh : ∀ v, v_commits v0 ⊆ v_commits v → P v h).

Lemma main_ok_step n n' :
  main_ok v0 P n → stepped none_dropped n n' → main n' = main n → main_ok v0 P n'.
Proof.
  intros (Hw & Hg & m & Hm & HPm) [Hw' Hg' _ _] E. split; [done|]. split; [by etrans|].
  exists m. rewrite E. split; [done|]. by eapply HP.
Qed.

Lemma holds_reset_main c tmp n :
  main_ok v0 P n → is_branch_name tmp = true → v_branches (vw n) !! tmp = Some h →
  holds (lift (exec c (DoltCheckout "main")) ;;* lift (exec c (DoltResetHard tmp))) n
    (λ _ n', main_ok v0 P n').
Proof.
  intros Hn Htmp Hb. apply holds_bind. eapply holds_mono; [apply holds_exec_node, Hn|].
  intros [u|e|e] n1 [Hst1 He]; [| |done].
  2:{ eapply main_ok_step; [done..|]. by destruct He as [-> _]. }
  destruct He as (_ & Hb1 & Hc1).
  assert (main_ok v0 P n1) as Hn1 by (eapply main_ok_step; [done..|by rewrite Hb1]).
  eapply holds_mono; [apply holds_exec_node, Hst1|].
  intros [u'|e|e] n2 [Hst2 He]; [| |done].
  2:{ eapply main_ok_step; [done..|]. by destruct He as [-> _]. }
  destruct He as (h' & Hres & Hb2 & _). rewrite resolve_branch in Hres by done.
  unfold branch_head in Hres. rewrite Hb1, Hb in Hres. injection Hres as <-.
  destruct Hn1 as (_ & Hg1 & _). pose proof (st_grow _ _ _ Hst2) as Hg2.
  split; [apply Hst2|]. split; [by etrans|]. exists h. rewrite Hb2, Hc1, lookup_insert_eq.
  split; [done|]. apply HPh. by etrans.
Qed.

Lemma preserves_holds {A} (m : M (Node W) A) n (Q : Node W → Prop) :
  preserves Q m → Q n → holds m n (λ _ n', Q n').
Proof. intros Hm Hn. by apply Hm. Qed.

Lemma main_forceReset : holds_main v0 P (forceResetMainTo h).
Proof.
  intros n Hn. change (holds (forceResetMainTo h) n (λ _ n', main_ok v0 P n')).
  unfold forceResetMainTo. apply holds_bind.
  eapply holds_mono; [by apply preserves_holds; [apply main_open|]|].
  intros [c|e|e] n1 Hn1; [|done..]. apply holds_deferred.
  apply (holds_mono _ _ (λ _ n', main_ok v0 P n')).
  2:{ intros r n' Hn'. apply (preserves_holds (ignore (lift (close_conn c))) n' (main_ok v0 P)); [|done].
      apply preserves_ignore, main_close. }
  apply holds_bind. eapply holds_mono; [by apply preserves_holds; [apply main_time|]|].
  intros [t|e|e] n2 Hn2; [|done..]. apply holds_bind.
  eapply holds_mono; [apply holds_exec_node, Hn2|]. intros [u|e|e] n3 [Hst3 He]; [| |done].
  2:{ eapply main_ok_step; [done..|]. by destruct He as [-> _]. }
  destruct He as (h' & Hres & Hb3 & _). rewrite resolve_hash in Hres.
  2:{ apply wf_world_view, Hn2. }
  2:{ destruct Hh as [y Hy]. exists y. eapply lookup_weaken; [done|apply Hn2]. }
  injection Hres as <-.
  assert (tmp_name "swarm_bootstrap_" t ≠ "main") as Hne
    by (unfold tmp_name; by rewrite append_cons).
  assert (main_ok v0 P n3) as Hn3
    by (eapply main_ok_step; [done..|]; by rewrite Hb3, lookup_insert_ne).
  apply holds_deferred. apply (holds_mono _ _ (λ _ n', main_ok v0 P n')).
  - apply holds_reset_main; [done|apply tmp_is_branch|]. by rewrite Hb3, lookup_insert_eq.
  - intros r n' Hn'.
    apply (preserves_holds (ignore (lift (exec c (DoltCheckout "main"))) ;;*
      ignore (lift (exec c (DoltBranchDelete (tmp_name "swarm_bootstrap_" t))))) n' (main_ok v0 P)); [|done].
    walk_preserves; by apply main_exec.
Qed.
End bootstrap.

(** ** One round of synchronization *)

Lemma rejected_hook_ok b : hook_ok (none_dropped) (rejected_hook (W:=W)) b.
Proof.
  intros ad reason n. unfold rejected_hook.
  destruct (IsZero (ca_HLC ad)); [by apply holds_ret; split_and!|].
  unfold UpsertStatus, Upsert, holds, bind, lift, modify.
  destruct (time_pure (get_world n)) as (Hv1 & Hc1 & Hw1). pose proof (time_ok (get_world n)) as Hr1.
  destruct (time_now (get_world n)) as [[t1|e|e] w1]; [|done..]. cbn in *.
  destruct (time_pure w1) as (Hv2 & Hc2 & Hw2). pose proof (time_ok w1) as Hr2.
  destruct (time_now w1) as [[t2|e|e] w2]; [|done..]. cbn in *.
  split; [done|]. unfold untouched; cbn. split; [|done]. split_and!; [congruence..|auto].
Qed.

Lemma hooks_installed : hooks_ok none_dropped (installReconcilerHooks (NewReconciler (St:=Node W))).
Proof. split; [|done]. eexists. split; [done|]. apply rejected_hook_ok. Qed.

Section round.
Context (n0 : Node W) (fb : FinalizedBase) (m0 : string).
Context (Hw0 : wf_world (get_world n0)).
Context (Hfb : mem_FinalizedBase (n_idx n0) = Some fb) (Hz : IsZero (fb_HLC fb) = false).
Context (Hm0 : main n0 = Some m0) (Hanc : ancestor (vw n0) (fb_CommitHash fb) m0).
Context (Hcausal : causal_base (vw n0) fb).

(** Until the remote history has been compared, neither [main] nor the index
    has changed. *)
Definition before_update (n : Node W) : Prop :=
  main_ok (vw n0) (λ _ m, m = m0) n ∧ n_idx n = n_idx n0.

(** The finalized commit is part of [main], or [main] was replaced by an
    unrelated history. *)
Definition finalized_or_unrelated (v : dview) (m : string) : Prop :=
  ancestor v (fb_CommitHash fb) m ∨ ∀ a, ¬ (ancestor v a m0 ∧ ancestor v a m).

Lemma growing_eq : growing (λ _ m, m = m0).
Proof. by intros ????. Qed.

Lemma growing_finalized : growing (λ v m, ancestor v (fb_CommitHash fb) m).
Proof. intros v v' m Hs. by apply ancestor_grow. Qed.

Lemma before_main n : before_update n → main n = Some m0.
Proof. by intros [(_ & _ & m & Hm & ->) _]. Qed.

Lemma before_known n h :
  before_update n → is_Some (v_commits (vw n0) !! h) → is_Some (v_commits (vw n) !! h).
Proof. intros [(_ & Hg & _) _] [x Hx]. exists x. by eapply lookup_weaken. Qed.

Lemma m0_known : is_Some (v_commits (vw n0) !! m0).
Proof.
  apply (branch_head_known (vw n0) "main"); [by apply wf_world_view|].
  unfold branch_head. by rewrite Hm0.
Qed.

Lemma before_finalized n :
  before_update n → main_ok (vw n0) (λ v m, ancestor v (fb_CommitHash fb) m) n.
Proof.
  intros [(Hw & Hg & m & Hm & ->) _]. split; [done|]. split; [done|]. exists m0. split; [done|].
  by eapply ancestor_grow.
Qed.

Lemma fb_known : is_Some (v_commits (vw n0) !! fb_CommitHash fb).
Proof.
  eapply (ancestor_shrink (vw n0) (vw n0)); [by apply wf_world_view|done|apply m0_known|done].
Qed.

Lemma causal_grow n : v_commits (vw n0) ⊆ v_commits (vw n) → causal_base (vw n) fb.
Proof.
  intros Hg h x ps meta Ha Hx. pose proof (wf_world_view _ Hw0) as Hv0. pose proof fb_known as Hk.
  destruct (ancestor_shrink (vw n0) (vw n) _ _ Hv0 Hg Hk Ha) as [Ha0 [[x0 ps0] Hx0]].
  pose proof (lookup_weaken _ _ _ _ Hx0 Hg) as Hx'. rewrite Hx in Hx'. injection Hx' as <- <-.
  by apply (Hcausal h x ps meta).
Qed.

(** What a step of the first phase has to show. *)
Definition pre {A} (m : M (Node W) A) : Prop :=
  holds_main (vw n0) (λ _ m, m = m0) m ∧ preserves (λ n, n_idx n = n_idx n0) m.

Lemma holds_pre {A} (m : M (Node W) A) n :
  pre m → before_update n → holds m n (λ _ n', before_update n').
Proof. intros [Hm Hi] [Hn1 Hn2]. split; [by apply Hm|by apply Hi]. Qed.

Lemma holds_pre_quiet {A} (m : M (Node W) A) n (Q : A → Prop) :
  pre m → before_update n → quiet m n Q →
  holds m n (λ r n', before_update n' ∧ vw n' = vw n ∧ ∀ a, r = Ok a → Q a).
Proof.
  intros Hm Hn Hq. pose proof (holds_pre m n Hm Hn) as Hp. unfold holds in *.
  specialize (Hq (proj1 (proj1 Hn))). destruct (m n) as [r n']. destruct Hq as (_ & Hv & _ & HQ). done.
Qed.

Definition round_post (r : result bool) (n' : Node W) : Prop :=
  main_ok (vw n0) finalized_or_unrelated n' ∧ (r = Ok false → main n' = Some m0).

Lemma before_post r n : before_update n → round_post r n.
Proof.
  intros Hn. split; [|by intros _; apply before_main].
  destruct (before_finalized n Hn) as (Hw & Hg & m & Hm & Ha).
  split; [done|]. split; [done|]. exists m. split; [done|]. by left.
Qed.

Ltac pre_tac := split; [first [apply main_EnsureSwarmRemote|apply main_FetchSwarm|apply main_GetBranchHead
                              |apply main_MergeBase|apply main_getCommitsSince]; apply growing_eq|
  unfold EnsureSwarmRemote, exec_unless, FetchSwarm, GetBranchHead, MergeBase, query_row;
  walk_preserves; try first [apply (keeps_lift (λ i _, i = n_idx n0))
                            |apply (keeps_getCommitsSince (λ i _, i = n_idx n0))]].

Lemma pre_EnsureSwarmRemote repo : pre (EnsureSwarmRemote repo).
Proof. pre_tac. Qed.
Lemma pre_FetchSwarm : pre FetchSwarm.
Proof. pre_tac. Qed.
Lemma pre_GetBranchHead ref : pre (GetBranchHead ref).
Proof. pre_tac. Qed.
Lemma pre_MergeBase l r : pre (MergeBase l r).
Proof. pre_tac. Qed.
Lemma pre_getCommitsSince fuel ref base : pre (getCommitsSince fuel pool ref base).
Proof. pre_tac. Qed.

(** Rebuilding the index at the end of a round. *)
Lemma holds_rebuild fuel v P n :
  growing P → main_ok v P n →
  holds (ignore (initIndexFromDB fuel) ;;* ret true) n (λ r n', main_ok v P n' ∧ r ≠ Ok false).
Proof.
  intros HP Hn. apply holds_bind. eapply holds_mono.
  { apply (preserves_holds (ignore (initIndexFromDB fuel)) n (main_ok v P)); [|done].
    by apply preserves_ignore, main_initIndexFromDB. }
  intros [u|e|e] n' Hn'; by split.
Qed.

Lemma rebuild_post v P n r :
  v_commits (vw n0) ⊆ v_commits v → main_ok v P n ∧ r ≠ Ok false →
  (∀ m, P (vw n) m → finalized_or_unrelated (vw n) m) → round_post r n.
Proof.
  intros Hv [(Hw & Hg & m & Hm & HPm) Hr] HP. split; [|done].
  split; [done|]. split; [by etrans|]. eauto.
Qed.

(** The bootstrap installs a head that shares nothing with [main]. *)
Lemma holds_bootstrap fuel h n :
  before_update n → branch_head (vw n) remoteRef = Some h →
  (∀ a, ¬ (ancestor (vw n) a m0 ∧ ancestor (vw n) a h)) →
  holds (forceResetMainTo h ;;* ignore (initIndexFromDB fuel) ;;* ret true) n round_post.
Proof.
  intros Hn Hh Hno. pose proof Hn as [(Hw & Hg & _) _].
  destruct (branch_head_known _ _ _ (wf_world_view _ Hw) Hh) as [Hk _].
  set (P := λ (_ : dview) m, m = m0 ∨ m = h).
  assert (growing P) as HP by by intros ????.
  assert (main_ok (vw n) P n) as Hn1.
  { split; [done|]. split; [done|]. exists m0. split; [by apply before_main|by left]. }
  assert (∀ n', main_ok (vw n) P n' → ∀ m, P (vw n') m → finalized_or_unrelated (vw n') m) as Hfin.
  { intros n' (Hw' & Hg' & _) m [->| ->].
    - left. eapply ancestor_grow; [|done]. by etrans.
    - right. intros a [Ha1 Ha2]. apply (Hno a). pose proof (wf_world_view _ Hw) as Hv.
      split; eapply (ancestor_shrink (vw n) (vw n')); try done. apply before_known; [done|apply m0_known]. }
  apply holds_bind. eapply holds_mono.
  { apply (preserves_holds (forceResetMainTo h) n (main_ok (vw n) P)); [|done].
    apply main_forceReset; [done|done|]. intros v _. by right. }
  intros [u|e|e] n1 H1.
  - eapply holds_mono; [by apply holds_rebuild|]. intros r n2 H2.
    apply (rebuild_post (vw n) P); [done|done|]. apply Hfin, H2.
  - apply (rebuild_post (vw n) P); [done|by split|]. by apply Hfin.
  - apply (rebuild_post (vw n) P); [done|by split|]. by apply Hfin.
Qed.

Local Abbreviation fin := (λ v m, ancestor v (fb_CommitHash fb) m).
Local Abbreviation rc := (installReconcilerHooks (NewReconciler (St:=Node W))).

Lemma fin_post r n v :
  v_commits (vw n0) ⊆ v_commits v → main_ok v fin n ∧ r ≠ Ok false → round_post r n.
Proof. intros Hv H. apply (rebuild_post v fin); [done..|]. intros m ?. by left. Qed.

Lemma known_grow v v' l : v_commits v ⊆ v_commits v' → known_commits v l → known_commits v' l.
Proof. intros Hg Hk x Hx. destruct (Hk x Hx) as [ps Hps]. exists ps. by eapply lookup_weaken. Qed.

(** A replay on top of the finalized base, and the index after it. *)
Lemma holds_replay_round fuel mb imported v n :
  v_commits (vw n0) ⊆ v_commits v → known_commits v imported → main_ok v fin n →
  holds (let* _ := ReplayImportedCommits rc fuel mb imported (Some fb) in
         ignore (initIndexFromDB fuel) ;;* ret true) n round_post.
Proof.
  intros Hv Hk (Hw & Hg & m & Hm & Ha). assert (v_commits (vw n0) ⊆ v_commits (vw n)) as Hg0 by by etrans.
  apply holds_bind. eapply holds_mono.
  { apply (holds_replay_finalized none_dropped (λ _ _, eq_refl));
      [apply hooks_installed|done| |done|by apply causal_grow|exact (known_grow _ _ _ Hg Hk)].
    destruct fb_known as [y Hy]. exists y. by eapply lookup_weaken. }
  intros r n2 [Hst2 Hmain].
  assert (main_ok v fin n2) as H2.
  { split; [apply Hst2|]. split; [etrans; [done|apply Hst2]|].
    destruct Hmain as [Hsame|(k & head & _ & Hhead & Hh)]; [|by exists head].
    exists m. split; [etrans; [exact Hsame|done]|]. eapply ancestor_grow; [apply Hst2|done]. }
  destruct r as [k|e|e]; [|by apply (fin_post _ _ v); [|split]..].
  eapply holds_mono; [apply holds_rebuild; [apply growing_finalized|done]|].
  intros r n3 H3. by apply (fin_post _ _ v).
Qed.

(** Fast-forward or replay of the imported commits. *)
Lemma holds_update fuel h mb imported n :
  before_update n → known_commits (vw n) imported →
  holds (let* n1 := gets id in
         let fb1 := mem_FinalizedBase (n_idx n1) in
         let* ff := attempt (tryFastForward h) in
         match ff with
         | Ok true => ignore (initIndexFromDB fuel) ;;* ret true
         | _ =>
             let* _ := ReplayImportedCommits rc fuel mb imported fb1 in
             ignore (initIndexFromDB fuel) ;;* ret true
         end) n round_post.
Proof.
  intros Hn Hk. pose proof Hn as [(Hw & Hg & _) Hi]. apply holds_bind. unfold holds at 1, gets, id.
  cbn [fst snd]. rewrite Hi, Hfb.
  assert (main_ok (vw n) fin n) as Hn1.
  { destruct (before_finalized n Hn) as (_ & _ & Hm). by split. }
  apply holds_bind. eapply holds_mono.
  { apply holds_attempt, (preserves_holds (tryFastForward h) n (main_ok (vw n) fin)); [|done].
    apply main_tryFastForward; [apply growing_finalized|]. intros v m m' Ha Hm. by eapply ancestor_trans. }
  intros [ff|e|e] n1 H1; [|done|by apply (fin_post _ _ (vw n)); [|split]].
  destruct ff as [[]|e|e].
  { eapply holds_mono; [apply holds_rebuild; [apply growing_finalized|done]|].
    intros r n2 H2. by apply (fin_post _ _ (vw n)). }
  all: by apply (holds_replay_round fuel mb imported (vw n)).
Qed.

Lemma holds_syncOnce fuel : holds (syncOnce cfg rc fuel) n0 round_post.
Proof.
  assert (before_update n0) as Hn0.
  { split; [|done]. split; [done|]. split; [done|]. by exists m0. }
  unfold syncOnce. apply holds_bind. eapply holds_mono; [apply holds_pre; [apply pre_EnsureSwarmRemote|done]|].
  intros [u|e|e] n1 Hn1; [|by apply before_post..].
  apply holds_bind. eapply holds_mono; [apply holds_pre; [apply pre_FetchSwarm|done]|].
  intros [u'|e|e] n2 Hn2; [|by apply before_post..]. pose proof Hn2 as [(Hw2 & _) _].
  apply holds_bind. eapply holds_mono.
  { apply holds_pre_quiet; [apply pre_GetBranchHead|done|]. by apply reads_quiet, reads_GetBranchHead. }
  intros [rh|e|e] n3 (Hn3 & Hv3 & Hrh); [|by apply before_post..]. specialize (Hrh _ eq_refl).
  destruct (branch_head (vw n2) remoteRef) as [h|] eqn:Hh; subst rh; cbn [fst snd negb];
    [|by apply holds_ret, before_post].
  rewrite <-Hv3 in Hh. pose proof Hn3 as [(Hw3 & _) _].
  apply holds_bind. eapply holds_mono.
  { apply holds_pre_quiet; [apply pre_MergeBase|done|]. apply reads_quiet.
    apply (reads_MergeBase "main" remoteRef n3 m0 h); [done|reflexivity|reflexivity| |done].
    unfold branch_head. by rewrite (before_main _ Hn3). }
  intros [mb|e|e] n4 (Hn4 & Hv4 & Hmb); [|by apply before_post..]. destruct (Hmb _ eq_refl) as [_ Hno].
  destruct (String.eqb mb "") eqn:E.
  { apply String.eqb_eq in E. apply holds_bootstrap; [done|by rewrite Hv4|]. rewrite Hv4. by apply Hno. }
  pose proof Hn4 as [(Hw4 & _) _]. apply holds_bind. eapply holds_mono.
  { apply holds_pre_quiet; [apply pre_getCommitsSince|done|]. by apply quiet_getCommitsSince. }
  intros [imported|e|e] n5 (Hn5 & Hv5 & Himp); [|by apply before_post..].
  destruct imported as [|x imported]; [by apply holds_ret, before_post|].
  apply holds_update; [done|]. rewrite Hv5. by apply Himp.
Qed.
End round.
End sync.

(** C2. A round of synchronization keeps finality as long as timestamps respect
    causality below the finalized base: when the base of the index is part of
    [main] and no commit in the history of the finalized commit carries a
    later timestamp than the base ([causal_base]), then whatever happens
    (fetch, fast-forward, replay, conflicts, errors at any step), [main] still
    has a head, the finalized commit is part of its history, and a round that
    reports no change made none.  Under that condition the one exception is a
    remote history without any commit in common with [main]
    ([bootstrap_drops_finalized]).  The code does not check the condition: when
    it fails, a successful round can lose the finalized commit
    ([late_ancestor_unfinalizes]). *)
Theorem sync_keeps_finalized {W} `{D : Dolt W, !DoltLaws W} `{R : GoRuntime} (cfg : NodeConfig)
    (fuel : nat) (n : Node W) (fb : FinalizedBase) (m0 : string)
  (Hw : wf_world (get_world n))
  (Hfb : mem_FinalizedBase (n_idx n) = Some fb) (Hz : IsZero (fb_HLC fb) = false)
  (Hm0 : v_branches (view (get_world n)) !! "main" = Some m0)
  (Hanc : ancestor (view (get_world n)) (fb_CommitHash fb) m0)
  (Hcausal : causal_base (view (get_world n)) fb) :
  let '(res, n') := syncOnce cfg (installReconcilerHooks NewReconciler) fuel n in
  let v' := view (get_world n') in
  (∃ m, v_branches v' !! "main" = Some m ∧
     (ancestor v' (fb_CommitHash fb) m ∨ ∀ a, ¬ (ancestor v' a m0 ∧ ancestor v' a m))) ∧
  (res = Ok false → v_branches v' !! "main" = Some m0).
Proof.
  pose proof (holds_syncOnce cfg n fb m0 Hw Hfb Hz Hm0 Hanc Hcausal fuel) as H. unfold holds in H.
  destruct (syncOnce _ _ _ n) as [res n']. by destruct H as [(_ & _ & H) Hr].
Qed.

(** ** Closed examples *)

Definition sync_node : Node toy :=
  mkNode (mkDB toy_repo (db_hlc toy_db) [] [])
    (mem_SetFinalizedBase (mkTime 5 0 0) toy_base NewMemoryCommitIndex) ∅ [] false.

Definition node_main {A} (p : result A * Node toy) : result A * option string :=
  (p.1, v_branches (t_view (get_world p.2)) !! "main").

Lemma sync_keeps_finalized_witness :
  let run := syncOnce toy_cfg (installReconcilerHooks NewReconciler) 20 sync_node in
  node_main run = (Ok true, Some (toy_hash 101)) ∧
  let '(res, n') := run in
  let v' := view (get_world n') in
  (∃ m, v_branches v' !! "main" = Some m ∧
     (ancestor v' (toy_hash 2) m ∨ ∀ a, ¬ (ancestor v' a (toy_hash 2) ∧ ancestor v' a m))) ∧
  (res = Ok false → v_branches v' !! "main" = Some (toy_hash 2)).
Proof.
  split; [vm_compute; reflexivity|].
  pose proof (sync_keeps_finalized toy_cfg 20 sync_node
    (mkBase (mkHLC 10 0 "p") (toy_hash 2) (mkTime 5 0 0)) (toy_hash 2)) as H.
  apply H.
  - exact toy_repo_wf.
  - vm_compute. reflexivity.
  - reflexivity.
  - vm_compute. reflexivity.
  - constructor.
  - exact toy_base_causal.
Defined.

(** Two unrelated histories: [main] is at the root commit 2, which is the
    finalized one; the remote is at the root 3. *)
Definition foreign_commits : gmap string (Commit * list string) :=
  <[toy_hash 2 := (toy_user_commit 2 10, [])]>
  (<[toy_hash 3 := (toy_user_commit 3 20, [])]> ∅).

Definition foreign_node : Node toy :=
  mkNode (mkDB (mkToy (mkView foreign_commits (own_trees foreign_commits) {["main" := toy_hash 2]}
                         {["remotes/swarm/main" := toy_hash 3]} ∅) "main" 100 1700000000 ∅)
            (db_hlc toy_db) [] [])
    (n_idx sync_node) ∅ [] false.

(** The exception of the previous property is real: when the remote shares
    no commit with [main], synchronization resets [main] to the remote head
    although the index holds a finalized base, which stays set and is then no
    longer part of the history of [main]. *)
Theorem bootstrap_drops_finalized :
  let '(res, n') := syncOnce toy_cfg (installReconcilerHooks NewReconciler) 20 foreign_node in
  (fb_CommitHash <$> mem_FinalizedBase (n_idx foreign_node)) = Some (toy_hash 2) ∧
  v_branches (view (get_world foreign_node)) !! "main" = Some (toy_hash 2) ∧
  res = Ok true ∧
  v_branches (view (get_world n')) !! "main" = Some (toy_hash 3) ∧
  (fb_CommitHash <$> mem_FinalizedBase (n_idx n')) = Some (toy_hash 2) ∧
  ¬ ancestor (view (get_world n')) (toy_hash 2) (toy_hash 3).
Proof.
  destruct (syncOnce _ _ _ foreign_node) as [res n'] eqn:E.
  assert (res = (syncOnce toy_cfg (installReconcilerHooks NewReconciler) 20 foreign_node).1) as ->
    by by rewrite E.
  assert (n' = (syncOnce toy_cfg (installReconcilerHooks NewReconciler) 20 foreign_node).2) as ->
    by by rewrite E.
  clear E.
  split; [vm_compute; reflexivity|]. split; [vm_compute; reflexivity|]. split; [vm_compute; reflexivity|].
  split; [vm_compute; reflexivity|]. split; [vm_compute; reflexivity|].
  assert (parents (view (get_world (syncOnce toy_cfg (installReconcilerHooks NewReconciler) 20
    foreign_node).2)) (toy_hash 3) = []) as Hp by (vm_compute; reflexivity).
  intros [Ha|(p & _ & Ha)]%rtc_inv_r; [vm_compute in Ha; discriminate Ha|].
  rewrite Hp in Ha. destruct (not_elem_of_nil _ Ha).
Qed.

(** The condition on timestamps is needed, and nothing in the code enforces
    it: [main] is the line 1, 2, 3, the base is commit 3 with the timestamp
    10, and its ancestors carry 30 and 31.  The remote shares history with
    [main] (commit 2 is in both).  The round reports a change, the base stays
    set, and the finalized commit is no longer part of [main]. *)
Definition late_node : Node toy :=
  mkNode (mkDB late_repo (db_hlc toy_db) [] [])
    (mem_SetFinalizedBase (mkTime 5 0 0) late_base NewMemoryCommitIndex) ∅ [] false.

Theorem late_ancestor_unfinalizes :
  let '(res, n') := syncOnce toy_cfg (installReconcilerHooks NewReconciler) 20 late_node in
  (fb_CommitHash <$> mem_FinalizedBase (n_idx n')) = Some (toy_hash 3) ∧
  v_branches (view (get_world late_node)) !! "main" = Some (toy_hash 3) ∧
  ancestor (view (get_world late_node)) (toy_hash 2) (toy_hash 3) ∧
  ancestor (view (get_world late_node)) (toy_hash 2) (toy_hash 5) ∧
  res = Ok true ∧
  v_branches (view (get_world n')) !! "main" = Some (toy_hash 104) ∧
  ¬ ancestor (view (get_world n')) (toy_hash 3) (toy_hash 104).
Proof.
  rewrite (surjective_pairing (syncOnce _ _ _ late_node)).
  split; [vm_compute; reflexivity|]. split; [vm_compute; reflexivity|].
  split; [apply (anc_sound 3); vm_compute; reflexivity|].
  split; [apply (anc_sound 3); vm_compute; reflexivity|].
  split; [vm_compute; reflexivity|]. split; [vm_compute; reflexivity|].
  apply (ancestor_closed_check _ (toy_hash <$> [104; 102; 100; 5; 4; 2; 1])).
  - vm_compute. reflexivity.
  - apply (bool_decide_eq_true_1 _). vm_compute. reflexivity.
  - apply (bool_decide_eq_false_1 _). vm_compute. reflexivity.
Qed.
