(* ===== verification/Rebuild.v ===== *)
(** * The rebuild of the index among other goroutines
    ([core/node.go]: [initIndexFromDB])

    [initIndexFromDB] runs in the synchronization loop.  It locks the index for
    each of its operations and not for the whole rebuild, so that the event
    loop and local commits may write to the index between any two of them.
    Below, the rebuild is a machine that does one operation of the index per
    step, and a run interleaves its steps with the writes of the others in any
    order. *)

From Stdlib Require Import ZArith Lia String Ascii.
From stdpp Require Import gmap strings list sorting pretty.
From S2P Require Import Prelude Hlc GoTime GoJson GoJsonFacts Metadata Sql Index Linearize Dolt ToyDolt Reconciler.
From S2P Require Import Walk Replay Db Node NodeFacts Sync.

Local Open Scope Z_scope.

(** ** The machine *)

(** Where the rebuild is: before [ListAfter], before the reset, before
    [GetAllCommits], in the loop over the commits, in the loop over the
    preserved entries (before [Get], and between [Get] and [Upsert]), or at its
    end. *)
Inductive phase :=
| PList
| PReset (preserved : list CommitIndexEntry)
| PLoad (preserved : list CommitIndexEntry)
| PIndex (todo : list Commit) (preserved : list CommitIndexEntry)
| PRestore (todo : list CommitIndexEntry)
| PPut (e : CommitIndexEntry) (todo : list CommitIndexEntry)
| PDone
| PFailed (err : string).

(** A write of another goroutine: an entry by [onCommitAd] or
    [publishLocalCommitAd], a base by [tryFinalize]. *)
Inductive write :=
| WUpsert (now : Time) (e : CommitIndexEntry)
| WBase (now : Time) (fb : FinalizedBase).

(** An operation of the rebuild, with the two readings of the clock that it may
    make, or a write of another goroutine. *)
Inductive op := Own (now now' : Time) | Other (w : write).

Definition user_hlc (c : Commit) : option HLCTimestamp :=
  match ParseCommitMetadata (c_Message c) with
  | Ok meta => if negb (String.eqb (Kind meta) CommitKindUser) then None else Some (meta_HLC meta)
  | _ => None
  end.

Definition is_preserved (e : CommitIndexEntry) : bool :=
  negb (bool_decide (e_Status e = CommitStatusApplied)) && negb (bool_decide (e_Status e = CommitStatusUnknown)).

Section machine.
Context `{R : GoRuntime} (commits : result (list Commit)).

Definition preserved_of (i : MemoryCommitIndex) : list CommitIndexEntry :=
  List.filter is_preserved (mem_ListAfter zero_HLC 0 i).

Definition own (now now' : Time) (s : MemoryCommitIndex * phase) : MemoryCommitIndex * phase :=
  let '(i, ph) := s in
  match ph with
  | PList => (i, PReset (preserved_of i))
  | PReset p => (resetForRebuild i, PLoad p)
  | PLoad p =>
      match commits with
      | Ok l => (i, PIndex l p)
      | Err e | Panic e => (i, PFailed e)
      end
  | PIndex [] p => (i, PRestore p)
  | PIndex (c :: l) p =>
      match user_hlc c with
      | Some h => (mem_Upsert now' (mkEntry h (c_Hash c) CommitStatusApplied zero_time now) i, PIndex l p)
      | None => (i, PIndex l p)
      end
  | PRestore [] => (i, PDone)
  | PRestore (e :: l) =>
      match mem_Get (e_HLC e) i with
      | Some cur => if bool_decide (e_Status cur = CommitStatusApplied) then (i, PRestore l) else (i, PPut e l)
      | None => (i, PPut e l)
      end
  | PPut e l => (mem_Upsert now' e i, PRestore l)
  | PDone | PFailed _ => s
  end.

Definition write_apply (w : write) (i : MemoryCommitIndex) : MemoryCommitIndex :=
  match w with
  | WUpsert now e => mem_Upsert now e i
  | WBase now fb => mem_SetFinalizedBase now fb i
  end.

Definition op_apply (s : MemoryCommitIndex * phase) (o : op) : MemoryCommitIndex * phase :=
  match o with
  | Own now now' => own now now' s
  | Other w => (write_apply w s.1, s.2)
  end.

Definition rebuild (ops : list op) (s : MemoryCommitIndex * phase) : MemoryCommitIndex * phase :=
  foldl op_apply s ops.

Lemma rebuild_app ops1 ops2 s : rebuild (ops1 ++ ops2) s = rebuild ops2 (rebuild ops1 s).
Proof. apply foldl_app. Qed.

Lemma rebuild_others ws i ph : rebuild (Other <$> ws) (i, ph) = (foldl (λ i w, write_apply w i) i ws, ph).
Proof. revert i. induction ws as [|w ws IH]; intros i; [done|]. apply IH. Qed.

(** *** It ends *)

Definition own_ops (ops : list op) : nat := length (List.filter (λ o, match o with Own _ _ => true | _ => false end) ops).

Definition ended (ph : phase) : bool := match ph with PDone | PFailed _ => true | _ => false end.

(** How many operations are left, when [n] commits will be loaded. *)
Definition left (n : nat) (ph : phase) : nat :=
  match ph with
  | PList => 0
  | PReset p => 4 + n + 2 * length p
  | PLoad p => 3 + n + 2 * length p
  | PIndex l p => 2 + length l + 2 * length p
  | PRestore l => 1 + 2 * length l
  | PPut _ l => 2 + 2 * length l
  | PDone | PFailed _ => 0
  end.

Definition loaded : nat := match commits with Ok l => length l | _ => 0 end.

Lemma own_left now now' i ph :
  ph ≠ PList → let s' := own now now' (i, ph) in s'.2 ≠ PList ∧ (ended s'.2 = true ∨ (left loaded s'.2 < left loaded ph)%nat).
Proof.
  unfold loaded. destruct ph as [|p|p|[|c l] p|[|e l]|e l| |err]; intros Hph; cbn; try done; try by (split; [done|]; auto; right; cbn; lia).
  - destruct commits; cbn; (split; [done|]); [right; lia|by left..].
  - destruct (user_hlc c); cbn; (split; [done|right; lia]).
  - destruct (mem_Get _ i) as [cur|]; [case_bool_decide|]; cbn; (split; [done|right; lia]).
Qed.

Lemma ended_stays ops i ph : ended ph = true → ended (rebuild ops (i, ph)).2 = true.
Proof.
  revert i ph. induction ops as [|[now now'|w] ops IH]; intros i ph Hph; [done|..]; cbn [rebuild foldl op_apply].
  - assert (own now now' (i, ph) = (i, ph)) as -> by (by destruct ph). by apply IH.
  - by apply IH.
Qed.

Lemma rebuild_left ops i ph :
  ph ≠ PList → (left loaded ph ≤ own_ops ops)%nat → ended ph = true ∨ ended (rebuild ops (i, ph)).2 = true.
Proof.
  revert i ph. induction ops as [|[now now'|w] ops IH]; intros i ph Hph Hle.
  - left. by destruct ph; cbn in Hle; try lia.
  - destruct (ended ph) eqn:He; [by left|right]. cbn [rebuild foldl op_apply].
    destruct (own_left now now' i ph Hph) as [Hne Hlt]. destruct (own now now' (i, ph)) as [i' ph']. cbn [snd] in Hne, Hlt.
    destruct Hlt as [Hlt|Hlt]; [by apply ended_stays|]. destruct (IH i' ph' Hne) as [?|?]; [|by apply ended_stays|done].
    unfold own_ops in Hle. cbn in Hle. unfold own_ops. lia.
  - cbn [rebuild foldl op_apply]. by apply IH.
Qed.
End machine.

(** ** What a rebuild leaves, whatever the others write *)

Definition wrote (h : HLCTimestamp) (ws : list write) : Prop := ∃ now e, WUpsert now e ∈ ws ∧ e_HLC e = h.

Definition writes (ops : list op) : list write := omap (λ o, match o with Other w => Some w | _ => None end) ops.

Section interleaved.
Context `{R : GoRuntime} (l : list Commit) (p : list CommitIndexEntry).
Context (Hp : ∀ e1 e2, e1 ∈ p → e2 ∈ p → e_HLC e1 = e_HLC e2 → e1 = e2).
Context (Hps : ∀ e, e ∈ p → e_Status e ≠ CommitStatusApplied).

(** The timestamp of a user commit in the history. *)
Definition in_history (h : HLCTimestamp) : Prop := ∃ c, c ∈ l ∧ user_hlc c = Some h.

(** Where an entry may come from, when the others wrote [ws] since the reset. *)
Definition origin (ws : list write) (h : HLCTimestamp) (e : CommitIndexEntry) : Prop :=
  (∃ now e0, WUpsert now e0 ∈ ws ∧ e_HLC e0 = h ∧ e = stamp_entry now e0) ∨
  (∃ c, c ∈ l ∧ user_hlc c = Some h ∧ e_CommitHash e = c_Hash c ∧ e_Status e = CommitStatusApplied) ∨
  (∃ now e0, e0 ∈ p ∧ e_HLC e0 = h ∧ e = stamp_entry now e0).

Definition indexed (i : MemoryCommitIndex) (ws : list write) (c : Commit) : Prop :=
  ∀ h, user_hlc c = Some h → ∃ e, mem_Get h i = Some e ∧ (¬ wrote h ws → e_Status e = CommitStatusApplied).

Definition restored (i : MemoryCommitIndex) (ws : list write) (e : CommitIndexEntry) : Prop :=
  ∃ e', mem_Get (e_HLC e) i = Some e' ∧
    (¬ wrote (e_HLC e) ws → ¬ in_history (e_HLC e) → e_Status e' = e_Status e).

Definition phase_ok (i : MemoryCommitIndex) (ws : list write) (ph : phase) : Prop :=
  match ph with
  | PList | PReset _ | PFailed _ => False
  | PLoad p' => p' = p
  | PIndex todo p' => p' = p ∧ todo ⊆ l ∧ ∀ c, c ∈ l → c ∈ todo ∨ indexed i ws c
  | PRestore todo => todo ⊆ p ∧ (∀ c, c ∈ l → indexed i ws c) ∧ ∀ e, e ∈ p → e ∈ todo ∨ restored i ws e
  | PPut e todo =>
      e ∈ p ∧ todo ⊆ p ∧ (∀ c, c ∈ l → indexed i ws c) ∧
      (¬ wrote (e_HLC e) ws → ¬ in_history (e_HLC e)) ∧ ∀ e', e' ∈ p → e' = e ∨ e' ∈ todo ∨ restored i ws e'
  | PDone => (∀ c, c ∈ l → indexed i ws c) ∧ ∀ e, e ∈ p → restored i ws e
  end.

Record rebuilding (ws : list write) (s : MemoryCommitIndex * phase) : Prop := {
  rb_origin : ∀ h e, mem_Get h s.1 = Some e → origin ws h e;
  rb_wrote : ∀ h, wrote h ws → is_Some (mem_Get h s.1);
  rb_phase : phase_ok s.1 ws s.2;
}.

Lemma wrote_app h ws w : wrote h ws → wrote h (ws ++ [w]).
Proof. intros (now & e & Hin & ?). exists now, e. set_solver. Qed.

Lemma origin_app ws w h e : origin ws h e → origin (ws ++ [w]) h e.
Proof. intros [(now & e0 & ?)|?]; [left; exists now, e0; set_solver|by right]. Qed.

Lemma indexed_upsert i ws ws' now e0 c :
  indexed i ws c → (∀ h, wrote h ws → wrote h ws') →
  (∀ h, user_hlc c = Some h → e_HLC e0 = h → ¬ wrote h ws' → e_Status e0 = CommitStatusApplied) →
  indexed (mem_Upsert now e0 i) ws' c.
Proof.
  intros Hc Hw He h Hh. rewrite mem_Get_Upsert. case_decide as Ed.
  - eexists. split; [done|]. rewrite stamp_entry_Status. by apply (He h).
  - destruct (Hc h Hh) as (e & Hg & Ha). exists e. split; [done|]. naive_solver.
Qed.

Lemma restored_upsert i ws ws' now e0 e :
  restored i ws e → (∀ h, wrote h ws → wrote h ws') →
  (e_HLC e0 = e_HLC e → ¬ wrote (e_HLC e) ws' → ¬ in_history (e_HLC e) → e_Status e0 = e_Status e) →
  restored (mem_Upsert now e0 i) ws' e.
Proof.
  intros (e1 & Hg & Ha) Hw He. unfold restored. rewrite mem_Get_Upsert. case_decide as Ed.
  - eexists. split; [done|]. rewrite stamp_entry_Status. by apply He.
  - exists e1. split; [done|]. naive_solver.
Qed.

(** A write of another goroutine keeps everything. *)
Lemma rebuilding_other ws w i ph : rebuilding ws (i, ph) → rebuilding (ws ++ [w]) (write_apply w i, ph).
Proof.
  intros [Ho Hw Hph]. cbn [fst snd] in *. destruct w as [now e0|now fb].
  - assert (wrote (e_HLC e0) (ws ++ [WUpsert now e0])) as Hwe by (exists now, e0; set_solver).
    assert (∀ c, indexed i ws c → indexed (mem_Upsert now e0 i) (ws ++ [WUpsert now e0]) c) as Hix.
    { intros c Hc. eapply indexed_upsert; [done|intros; by apply wrote_app|]. by intros h _ <-. }
    assert (∀ e, restored i ws e → restored (mem_Upsert now e0 i) (ws ++ [WUpsert now e0]) e) as Hrs.
    { intros e Hc. eapply restored_upsert; [done|intros; by apply wrote_app|]. by intros <-. }
    split; cbn [fst snd write_apply].
    + intros h e. rewrite mem_Get_Upsert. case_decide as Ed; [|intros; by apply origin_app, Ho].
      intros [= <-]. left. exists now, e0. set_solver.
    + intros h (now' & e & Hin & Eh). rewrite mem_Get_Upsert. case_decide; [done|].
      apply Hw. exists now', e. split; [|done]. apply elem_of_app in Hin as [?|[= -> ->]%list_elem_of_singleton]; done.
    + destruct ph as [|q|q|todo q|todo|e todo| |err]; cbn [phase_ok] in *; [done..| | | | |done].
      * naive_solver.
      * naive_solver.
      * destruct Hph as (? & ? & ? & Hn & ?). split_and!; [done..|naive_solver|intros Hnw; apply Hn; by intros ?%(wrote_app _ _ (WUpsert now e0))|naive_solver].
      * naive_solver.
  - assert (∀ h, mem_Get h (mem_SetFinalizedBase now fb i) = mem_Get h i) as Hg.
    { intros h. unfold mem_SetFinalizedBase. by case_match. }
    assert (∀ h, wrote h (ws ++ [WBase now fb]) ↔ wrote h ws) as Hiff.
    { intros h. split; [|apply wrote_app]. intros (now' & e & Hin & Eh). exists now', e. set_solver. }
    split; cbn [fst snd write_apply].
    + intros h e. rewrite Hg. intros. by apply origin_app, Ho.
    + intros h. rewrite Hg, Hiff. apply Hw.
    + destruct ph; cbn [phase_ok] in *; unfold indexed, restored in *; try setoid_rewrite Hg; try setoid_rewrite Hiff; done.
Qed.

(** An operation of the rebuild. *)
Lemma rebuilding_upsert ws i now e0 :
  (∀ h e, mem_Get h i = Some e → origin ws h e) → (∀ h, wrote h ws → is_Some (mem_Get h i)) →
  origin ws (e_HLC e0) (stamp_entry now e0) →
  (∀ h e, mem_Get h (mem_Upsert now e0 i) = Some e → origin ws h e) ∧
  (∀ h, wrote h ws → is_Some (mem_Get h (mem_Upsert now e0 i))).
Proof.
  intros Ho Hw H0. split; intros h; rewrite mem_Get_Upsert; case_decide as Ed; subst; [|by apply Ho|done|by apply Hw].
  by intros e [= <-].
Qed.

Lemma rebuilding_own ws now now' s : rebuilding ws s → rebuilding ws (own (Ok l) now now' s).
Proof.
  destruct s as [i ph]. intros [Ho Hw Hph]. cbn [fst snd] in *.
  destruct ph as [|q|q|[|c todo] q|[|e todo]|e todo| |err]; cbn [phase_ok] in Hph; cbn [own]; try done.
  - subst q. split; cbn; [done..|]. split_and!; [done|set_solver|auto].
  - destruct Hph as (-> & _ & Hl). split; cbn; [done..|]. split_and!; [done| |auto].
    intros c Hc. destruct (Hl c Hc) as [Hin|?]; [by apply not_elem_of_nil in Hin|done].
  - destruct Hph as (-> & Hsub & Hl). destruct (user_hlc c) as [h|] eqn:Eh.
    + set (e0 := mkEntry h (c_Hash c) CommitStatusApplied zero_time now).
      destruct (rebuilding_upsert ws i now' e0 Ho Hw) as [H1 H2].
      { right. left. exists c. rewrite stamp_entry_Status, stamp_entry_CommitHash. split_and!; [set_solver|done..]. }
      split; cbn [fst snd]; [done..|]. cbn. split_and!; [done|set_solver|]. intros c' Hc'.
      assert (∀ c2, indexed i ws c2 → indexed (mem_Upsert now' e0 i) ws c2) as Hst
        by (intros c2 H; eapply indexed_upsert; [done|done|done]).
      destruct (Hl c' Hc') as [[->|?]%elem_of_cons|?]; [right|by left|right; auto].
      intros h' Hh'. rewrite Eh in Hh'. injection Hh' as <-. rewrite mem_Get_Upsert, decide_True by done.
      eexists. split; [done|]. by rewrite stamp_entry_Status.
    + split; cbn; [done..|]. split_and!; [done|set_solver|]. intros c' Hc'.
      destruct (Hl c' Hc') as [[->|?]%elem_of_cons|?]; [right|by left|by right]. intros h Hh. congruence.
  - destruct Hph as (_ & Hl & Hr). split; cbn; [done..|]. split; [done|]. intros e He.
    destruct (Hr e He) as [Hin|?]; [by apply not_elem_of_nil in Hin|done].
  - destruct Hph as (Hsub & Hl & Hr).
    assert (∀ e', e' ∈ p → e' = e ∨ e' ∈ todo ∨ restored i ws e') as Hr' by (intros e' He'; destruct (Hr e' He'); set_solver).
    assert ((∀ cur, mem_Get (e_HLC e) i = Some cur → e_Status cur ≠ CommitStatusApplied) → rebuilding ws (i, PPut e todo)) as Hput.
    { intros Hna. split; cbn; [done..|]. split_and!; [set_solver|set_solver|done| |done].
      intros Hnw (c & Hc & Hh). destruct (Hl c Hc _ Hh) as (cur & Hg & Ha). by destruct (Hna cur Hg), (Ha Hnw). }
    destruct (mem_Get (e_HLC e) i) as [cur|] eqn:Hg; [|by apply Hput].
    case_bool_decide as Hc; [|apply Hput; by intros ? [= <-]].
    split; cbn; [done..|]. split_and!; [set_solver|done|]. intros e' He'.
    destruct (Hr' e' He') as [->|[?|?]]; [right|by left|by right].
    exists cur. split; [done|]. intros Hnw Hnh. exfalso.
    destruct (Ho _ _ Hg) as [(now0 & e1 & Hin & Eh & _)|[(c & Hc1 & Hc2 & _)|(now0 & e1 & Hin & Eh & ->)]].
    + apply Hnw. by exists now0, e1.
    + apply Hnh. by exists c.
    + rewrite stamp_entry_Status in Hc. by destruct (Hps e1 Hin).
  - destruct Hph as (He & Hsub & Hl & Hn & Hr).
    destruct (rebuilding_upsert ws i now' e Ho Hw) as [H1 H2]. { right. right. by exists now', e. }
    split; cbn [fst snd]; [done..|]. cbn. split_and!; [done| |].
    + intros c Hc. eapply indexed_upsert; [by apply Hl|done|]. intros h Hh <- Hnw. destruct (Hn Hnw). by exists c.
    + intros e' He'. destruct (Hr e' He') as [->|[?|?]]; [right|by left|right].
      * exists (stamp_entry now' e). rewrite mem_Get_Upsert, decide_True by done. split; [done|]. by rewrite stamp_entry_Status.
      * eapply restored_upsert; [done|done|]. intros Eh _ _. by rewrite (Hp e e').
Qed.
End interleaved.

(** ** Properties *)

Section properties.
Context `{R : GoRuntime}.

Lemma elem_of_preserved i e :
  mem_inv i →
  e ∈ preserved_of i ↔ mem_Get (e_HLC e) i = Some e ∧ hlc_lt zero_HLC (e_HLC e) ∧ is_preserved e = true.
Proof.
  intros Hi. unfold preserved_of. rewrite list_elem_of_In, filter_In, <-list_elem_of_In, mem_ListAfter_0.
  rewrite elem_of_mem_listing by done. tauto.
Qed.

Lemma preserved_unique i e1 e2 :
  mem_inv i → e1 ∈ preserved_of i → e2 ∈ preserved_of i → e_HLC e1 = e_HLC e2 → e1 = e2.
Proof. intros Hi. rewrite !elem_of_preserved by done. intros [H1 _] [H2 _] E. rewrite E in H1. congruence. Qed.

Lemma preserved_not_applied i e : mem_inv i → e ∈ preserved_of i → e_Status e ≠ CommitStatusApplied.
Proof.
  intros Hi (_ & _ & Hs)%elem_of_preserved; [|done]. unfold is_preserved in Hs. by case_bool_decide.
Qed.

(** The state right after the reset. *)
Lemma rebuilding_reset l p i : rebuilding l p [] (resetForRebuild i, PLoad p).
Proof.
  assert (∀ h, mem_Get h (resetForRebuild i) = None) as Hn by (intros; apply lookup_empty).
  split; cbn [fst snd]; [intros h e; by rewrite Hn|intros h (? & ? & Hin & _); by apply not_elem_of_nil in Hin|done].
Qed.

Lemma rebuilding_ops l p ws ops s :
  (∀ e1 e2, e1 ∈ p → e2 ∈ p → e_HLC e1 = e_HLC e2 → e1 = e2) → (∀ e, e ∈ p → e_Status e ≠ CommitStatusApplied) →
  rebuilding l p ws s → rebuilding l p (ws ++ writes ops) (rebuild (Ok l) ops s).
Proof.
  intros Hp Hps. revert ws s. induction ops as [|[now now'|w] ops IH]; intros ws [i ph] Hs; cbn [rebuild foldl op_apply].
  - by rewrite app_nil_r.
  - apply IH. by apply rebuilding_own.
  - specialize (IH (ws ++ [w])). rewrite <-app_assoc in IH. apply IH. by apply rebuilding_other.
Qed.

Lemma base_from_ops cs b ops s : base_from b s.1 → base_from b (rebuild cs ops s).1.
Proof.
  revert s. induction ops as [|o ops IH]; intros [i ph] Hb; [done|]. apply IH. clear IH. cbn [fst] in Hb.
  destruct o as [now now'|[now e|now fb]]; cbn [op_apply write_apply fst snd];
    [|by apply base_from_Upsert|by apply base_from_Set].
  destruct ph as [|q|q|[|c l] q|[|e l]|e l| |err]; cbn; try done.
  - by apply base_from_reset.
  - by destruct cs.
  - destruct (user_hlc c); [by apply base_from_Upsert|done].
  - destruct (mem_Get _ i); [case_bool_decide|]; done.
  - by apply base_from_Upsert.
Qed.

Lemma rebuilt t t' mid u u' after l i0 i :
  mem_inv i0 → rebuild (Ok l) (Own t t' :: (Other <$> mid) ++ Own u u' :: after) (i0, PList) = (i, PDone) →
  rebuilding l (preserved_of i0) (writes after) (i, PDone).
Proof.
  intros Hi. change (rebuild (Ok l) ((Other <$> mid) ++ Own u u' :: after) (i0, PReset (preserved_of i0)) = (i, PDone) → rebuilding l (preserved_of i0) (writes after) (i, PDone)).
  rewrite rebuild_app, rebuild_others.
  set (i1 := foldl _ i0 mid). change (rebuild (Ok l) after (resetForRebuild i1, PLoad (preserved_of i0)) = (i, PDone) → rebuilding l (preserved_of i0) (writes after) (i, PDone)).
  intros <-. apply (rebuilding_ops l _ []).
  - intros. by eapply preserved_unique.
  - intros. by eapply preserved_not_applied.
  - apply rebuilding_reset.
Qed.

(** C16. A rebuild of the index is safe among other goroutines, whose writes may
    fall between any two of its operations.  When it is done: every user commit
    of the history has an entry, and counts as applied unless another
    goroutine wrote to its timestamp since the reset; every entry that was to
    be preserved has one, with its status unless the commit is in the history
    or another goroutine wrote to it; what the others wrote since the reset has
    one; there are no entries but these; and the finalized base has not moved
    back. *)
Theorem rebuild_interleaved (t t' u u' : Time) (mid : list write) (after : list op) (l : list Commit)
    (i0 i : MemoryCommitIndex)
  (Hi : mem_inv i0)
  (Hrun : rebuild (Ok l) (Own t t' :: (Other <$> mid) ++ Own u u' :: after) (i0, PList) = (i, PDone)) :
  let ws := writes after in
  (∀ c h, c ∈ l → user_hlc c = Some h →
     ∃ e, mem_Get h i = Some e ∧ (¬ wrote h ws → e_Status e = CommitStatusApplied)) ∧
  (∀ e, mem_Get (e_HLC e) i0 = Some e → hlc_lt zero_HLC (e_HLC e) → is_preserved e = true →
     ∃ e', mem_Get (e_HLC e) i = Some e' ∧
       (¬ wrote (e_HLC e) ws → ¬ in_history l (e_HLC e) → e_Status e' = e_Status e)) ∧
  (∀ h, wrote h ws → is_Some (mem_Get h i)) ∧
  (∀ h e, mem_Get h i = Some e → origin l (preserved_of i0) ws h e) ∧
  (∀ b, mem_FinalizedBase i0 = Some b →
     ∃ b', mem_FinalizedBase i = Some b' ∧ (b' = b ∨ hlc_lt (fb_HLC b) (fb_HLC b'))).
Proof.
  destruct (rebuilt t t' mid u u' after l i0 i Hi Hrun) as [Ho Hw [Hc He]]. cbn [fst snd] in *. split_and!.
  - intros c h Hin Hh. by apply (Hc c Hin).
  - intros e Hg Hz Hs. apply He. by apply elem_of_preserved.
  - done.
  - done.
  - intros b Hb. change i with (i, PDone).1. rewrite <-Hrun. apply base_from_ops. split; [done|]. eauto.
Qed.

(** The rebuild ends, whatever the others do meanwhile: after it has listed
    the index, four operations, one more per commit and two more per preserved
    entry are enough. *)
Theorem rebuild_ends (commits : result (list Commit)) (t t' : Time) (ops : list op) (i : MemoryCommitIndex)
  (Hops : (4 + loaded commits + 2 * length (preserved_of i) ≤ own_ops ops)%nat) :
  ended (rebuild commits (Own t t' :: ops) (i, PList)).2 = true.
Proof. destruct (rebuild_left commits ops i (PReset (preserved_of i))) as [H|H]; done. Qed.

(** An entry that another goroutine writes between the listing and the reset is
    lost, although entries that are not applied are meant to be preserved. *)
Theorem rebuild_forgets (t t' u u' : Time) (mid : list write) (after : list op) (l : list Commit)
    (i0 i : MemoryCommitIndex) (h : HLCTimestamp) :
  mem_inv i0 → rebuild (Ok l) (Own t t' :: (Other <$> mid) ++ Own u u' :: after) (i0, PList) = (i, PDone) →
  mem_Get h i0 = None → ¬ in_history l h → ¬ wrote h (writes after) → mem_Get h i = None.
Proof.
  intros Hi Hrun Hg Hh Hw. destruct (mem_Get h i) as [e|] eqn:E; [|done]. exfalso.
  destruct (rb_origin _ _ _ _ (rebuilt t t' mid u u' after l i0 i Hi Hrun) h e E)
    as [(now & e0 & Hin & Eh & _)|[(c & Hc & Hu & _)|(now & e0 & Hin & Eh & _)]].
  - apply Hw. by exists now, e0.
  - apply Hh. by exists c.
  - apply elem_of_preserved in Hin as [Hin _]; [|done]. rewrite Eh in Hin. congruence.
Qed.
End properties.

(** ** The rebuild on its own *)

Section alone.
Context {W : Type} `{D : Dolt W, !DoltLaws W} `{R : GoRuntime} (commits : result (list Commit)).

(** Operations of the rebuild only. *)
Definition own_run (times : list (Time * Time)) : list op := (λ t, Own t.1 t.2) <$> times.

Lemma own_run_app ts1 ts2 s :
  rebuild commits (own_run (ts1 ++ ts2)) s = rebuild commits (own_run ts2) (rebuild commits (own_run ts1) s).
Proof. unfold own_run. by rewrite fmap_app, rebuild_app. Qed.

Lemma upsert_clock e (n : Node W) : ∃ now n', Upsert e n = (Ok tt, n') ∧ n_idx n' = mem_Upsert now e (n_idx n).
Proof.
  unfold Upsert. destruct (run_time n (λ now, modify (λ n, with_idx (mem_Upsert now e (n_idx n)) n))) as (t & w & ->).
  by eexists t, _.
Qed.

Lemma index_commit_own c (n : Node W) l p :
  ∃ n' now now', index_commit c n = (Ok tt, n') ∧
    own commits now now' (n_idx n, PIndex (c :: l) p) = (n_idx n', PIndex l p).
Proof.
  unfold index_commit. cbn [own]. unfold user_hlc. destruct (ParseCommitMetadata _) as [meta|e|e];
    [|by exists n, zero_time, zero_time..].
  destruct (negb _); [by exists n, zero_time, zero_time|]. unfold UpsertStatus.
  destruct (run_time n (λ now, Upsert (mkEntry (meta_HLC meta) (c_Hash c) CommitStatusApplied zero_time now)))
    as (now & w & ->).
  destruct (upsert_clock (mkEntry (meta_HLC meta) (c_Hash c) CommitStatusApplied zero_time now) (set_world w n))
    as (now' & n' & -> & Hidx).
  exists n', now, now'. split; [done|]. by rewrite Hidx.
Qed.

Lemma index_all_own l (n : Node W) p :
  ∃ n' ts, for_each index_commit l n = (Ok tt, n') ∧
    rebuild commits (own_run ts) (n_idx n, PIndex l p) = (n_idx n', PRestore p).
Proof.
  revert n. induction l as [|c l IH]; intros n; cbn [for_each].
  { exists n, [(zero_time, zero_time)]. done. }
  destruct (index_commit_own c n l p) as (n1 & now & now' & E & Ho). unfold bind. rewrite E.
  destruct (IH n1) as (n2 & ts & -> & Hts). exists n2, ((now, now') :: ts). split; [done|].
  cbn [own_run fmap list_fmap rebuild foldl op_apply fst snd]. by rewrite Ho.
Qed.

Lemma restore_all_own l (n : Node W) :
  ∃ n' ts, for_each restore_entry l n = (Ok tt, n') ∧
    rebuild commits (own_run ts) (n_idx n, PRestore l) = (n_idx n', PDone).
Proof.
  revert n. induction l as [|e l IH]; intros n; cbn [for_each].
  { exists n, [(zero_time, zero_time)]. done. }
  destruct (upsert_clock e n) as (now & nu & Eu & Hu).
  assert (∃ n1 ts, restore_entry e n = (Ok tt, n1) ∧
    rebuild commits (own_run ts) (n_idx n, PRestore (e :: l)) = (n_idx n1, PRestore l)) as (n1 & ts1 & E1 & H1).
  { unfold restore_entry, bind, gets, id. cbn [fst snd].
    destruct (mem_Get (e_HLC e) (n_idx n)) as [cur|] eqn:Hg; [case_bool_decide as Hc|].
    - exists n, [(zero_time, zero_time)]. split; [done|]. cbn. by rewrite Hg, bool_decide_true.
    - exists nu, [(zero_time, zero_time); (now, now)]. split; [done|].
      cbn. by rewrite Hg, bool_decide_false, Hu.
    - exists nu, [(zero_time, zero_time); (now, now)]. split; [done|]. cbn. by rewrite Hg, Hu. }
  unfold bind. rewrite E1. destruct (IH n1) as (n2 & ts2 & -> & H2). exists n2, (ts1 ++ ts2). split; [done|].
  by rewrite own_run_app, H1.
Qed.
End alone.

Lemma GetAllCommits_idx {W : Type} `{D : Dolt W} `{R : GoRuntime} fuel (n : Node W) :
  n_idx (GetAllCommits fuel n).2 = n_idx n.
Proof.
  pose proof (keeps_getCommitsSince (W:=W) (λ i _, i = n_idx n) fuel pool "main" "") as Hk.
  unfold GetAllCommits, bind, attempt, wrap_err. specialize (Hk n eq_refl).
  destruct (getCommitsSince fuel pool "main" "" n) as [[out|e1|e1] n2]; cbn in Hk |- *; [done| |done].
  pose proof (keeps_lift (W:=W) (λ i _, i = n_idx n) (query pool (QLog "main")) n2 Hk) as Hq.
  by destruct (lift (query pool (QLog "main")) n2) as [[rows|e2|e2] n3]; cbn in Hq |- *.
Qed.

(** Undisturbed, the machine is [initIndexFromDB]: it goes through the same
    index and ends the same way, also when the commits cannot be read. *)
Theorem rebuild_alone {W : Type} `{D : Dolt W, !DoltLaws W} `{R : GoRuntime} (fuel : nat) (n : Node W) :
  let commits := (GetAllCommits fuel (with_idx (resetForRebuild (n_idx n)) n)).1 in
  ∃ times, rebuild commits (own_run times) (n_idx n, PList) =
    (n_idx (initIndexFromDB fuel n).2,
     match (initIndexFromDB fuel n).1 with Ok _ => PDone | Err e | Panic e => PFailed e end).
Proof.
  cbv zeta. set (n0 := with_idx _ n). pose proof (GetAllCommits_idx fuel n0) as Hidx.
  set (z := (zero_time, zero_time)).
  unfold initIndexFromDB, bind, gets, id, modify. cbn [fst snd]. fold is_preserved. change (with_idx _ n) with n0.
  destruct (GetAllCommits fuel n0) as [[l|e|e] n1]; cbn [fst snd] in *.
  - set (p := List.filter _ _). destruct (index_all_own (Ok l) l n1 p) as (n2 & ts & -> & H2).
    destruct (restore_all_own (Ok l) p n2) as (n3 & ts' & -> & H3).
    exists ([z; z; z] ++ ts ++ ts'). rewrite !own_run_app.
    assert (rebuild (Ok l) (own_run [z; z; z]) (n_idx n, PList) = (n_idx n1, PIndex l p)) as -> by (by rewrite Hidx).
    by rewrite H2, H3.
  - exists [z; z; z]. by rewrite Hidx.
  - exists [z; z; z]. by rewrite Hidx.
Qed.

Lemma writes_own times : writes (own_run times) = [].
Proof. induction times as [|t times IH]; [done|]. exact IH. Qed.

Lemma not_wrote h : ¬ wrote h [].
Proof. intros (? & ? & Hin & _). by apply not_elem_of_nil in Hin. Qed.

(** The status that a rebuild gives back to a timestamp that is not in the
    history: the one it had, if it was neither applied nor unknown. *)
Definition preserved_status (h : HLCTimestamp) (i : MemoryCommitIndex) : option CommitStatus :=
  match mem_Get h i with
  | Some e => if Less zero_HLC h && is_preserved e then Some (e_Status e) else None
  | None => None
  end.

Lemma rebuilding_exact `{R : GoRuntime} l i0 i h :
  mem_inv i0 → rebuilding l (preserved_of i0) [] (i, PDone) →
  (in_history l h → e_Status <$> mem_Get h i = Some CommitStatusApplied) ∧
  (¬ in_history l h → e_Status <$> mem_Get h i = preserved_status h i0).
Proof.
  intros Hi [Ho _ [Hc He]]. cbn [fst snd] in *. split.
  { intros (c & Hin & Hh). destruct (Hc c Hin h Hh) as (e & -> & Hs). cbn. f_equal. apply Hs, not_wrote. }
  intros Hno. unfold preserved_status.
  assert (∀ e, mem_Get h i = Some e → ∃ e1, mem_Get h i0 = Some e1 ∧ hlc_lt zero_HLC h ∧ is_preserved e1 = true) as Hor.
  { intros e Hg. destruct (Ho h e Hg) as [(? & e1 & Hin & Eh & _)|[(c & Hin & Hh & _)|(? & e1 & Hin & Eh & _)]].
    - destruct (not_wrote h). by eexists _, e1.
    - destruct Hno. by exists c.
    - apply elem_of_preserved in Hin as (Hg1 & Hz & Hp); [|done]. rewrite Eh in Hg1, Hz. by exists e1. }
  destruct (mem_Get h i0) as [e0|] eqn:Hg0.
  2:{ destruct (mem_Get h i) as [e|] eqn:Hg; [|done]. destruct (Hor e eq_refl) as (? & ? & _). done. }
  assert (e_HLC e0 = h) as Eh by (apply (inj hlc_String); symmetry; by apply (Hi (hlc_String h) e0)).
  destruct (Less zero_HLC h && is_preserved e0) eqn:Hp.
  - apply andb_prop in Hp as [Hz Hp]. apply Less_spec in Hz.
    destruct (He e0) as (e' & Hg & Hs); [apply elem_of_preserved; rewrite ?Eh; done|].
    rewrite Eh in Hg, Hs. rewrite Hg. cbn. f_equal. apply Hs; [apply not_wrote|done].
  - destruct (mem_Get h i) as [e|] eqn:Hg; [|done]. destruct (Hor e eq_refl) as (e1 & [= <-] & Hz & Hp1).
    apply Less_spec in Hz. by rewrite Hz, Hp1 in Hp.
Qed.

Lemma init_ok {W : Type} `{D : Dolt W, !DoltLaws W} `{R : GoRuntime} (fuel : nat) (n n1 : Node W) l :
  GetAllCommits fuel (with_idx (resetForRebuild (n_idx n)) n) = (Ok l, n1) →
  is_ok (initIndexFromDB fuel n).1 = true.
Proof.
  intros Hl. unfold initIndexFromDB, bind, gets, id, modify. cbn [fst snd]. rewrite Hl.
  set (p := List.filter _ _). destruct (index_all_own (Ok l) l n1 p) as (n2 & ts & -> & _).
  by destruct (restore_all_own (Ok l) p n2) as (n3 & ts' & -> & _).
Qed.

(** C17. What a rebuild of the index does when nothing else writes to it and
    the commits of [main] can be read: it succeeds, every user commit of the
    list counts as applied, any other timestamp is back at the status it had
    when that was neither applied nor unknown (and the timestamp is a proper
    one), no other entry is left, and the finalized base is the same. *)
Theorem initIndexFromDB_exact {W : Type} `{D : Dolt W, !DoltLaws W} `{R : GoRuntime} (fuel : nat)
    (n n1 : Node W) (l : list Commit)
  (Hi : mem_inv (n_idx n))
  (Hl : GetAllCommits fuel (with_idx (resetForRebuild (n_idx n)) n) = (Ok l, n1)) :
  let '(r, n') := initIndexFromDB fuel n in
  r = Ok tt ∧
  (∀ h, (in_history l h → status_of h n' = Some CommitStatusApplied) ∧
        (¬ in_history l h → status_of h n' = preserved_status h (n_idx n))) ∧
  mem_FinalizedBase (n_idx n') = mem_FinalizedBase (n_idx n).
Proof.
  destruct (rebuild_alone fuel n) as (times & Hrun). rewrite Hl in Hrun. cbn [fst] in Hrun.
  pose proof (keeps_initIndexFromDB (W:=W) (λ i _, mem_FinalizedBase i = mem_FinalizedBase (n_idx n))
    (λ _ _ _ _ H, H) (λ _ _ H, H) fuel n eq_refl) as Hb.
  assert (is_ok (initIndexFromDB fuel n).1 = true) as Hok by (by eapply init_ok).
  destruct (initIndexFromDB fuel n) as [[[]|e|e] n']; [|done..]. cbn [fst snd] in *.
  split; [done|]. split; [|done]. intros h.
  destruct times as [|[t t'] [|[u u'] times]]; [done..|].
  apply (rebuilt t t' [] u u' (own_run times) l) in Hrun; [|done]. rewrite writes_own in Hrun.
  exact (rebuilding_exact l (n_idx n) (n_idx n') h Hi Hrun).
Qed.

(** ** Examples *)

Definition example_commit : Commit :=
  mkCommit "h1" "" "" zero_time (match Marshal example_meta with Ok s => s | _ => "" end).

Definition ad_entry (wall : Z) : CommitIndexEntry := mkEntry (mkHLC wall 0 "b") "" CommitStatusPending zero_time (mkTime wall 0 0).

(** One advertisement is pending before the rebuild; one arrives before the
    reset and one while the commits are indexed. *)
Definition example_index : MemoryCommitIndex := mem_Upsert zero_time (ad_entry 1) NewMemoryCommitIndex.
Definition example_after : list op :=
  [Own zero_time zero_time; Other (WUpsert zero_time (ad_entry 3)); Own zero_time zero_time; Own zero_time zero_time;
   Own zero_time zero_time; Own zero_time zero_time; Own zero_time zero_time].
Definition example_rebuild : MemoryCommitIndex * phase :=
  rebuild (Ok [example_commit])
    (Own zero_time zero_time :: (Other <$> [WUpsert zero_time (ad_entry 2)]) ++ Own zero_time zero_time :: example_after)
    (example_index, PList).

Lemma example_index_inv : mem_inv example_index.
Proof. apply mem_inv_Upsert, mem_inv_new. Qed.

Lemma rebuild_interleaved_witness :
  example_rebuild.2 = PDone ∧
  mem_Get (mkHLC 2 0 "b") example_rebuild.1 = None ∧
  (∃ e', mem_Get (mkHLC 1 0 "b") example_rebuild.1 = Some e') ∧
  is_Some (mem_Get (mkHLC 3 0 "b") example_rebuild.1).
Proof.
  destruct (rebuild_interleaved zero_time zero_time zero_time zero_time [WUpsert zero_time (ad_entry 2)]
    example_after [example_commit] example_index example_rebuild.1 example_index_inv) as (_ & Hp & Hw & _).
  { vm_compute. reflexivity. }
  split; [vm_compute; reflexivity|]. split; [vm_compute; reflexivity|]. split.
  - destruct (Hp (ad_entry 1)) as (e' & He & _); [vm_compute; reflexivity|by apply Less_spec; vm_compute|vm_compute; reflexivity|].
    by exists e'.
  - apply Hw. exists zero_time, (ad_entry 3). split; [|done]. vm_compute. left.
Defined.

Lemma rebuild_ends_witness :
  ended (rebuild (Ok [example_commit]) (Own zero_time zero_time :: Own zero_time zero_time :: example_after) (example_index, PList)).2 = true.
Proof. apply rebuild_ends. vm_compute. lia. Defined.

(** [main] has the user commit 2; one advertisement is pending. *)
Definition rebuild_node : Node toy := mkNode (n_db sync_node) example_index ∅ [] false.
Definition rebuild_history : list Commit :=
  [toy_user_commit 2 10; mkCommit (toy_hash 1) "" "" zero_time "init"].

Lemma initIndexFromDB_exact_witness :
  let '(r, n') := initIndexFromDB 20 rebuild_node in
  r = Ok tt ∧
  (∀ h, (in_history rebuild_history h → status_of h n' = Some CommitStatusApplied) ∧
        (¬ in_history rebuild_history h → status_of h n' = preserved_status h example_index)) ∧
  mem_FinalizedBase (n_idx n') = mem_FinalizedBase example_index.
Proof.
  pose proof (initIndexFromDB_exact (W:=toy) 20 rebuild_node
    (GetAllCommits 20 (with_idx (resetForRebuild example_index) rebuild_node)).2 rebuild_history
    example_index_inv) as H. apply H.
  rewrite (surjective_pairing (GetAllCommits _ _)) at 1. apply pair_equal_spec. split; [|reflexivity].
  vm_compute. reflexivity.
Defined.
