(* ===== verification/Gossip.v ===== *)
(** * Gossip between nodes ([integration/transport/gossipsub/gossip.go])

    A node publishes commit advertisements and heartbeats as protocol buffers;
    the subscription of another node turns them back into events.  The
    encoding of protocol buffers and the pubsub library with its topics are
    parameters with laws. *)

From Stdlib Require Import ZArith Lia String Ascii.
From stdpp Require Import gmap strings list sorting pretty.
From S2P Require Import Prelude Hlc GoTime GoJson GoJsonFacts Metadata Sql Index Linearize Dolt ToyDolt Reconciler.
From S2P Require Import Walk Replay Db Node NodeFacts.

Local Open Scope Z_scope.

(** ** The messages ([integration/proto/gossip.proto])

    A message field that is absent is [None], and so is an empty [oneof]. *)

Record pb_RepoId := mkPbRepo { pb_Org : string; pb_RepoName : string }.
Record pb_HLC := mkPbHLC { pb_Wall : Z; pb_Logical : Z; pb_PeerId : string }.
Record pb_CommitAd := mkPbAd {
  pa_Repo : option pb_RepoId;
  pa_Hlc : option pb_HLC;
  pa_MetadataJson : string;
  pa_MetadataSig : string;
}.
Record pb_Heartbeat := mkPbHb {
  ph_Repo : option pb_RepoId;
  ph_Hlc : option pb_HLC;
  ph_PeerId : string;
}.
Inductive pb_msg :=
| PbCommitAd (ad : option pb_CommitAd)
| PbHeartbeat (hb : option pb_Heartbeat).

Class Protobuf := {
  pb_Marshal : option pb_msg → result string;
  pb_Unmarshal : string → result (option pb_msg);
}.
(** A message whose content is set, as the publishing functions build it. *)
Definition pb_complete (m : option pb_msg) : bool :=
  match m with
  | Some (PbCommitAd (Some (mkPbAd (Some _) (Some _) _ _)))
  | Some (PbHeartbeat (Some (mkPbHb (Some _) (Some _) _))) => true
  | _ => false
  end.

(** A complete message is decoded to itself. *)
Class ProtobufLaws `(Protobuf) := {
  pb_roundtrip : ∀ m b, pb_complete m = true → pb_Marshal m = Ok b → pb_Unmarshal b = Ok m;
}.

(** ** Publishing *)

Definition pb_repo (r : RepoID) : pb_RepoId := mkPbRepo (Org r) (RepoName r).
Definition pb_hlc (h : HLCTimestamp) : pb_HLC := mkPbHLC (Wall h) (Logical h) (PeerID h).

Section gossip.
Context `{PB : Protobuf}.

Definition PublishCommitAd {S} (Publish : string → M S unit) (ad : CommitAdV1) : M S unit :=
  match pb_Marshal (Some (PbCommitAd (Some (mkPbAd (Some (pb_repo (ad_Repo ad))) (Some (pb_hlc (ad_HLC ad)))
                                              (MetadataJSON ad) (MetadataSig ad))))) with
  | Ok b => Publish b
  | Err e => fail e
  | Panic e => panic e
  end.

Definition PublishHeartbeat {S} (Publish : string → M S unit) (hb : HeartbeatV1) : M S unit :=
  match pb_Marshal (Some (PbHeartbeat (Some (mkPbHb (Some (pb_repo (hb_Repo hb))) (Some (pb_hlc (hb_HLC hb)))
                                               (hb_PeerID hb))))) with
  | Ok b => Publish b
  | Err e => fail e
  | Panic e => panic e
  end.

(** ** Receiving *)

Definition repo_of (r : pb_RepoId) : RepoID := mkRepo (pb_Org r) (pb_RepoName r).
Definition hlc_of (h : pb_HLC) : HLCTimestamp := mkHLC (pb_Wall h) (pb_Logical h) (pb_PeerId h).

(** [subscription.Next] on the message [data] of [from], received at [now]. *)
Definition Next (now : Time) (from data : string) : result GossipEvent :=
  match pb_Unmarshal data with
  | Err e => Err e
  | Panic e => Panic e
  | Ok (Some (PbCommitAd ca)) =>
      match ca with
      | Some (mkPbAd (Some repo) (Some hlc) json sig) =>
          Ok (mkEvent from (Some (mkAd (repo_of repo) (hlc_of hlc) json sig now)) None)
      | _ => Err "invalid commit_ad message"
      end
  | Ok (Some (PbHeartbeat hb)) =>
      match hb with
      | Some (mkPbHb (Some repo) (Some hlc) peer) =>
          Ok (mkEvent from None (Some (mkHeartbeat (repo_of repo) (hlc_of hlc) peer)))
      | _ => Err "invalid heartbeat message"
      end
  | Ok None => Ok (mkEvent from None None)
  end.

End gossip.

(** ** The topic

    The pubsub library is a parameter: the objects it hands out and the calls
    that the code makes on them. *)

Class PubSub (S : Type) := {
  ps_type : Type;
  topic_type : Type;
  sub_type : Type;
  handler_type : Type;
  ps_NewGossipSub : M S ps_type;
  ps_Join : ps_type → string → M S topic_type;
  topic_Publish : topic_type → string → M S unit;
  topic_Subscribe : topic_type → M S sub_type;
  topic_EventHandler : topic_type → M S handler_type;
  topic_ListPeers : topic_type → S → list string;
  sub_Next : sub_type → M S (string * string);     (* GetFrom().String() and Data *)
  sub_Cancel : sub_type → S → S;
  ps_now : M S Time;
}.

Section topic.
Context `{PB : Protobuf} {S : Type} `{PS : !PubSub S}.

(** A nil pointer is [None], and so is a nil topic. *)
Record GossipSubGossip := mkGossipSub { g_ps : ps_type; g_topic : option topic_type }.

Definition nil_dereference : string := "invalid memory address or nil pointer dereference".

Definition New (topic : string) : M S GossipSubGossip :=
  if String.eqb topic "" then fail "topic is required" else
  let* ps := ps_NewGossipSub in
  let* t := ps_Join ps topic in
  ret (mkGossipSub ps (Some t)).

Definition EventHandler (g : option GossipSubGossip) : M S handler_type :=
  match g ≫= g_topic with
  | None => fail "gossipsub topic is not initialized"
  | Some t => topic_EventHandler t
  end.

Definition ListPeers (g : option GossipSubGossip) (s : S) : list string :=
  match g ≫= g_topic with
  | None => []
  | Some t => topic_ListPeers t s
  end.

(** The other methods use the topic without looking. *)
Definition on_topic {A} (g : GossipSubGossip) (m : topic_type → M S A) : M S A :=
  match g_topic g with Some t => m t | None => panic nil_dereference end.

Definition g_PublishCommitAd (g : GossipSubGossip) (ad : CommitAdV1) : M S unit :=
  PublishCommitAd (λ b, on_topic g (λ t, topic_Publish t b)) ad.
Definition g_PublishHeartbeat (g : GossipSubGossip) (hb : HeartbeatV1) : M S unit :=
  PublishHeartbeat (λ b, on_topic g (λ t, topic_Publish t b)) hb.

Definition Subscribe (g : GossipSubGossip) : M S sub_type := on_topic g topic_Subscribe.

(** The clock is read for every message; only advertisements show it. *)
Definition subscription_Next (sub : sub_type) : M S GossipEvent :=
  let* msg := sub_Next sub in
  let* now := ps_now in
  of_result (Next now msg.1 msg.2).

Definition subscription_Close (sub : sub_type) : M S unit := modify (sub_Cancel sub).

(** ** A topic that delivers

    What was published on a topic is what its subscriptions return next, in
    order; publishing and subscribing do not fail. *)
Class PubSubLaws := {
  pending : sub_type → S → list (string * string);
  reads_of : sub_type → topic_type → S → Prop;
  self_id : string;
  Publish_pending : ∀ t b s, ∃ s', topic_Publish t b s = (Ok tt, s') ∧
    ∀ sub, reads_of sub t s → reads_of sub t s' ∧ pending sub s' = pending sub s ++ [(self_id, b)];
  Next_pending : ∀ sub s m q, pending sub s = m :: q → ∃ s', sub_Next sub s = (Ok m, s') ∧ pending sub s' = q;
  now_pending : ∀ s, ∃ t s', ps_now s = (Ok t, s') ∧ ∀ sub, pending sub s' = pending sub s;
}.
End topic.

(** ** What arrives is what was sent *)

Section facts.
Context `{PB : Protobuf, !ProtobufLaws PB}.

Lemma hlc_of_pb h : hlc_of (pb_hlc h) = h.
Proof. by destruct h. Qed.
Lemma repo_of_pb r : repo_of (pb_repo r) = r.
Proof. by destruct r. Qed.

Section delivery.
Context {S : Type} `{PS : !PubSub S, PL : !PubSubLaws}.

(** What is published on the topic is decoded next by every subscription that
    has nothing else to read. *)
Lemma delivered g t b (s s' : S) sub :
  g_topic g = Some t → reads_of sub t s → pending sub s = [] →
  on_topic g (λ t, topic_Publish t b) s = (Ok tt, s') →
  ∃ now s1 s'', ps_now s1 = (Ok now, s'') ∧ subscription_Next sub s' = (Next now self_id b, s'').
Proof.
  intros Hg Hr Hp. unfold on_topic. rewrite Hg. intros Hpub.
  destruct (Publish_pending t b s) as (s1 & E1 & Hs1). rewrite E1 in Hpub. injection Hpub as <-.
  destruct (Hs1 sub Hr) as [_ Hp1]. rewrite Hp in Hp1.
  destruct (Next_pending sub s1 _ _ Hp1) as (s2 & E2 & _). destruct (now_pending s2) as (now & s3 & E3 & _).
  exists now, s2, s3. split; [done|]. unfold subscription_Next, bind, of_result. by rewrite E2, E3.
Qed.

Lemma published_received g t ad (s s' : S) sub :
  g_topic g = Some t → reads_of sub t s → pending sub s = [] →
  g_PublishCommitAd g ad s = (Ok tt, s') →
  ∃ now s1 s'', ps_now s1 = (Ok now, s'') ∧ subscription_Next sub s' =
    (Ok (mkEvent self_id (Some (mkAd (ad_Repo ad) (ad_HLC ad) (MetadataJSON ad) (MetadataSig ad) now)) None), s'').
Proof.
  intros Hg Hr Hp. unfold g_PublishCommitAd, PublishCommitAd.
  destruct (pb_Marshal _) as [b|e|e] eqn:E; [|done..]. intros Hpub.
  destruct (delivered g t b s s' sub Hg Hr Hp Hpub) as (now & s1 & s'' & Hnow & ->).
  exists now, s1, s''. split; [done|]. unfold Next. rewrite (λ H, pb_roundtrip _ _ H E) by done. by rewrite repo_of_pb, hlc_of_pb.
Qed.

Lemma heartbeat_received g t hb (s s' : S) sub :
  g_topic g = Some t → reads_of sub t s → pending sub s = [] →
  g_PublishHeartbeat g hb s = (Ok tt, s') →
  ∃ s'', subscription_Next sub s' = (Ok (mkEvent self_id None (Some hb)), s'').
Proof.
  intros Hg Hr Hp. unfold g_PublishHeartbeat, PublishHeartbeat.
  destruct (pb_Marshal _) as [b|e|e] eqn:E; [|done..]. intros Hpub.
  destruct (delivered g t b s s' sub Hg Hr Hp Hpub) as (now & s1 & s'' & _ & ->). exists s''.
  unfold Next. rewrite (λ H, pb_roundtrip _ _ H E) by done. rewrite repo_of_pb, hlc_of_pb. by destruct hb.
Qed.
End delivery.

Section handler_facts.
Context {W : Type} `{D : Dolt W, !DoltLaws W} `{R : GoRuntime} (cfg : NodeConfig).

Lemma handle_gossip_ok evt (n : Node W) : ∃ n', handle cfg (EvGossip evt) n = (Ok tt, n').
Proof.
  cbn [handle]. unfold bind, option_run.
  assert (∃ n1, match ev_CommitAd evt with
                | Some a => onCommitAd cfg (ev_From evt) a
                | None => ret tt
                end n = (Ok tt, n1)) as [n1 ->].
  { destruct (ev_CommitAd evt) as [ad|]; [|by eexists].
    assert (Decision (relevant cfg ad n)) as [Hrel|Hrel] by (unfold relevant, is_decided; apply _).
    2:{ rewrite onCommitAd_irrelevant by done. by eexists. }
    destruct (onCommitAd_relevant cfg (ev_From evt) ad n Hrel) as (t & w & _ & ->).
    destruct (ad_verdict cfg t ad) as [[]|].
    - destruct (run_accept ad (set_world w n)) as (n' & _ & E & _). by eexists.
    - destruct (run_UpsertStatus (ad_HLC ad) "" CommitStatusRejected (set_world w n)) as (n' & E & _).
      by exists n'.
    - by eexists. }
  destruct (ev_Heartbeat evt) as [hb|]; [|by eexists]. unfold onHeartbeat.
  destruct (negb _); [by eexists|]. destruct (String.eqb _ _); [by eexists|]. unfold bind, modify.
  destruct (run_hlc_Update (hb_HLC hb) (with_peerHLC (track_peer (hb_PeerID hb) (hb_HLC hb) (n_peerHLC n1)) n1))
    as (t & n' & E & _). by exists n'.
Qed.
End handler_facts.
End facts.

(** C20. A published commit is taken up by the other nodes: when a peer signs
    the metadata of its commit and publishes the advertisement on a topic that
    delivers, to a subscription with nothing else to read, then the next event
    of that subscription is the advertisement as it was published (repository,
    timestamp, metadata and signature), stamped with the receiver's time.  It
    makes a node of the same repository mark the commit pending, move its clock
    past it and request a synchronization, provided that the node has not
    decided on that timestamp yet, is not the author, does not see the
    timestamp ahead of its clock by more than the allowed skew, verifies as
    the signer's scheme does, and resolves the author, if it has a resolver, to
    the signer's key. *)
Theorem advert_accepted `{PB : Protobuf, !ProtobufLaws PB} {S} `{PS : !PubSub S, PL : !PubSubLaws}
    {W} `{D : Dolt W, !DoltLaws W} `{R : GoRuntime}
    (signer : Signer) (m m' : CommitMetadata) (js : string) (observed : Time)
    (g : GossipSubGossip) (t : topic_type) (sub : sub_type) (s s' : S)
    (cfg : NodeConfig) (n : Node W)
  (Hcorrect : signer_correct signer) (Hm : meta_ok m) (Hk : Kind m = CommitKindUser)
  (Hsign : meta_Sign m signer = Ok m') (Hjs : Marshal m' = Ok js)
  (Hg : g_topic g = Some t) (Hsub : reads_of sub t s) (Hpend : pending sub s = [])
  (Hpub : g_PublishCommitAd g (mkAd (cfg_Repo cfg) (meta_HLC m) js (Signature m') observed) s = (Ok tt, s'))
  (Hverify : Verify (cfg_Signer cfg) = Verify signer)
  (Hid : ∀ resolver, cfg_Identity cfg = Some resolver →
           resolver (PeerID (meta_HLC m)) = Ok (PublicKey signer) ∧ PublicKey signer ≠ "")
  (Hnew : ¬ is_decided (meta_HLC m) n) (Hown : PeerID (meta_HLC m) ≠ GetID (cfg_Signer cfg))
  (Hskew : ∀ t w, time_now (get_world n) = (Ok t, w) → 0 < cfg_MaxClockSkew cfg →
             Wall (meta_HLC m) ≤ wrap64 (UnixNano t + cfg_MaxClockSkew cfg)) :
  ∃ now s1 s'' n', let ad := mkAd (cfg_Repo cfg) (meta_HLC m) js (Signature m') now in
    ps_now s1 = (Ok now, s'') ∧
    subscription_Next sub s' = (Ok (mkEvent self_id (Some ad) None), s'') ∧
    handle cfg (EvGossip (mkEvent self_id (Some ad) None)) n = (Ok tt, n') ∧
    status_of (meta_HLC m) n' = Some CommitStatusPending ∧ n_trigger n' = true ∧
    ∃ pt, db_hlc (n_db n') = Update pt (meta_HLC m) (db_hlc (n_db n)).
Proof.
  destruct (published_received g t _ s s' sub Hg Hsub Hpend Hpub) as (now & s1 & s'' & Hnow & Hnext).
  cbn [ad_Repo ad_HLC MetadataJSON MetadataSig] in Hnext.
  set (ad := mkAd (cfg_Repo cfg) (meta_HLC m) js (Signature m') now) in Hnext.
  exists now, s1, s''. fold ad. cbn [handle ev_CommitAd ev_Heartbeat ev_From option_run].
  assert (relevant cfg ad n) as Hrel by by split_and!.
  pose proof (time_ok (get_world n)) as Ht. destruct (time_now (get_world n)) as [[t1|e|e] w] eqn:E; [|done..].
  destruct (Parse_signed signer m m' js Hcorrect Hm Hk Hsign Hjs) as (Hparse & Hh & Hver).
  assert (authentic cfg t1 ad) as Hauth.
  { split; [intros Hp; by apply (Hskew t1 w)|]. exists m'. split_and!; [done|done|by right|].
    intros resolver Hr. destruct (Hid resolver Hr) as [? ?]. exists (PublicKey signer). split_and!; [done..|].
    specialize (Hver (cfg_Signer cfg) Hverify). by rewrite Hver. }
  apply ad_verdict_authentic in Hauth.
  unfold bind at 1. rewrite (onCommitAd_at cfg self_id ad n t1 w Hrel E), Hauth.
  destruct (run_accept ad (set_world w n)) as (n' & pt & -> & Hs & Htr & Hc & _).
  exists n'. split; [done|]. split; [done|]. split; [done|]. split; [exact Hs|]. split; [done|]. by exists pt.
Qed.

(** ** Closed examples *)

Definition gossip_cfg : NodeConfig :=
  mkConfig (mkRepo "" "repo") (toy_signer "k") true MaxClockSkew (30 * second)
    (Some (λ _, Ok "a")) (5 * second).

Definition signed_example : CommitMetadata :=
  match meta_Sign example_meta (toy_signer "a") with Ok m => m | _ => example_meta end.
Definition signed_json : string := match Marshal signed_example with Ok s => s | _ => "" end.
Definition signed_ad : CommitAdV1 :=
  mkAd (cfg_Repo gossip_cfg) (meta_HLC example_meta) signed_json (Signature signed_example) zero_time.
Definition signed_pb : pb_msg :=
  PbCommitAd (Some (mkPbAd (Some (pb_repo (cfg_Repo gossip_cfg))) (Some (pb_hlc (meta_HLC example_meta)))
                      signed_json (Signature signed_example))).

#[export] Instance pb_RepoId_eq_dec : EqDecision pb_RepoId.
Proof. solve_decision. Defined.
#[export] Instance pb_HLC_eq_dec : EqDecision pb_HLC.
Proof. solve_decision. Defined.
#[export] Instance pb_CommitAd_eq_dec : EqDecision pb_CommitAd.
Proof. solve_decision. Defined.
#[export] Instance pb_Heartbeat_eq_dec : EqDecision pb_Heartbeat.
Proof. solve_decision. Defined.
#[export] Instance pb_msg_eq_dec : EqDecision pb_msg.
Proof. solve_decision. Defined.

(** A code for two messages: the advertisement, and one without content. *)
#[export] Instance toy_protobuf : Protobuf := {
  pb_Marshal m := if decide (m = Some signed_pb) then Ok "ad"
                  else if decide (m = None) then Ok "" else Err "unsupported";
  pb_Unmarshal b := if String.eqb b "ad" then Ok (Some signed_pb)
                    else if String.eqb b "" then Ok None else Err "cannot parse invalid wire-format data";
}.
#[export] Instance toy_protobuf_laws : ProtobufLaws toy_protobuf.
Proof.
  split. intros m b _. cbn. case_decide as H1; [by intros [= <-]; subst|].
  case_decide as H2; [by intros [= <-]; subst|done].
Qed.

(** A topic with one queue of messages. *)
#[export] Instance toy_pubsub : PubSub (list (string * string)) := {
  ps_type := unit; topic_type := unit; sub_type := unit; handler_type := unit;
  ps_NewGossipSub := ret tt;
  ps_Join _ _ := ret tt;
  topic_Publish _ b := modify (λ q, q ++ [("self", b)]);
  topic_Subscribe _ := ret tt;
  topic_EventHandler _ := ret tt;
  topic_ListPeers _ _ := [];
  sub_Next _ q := match q with [] => (Err "context canceled", q) | m :: q => (Ok m, q) end;
  sub_Cancel _ q := q;
  ps_now := ret zero_time;
}.
#[export] Program Instance toy_pubsub_laws : PubSubLaws (PS := toy_pubsub) := {|
  pending := λ _ q, q;
  reads_of := λ _ _ _, True;
  self_id := "self";
|}.
Next Obligation. intros t b q. exists (q ++ [("self", b)]). by split. Qed.
Next Obligation. intros sub q m r ->. by exists r. Qed.
Next Obligation. intros q. by exists zero_time, q. Qed.

Definition toy_gossip : GossipSubGossip (PS := toy_pubsub) := mkGossipSub (PS := toy_pubsub) tt (Some tt).

Lemma signed_ad_sent : g_PublishCommitAd toy_gossip signed_ad [] = (Ok tt, [("self", "ad")]).
Proof. unfold g_PublishCommitAd, PublishCommitAd. cbn [pb_Marshal toy_protobuf]. by rewrite decide_True. Qed.

Lemma advert_accepted_witness :
  ∃ now s1 s'' n',
    let ad := mkAd (cfg_Repo gossip_cfg) (meta_HLC example_meta) signed_json (Signature signed_example) now in
    ps_now s1 = (Ok now, s'') ∧
    subscription_Next (PS := toy_pubsub) tt [("self", "ad")] = (Ok (mkEvent self_id (Some ad) None), s'') ∧
    handle gossip_cfg (EvGossip (mkEvent self_id (Some ad) None)) toy_node = (Ok tt, n') ∧
    status_of (meta_HLC example_meta) n' = Some CommitStatusPending ∧ n_trigger n' = true ∧
    ∃ pt, db_hlc (n_db n') = Update pt (meta_HLC example_meta) (db_hlc (n_db toy_node)).
Proof.
  pose proof (advert_accepted (toy_signer "a") example_meta signed_example signed_json zero_time
    toy_gossip tt tt [] [("self", "ad")] gossip_cfg toy_node) as H. apply H.
  - apply toy_signer_correct.
  - apply example_meta_ok.
  - reflexivity.
  - vm_compute. reflexivity.
  - vm_compute. reflexivity.
  - reflexivity.
  - exact I.
  - reflexivity.
  - exact signed_ad_sent.
  - reflexivity.
  - intros resolver [= <-]. split; [reflexivity|discriminate].
  - intros Hd. vm_compute in Hd. destruct Hd as [Hd|Hd]; discriminate Hd.
  - discriminate.
  - intros t w Ht _. vm_compute in Ht. injection Ht as <- _. vm_compute. discriminate.
Defined.
