(* ===== verification/Run.v ===== *)
(** * The loops of a running node ([core/node.go]: [Node.Run])

    [Run] is three goroutines that share the node: the event loop, the
    synchronization loop and the reader of the subscription.  They talk over
    four channels: [trigger], of capacity one, [events], of capacity 256, and
    [subErr] and [syncLoopErr], of capacity one.  Each step below is one
    iteration of one goroutine; the environment cancels the context, delivers
    messages and commits.  A local commit and its publication are two steps,
    between which the others may run.  A handler that panics ends the process, so it has
    no step. *)

From Stdlib Require Import ZArith Lia String Ascii.
From stdpp Require Import gmap strings list sorting pretty.
From S2P Require Import Prelude Hlc GoTime GoJson GoJsonFacts Metadata Sql Index Linearize Dolt ToyDolt Reconciler.
From S2P Require Import Walk Replay Db Node NodeFacts Sync Gossip.

Local Open Scope Z_scope.

(** ** State *)

(** Where the synchronization loop is: at its [select], inside [syncOnce], or
    gone. *)
Inductive sync_phase := SyncWaiting | SyncRunning | SyncExited.

Record RunState (W : Type) := mkRun {
  rs_node : Node W;                  (* [n_trigger] is the channel [trigger] *)
  rs_cancelled : bool;               (* [ctx.Done()] is closed *)
  rs_events : list GossipEvent;      (* the channel [events] *)
  rs_subErr : option string;
  rs_syncLoopErr : option string;
  rs_reading : bool;                 (* the reader has not returned *)
  rs_sync : sync_phase;
  rs_returned : option string;       (* the error that [Run] returned *)
  rs_publishing : list string;       (* local commits that are still to be published *)
}.
Arguments mkRun {W} _ _ _ _ _ _ _ _ _.
Arguments rs_node {W} _.
Arguments rs_cancelled {W} _.
Arguments rs_events {W} _.
Arguments rs_subErr {W} _.
Arguments rs_syncLoopErr {W} _.
Arguments rs_reading {W} _.
Arguments rs_sync {W} _.
Arguments rs_returned {W} _.
Arguments rs_publishing {W} _.

(** [cap(events)] *)
Definition events_cap : nat := 256.

(** [ctx.Err()] *)
Definition ctx_Err : string := "context canceled".

(** [select { case events <- evt: default: }] *)
Definition offer (q : list GossipEvent) (evt : GossipEvent) : list GossipEvent :=
  if (length q <? events_cap)%nat then q ++ [evt] else q.

Inductive label :=
| LCancel
| LCommit (msg : string)
| LPublish (k : nat)
| LReceive (now : Time) (from data : string)
| LReceiveError (err : string)
| LHeartbeatTick
| LRepairTick
| LEvent (evt : GossipEvent)
| LSyncStart
| LSyncEnd
| LSyncExit
| LReturn (err : string).

Section run.
Context `{PB : Protobuf} {W : Type} `{D : Dolt W} `{R : GoRuntime}.
Context (cfg : NodeConfig) (r : Reconciler (Node W)) (fuel : nat).

Definition with_node (n : Node W) (s : RunState W) : RunState W :=
  mkRun n (rs_cancelled s) (rs_events s) (rs_subErr s) (rs_syncLoopErr s) (rs_reading s) (rs_sync s)
    (rs_returned s) (rs_publishing s).
Definition with_events (q : list GossipEvent) (s : RunState W) : RunState W :=
  mkRun (rs_node s) (rs_cancelled s) q (rs_subErr s) (rs_syncLoopErr s) (rs_reading s) (rs_sync s)
    (rs_returned s) (rs_publishing s).
Definition with_sync (p : sync_phase) (s : RunState W) : RunState W :=
  mkRun (rs_node s) (rs_cancelled s) (rs_events s) (rs_subErr s) (rs_syncLoopErr s) (rs_reading s) p
    (rs_returned s) (rs_publishing s).
Definition stop_reading (err : string) (s : RunState W) : RunState W :=
  mkRun (rs_node s) (rs_cancelled s) (rs_events s) (Some err) (rs_syncLoopErr s) false (rs_sync s)
    (rs_returned s) (rs_publishing s).
Definition cancel (s : RunState W) : RunState W :=
  mkRun (rs_node s) true (rs_events s) (rs_subErr s) (rs_syncLoopErr s) (rs_reading s) (rs_sync s)
    (rs_returned s) (rs_publishing s).
Definition sync_exit (s : RunState W) : RunState W :=
  mkRun (rs_node s) (rs_cancelled s) (rs_events s) (rs_subErr s) (Some ctx_Err) (rs_reading s) SyncExited
    (rs_returned s) (rs_publishing s).
Definition return_with (err : string) (s : RunState W) : RunState W :=
  mkRun (rs_node s) (rs_cancelled s) (rs_events s) (rs_subErr s) (rs_syncLoopErr s) (rs_reading s) (rs_sync s)
    (Some err) (rs_publishing s).
Definition with_publishing (l : list string) (s : RunState W) : RunState W :=
  mkRun (rs_node s) (rs_cancelled s) (rs_events s) (rs_subErr s) (rs_syncLoopErr s) (rs_reading s) (rs_sync s)
    (rs_returned s) l.

(** From the start of [Run] to the loops: the transport is checked, the
    subscription opened and the index built, whatever its outcome. *)
Definition Run_start (gossip providers : bool) (subscribe : result unit) : M (Node W) (RunState W) := λ n,
  if negb (gossip && providers) then (Err "transport gossip and providers are required", n) else
  match subscribe with
  | Err e => (Err e, n)
  | Panic e => (Panic e, n)
  | Ok _ =>
      (ignore (initIndexFromDB fuel) ;;*
       gets (λ n, mkRun (with_trigger false n) false [] None None true SyncWaiting None [])) n
  end.

(** The [select] of the event loop, one rule per case; the reader; the
    synchronization loop. *)
Inductive step : RunState W → label → RunState W → Prop :=
| step_cancel s : step s LCancel (cancel s)
(* [Node.Commit] in a goroutine of the application: the commit, under the lock
   of the reconciler, and then its publication, without it *)
| step_commit s msg h n' :
    on_db (db_Commit (cfg_Signer cfg) msg) (rs_node s) = (Ok h, n') →
    step s (LCommit msg) (with_publishing (rs_publishing s ++ [h]) (with_node n' s))
| step_commit_fails s msg e n' :
    on_db (db_Commit (cfg_Signer cfg) msg) (rs_node s) = (Err e, n') →
    step s (LCommit msg) (with_node n' s)
| step_publish s k h n' :
    rs_publishing s !! k = Some h → publishLocalCommitAd cfg h (rs_node s) = (Ok tt, n') →
    step s (LPublish k) (with_publishing (delete k (rs_publishing s)) (with_node n' s))
(* for { evt, err := sub.Next(ctx) ... } *)
| step_receive s now from data evt :
    rs_reading s = true → Next now from data = Ok evt →
    step s (LReceive now from data) (with_events (offer (rs_events s) evt) s)
| step_receive_bad s now from data err :
    rs_reading s = true → Next now from data = Err err →
    step s (LReceive now from data) (stop_reading err s)
| step_receive_error s err :
    rs_reading s = true → step s (LReceiveError err) (stop_reading err s)
(* case <-heartbeatTicker.C *)
| step_heartbeat s n' :
    rs_returned s = None → handle cfg EvHeartbeatTick (rs_node s) = (Ok tt, n') →
    step s LHeartbeatTick (with_node n' s)
(* case <-repairTicker.C *)
| step_repair s n' :
    rs_returned s = None → handle cfg EvRepairTick (rs_node s) = (Ok tt, n') →
    step s LRepairTick (with_node n' s)
(* case evt := <-events *)
| step_event s evt q n' :
    rs_returned s = None → rs_events s = evt :: q →
    handle cfg (EvGossip evt) (rs_node s) = (Ok tt, n') →
    step s (LEvent evt) (with_events q (with_node n' s))
(* case <-ctx.Done(), case err := <-subErr, case err := <-syncLoopErr *)
| step_return_ctx s :
    rs_returned s = None → rs_cancelled s = true → step s (LReturn ctx_Err) (return_with ctx_Err s)
| step_return_sub s err :
    rs_returned s = None → rs_subErr s = Some err → step s (LReturn err) (return_with err s)
| step_return_sync s err :
    rs_returned s = None → rs_syncLoopErr s = Some err → step s (LReturn err) (return_with err s)
(* the synchronization loop *)
| step_sync_start s :
    rs_sync s = SyncWaiting → n_trigger (rs_node s) = true →
    step s LSyncStart (with_sync SyncRunning (with_node (with_trigger false (rs_node s)) s))
| step_sync_end s n' :
    rs_sync s = SyncRunning → ignore (syncOnce cfg r fuel) (rs_node s) = (Ok tt, n') →
    step s LSyncEnd (with_sync SyncWaiting (with_node n' s))
| step_sync_exit s :
    rs_sync s = SyncWaiting → rs_cancelled s = true → step s LSyncExit (sync_exit s).

(** Executions, with their labels in order. *)
Inductive exec_steps : RunState W → list label → RunState W → Prop :=
| exec_nil s : exec_steps s [] s
| exec_cons s l s1 ls s2 : step s l s1 → exec_steps s1 ls s2 → exec_steps s (l :: ls) s2.
End run.

#[export] Instance HeartbeatV1_eq_dec : EqDecision HeartbeatV1.
Proof. solve_decision. Defined.
#[export] Instance CommitAdV1_eq_dec : EqDecision CommitAdV1.
Proof. solve_decision. Defined.
#[export] Instance GossipEvent_eq_dec : EqDecision GossipEvent.
Proof. solve_decision. Defined.

(** ** The steps as a function

    Given its label a step is determined, and the function below computes it:
    [do_labels_exec] says that the two agree. *)

Section compute.
Context `{PB : Protobuf} {W : Type} `{D : Dolt W} `{R : GoRuntime}.
Context (cfg : NodeConfig) (r : Reconciler (Node W)) (fuel : nat).

Definition finished {A} (p : result A * Node W) : option (Node W) :=
  match p.1 with Ok _ => Some p.2 | _ => None end.

Definition guard_opt {A} (b : bool) (x : option A) : option A := if b then x else None.

Definition looping (s : RunState W) : bool := bool_decide (rs_returned s = None).

Definition do_label (l : label) (s : RunState W) : option (RunState W) :=
  match l with
  | LCancel => Some (cancel s)
  | LCommit msg =>
      match on_db (db_Commit (cfg_Signer cfg) msg) (rs_node s) with
      | (Ok h, n') => Some (with_publishing (rs_publishing s ++ [h]) (with_node n' s))
      | (Err _, n') => Some (with_node n' s)
      | (Panic _, _) => None
      end
  | LPublish k =>
      match rs_publishing s !! k with
      | Some h => (λ n', with_publishing (delete k (rs_publishing s)) (with_node n' s)) <$>
                    finished (publishLocalCommitAd cfg h (rs_node s))
      | None => None
      end
  | LReceive now from data =>
      guard_opt (rs_reading s)
        (match Next now from data with
         | Ok evt => Some (with_events (offer (rs_events s) evt) s)
         | Err err => Some (stop_reading err s)
         | Panic _ => None
         end)
  | LReceiveError err => guard_opt (rs_reading s) (Some (stop_reading err s))
  | LHeartbeatTick =>
      guard_opt (looping s) ((λ n', with_node n' s) <$> finished (handle cfg EvHeartbeatTick (rs_node s)))
  | LRepairTick =>
      guard_opt (looping s) ((λ n', with_node n' s) <$> finished (handle cfg EvRepairTick (rs_node s)))
  | LEvent evt =>
      match rs_events s with
      | [] => None
      | e :: q =>
          guard_opt (looping s && bool_decide (e = evt))
            ((λ n', with_events q (with_node n' s)) <$> finished (handle cfg (EvGossip evt) (rs_node s)))
      end
  | LReturn err =>
      guard_opt (looping s && (rs_cancelled s && bool_decide (err = ctx_Err)
                               || bool_decide (rs_subErr s = Some err)
                               || bool_decide (rs_syncLoopErr s = Some err)))
        (Some (return_with err s))
  | LSyncStart =>
      match rs_sync s with
      | SyncWaiting =>
          guard_opt (n_trigger (rs_node s))
            (Some (with_sync SyncRunning (with_node (with_trigger false (rs_node s)) s)))
      | _ => None
      end
  | LSyncEnd =>
      match rs_sync s with
      | SyncRunning =>
          (λ n', with_sync SyncWaiting (with_node n' s)) <$>
            finished (ignore (syncOnce cfg r fuel) (rs_node s))
      | _ => None
      end
  | LSyncExit =>
      match rs_sync s with
      | SyncWaiting => guard_opt (rs_cancelled s) (Some (sync_exit s))
      | _ => None
      end
  end.

Fixpoint do_labels (ls : list label) (s : RunState W) : option (RunState W) :=
  match ls with
  | [] => Some s
  | l :: ls => match do_label l s with Some s' => do_labels ls s' | None => None end
  end.

Lemma finished_Some (p : result unit * Node W) n' : finished p = Some n' ↔ p = (Ok tt, n').
Proof. destruct p as [[[]|e|e] n]; cbn; naive_solver. Qed.

Lemma guard_opt_Some {A} b (x : option A) a : guard_opt b x = Some a ↔ b = true ∧ x = Some a.
Proof. destruct b; cbn; naive_solver. Qed.

Lemma looping_spec s : looping s = true ↔ rs_returned s = None.
Proof. apply bool_decide_eq_true. Qed.

Lemma handled_Some (f : Node W → RunState W) (p : result unit * Node W) (s s' : RunState W) :
  guard_opt (looping s) (f <$> finished p) = Some s' ↔
  rs_returned s = None ∧ ∃ n', p = (Ok tt, n') ∧ s' = f n'.
Proof. rewrite guard_opt_Some, looping_spec, fmap_Some. by setoid_rewrite finished_Some. Qed.

Lemma do_label_sound l s s' : do_label l s = Some s' → step cfg r fuel s l s'.
Proof.
  destruct l as [|msg|k|now from data|err| | |evt| | | |err]; cbn [do_label]; intros H.
  - injection H as <-. constructor.
  - destruct (on_db _ _) as [[h|e|e] n'] eqn:E; simplify_eq; by econstructor.
  - destruct (rs_publishing s !! k) as [h|] eqn:Hk; [|done]. apply fmap_Some in H as (n' & E%finished_Some & ->).
    by econstructor.
  - apply guard_opt_Some in H as [Hr H]. destruct (Next _ _ _) eqn:E; simplify_eq; by econstructor.
  - apply guard_opt_Some in H as [Hr [= <-]]. by constructor.
  - apply handled_Some in H as (Hl & n' & E & ->). by constructor.
  - apply handled_Some in H as (Hl & n' & E & ->). by constructor.
  - destruct (rs_events s) as [|e q] eqn:Hq; [done|]. apply guard_opt_Some in H as [H1 H2].
    apply andb_true_iff in H1 as [H1%looping_spec H3%bool_decide_eq_true]. subst e.
    apply fmap_Some in H2 as (n' & E%finished_Some & ->). by constructor.
  - destruct (rs_sync s) eqn:Hs; [|done..]. apply guard_opt_Some in H as [Ht [= <-]]. by constructor.
  - destruct (rs_sync s) eqn:Hs; [done| |done]. apply fmap_Some in H as (n' & E%finished_Some & ->).
    by constructor.
  - destruct (rs_sync s) eqn:Hs; [|done..]. apply guard_opt_Some in H as [Ht [= <-]]. by constructor.
  - apply guard_opt_Some in H as [[H1%looping_spec H]%andb_true_iff [= <-]].
    rewrite !orb_true_iff, andb_true_iff, !bool_decide_eq_true in H.
    destruct H as [[[Hc ->]|Hs]|Hs]; by constructor.
Qed.

Lemma do_label_complete l s s' : step cfg r fuel s l s' → do_label l s = Some s'.
Proof.
  assert (∀ b (x : option (RunState W)) y, b = true → x = Some y → guard_opt b x = Some y) as Hg
    by (intros; by apply guard_opt_Some).
  intros Hstep. inversion Hstep; subst; cbn [do_label].
  - done.
  - by lazymatch goal with E : on_db _ _ = _ |- _ => rewrite E end.
  - by lazymatch goal with E : on_db _ _ = _ |- _ => rewrite E end.
  - lazymatch goal with E : rs_publishing s !! k = _ |- _ => rewrite E end. apply fmap_Some. eexists.
    split; [by apply finished_Some|done].
  - apply Hg; [done|]. by lazymatch goal with E : Next _ _ _ = _ |- _ => rewrite E end.
  - apply Hg; [done|]. by lazymatch goal with E : Next _ _ _ = _ |- _ => rewrite E end.
  - by apply Hg.
  - apply handled_Some. eauto.
  - apply handled_Some. eauto.
  - lazymatch goal with E : rs_events s = _ |- _ => rewrite E end. apply Hg.
    + by rewrite bool_decide_true, andb_true_r by done; apply looping_spec.
    + apply fmap_Some. eexists. split; [by apply finished_Some|done].
  - apply Hg; [|done]. rewrite (proj2 (looping_spec s)) by done.
    by lazymatch goal with E : rs_cancelled s = _ |- _ => rewrite E end.
  - apply Hg; [|done]. rewrite (proj2 (looping_spec s)) by done.
    by rewrite (bool_decide_true (rs_subErr s = _)), orb_true_r by done.
  - apply Hg; [|done]. rewrite (proj2 (looping_spec s)) by done.
    by rewrite (bool_decide_true (rs_syncLoopErr s = _)), !orb_true_r by done.
  - lazymatch goal with E : rs_sync s = _ |- _ => rewrite E end. by apply Hg.
  - lazymatch goal with E : rs_sync s = _ |- _ => rewrite E end. apply fmap_Some. eexists.
    split; [by apply finished_Some|done].
  - lazymatch goal with E : rs_sync s = _ |- _ => rewrite E end. by apply Hg.
Qed.

Lemma do_labels_exec ls s s' : do_labels ls s = Some s' ↔ exec_steps cfg r fuel s ls s'.
Proof.
  split.
  - revert s. induction ls as [|l ls IH]; intros s; cbn; [intros [= <-]; constructor|].
    destruct (do_label l s) as [s1|] eqn:E; [|done]. intros H.
    econstructor; [by apply do_label_sound|by apply IH].
  - induction 1 as [|s l s1 ls s2 Hstep _ IH]; [done|]. cbn.
    by rewrite (do_label_complete _ _ _ Hstep).
Qed.
End compute.

(** ** Facts about executions *)

Section facts.
Context `{PB : Protobuf} {W : Type} `{D : Dolt W} `{R : GoRuntime}.
Context (cfg : NodeConfig) (r : Reconciler (Node W)) (fuel : nat).

Local Abbreviation step := (step cfg r fuel).
Local Abbreviation exec_steps := (exec_steps cfg r fuel).

(** Induction from the last step. *)
Lemma exec_snoc s ls s1 l s2 : exec_steps s ls s1 → step s1 l s2 → exec_steps s (ls ++ [l]) s2.
Proof. induction 1; intros; econstructor; eauto. constructor. Qed.

Lemma exec_app s ls1 s1 ls2 s2 :
  exec_steps s ls1 s1 → exec_steps s1 ls2 s2 → exec_steps s (ls1 ++ ls2) s2.
Proof. induction 1; intros; [done|]. econstructor; eauto. Qed.

(** An invariant kept by the steps whose label is not excluded. *)
Lemma exec_invariant (P : RunState W → Prop) (ok : label → Prop) s ls s' :
  (∀ s l s', step s l s' → ok l → P s → P s') → exec_steps s ls s' → Forall ok ls → P s → P s'.
Proof. intros Hstep. induction 1; [done|]. intros [? ?]%Forall_cons ?. eauto. Qed.

(** *** The queue *)

(** What the reader accepted from the topic, and what was handled. *)
Definition accepted (l : label) : option GossipEvent :=
  match l with
  | LReceive now from data => match Next now from data with Ok evt => Some evt | _ => None end
  | _ => None
  end.
Definition handled (l : label) : option GossipEvent :=
  match l with LEvent evt => Some evt | _ => None end.

(** The events that entered the queue: all of the accepted ones but those that
    found it full. *)
Lemma exec_queue s ls s' :
  exec_steps s ls s' → (length (rs_events s) ≤ events_cap)%nat →
  (length (rs_events s') ≤ events_cap)%nat ∧
  ∃ entered, sublist entered (omap accepted ls) ∧
    rs_events s ++ entered = omap handled ls ++ rs_events s' ∧
    (length (rs_events s) + length (omap accepted ls) ≤ events_cap → entered = omap accepted ls)%nat.
Proof.
  induction 1 as [s|s l s1 ls s2 Hstep _ IH]; intros Hcap.
  { split; [done|]. exists []. split; [done|]. by rewrite app_nil_r. }
  assert (accepted l = None → handled l = None → rs_events s1 = rs_events s →
    (length (rs_events s2) ≤ events_cap)%nat ∧
    ∃ entered, sublist entered (omap accepted (l :: ls)) ∧
      rs_events s ++ entered = omap handled (l :: ls) ++ rs_events s2 ∧
      (length (rs_events s) + length (omap accepted (l :: ls)) ≤ events_cap →
       entered = omap accepted (l :: ls))%nat) as Hother.
  { intros Ha Hh Eq. cbn [omap list_omap]. rewrite Ha, Hh. rewrite Eq in *. by apply IH. }
  inversion Hstep; subst; try (apply Hother; try done; cbn [accepted];
    lazymatch goal with E : Next _ _ _ = _ |- _ => by rewrite E | |- _ => done end).
  - (* an event arrives *)
    cbn [rs_events with_events] in *.
    lazymatch goal with E : Next _ _ _ = _ |- _ => rename E into En end.
    cbn [omap list_omap accepted handled]. rewrite En. unfold offer in *.
    destruct (Nat.ltb_spec (length (rs_events s)) events_cap) as [Hlt|Hge].
    + destruct IH as (Hc & entered & Hsub & Eq & Hall); [rewrite length_app; cbn; lia|].
      split; [done|]. exists (evt :: entered). split; [by constructor|].
      rewrite <-app_assoc in Eq. split; [done|]. intros Hle. f_equal. apply Hall.
      rewrite length_app. cbn in *. lia.
    + destruct IH as (Hc & entered & Hsub & Eq & Hall); [done|].
      split; [done|]. exists entered. split; [by constructor|]. split; [done|]. cbn. lia.
  - (* an event is handled *)
    cbn [rs_events with_events with_node] in *.
    lazymatch goal with E : rs_events s = _ |- _ => rename E into Eq0 end. rewrite Eq0 in *. cbn in Hcap.
    destruct IH as (Hc & entered & Hsub & Eq & Hall); [lia|].
    split; [done|]. exists entered. cbn [omap list_omap accepted handled]. split; [done|].
    split; [cbn; by rewrite Eq|]. intros Hle. apply Hall. cbn in Hle. lia.
Qed.

(** *** The channels and the goroutines *)

Record run_ok (s : RunState W) : Prop := {
  ro_exited : rs_sync s = SyncExited → rs_cancelled s = true;
  ro_syncErr : ∀ e, rs_syncLoopErr s = Some e → e = ctx_Err ∧ rs_cancelled s = true;
  ro_reading : rs_reading s = true → rs_subErr s = None;
  ro_returned : ∀ e, rs_returned s = Some e →
    rs_subErr s = Some e ∨ e = ctx_Err ∧ rs_cancelled s = true;
}.

Lemma step_run_ok s l s' : step s l s' → run_ok s → run_ok s'.
Proof.
  intros Hstep [H1 H2 H3 H4]. inversion Hstep; subst; split; cbn; naive_solver.
Qed.

Lemma exec_run_ok s ls s' : exec_steps s ls s' → run_ok s → run_ok s'.
Proof. induction 1; eauto using step_run_ok. Qed.

(** The reader stops for good, and its error stays in the channel. *)
Definition stopped (err : string) (s : RunState W) : Prop := rs_reading s = false ∧ rs_subErr s = Some err.

Lemma step_stopped err s l s' : step s l s' → stopped err s → stopped err s' ∧ accepted l = None.
Proof.
  intros Hstep [H1 H2]. inversion Hstep; subst; try congruence; by repeat split.
Qed.

Lemma exec_stopped err s ls s' :
  exec_steps s ls s' → stopped err s → stopped err s' ∧ omap accepted ls = [].
Proof.
  induction 1 as [|s l s1 ls s2 Hstep _ IH]; intros Hs; [done|].
  destruct (step_stopped err s l s1 Hstep Hs) as [Hs1 Ha]. cbn. rewrite Ha. by apply IH.
Qed.
End facts.

(** *** The node *)

Section node_invariant.
Context `{PB : Protobuf} {W : Type} `{D : Dolt W} `{R : GoRuntime}.
Context (cfg : NodeConfig) (r : Reconciler (Node W)) (fuel : nat).
Context (P : MemoryCommitIndex → bool → Prop).
Context (P_Upsert : ∀ now e i b, P i b → P (mem_Upsert now e i) b).
Context (P_Set : ∀ now fb i b, P i b → P (mem_SetFinalizedBase now fb i) b).
Context (P_reset : ∀ i b, P i b → P (resetForRebuild i) b).
Context (P_request : ∀ i b, P i b → P i true).
Context (Hr : ∀ f ad reason, onCommitRejected r = Some f → keeps P (f ad reason)).

Local Abbreviation step := (step cfg (installReconcilerHooks r) fuel).
Local Abbreviation exec_steps := (exec_steps cfg (installReconcilerHooks r) fuel).
Local Abbreviation Pn n := (P (n_idx n) (n_trigger n)).

Lemma keeps_run {A} (m : M (Node W) A) n a n' : keeps P m → m n = (a, n') → Pn n → Pn n'.
Proof. intros Hm E Hn. specialize (Hm n Hn). by rewrite E in Hm. Qed.

Lemma step_keeps s l s' :
  step s l s' → (l = LSyncStart → P (n_idx (rs_node s)) false) → Pn (rs_node s) → Pn (rs_node s').
Proof.
  intros Hstep Htake HP. inversion Hstep; subst; cbn; try done; try (by apply Htake);
    (eapply keeps_run; [|eassumption|exact HP]).
  - by apply keeps_db_Commit.
  - by apply keeps_db_Commit.
  - by apply keeps_publish.
  - by apply keeps_handle.
  - by apply keeps_handle.
  - by apply keeps_handle.
  - apply preserves_ignore. by apply keeps_syncOnce.
Qed.

(** Unless a synchronization starts, or always when the property does not
    depend on the channel. *)
Lemma exec_keeps s ls s' :
  exec_steps s ls s' → (LSyncStart ∉ ls ∨ ∀ i b, P i b → P i false) → Pn (rs_node s) → Pn (rs_node s').
Proof.
  induction 1 as [|s l s1 ls s2 Hstep _ IH]; intros Hls HP; [done|]. apply IH.
  - destruct Hls as [Hls|?]; [left|by right]. set_solver.
  - eapply step_keeps; [done| |done]. intros ->. destruct Hls as [Hls|Hf]; [set_solver|]. by eapply Hf.
Qed.
End node_invariant.

(** ** Requests *)

Section requests.
Context `{PB : Protobuf} {W : Type} `{D : Dolt W, !DoltLaws W} `{R : GoRuntime}.
Context (cfg : NodeConfig) (r : Reconciler (Node W)) (fuel : nat).
Context (Hr : onCommitRejected r = None).

Local Abbreviation step := (step cfg (installReconcilerHooks r) fuel).
Local Abbreviation exec_steps := (exec_steps cfg (installReconcilerHooks r) fuel).

(** The steps that ask for a synchronization: a tick of the repair ticker, and
    an advertisement that the node accepts. *)
Definition requests (l : label) (n : Node W) : Prop :=
  match l with
  | LRepairTick => True
  | LEvent evt => ∃ ad, ev_CommitAd evt = Some ad ∧ relevant cfg ad n ∧
      ∀ t w, time_now (get_world n) = (Ok t, w) → authentic cfg t ad
  | _ => False
  end.

Local Abbreviation triggered := (λ (_ : MemoryCommitIndex) (b : bool), b = true).

Lemma handle_accepted evt ad n n' :
  ev_CommitAd evt = Some ad → relevant cfg ad n →
  (∀ t w, time_now (get_world n) = (Ok t, w) → authentic cfg t ad) →
  handle cfg (EvGossip evt) n = (Ok tt, n') → n_trigger n' = true.
Proof.
  intros Ea Hrel Hauth E. pose proof (time_ok (get_world n)) as Ht.
  destruct (time_now (get_world n)) as [[t|e|e] w] eqn:Et; [|done..].
  specialize (Hauth t w eq_refl). apply ad_verdict_authentic in Hauth.
  cbn [handle] in E. rewrite Ea in E. unfold bind in E. cbn [option_run] in E.
  rewrite (onCommitAd_at cfg (ev_From evt) ad n t w Hrel Et), Hauth in E.
  destruct (run_accept ad (set_world w n)) as (n1 & pt & E1 & _ & Htr & _). rewrite E1 in E.
  eapply (keeps_run triggered (handle cfg (EvGossip (mkEvent (ev_From evt) None (ev_Heartbeat evt)))) n1);
    [|exact E|done]. by apply keeps_handle.
Qed.

Lemma request_sets s l s1 : step s l s1 → requests l (rs_node s) → n_trigger (rs_node s1) = true.
Proof.
  intros Hstep Hreq. inversion Hstep; subst; try done; cbn.
  - lazymatch goal with E : handle _ _ _ = _ |- _ => by injection E as <- end.
  - destruct Hreq as (ad & Ea & Hrel & Hauth). by eapply handle_accepted.
Qed.

Lemma trigger_stays s ls s' :
  exec_steps s ls s' → LSyncStart ∉ ls → n_trigger (rs_node s) = true → n_trigger (rs_node s') = true.
Proof.
  intros He Hls Ht. eapply (exec_keeps cfg r fuel triggered); [..|exact He|by left|exact Ht]; auto.
  intros f ad reason Hf. congruence.
Qed.

(** With a request pending the synchronization loop comes to it: at once, or
    after the round that is under way. *)
Lemma trigger_served s :
  run_ok s → rs_cancelled s = false → n_trigger (rs_node s) = true →
  (∃ s', exec_steps s [LSyncStart] s') ∨ (∃ s', exec_steps s [LSyncEnd; LSyncStart] s') ∨
  (rs_sync s = SyncRunning ∧
   ∃ e, (syncOnce cfg (installReconcilerHooks r) fuel (rs_node s)).1 = Panic e).
Proof.
  intros Hok Hc Ht. destruct (rs_sync s) eqn:Hs.
  - left. eexists. eapply exec_cons; [by apply step_sync_start|constructor].
  - right. destruct (ignore (syncOnce cfg (installReconcilerHooks r) fuel) (rs_node s)) as [[[]|e|e] n'] eqn:E.
    + left. eexists. eapply exec_cons; [by apply step_sync_end|].
      eapply exec_cons; [|constructor]. apply step_sync_start; [done|]. cbn.
      eapply (keeps_run triggered (ignore (syncOnce cfg (installReconcilerHooks r) fuel)));
        [apply preserves_ignore, (keeps_syncOnce cfg triggered)|exact E|exact Ht]; auto.
      intros f ad reason Hf. congruence.
    + unfold ignore in E. by destruct (syncOnce _ _ _ _) as [[] ?].
    + right. split; [done|]. exists e. unfold ignore in E. by destruct (syncOnce _ _ _ _) as [[] ?]; simplify_eq.
  - apply (ro_exited _ Hok) in Hs. congruence.
Qed.
End requests.

(** ** Properties *)

Section properties.
Context `{PB : Protobuf} {W : Type} `{D : Dolt W, !DoltLaws W} `{R : GoRuntime}.

(** C12. Finality survives everything: however the event loop, the
    synchronization loop, the reader, local commits and cancellation are
    interleaved, failed steps included, a finalized base stays set and only
    ever moves to a later timestamp, and the index stays keyed by
    timestamps. *)
Theorem run_never_unfinalizes (cfg : NodeConfig) (r : Reconciler (Node W)) (fuel : nat)
    (s s' : RunState W) (ls : list label) (b : FinalizedBase)
  (Hcb : onCommitRejected r = None)
  (Hi : mem_inv (n_idx (rs_node s))) (Hb : mem_FinalizedBase (n_idx (rs_node s)) = Some b)
  (Hrun : exec_steps cfg (installReconcilerHooks r) fuel s ls s') :
  mem_inv (n_idx (rs_node s')) ∧
  ∃ b', mem_FinalizedBase (n_idx (rs_node s')) = Some b' ∧ (b' = b ∨ hlc_lt (fb_HLC b) (fb_HLC b')).
Proof.
  apply (exec_keeps cfg r fuel (λ i _, base_from b i)) with (s := s) (ls := ls).
  - intros now e i _. apply base_from_Upsert.
  - intros now fb i _. apply base_from_Set.
  - intros i _. apply base_from_reset.
  - auto.
  - intros f ad reason Hf. congruence.
  - done.
  - right. auto.
  - split; [done|]. eauto.
Qed.

(** C13. No request for a synchronization is lost: when the repair ticker fires
    or the node accepts an advertisement, then after any further steps that
    start no synchronization the request is still pending and, unless the
    context was cancelled, the synchronization loop starts a round with its
    next step, or with the one after the round that it is in (which a panic
    of that round alone can prevent). *)
Theorem request_served (cfg : NodeConfig) (r : Reconciler (Node W)) (fuel : nat)
    (s s1 s2 : RunState W) (l : label) (ls : list label)
  (Hcb : onCommitRejected r = None) (Hok : run_ok s)
  (Hstep : step cfg (installReconcilerHooks r) fuel s l s1) (Hreq : requests cfg l (rs_node s))
  (Hrun : exec_steps cfg (installReconcilerHooks r) fuel s1 ls s2) (Hls : LSyncStart ∉ ls) :
  n_trigger (rs_node s2) = true ∧
  (rs_cancelled s2 = false →
     (∃ s3, exec_steps cfg (installReconcilerHooks r) fuel s2 [LSyncStart] s3) ∨
     (∃ s3, exec_steps cfg (installReconcilerHooks r) fuel s2 [LSyncEnd; LSyncStart] s3) ∨
     (rs_sync s2 = SyncRunning ∧
      ∃ e, (syncOnce cfg (installReconcilerHooks r) fuel (rs_node s2)).1 = Panic e)).
Proof.
  assert (n_trigger (rs_node s2) = true) as Ht.
  { eapply trigger_stays; [done..|]. by eapply request_sets. }
  split; [done|]. intros Hc. apply trigger_served; [done| |done|done].
  eapply exec_run_ok; [done|]. by eapply step_run_ok.
Qed.

(** C14. The queue between the reader and the event loop: it never holds more
    than 256 events, and what is handled and what still waits is, in order,
    a part of what was received, nothing twice; when no more than 256 events
    were received, nothing is missing. *)
Theorem events_in_order (cfg : NodeConfig) (r : Reconciler (Node W)) (fuel : nat)
    (s s' : RunState W) (ls : list label)
  (Hempty : rs_events s = []) (Hrun : exec_steps cfg r fuel s ls s') :
  (length (rs_events s') ≤ 256)%nat ∧
  sublist (omap handled ls ++ rs_events s') (omap accepted ls) ∧
  (length (omap accepted ls) ≤ 256 → omap handled ls ++ rs_events s' = omap accepted ls)%nat.
Proof.
  destruct (exec_queue cfg r fuel s ls s' Hrun) as (Hcap & entered & Hsub & Eq & Hall);
    rewrite Hempty in *; [cbn; unfold events_cap; lia|].
  split; [done|]. rewrite <-Eq. split; [done|]. intros Hle. by apply Hall.
Qed.

(** C15. One bad message stops a node: once the reader has received a message
    that does not decode or lacks a field, which any member of the topic can
    send, it receives nothing more in any continuation; the event loop can
    return that error, and unless the context is cancelled it returns with
    nothing else. *)
Theorem bad_message_stops_run (cfg : NodeConfig) (r : Reconciler (Node W)) (fuel : nat)
    (s s1 s2 : RunState W) (now : Time) (from data err : string) (ls : list label)
  (Hok : run_ok s) (Hbad : Next now from data = Err err)
  (Hstep : step cfg r fuel s (LReceive now from data) s1)
  (Hrun : exec_steps cfg r fuel s1 ls s2) :
  omap accepted ls = [] ∧
  (rs_returned s2 = None → step cfg r fuel s2 (LReturn err) (return_with err s2)) ∧
  (∀ e, rs_returned s2 = Some e → e = err ∨ e = ctx_Err ∧ rs_cancelled s2 = true).
Proof.
  assert (stopped err s1) as Hs1 by (inversion Hstep; subst; [congruence|split; cbn; congruence]).
  destruct (exec_stopped cfg r fuel err s1 ls s2 Hrun Hs1) as [[Hr2 He2] Ha]. split; [done|].
  split; [intros Hret; by apply step_return_sub|]. intros e He.
  assert (run_ok s2) as Hok2 by (eapply exec_run_ok; [done|]; by eapply step_run_ok).
  destruct (ro_returned _ Hok2 e He) as [Hsub|?]; [|by right]. left. congruence.
Qed.
End properties.

(** ** Publishing a local commit *)

Section publishing.
Context `{PB : Protobuf} {W : Type} `{D : Dolt W} `{R : GoRuntime}.
Context (cfg : NodeConfig) (r : Reconciler (Node W)) (fuel : nat).

(** [Node.Commit] undisturbed is the commit and its publication. *)
Lemma commit_then_publish s msg h n' :
  node_Commit cfg msg (rs_node s) = (Ok h, n') →
  exec_steps cfg r fuel s [LCommit msg; LPublish (length (rs_publishing s))] (with_node n' s).
Proof.
  intros (h' & n1 & Ec & E)%bind_Ok. apply bind_Ok in E as ([] & n2 & Ep & E). injection E as -> <-.
  econstructor; [by apply step_commit|]. econstructor; [|constructor].
  assert (with_node n2 s = with_publishing (delete (length (rs_publishing s)) (rs_publishing s ++ [h]))
    (with_node n2 (with_publishing (rs_publishing s ++ [h]) (with_node n1 s)))) as ->.
  { rewrite delete_middle, app_nil_r. by destruct s. }
  eapply (step_publish _ _ _ (with_publishing (rs_publishing s ++ [h]) (with_node n1 s))); [|done].
  by apply list_lookup_middle.
Qed.

(** What publishing leaves alone when the commit is not the head any more. *)
Definition unpublished (n n' : Node W) : Prop := n_idx n' = n_idx n ∧ n_outbox n' = n_outbox n.

Lemma publish_overtaken h (n n1 n' : Node W) head meta :
  GetLastUserCommit "main" n = (Ok (head, meta), n1) → c_Hash head ≠ h →
  publishLocalCommitAd cfg h n = (Ok tt, n') → unpublished n n'.
Proof.
  intros Eh Hne. unfold publishLocalCommitAd.
  assert (unpublished n n1) as Hn1.
  { apply bind_Ok in Eh as (rows & n2 & E2 & E). unfold wrap_err, lift in E2.
    destruct (query pool (QLog "main") (get_world n)) as [[q|e|e] w]; [|done..]. injection E2 as -> <-.
    destruct (first_user_commit rows); [|done]. by injection E as _ <-. }
  destruct (negb (cfg_Gossip cfg)); [by intros [= <-]|]. unfold bind at 1, attempt. rewrite Eh.
  rewrite (proj2 (String.eqb_neq _ _)) by done. by intros [= <-].
Qed.
End publishing.

(** A local commit that a round of synchronization overtakes is not
    advertised: the publication happens after the lock is given back, and when
    another user commit is then the last one of [main] it does nothing, neither
    to the index nor to the topic. *)
Theorem overtaken_commit_unpublished `{PB : Protobuf} {W : Type} `{D : Dolt W} `{R : GoRuntime}
    (cfg : NodeConfig) (r : Reconciler (Node W)) (fuel : nat) (s s' : RunState W) (k : nat) (h : string)
    (head : Commit) (meta : CommitMetadata) (n1 : Node W)
  (Hk : rs_publishing s !! k = Some h)
  (Hhead : GetLastUserCommit "main" (rs_node s) = (Ok (head, meta), n1)) (Hne : c_Hash head ≠ h)
  (Hstep : step cfg r fuel s (LPublish k) s') :
  n_idx (rs_node s') = n_idx (rs_node s) ∧ n_outbox (rs_node s') = n_outbox (rs_node s) ∧
  rs_publishing s' = delete k (rs_publishing s).
Proof.
  inversion Hstep as [| | |? ? h' n' Hk' Hp| | | | | | | | | | | | ]; subst. rewrite Hk in Hk'. injection Hk' as <-.
  destruct (publish_overtaken cfg h (rs_node s) n1 n' head meta Hhead Hne Hp). by split_and!.
Qed.

(** ** Closed examples *)

Section start.
Context {W : Type}.

(** The state in which the loops start on a node. *)
Definition run_from (n : Node W) : RunState W := mkRun n false [] None None true SyncWaiting None [].

Lemma run_from_ok n : run_ok (run_from n).
Proof. by split. Qed.
End start.

Definition toy_evt : GossipEvent :=
  mkEvent "relay" (Some (mkAd (cfg_Repo gossip_cfg) (meta_HLC example_meta) signed_json
                           (Signature signed_example) zero_time)) None.

(** A node with a finalized base receives an advertisement, synchronizes while
    a heartbeat is due, commits and then receives a message it cannot read. *)
Definition toy_labels : list label :=
  [LReceive zero_time "relay" "ad"; LEvent toy_evt; LSyncStart; LRepairTick; LHeartbeatTick; LSyncEnd;
   LCommit "m"; LPublish 0; LReceive zero_time "anyone" "garbage"].
Definition toy_run_start : RunState toy := run_from sync_node.
Definition toy_run (ls : list label) : option (RunState toy) :=
  do_labels gossip_cfg (installReconcilerHooks NewReconciler) 20 ls toy_run_start.
Definition toy_run_end (ls : list label) : RunState toy := default toy_run_start (toy_run ls).

Lemma toy_run_exec ls :
  bool_decide (toy_run ls = None) = false →
  exec_steps gossip_cfg (installReconcilerHooks NewReconciler) 20 toy_run_start ls (toy_run_end ls).
Proof.
  intros H. apply do_labels_exec. fold (toy_run ls). unfold toy_run_end.
  destruct (toy_run ls); [done|]. by rewrite bool_decide_true in H.
Qed.

Lemma toy_run_runs : bool_decide (toy_run toy_labels = None) = false.
Proof. vm_compute. reflexivity. Qed.

Lemma run_never_unfinalizes_witness :
  let b := mkBase (mkHLC 10 0 "p") (toy_hash 2) (mkTime 5 0 0) in
  let s' := toy_run_end toy_labels in
  mem_FinalizedBase (n_idx (rs_node toy_run_start)) = Some b ∧
  mem_inv (n_idx (rs_node s')) ∧
  ∃ b', mem_FinalizedBase (n_idx (rs_node s')) = Some b' ∧ (b' = b ∨ hlc_lt (fb_HLC b) (fb_HLC b')).
Proof.
  split; [vm_compute; reflexivity|].
  apply (run_never_unfinalizes gossip_cfg NewReconciler 20 toy_run_start (toy_run_end toy_labels) toy_labels
    (mkBase (mkHLC 10 0 "p") (toy_hash 2) (mkTime 5 0 0))).
  - reflexivity.
  - intros k e. cbn. by rewrite lookup_empty.
  - vm_compute. reflexivity.
  - exact (toy_run_exec toy_labels toy_run_runs).
Defined.

Lemma request_served_witness :
  let s2 := toy_run_end [LRepairTick; LHeartbeatTick] in
  n_trigger (rs_node s2) = true ∧
  (rs_cancelled s2 = false →
     (∃ s3, exec_steps gossip_cfg (installReconcilerHooks NewReconciler) 20 s2 [LSyncStart] s3) ∨
     (∃ s3, exec_steps gossip_cfg (installReconcilerHooks NewReconciler) 20 s2 [LSyncEnd; LSyncStart] s3) ∨
     (rs_sync s2 = SyncRunning ∧
      ∃ e, (syncOnce gossip_cfg (installReconcilerHooks NewReconciler) 20 (rs_node s2)).1 = Panic e)).
Proof.
  apply (request_served gossip_cfg NewReconciler 20 toy_run_start (toy_run_end [LRepairTick])
    (toy_run_end [LRepairTick; LHeartbeatTick]) LRepairTick [LHeartbeatTick]).
  - reflexivity.
  - exact (run_from_ok _).
  - apply do_label_sound. reflexivity.
  - exact I.
  - apply do_labels_exec. reflexivity.
  - intros H. apply list_elem_of_singleton in H. discriminate H.
Defined.

Lemma events_in_order_witness :
  let s' := toy_run_end toy_labels in
  (length (rs_events s') ≤ 256)%nat ∧
  sublist (omap handled toy_labels ++ rs_events s') (omap accepted toy_labels) ∧
  (length (omap accepted toy_labels) ≤ 256 →
   omap handled toy_labels ++ rs_events s' = omap accepted toy_labels)%nat.
Proof.
  apply (events_in_order gossip_cfg (installReconcilerHooks NewReconciler) 20 toy_run_start).
  - reflexivity.
  - exact (toy_run_exec toy_labels toy_run_runs).
Defined.

Lemma bad_message_stops_run_witness :
  let s1 := toy_run_end [LReceive zero_time "anyone" "garbage"] in
  let s2 := toy_run_end [LReceive zero_time "anyone" "garbage"; LRepairTick] in
  let err := "cannot parse invalid wire-format data" in
  omap accepted [LRepairTick] = [] ∧
  (rs_returned s2 = None →
     step gossip_cfg (installReconcilerHooks NewReconciler) 20 s2 (LReturn err) (return_with err s2)) ∧
  (∀ e, rs_returned s2 = Some e → e = err ∨ e = ctx_Err ∧ rs_cancelled s2 = true).
Proof.
  apply (bad_message_stops_run gossip_cfg (installReconcilerHooks NewReconciler) 20 toy_run_start
    (toy_run_end [LReceive zero_time "anyone" "garbage"])
    (toy_run_end [LReceive zero_time "anyone" "garbage"; LRepairTick]) zero_time "anyone" "garbage").
  - exact (run_from_ok _).
  - reflexivity.
  - apply do_label_sound. reflexivity.
  - apply do_labels_exec. reflexivity.
Defined.

(** [Run] does not wait for its goroutines: after it has returned the error of
    the subscription, the synchronization loop still takes a pending request
    and runs a round on the node. *)
Theorem sync_outlives_run :
  let err := "cannot parse invalid wire-format data" in
  let ls := [LRepairTick; LReceive zero_time "anyone" "garbage"; LReturn err; LSyncStart; LSyncEnd] in
  exec_steps gossip_cfg (installReconcilerHooks NewReconciler) 20 toy_run_start ls (toy_run_end ls) ∧
  rs_returned (toy_run_end ls) = Some err.
Proof. split; [apply toy_run_exec|]; vm_compute; reflexivity. Qed.

(** A signer whose signatures are plain words. *)
Definition plain_cfg : NodeConfig :=
  mkConfig (mkRepo "" "repo") (mkSigner (λ _, Ok "sig") (λ _ _ _, Ok tt) "pub" "k") true MaxClockSkew (30 * second)
    None (5 * second).

Definition plain_run (ls : list label) : RunState toy :=
  default toy_run_start (do_labels plain_cfg (installReconcilerHooks NewReconciler) 20 ls toy_run_start).

(** A commit published at once is advertised; one that a round overtakes is
    not. *)
Definition overtaken : RunState toy := plain_run [LCommit "m"; LRepairTick; LSyncStart; LSyncEnd].

Definition overtaken_head : Commit * CommitMetadata :=
  match (GetLastUserCommit "main" (rs_node overtaken)).1 with
  | Ok p => p
  | _ => (mkCommit "" "" "" zero_time "", example_meta)
  end.

Lemma overtaken_commit_unpublished_witness :
  length (n_outbox (rs_node (plain_run [LCommit "m"; LPublish 0]))) = 1%nat ∧
  n_outbox (rs_node (plain_run [LCommit "m"; LRepairTick; LSyncStart; LSyncEnd; LPublish 0])) = n_outbox (rs_node overtaken).
Proof.
  split; [vm_compute; reflexivity|].
  assert (rs_publishing overtaken !! 0%nat = Some (toy_hash 100)) as Hk by (vm_compute; reflexivity).
  assert ((GetLastUserCommit "main" (rs_node overtaken)).1 = Ok overtaken_head) as Hh by (vm_compute; reflexivity).
  assert (bool_decide (c_Hash overtaken_head.1 = toy_hash 100) = false) as Hne by (vm_compute; reflexivity).
  assert (bool_decide (do_label plain_cfg (installReconcilerHooks NewReconciler) 20 (LPublish 0) overtaken = None) = false) as Hd
    by (vm_compute; reflexivity).
  assert (default toy_run_start (do_label plain_cfg (installReconcilerHooks NewReconciler) 20 (LPublish 0) overtaken)
    = plain_run [LCommit "m"; LRepairTick; LSyncStart; LSyncEnd; LPublish 0]) as <- by (vm_compute; reflexivity).
  destruct (do_label _ _ _ (LPublish 0) overtaken) as [s'|] eqn:E; [|by rewrite bool_decide_true in Hd].
  destruct (GetLastUserCommit "main" (rs_node overtaken)) as [rr n1] eqn:Eg. cbn [fst] in Hh. subst rr.
  destruct overtaken_head as [head meta]. apply bool_decide_eq_false in Hne.
  exact (proj1 (proj2 (overtaken_commit_unpublished plain_cfg _ 20 overtaken s' 0 (toy_hash 100) head meta n1
    Hk Eg Hne (do_label_sound _ _ _ _ _ _ E)))).
Defined.
