(* ===== verification/Server.v ===== *)
(** * The tester service ([integration/p2p/server/server.go])

    The service answers from the node when one is running and from the
    database otherwise; both give the operations of [ExternalDB].  The list of
    commits that it reports is what the integration tests compare between
    peers: its order is related here to the order of the replay. *)

From Stdlib Require Import ZArith Lia String Ascii.
From stdpp Require Import gmap strings list sorting pretty.
From S2P Require Import Prelude Hlc Metadata Sql Index Linearize Dolt ToyDolt Reconciler Walk Db Node NodeFacts.

Local Open Scope Z_scope.

Section server.
(** [St] is the state behind the interface, [Tx] what an [ExecFunc] does in a
    transaction. *)
Context {St Tx : Type} `{R : GoRuntime}.

Record ExternalDB := mkExternalDB {
  ext_GetAllCommits : M St (list Commit);
  ext_ExecAndCommit : Tx → string → M St string;
  ext_GetLastCommit : string → M St Commit;
}.

Record Server := mkServer {
  srv_DB : ExternalDB;
  srv_Node : option ExternalDB;
  srv_Stats : option (St → nat * nat * nat);
}.

(** [remotePeer] is what [RemotePeerFromContext] finds. *)
Definition Ping (remotePeer : option string) (ping : string) : result string :=
  match remotePeer with
  | None => Err "no AuthInfo in context"
  | Some _ => Ok ("Ping: " +:+ ping +:+ "!")
  end.

(** [mkExec statement] is the closure [execFunc]. *)
Definition ExecSQL (mkExec : string → Tx) (s : Server) (statement msg : string) : M St (string * string) :=
  let execFunc := mkExec statement in
  let* commit := match srv_Node s with
                 | Some node => ext_ExecAndCommit node execFunc msg
                 | None => ext_ExecAndCommit (srv_DB s) execFunc msg
                 end in
  ret ("", commit).

Record userCommit := mkUserCommit { uc_hash : string; uc_hlc : HLCTimestamp }.

(** The body of the loop: [None] is [continue]. *)
Definition user_entry (commit : Commit) : option userCommit :=
  match ParseCommitMetadata (c_Message commit) with
  | Ok meta =>
      if negb (String.eqb (Kind meta) CommitKindUser) then None
      else Some (mkUserCommit (c_Hash commit) (meta_HLC meta))
  | _ => None
  end.

Definition uc_less (x y : userCommit) : bool :=
  if Equal (uc_hlc x) (uc_hlc y) then str_lt (uc_hash x) (uc_hash y) else Less (uc_hlc x) (uc_hlc y).

Definition report (commits : list Commit) : list userCommit :=
  sort_slice uc_less (omap user_entry commits).

Definition srv_GetAllCommits (s : Server) : M St (list string) :=
  let* commits := match srv_Node s with
                  | Some node => ext_GetAllCommits node
                  | None => ext_GetAllCommits (srv_DB s)
                  end in
  ret (map uc_hash (report commits)).

Definition GetHead (s : Server) : M St string :=
  let* commit := match srv_Node s with
                 | Some node => ext_GetLastCommit node "main"
                 | None => ext_GetLastCommit (srv_DB s) "main"
                 end in
  ret (c_Hash commit).

Definition SetPeerLimits : result unit := Ok tt.

(** The error text, and the three counts as [int32]. *)
Definition GetPeerCounts (s : Server) (st : St) : string * (Z * Z * Z) :=
  match srv_Stats s with
  | None => ("peer stats not configured", (0, 0, 0))
  | Some counts =>
      let '(hostPeers, grpcPeers, gossipPeers) := counts st in
      ("", (wrap32 (Z.of_nat hostPeers), wrap32 (Z.of_nat grpcPeers), wrap32 (Z.of_nat gossipPeers)))
  end.
End server.
Arguments ExternalDB : clear implicits.
Arguments Server : clear implicits.

(** ** The two implementations of the interface *)

Section external.
Context {W : Type} `{D : Dolt W} `{R : GoRuntime} (cfg : NodeConfig) (fuel : nat).

Definition node_ops : ExternalDB (Node W) (conn → M (DB W) unit) :=
  mkExternalDB (GetAllCommits fuel) (node_ExecAndCommit cfg) GetLastCommit.

Definition db_ops : ExternalDB (Node W) (conn → M (DB W) unit) :=
  mkExternalDB (on_db (GetAllCommits fuel)) (λ f msg, on_db (db_ExecAndCommit (cfg_Signer cfg) f msg))
    (λ branch, on_db (GetLastCommit branch)).

(** The closure of [ExecSQL]: [tx_Exec] runs a statement of the client in the
    transaction. *)
Definition exec_func (tx_Exec : conn → string → M (DB W) unit) (statement : string) : conn → M (DB W) unit :=
  λ tx, wrap_err "failed to insert: " (tx_Exec tx statement).

(** The service of [StartServer], with and without a running node. *)
Definition tester_server (running : bool) (stats : option (Node W → nat * nat * nat)) :
    Server (Node W) (conn → M (DB W) unit) :=
  mkServer db_ops (if running then Some node_ops else None) stats.
End external.

(** ** The order of the report *)

Definition uc_lt (x y : userCommit) : Prop :=
  hlc_lt (uc_hlc x) (uc_hlc y) ∨ uc_hlc x = uc_hlc y ∧ str_lt (uc_hash x) (uc_hash y) = true.

Lemma uc_less_spec x y : uc_less x y = true ↔ uc_lt x y.
Proof.
  unfold uc_less, uc_lt. destruct (Equal _ _) eqn:E.
  - apply Equal_spec in E. rewrite E. split; [by right|]. intros [H|[_ ?]]; [by apply hlc_lt_irrefl in H|done].
  - rewrite Less_spec. split; [by left|]. intros [?|[E' _]]; [done|]. apply Equal_spec in E'. congruence.
Qed.

Lemma uc_less_false x y : uc_less x y = false ↔ ¬ uc_lt x y.
Proof. rewrite <-uc_less_spec. by destruct (uc_less x y). Qed.

Lemma uc_lt_irrefl x : ¬ uc_lt x x.
Proof. intros [H|[_ H]]; [by apply hlc_lt_irrefl in H|]. by rewrite str_lt_irrefl in H. Qed.

Lemma uc_lt_trans x y z : uc_lt x y → uc_lt y z → uc_lt x z.
Proof.
  intros [H|[E H]] [H'|[E' H']]; [left; by eapply hlc_lt_trans|left; congruence|left; congruence|right].
  split; [congruence|]. by eapply str_lt_trans.
Qed.

Lemma uc_trichotomy x y : uc_lt x y ∨ uc_lt y x ∨ x = y.
Proof.
  destruct x as [h t], y as [h' t']. unfold uc_lt. cbn.
  destruct (hlc_trichotomy t t') as [?|[->|?]]; [by left; left| |by right; left; left].
  destruct (str_lt h h') eqn:E1; [by left; right|]. destruct (str_lt h' h) eqn:E2; [by right; left; right|].
  right; right. f_equal. by apply str_lt_total.
Qed.

Lemma uc_less_strict_weak : strict_weak uc_less.
Proof.
  split.
  - intros x. apply uc_less_false, uc_lt_irrefl.
  - intros x y z. rewrite !uc_less_spec. apply uc_lt_trans.
  - intros x y z. rewrite !uc_less_false. intros Hxy Hyz Hxz.
    destruct (uc_trichotomy x y) as [?|[Hyx|<-]]; [done| |done]. by destruct Hyz; eapply uc_lt_trans.
Qed.

Lemma uc_sorted_unique (l1 l2 : list userCommit) :
  StronglySorted uc_lt l1 → StronglySorted uc_lt l2 → (∀ x, x ∈ l1 ↔ x ∈ l2) → l1 = l2.
Proof.
  intros H1 H2 E.
  assert (∀ l, StronglySorted uc_lt l → NoDup l) as Hnd.
  { induction 1 as [|x l _ IH Hall]; constructor; [|done].
    intros Hin. rewrite Forall_forall in Hall. by apply (uc_lt_irrefl x), Hall. }
  apply (StronglySorted_unique_strong uc_lt); [|done|done|by apply NoDup_Permutation; auto].
  intros x y _ _ Hxy Hyx. by destruct (uc_lt_irrefl x); eapply uc_lt_trans.
Qed.

Lemma user_entry_spec c x :
  user_entry c = Some x ↔
  uc_hash x = c_Hash c ∧ ∃ meta, ParseCommitMetadata (c_Message c) = Ok meta ∧ meta_HLC meta = uc_hlc x.
Proof.
  unfold user_entry. destruct (ParseCommitMetadata _) as [meta|e|e] eqn:Hp; [|naive_solver..].
  rewrite (Parse_kind _ _ Hp). destruct x as [h t]. cbn. split.
  - intros [= <- <-]. split; [done|]. by exists meta.
  - intros (-> & meta' & [= <-] & ->). done.
Qed.

Section report.
Context `{R : GoRuntime}.

Lemma elem_of_report commits x : x ∈ report commits ↔ ∃ c, c ∈ commits ∧ user_entry c = Some x.
Proof. unfold report. by rewrite elem_of_sort_slice, list_elem_of_omap. Qed.

(** The report never goes back in time. *)
Lemma report_in_order commits : Sorted (λ x y, ¬ uc_lt y x) (report commits).
Proof.
  assert (Sorted (not_less uc_less) (report commits)) as Hs by apply sort_slice_sorted, uc_less_strict_weak.
  induction Hs as [|x l _ IH Hx]; [constructor|]. constructor; [done|].
  destruct Hx as [|y l Hx]; constructor. by apply uc_less_false.
Qed.

(** Commits with hashes of their own are reported strictly in order. *)
Lemma report_sorted commits : NoDup (c_Hash <$> commits) → StronglySorted uc_lt (report commits).
Proof.
  intros Hnd. assert (NoDup (uc_hash <$> omap user_entry commits)) as Hnd'.
  { induction commits as [|c commits IH]; [constructor|]. cbn in *. apply NoDup_cons in Hnd as [Hc Hnd].
    destruct (user_entry c) as [x|] eqn:Hx; [|auto]. cbn. apply NoDup_cons. split; [|auto].
    apply user_entry_spec in Hx as [-> _]. intros (y & E & Hy)%list_elem_of_fmap.
    apply list_elem_of_omap in Hy as (c' & Hc' & [E' _]%user_entry_spec).
    apply Hc, list_elem_of_fmap. exists c'. split; [congruence|done]. }
  assert (NoDup (report commits)) as Hndr.
  { unfold report. rewrite sort_slice_perm. by apply NoDup_fmap_1 in Hnd'. }
  pose proof (sw_le_trans _ uc_less_strict_weak).
  assert (Sorted (not_less uc_less) (report commits)) as Hs
    by apply sort_slice_sorted, uc_less_strict_weak.
  apply Sorted_StronglySorted in Hs; [|done]. revert Hndr Hs. generalize (report commits). intros l Hndr Hs.
  induction Hs as [|x l Hs IH Hall]; [constructor|]. apply NoDup_cons in Hndr as [Hn Hndr].
  constructor; [by apply IH|]. rewrite Forall_forall in *. intros y Hy.
  pose proof (Hall y Hy) as Hle%uc_less_false. destruct (uc_trichotomy x y) as [?|[?|<-]]; [done..|].
  by destruct (Hn Hy).
Qed.

Definition to_uc (x : commitWithMeta) : userCommit := mkUserCommit (cwm_hash x) (cwm_hlc x).

(** The timestamps of the user commits are set, and each is of one commit. *)
Definition distinct_timestamps (commits : list Commit) : Prop :=
  ∀ c c' m m', c ∈ commits → c' ∈ commits →
    ParseCommitMetadata (c_Message c) = Ok m → ParseCommitMetadata (c_Message c') = Ok m' →
    meta_HLC m ≠ zero_HLC ∧ (meta_HLC m = meta_HLC m' → c = c').

Lemma NoDup_hash_functional (l : list Commit) : NoDup (c_Hash <$> l) → hash_functional l.
Proof.
  intros Hnd c c' [i Hi]%list_elem_of_lookup [j Hj]%list_elem_of_lookup E.
  assert (i = j) as ->; [|congruence].
  apply (NoDup_lookup (c_Hash <$> l) i j (c_Hash c)); [done|by rewrite list_lookup_fmap, Hi|].
  by rewrite list_lookup_fmap, Hj, E.
Qed.

Lemma winner_distinct commits x :
  distinct_timestamps commits →
  winner None commits x ↔ cwm_commit x ∈ commits ∧ user_entry (cwm_commit x) = Some (to_uc x).
Proof.
  intros Hd. rewrite user_entry_spec. unfold winner, candidate. split.
  - intros [(Hc & (meta & Hp & Hh) & _) _]. split; [done|]. split; [done|]. by exists meta.
  - intros (Hc & _ & meta & Hp & Hh). split; [split_and!; [done|by exists meta|done]|].
    intros y (Hy & (m' & Hp' & Hh') & _) E _. destruct (Hd _ _ _ _ Hy Hc Hp' Hp) as [_ Hy'].
    unfold cwm_hash. rewrite Hy'; [apply str_lt_irrefl|]. cbn in Hh. congruence.
Qed.

Lemma collect_uc_sorted commits :
  NoDup (c_Hash <$> commits) → distinct_timestamps commits →
  StronglySorted uc_lt (map to_uc (collectUserCommits commits [] None)).
Proof.
  intros Hnd Hd. pose proof (NoDup_hash_functional _ Hnd) as Hf. rewrite <-(app_nil_r commits) in Hf.
  pose proof (collect_sorted commits [] None Hf) as Hs.
  assert (∀ x, x ∈ collectUserCommits commits [] None → cwm_hlc x ≠ zero_HLC) as Hz.
  { intros x Hx. apply elem_of_collect in Hx; [|done]. rewrite app_nil_r in Hx.
    destruct Hx as [(Hc & (m & Hp & <-) & _) _]. by destruct (Hd _ _ _ _ Hc Hc Hp Hp). }
  induction Hs as [|x l Hs IH Hall]; [constructor|]. cbn [map]. constructor.
  - apply IH. set_solver.
  - apply Forall_forall. intros z Hin. apply list_elem_of_fmap in Hin as (y & -> & Hy).
    apply Forall_forall with (x := y) in Hall; [|done]. unfold commit_lt, uc_lt in *. cbn.
    rewrite decide_False in Hall by (apply Hz; set_solver).
    destruct Hall as [E|?]; [|done]. by destruct (Hz y); [set_solver|].
Qed.

(** C9. The order that the service reports is the order of the replay: for
    commits whose timestamps are set and not shared, the reported list is the
    list that a replay of the whole history would apply. *)
Theorem report_is_linearization (commits : list Commit)
  (Hnd : NoDup (c_Hash <$> commits)) (Hd : distinct_timestamps commits) :
  map uc_hash (report commits) = map cwm_hash (collectUserCommits commits [] None).
Proof.
  enough (report commits = map to_uc (collectUserCommits commits [] None)) as -> by by rewrite map_map.
  pose proof (NoDup_hash_functional _ Hnd) as Hf. rewrite <-(app_nil_r commits) in Hf.
  apply uc_sorted_unique; [by apply report_sorted|by apply collect_uc_sorted|].
  intros x. change (map to_uc ?l) with (to_uc <$> l). rewrite elem_of_report, list_elem_of_fmap.
  setoid_rewrite elem_of_collect; [|done]. rewrite app_nil_r. setoid_rewrite winner_distinct; [|done]. split.
  - intros (c & Hc & Hx). exists (mkCWM c (uc_hlc x)).
    assert (x = to_uc (mkCWM c (uc_hlc x))) as E.
    { apply user_entry_spec in Hx as [Hh _]. destruct x; cbn in *. by subst. }
    by rewrite <-E.
  - intros (y & -> & Hy). by exists (cwm_commit y).
Qed.
End report.

(** ** The report of a running service *)

Section history.
Context {W : Type} `{D : Dolt W, !DoltLaws W} `{R : GoRuntime}.

(** With an engine that answers, [GetAllCommits] is the walk. *)
Lemma GetAllCommits_walk {St} `{HW : HasWorld St W} (Hrel : reliable (W:=W)) fuel (s : St) :
  wf_world (get_world s) → (walk_fuel (view (get_world s)) ≤ fuel)%nat →
  ∃ out s', GetAllCommits fuel s = (Ok out, s') ∧ view (get_world s') = view (get_world s) ∧
    match branch_head (view (get_world s)) "main" with
    | Some head => walk_result (view (get_world s)) "" head out
    | None => out = []
    end.
Proof.
  intros Hw Hfuel.
  pose proof (reads_getCommitsSince fuel pool "main" "" s eq_refl Hfuel Hw) as Hr.
  pose proof (total_getCommitsSince Hrel fuel pool "main" "" s eq_refl Hw Hfuel) as Ht.
  unfold GetAllCommits, bind, attempt.
  destruct (getCommitsSince fuel pool "main" "" s) as [[out|e|e] s1]; [|done..].
  destruct Hr as (_ & Hv & _ & H). by exists out, s1.
Qed.

(** A walk without a base visits the whole history. *)
Lemma since_whole v head h :
  view_wf v → is_Some (v_commits v !! head) → since v "" head h ↔ ancestor v h head.
Proof.
  intros Hv Hh.
  assert (∀ x, is_Some (v_commits v !! x) → x ≠ "") as Hne.
  { intros x [[c ps] Hx] ->. by destruct (wf_hash _ Hv _ _ _ Hx). }
  split.
  - induction 1 as [|x p _ IH Hp _]; [constructor|]. by eapply rtc_l.
  - intros Ha. assert (since v "" head h ∧ is_Some (v_commits v !! h)) as [? _]; [|done].
    induction Ha as [|h p head Hp _ IH]; [split; [constructor; by apply Hne|done]|].
    destruct (IH Hh) as [Hs Hk]. assert (is_Some (v_commits v !! h)) as Hk' by by eapply parents_known.
    split; [|done]. econstructor; [done..|by apply Hne].
Qed.

(** A commit of the history of [head]. *)
Definition history_commit (v : dview) (head : string) (c : Commit) : Prop :=
  ancestor v (c_Hash c) head ∧ ∃ ps, v_commits v !! c_Hash c = Some (c, ps).

(** [GetAllCommits] returns commits of the history of [main], and all of them,
    each once, when the queries of the walk do not fail; otherwise it falls
    back on the log of the engine. *)
Lemma GetAllCommits_history {St} `{HW : HasWorld St W} fuel (s : St) head :
  wf_world (get_world s) → (walk_fuel (view (get_world s)) ≤ fuel)%nat →
  branch_head (view (get_world s)) "main" = Some head →
  holds (GetAllCommits fuel) s (λ r s', view (get_world s') = view (get_world s) ∧
    match r with
    | Ok out => (∀ c, c ∈ out → history_commit (view (get_world s)) head c) ∧
        (reliable (W:=W) → NoDup (c_Hash <$> out) ∧ ∀ c, history_commit (view (get_world s)) head c → c ∈ out)
    | Err _ => ¬ reliable (W:=W)
    | Panic _ => False
    end).
Proof.
  intros Hw Hfuel Hhead. pose proof (wf_world_view _ Hw) as Hv.
  destruct (branch_head_known _ _ _ Hv Hhead) as [Hk _].
  pose proof (reads_getCommitsSince fuel pool "main" "" s eq_refl Hfuel Hw) as Hr.
  pose proof (λ Hrel, total_getCommitsSince Hrel fuel pool "main" "" s eq_refl Hw Hfuel) as Ht.
  unfold holds, GetAllCommits, bind, attempt. rewrite Hhead in Hr.
  destruct (getCommitsSince fuel pool "main" "" s) as [[out|e|e] s1]; destruct Hr as (Hw1 & Hv1 & Hc1 & H); [|clear H|done].
  - destruct H as [Hnd Hout]. split; [done|]. split.
    + intros c [Hs Hc]%Hout. by rewrite since_whole in Hs.
    + intros _. split; [done|]. intros c [Ha Hc]. apply Hout. by rewrite since_whole.
  - assert (¬ reliable (W:=W)) as Hrel by (intros Hrel; by specialize (Ht Hrel)).
    pose proof (query_pure Commit pool (QLog "main") (get_world s1)) as (Hv2 & _).
    pose proof (query_ok Commit pool (QLog "main") (get_world s1)) as Hq.
    pose proof (query_no_panic Commit pool (QLog "main") (get_world s1)) as Hnp.
    unfold wrap_err, lift. destruct (query pool (QLog "main") (get_world s1)) as [[rows|e'|e'] w2]; simpl in *;
      rewrite get_set_world, Hv2, Hv1; (split; [done|]); [|done|by eapply Hnp].
    split; [|done]. specialize (Hq rows w2 Hw1 eq_refl). simpl in Hq. rewrite Hv1 in Hq.
    rewrite resolve_branch, Hhead in Hq by done. destruct Hq as (c0 & ps0 & rest & _ & _ & Hq).
    intros c (h & ps & Hc & Ha)%Hq. destruct (wf_hash _ Hv _ _ _ Hc) as [_ <-]. by split; [|exists ps].
Qed.

(** C8. What a peer reports to the tests, whether a node is running or not.
    The repository is left alone.  Every commit of an answer is a user commit
    in the history of [main], and the answer is in the order of the
    timestamps.  When the queries of the walk over the commit graph do not
    fail ([reliable]), the service does answer, and with exactly the user
    commits in the history of [main], each once; when one fails, the code
    falls back on the engine's log, which may miss some. *)
Theorem reported_history (cfg : NodeConfig) (fuel : nat) (running : bool)
    (stats : option (Node W → nat * nat * nat)) (n : Node W) (head : string)
  (Hw : wf_world (get_world n))
  (Hfuel : (walk_fuel (view (get_world n)) ≤ fuel)%nat)
  (Hhead : branch_head (view (get_world n)) "main" = Some head) :
  let '(r, n') := srv_GetAllCommits (tester_server cfg fuel running stats) n in
  let v := view (get_world n) in
  let listed x := ancestor v (uc_hash x) head ∧
    ∃ c ps meta, v_commits v !! uc_hash x = Some (c, ps) ∧
      ParseCommitMetadata (c_Message c) = Ok meta ∧ meta_HLC meta = uc_hlc x in
  view (get_world n') = v ∧
  match r with
  | Ok hashes => ∃ l, hashes = map uc_hash l ∧ Sorted (λ x y, ¬ uc_lt y x) l ∧
      (∀ x, x ∈ l → listed x) ∧
      (reliable (W:=W) → StronglySorted uc_lt l ∧ ∀ x, listed x → x ∈ l)
  | Err _ => ¬ reliable (W:=W)
  | Panic _ => False
  end.
Proof.
  assert (holds (srv_GetAllCommits (tester_server cfg fuel running stats)) n (λ r n',
    view (get_world n') = view (get_world n) ∧
    match r with
    | Ok hashes => ∃ out, hashes = map uc_hash (report out) ∧
        (∀ c, c ∈ out → history_commit (view (get_world n)) head c) ∧
        (reliable (W:=W) → NoDup (c_Hash <$> out) ∧ ∀ c, history_commit (view (get_world n)) head c → c ∈ out)
    | Err _ => ¬ reliable (W:=W)
    | Panic _ => False
    end)) as H.
  { unfold srv_GetAllCommits, tester_server. apply holds_bind. destruct running; cbn.
    - eapply holds_mono; [by apply (GetAllCommits_history fuel n head)|].
      intros [out|e|e] n' [Hv H]; [|done..]. apply holds_ret. split; [done|]. by exists out.
    - pose proof (GetAllCommits_history (HW:=DB_world W) fuel (n_db n) head Hw Hfuel Hhead) as Hg.
      unfold holds, on_db in *. destruct (GetAllCommits fuel (n_db n)) as [[out|e|e] d]; cbn in *; [|done..].
      destruct Hg as [Hv Hg]. split; [done|]. by exists out. }
  unfold holds in H. destruct (srv_GetAllCommits _ n) as [[hashes|e|e] n']; [|done..].
  destruct H as (Hv & out & -> & Hin & Hrel). split; [done|]. exists (report out). split; [done|].
  split; [|split].
  - apply report_in_order.
  - intros x (c & [Ha [ps Hc]]%Hin & [Hh (meta & Hp & Ht)]%user_entry_spec)%elem_of_report.
    rewrite Hh. split; [done|]. by exists c, ps, meta.
  - intros [Hnd Hall]%Hrel. split; [by apply report_sorted|].
    intros x (Ha & c & ps & meta & Hc & Hp & Ht). apply elem_of_report. exists c.
    destruct (wf_hash _ (wf_world_view _ Hw) _ _ _ Hc) as [_ E'].
    rewrite user_entry_spec. rewrite E'. split; [apply Hall; unfold history_commit; rewrite E'; eauto|]. by eauto.
Qed.
End history.

(** ** Examples *)

Definition report_example : list Commit :=
  [example_commit "h3" 7; mkCommit "h0" "" "" zero_time "init"; example_commit "h1" 9; example_commit "h2" 8].

Lemma report_is_linearization_witness :
  map uc_hash (report report_example) = ["h3"; "h2"; "h1"] ∧
  map uc_hash (report report_example) = map cwm_hash (collectUserCommits report_example [] None).
Proof.
  split; [vm_compute; reflexivity|]. apply (report_is_linearization report_example).
  - vm_compute. repeat (constructor; [set_solver|]). constructor.
  - intros c c' m m' Hc Hc'. apply list_elem_of_In in Hc, Hc'.
    destruct Hc as [<-|[<-|[<-|[<-|[]]]]]; intros Hm; vm_compute in Hm; try discriminate Hm;
      destruct Hc' as [<-|[<-|[<-|[<-|[]]]]]; intros Hm'; vm_compute in Hm'; try discriminate Hm';
      injection Hm as <-; injection Hm' as <-; vm_compute; split; congruence.
Defined.

Lemma reported_history_witness :
  (srv_GetAllCommits (tester_server (W:=toy) toy_cfg 10 true None) toy_node).1 = Ok [toy_hash 2] ∧
  reliable (W:=toy) ∧
  let '(r, n') := srv_GetAllCommits (tester_server (W:=toy) toy_cfg 10 true None) toy_node in
  let v := view (get_world toy_node) in
  let listed x := ancestor v (uc_hash x) (toy_hash 2) ∧
    ∃ c ps meta, v_commits v !! uc_hash x = Some (c, ps) ∧
      ParseCommitMetadata (c_Message c) = Ok meta ∧ meta_HLC meta = uc_hlc x in
  view (get_world n') = v ∧
  match r with
  | Ok hashes => ∃ l, hashes = map uc_hash l ∧ Sorted (λ x y, ¬ uc_lt y x) l ∧
      (∀ x, x ∈ l → listed x) ∧
      (reliable (W:=toy) → StronglySorted uc_lt l ∧ ∀ x, listed x → x ∈ l)
  | Err _ => ¬ reliable (W:=toy)
  | Panic _ => False
  end.
Proof.
  split; [vm_compute; reflexivity|]. split; [intros A c q w Hq; by destruct q|].
  pose proof (reported_history (W:=toy) toy_cfg 10 true None toy_node (toy_hash 2)) as H. apply H.
  - exact toy_repo_wf.
  - vm_compute. lia.
  - vm_compute. reflexivity.
Defined.
