(* ===== verification/SyncFacts.v ===== *)
(** * What a round of synchronization does to every commit
    ([core/node.go]: [syncOnce]; [core/reconciler_core.go]:
    [ReplayImportedCommits])

    The functional specification of a round, on every branch: an error leaves
    [main] alone, no change means that the remote was already part of [main],
    and after a change each commit of both sides is in the new history or has
    been rejected in the index. *)

From Stdlib Require Import ZArith Lia String Ascii.
From stdpp Require Import gmap strings list sorting pretty.
From S2P Require Import Prelude Hlc GoTime GoJson GoJsonFacts Metadata Sql Index Linearize Dolt ToyDolt Reconciler.
From S2P Require Import Walk Replay Db Node NodeFacts Sync Server.

Local Open Scope Z_scope.

(** ** A walk that returns is exact, whatever its fuel *)

Section walk.
Context {St W : Type} `{D : Dolt W, !DoltLaws W} `{HW : HasWorld St W}.

Lemma bfs_fuel_mono fuel fuel' q base seen queue commits (s s' : St) out :
  (fuel ≤ fuel')%nat → bfs fuel q base seen queue commits s = (Ok out, s') →
  bfs fuel' q base seen queue commits s = (Ok out, s').
Proof.
  revert fuel' seen queue commits s.
  induction fuel as [|fuel IH]; intros [|fuel'] seen [|h queue] commits s Hle E;
    try lia; try done. cbn [bfs] in *.
  destruct (_ || _ || _); [apply IH; [lia|done]|].
  unfold bind in *. destruct (getCommitByHash q h s) as [[c|e|e] s1]; [|done..].
  destruct (getParentHashes q h s1) as [[ps|e|e] s2]; [|done..]. apply IH; [lia|done].
Qed.

Lemma getCommitsSince_fuel_mono fuel fuel' q branch base (s s' : St) out :
  (fuel ≤ fuel')%nat → getCommitsSince fuel q branch base s = (Ok out, s') →
  getCommitsSince fuel' q branch base s = (Ok out, s').
Proof.
  intros Hle E. unfold getCommitsSince, bind in *.
  destruct (getBranchHeadHash q branch s) as [[h|e|e] s1]; [|done..].
  destruct (_ || _); [done|]. by eapply bfs_fuel_mono.
Qed.

Lemma quiet_getCommitsSince_exact fuel q branch base (s : St) :
  is_branch_name branch = true →
  quiet (getCommitsSince fuel q branch base) s (λ out,
    match branch_head (view (get_world s)) branch with
    | Some head => walk_result (view (get_world s)) base head out
    | None => out = []
    end).
Proof.
  intros Hb Hw. pose proof (quiet_getCommitsSince fuel q branch base s Hb Hw) as Hq.
  destruct (getCommitsSince fuel q branch base s) as [r s'] eqn:E.
  destruct Hq as (Hw' & Hv & Hc & _). split_and!; [done..|]. intros out ->.
  pose proof (reads_getCommitsSince (fuel `max` walk_fuel (view (get_world s))) q branch base s Hb
    (Nat.le_max_r _ _) Hw) as Hr.
  rewrite (getCommitsSince_fuel_mono fuel _ q branch base s s' out (Nat.le_max_l _ _) E) in Hr.
  apply Hr.
Qed.

Lemma walk_result_known v base head out : walk_result v base head out → known_commits v out.
Proof. intros [_ H] c Hc. by apply H in Hc as [_ ?]. Qed.

(** Nothing was found only when the head is the base. *)
Lemma walk_result_nil v base head :
  view_wf v → is_Some (v_commits v !! head) → walk_result v base head [] → head = base.
Proof.
  intros Hv [[c ps] Hc] [_ H]. destruct (decide (head = base)) as [|Hne]; [done|].
  destruct (wf_hash _ Hv _ _ _ Hc) as [_ E].
  destruct (not_elem_of_nil c). apply H. rewrite E. split; [by constructor|eauto].
Qed.

(** Everything the walk returned is part of the history of the head. *)
Lemma since_ancestor v base head h : since v base head h → ancestor v h head.
Proof. induction 1 as [|x p _ IH Hp _]; [apply ancestor_refl|]. eapply rtc_l; done. Qed.

(** A repository that grows shows the same commits below a known head. *)
Lemma since_shrink v v' base head h :
  view_wf v → v_commits v ⊆ v_commits v' → is_Some (v_commits v !! head) →
  since v' base head h → since v base head h ∧ is_Some (v_commits v !! h).
Proof.
  intros Hv Hg Hh. induction 1 as [|x p _ [IH [[c ps] Hx]] Hp Hb]; [by split; [constructor|]|].
  assert (parents v' x = parents v x) as E by (apply parents_grow; eauto). rewrite E in Hp.
  split; [by econstructor|]. unfold parents in Hp. rewrite Hx in Hp. by eapply wf_parents.
Qed.

Lemma since_grow v v' base head h :
  view_wf v → v_commits v ⊆ v_commits v' → since v base head h → since v' base head h.
Proof.
  intros Hv Hg. induction 1 as [|x p _ IH Hp Hb]; [by constructor|]. eapply since_parent; [done| |done].
  rewrite (parents_grow v v'); [done|done|]. unfold parents in Hp.
  destruct (v_commits v !! x) eqn:E; [eauto|by apply not_elem_of_nil in Hp].
Qed.

Lemma walk_result_shrink v v' base head out :
  view_wf v → v_commits v ⊆ v_commits v' → is_Some (v_commits v !! head) →
  walk_result v' base head out → walk_result v base head out.
Proof.
  intros Hv Hg Hh [Hnd H]. split; [done|]. intros c. rewrite H. split; intros [Hs (ps & Hc)].
  - destruct (since_shrink v v' base head _ Hv Hg Hh Hs) as [Hs' [[c' ps'] Hc']]. split; [done|].
    exists ps. by rewrite <-Hc, (lookup_weaken _ _ _ _ Hc' Hg).
  - split; [by eapply since_grow|]. exists ps. by eapply lookup_weaken.
Qed.

End walk.

(** ** Importing commits *)

(** The commit above which [ReplayImportedCommits] rebuilds. *)
Definition effective_base (mergeBase : string) (fb : option FinalizedBase) : string :=
  match fb with
  | Some b => if negb (String.eqb (fb_CommitHash b) "") then fb_CommitHash b else mergeBase
  | None => mergeBase
  end.

Section import.
Context {St W : Type} `{D : Dolt W, !DoltLaws W} `{HW : HasWorld St W} `{R : GoRuntime}.
Context (dropped : St → CommitAd → Prop).
Context (dropped_world : ∀ w s, dropped (set_world w s) = dropped s).

Local Abbreviation vw s := (view (get_world s)).
Local Abbreviation main s := (v_branches (view (get_world s)) !! "main").

(** The computation of [effectiveBase] changes nothing. *)
Lemma holds_effective_base (s : St) mergeBase fb :
  holds (match fb with
         | Some fb =>
             if negb (String.eqb (fb_CommitHash fb) "") then
               let* _ := slice_to (fb_CommitHash fb) 8 in
               let* _ := slice_to mergeBase 8 in
               ret (fb_CommitHash fb)
             else ret mergeBase
         | None => ret mergeBase
         end) s
    (λ r s', s' = s ∧ match r with Ok b => b = effective_base mergeBase fb | _ => True end).
Proof.
  destruct fb as [fb|]; simpl; [|done]. destruct (negb _); [|done]. apply holds_bind.
  eapply holds_mono; [apply holds_slice_to|]. intros [?|e|e] ? [-> _]; [|done..].
  apply holds_bind. eapply holds_mono; [apply holds_slice_to|]. by intros [?|e|e] ? [-> _].
Qed.

(** What an import establishes from [s], when [main] is at [m0]. *)
Definition import_post (m0 mergeBase : string) (imported : list Commit) (fb : option FinalizedBase)
    (s : St) (res : result Z) (s' : St) : Prop :=
  stepped dropped s s' ∧
  match res with
  | Ok _ => ∃ local head, main s' = Some head ∧
      walk_result (vw s) (effective_base mergeBase fb) m0 local ∧
      ∀ x, x ∈ collectUserCommits local imported fb → accounted dropped s' head x
  | _ => main s' = Some m0
  end.

Lemma holds_import r fuel m0 mergeBase imported fb (s : St) :
  hooks_ok dropped r → wf_world (get_world s) → main s = Some m0 →
  is_Some (v_commits (vw s) !! effective_base mergeBase fb) → known_commits (vw s) imported →
  holds (ReplayImportedCommits r fuel mergeBase imported fb) s (import_post m0 mergeBase imported fb s).
Proof.
  intros Hr Hw Hm Hb Hki. unfold ReplayImportedCommits. apply holds_bind.
  eapply holds_mono; [by apply (holds_main_head dropped dropped_world pool)|].
  intros [hd|e|e] s1 ((Hst1 & Hb1 & _) & Hv1 & _); [|by split; [|rewrite Hb1]..].
  apply holds_bind. eapply holds_mono; [apply holds_effective_base|].
  intros [b|e|e] ? [-> Heb]; [subst b|by split; [|rewrite Hb1]..].
  apply holds_bind. eapply holds_wrap_err.
  { eapply (quiet_holds dropped (getCommitsSince fuel pool "main" (effective_base mergeBase fb)) s1 _ pool);
      [apply Hst1|by apply quiet_getCommitsSince_exact|].
    intros d. by apply preserves_getCommitsSince_dropped. }
  assert (main s1 = Some m0) as Hm1 by by rewrite Hb1.
  unfold branch_head. rewrite Hm1, Hv1.
  intros [local|e|e] s2 ((Hst2 & Hb2 & _) & Hv2 & Hl);
    [|split; [by eapply stepped_trans|by rewrite Hb2]..].
  specialize (Hl local eq_refl). assert (stepped dropped s s2) as Hst by by eapply stepped_trans.
  assert (main s2 = Some m0) as Hm2 by by rewrite Hb2.
  destruct (collectUserCommits local imported fb) as [|x0 l] eqn:E.
  { apply holds_ret. split; [done|]. exists local, m0. split_and!; [done..|]. rewrite E.
    intros x Hx. by apply not_elem_of_nil in Hx. }
  rewrite <-E. eapply holds_mono.
  { apply (holds_replay dropped dropped_world r (effective_base mergeBase fb) False (c_Hash hd)
      (collectUserCommits local imported fb) s2); rewrite ?Hv2, ?Hv1; [done|apply Hst2|done| |done].
    intros x Hx. eapply collect_known; [|done].
    intros y [Hy|Hy]%elem_of_app; [by eapply walk_result_known|by apply Hki]. }
  intros res s3 (Hst3 & _ & H). split; [by eapply stepped_trans|].
  destruct res as [k|e|e]; [|by rewrite H..].
  destruct H as (head & Hh & _ & Hacc & _). by exists local, head.
Qed.
End import.

(** ** Rejections survive the rebuilding of the index *)

Section rebuild.
Context {W : Type} `{D : Dolt W, !DoltLaws W} `{R : GoRuntime}.

(** A commit with a timestamp counts as dropped when the index says so. *)
Definition rejected_in_index (n : Node W) (ad : CommitAd) : Prop :=
  hlc_lt zero_HLC (ca_HLC ad) → status_of (ca_HLC ad) n = Some CommitStatusRejected.

Lemma rejected_in_index_world w n : rejected_in_index (set_world w n) = rejected_in_index n.
Proof. done. Qed.

Lemma rejected_hook_reports : hook_ok rejected_in_index (rejected_hook (W:=W)) true.
Proof.
  intros ad reason n. pose proof (rejected_hook_ok false ad reason n) as H0.
  unfold holds, rejected_hook in *. destruct (IsZero (ca_HLC ad)) eqn:E.
  - destruct H0 as (? & ? & _). split_and!; [done..|]. intros _ Hlt.
    apply IsZero_spec in E. rewrite E in Hlt. by apply hlc_lt_irrefl in Hlt.
  - destruct (run_UpsertStatus (ca_HLC ad) (ca_CommitHash ad) CommitStatusRejected n) as (n' & En & Hu).
    rewrite En in *. destruct H0 as (? & ? & _). destruct Hu as (Hst & Hother & _).
    split_and!; [done..| |by intros _ _]. intros ad' Had' Hlt. specialize (Had' Hlt).
    destruct (decide (ca_HLC ad' = ca_HLC ad)) as [->|Hne]; [done|].
    unfold status_of in *. by rewrite Hother.
Qed.

Lemma node_hooks_report :
  hooks_ok rejected_in_index (installReconcilerHooks (NewReconciler (St:=Node W))).
Proof. split; [|done]. eexists. split; [done|]. apply rejected_hook_reports. Qed.

Lemma run_Upsert e (n : Node W) :
  ∃ n', Upsert e n = (Ok tt, n') ∧ ∀ h, status_of h n' = if decide (e_HLC e = h)
    then Some (e_Status e) else status_of h n.
Proof.
  unfold Upsert. destruct (run_time n (λ now, modify (λ n, with_idx (mem_Upsert now e (n_idx n)) n)))
    as (t & w & ->).
  eexists. split; [done|]. intros h. unfold status_of. cbn. rewrite mem_Get_Upsert.
  case_decide; [|done]. cbn. by rewrite stamp_entry_Status.
Qed.

Lemma run_index_commit c (n : Node W) : ∃ n', index_commit c n = (Ok tt, n').
Proof.
  unfold index_commit. destruct (ParseCommitMetadata _) as [meta|e|e]; [|by eexists..].
  destruct (negb _); [by eexists|].
  destruct (run_UpsertStatus (meta_HLC meta) (c_Hash c) CommitStatusApplied n) as (n' & -> & _). by exists n'.
Qed.

Lemma run_restore_entry e (n : Node W) :
  ∃ n', restore_entry e n = (Ok tt, n') ∧
    (∀ h, h ≠ e_HLC e → status_of h n' = status_of h n) ∧
    (status_of (e_HLC e) n' = Some (e_Status e) ∨ status_of (e_HLC e) n' = Some CommitStatusApplied).
Proof.
  destruct (run_Upsert e n) as (n1 & E1 & H1). unfold restore_entry, bind, gets, id. cbn [fst snd].
  assert ((∀ h, h ≠ e_HLC e → status_of h n1 = status_of h n) ∧
    (status_of (e_HLC e) n1 = Some (e_Status e) ∨ status_of (e_HLC e) n1 = Some CommitStatusApplied)) as HU.
  { split; [intros h Hne; by rewrite H1, decide_False|left; by rewrite H1, decide_True]. }
  destruct (mem_Get (e_HLC e) (n_idx n)) as [cur|] eqn:Hg; [|by exists n1].
  case_bool_decide as Hc; [|by exists n1].
  exists n. split_and!; [done..|]. right. unfold status_of. by rewrite Hg, <-Hc.
Qed.

(** Restoring a list in which only rejections mention [h]. *)
Lemma run_restore_all l (n : Node W) :
  ∃ n', for_each restore_entry l n = (Ok tt, n') ∧ ∀ h,
    (∀ e, e ∈ l → e_HLC e = h → e_Status e = CommitStatusRejected) →
    is_decided h n ∨ h ∈ e_HLC <$> l → is_decided h n'.
Proof.
  revert n. induction l as [|e l IH]; intros n; cbn [for_each].
  { exists n. split; [done|]. intros h _ [?|Hin]; [done|]. by apply not_elem_of_nil in Hin. }
  destruct (run_restore_entry e n) as (n1 & E1 & Ho & He). unfold bind. rewrite E1.
  destruct (IH n1) as (n2 & -> & H2).
  exists n2. split; [done|]. intros h Hl Hor. apply H2; [intros e' He'; apply Hl; set_solver|].
  destruct (decide (e_HLC e = h)) as [<-|Hne].
  - left. unfold is_decided. rewrite (Hl e) in He by set_solver. tauto.
  - destruct Hor as [Hd|Hin]; [left|right; set_solver].
    unfold is_decided in *. by rewrite Ho.
Qed.

Lemma run_index_all l (n : Node W) : ∃ n', for_each index_commit l n = (Ok tt, n').
Proof.
  revert n. induction l as [|c l IH]; intros n; cbn [for_each]; [by eexists|].
  destruct (run_index_commit c n) as (n1 & E1). unfold bind. rewrite E1. apply IH.
Qed.

Lemma run_initIndexFromDB fuel (n : Node W) :
  reliable (W:=W) → wf_world (get_world n) → (walk_fuel (view (get_world n)) ≤ fuel)%nat →
  mem_inv (n_idx n) →
  ∃ n', initIndexFromDB fuel n = (Ok tt, n') ∧ ∀ h, hlc_lt zero_HLC h →
    status_of h n = Some CommitStatusRejected → is_decided h n'.
Proof.
  intros Hrel Hw Hfuel Hinv. unfold initIndexFromDB, bind at 1, gets, id. cbn [fst snd].
  set (l := List.filter _ _). unfold bind at 1, modify. cbn [fst snd].
  unfold bind at 1.
  destruct (GetAllCommits_walk (HW:=Node_world) Hrel fuel (with_idx (resetForRebuild (n_idx n)) n) Hw Hfuel)
    as (out & n1 & -> & _). unfold bind at 1.
  destruct (run_index_all out n1) as (n2 & ->).
  destruct (run_restore_all l n2) as (n3 & -> & H3). exists n3. split; [done|].
  intros h Hz Hst. unfold status_of in Hst. apply H3.
  - intros e He Eh. unfold l in He. apply list_elem_of_In, filter_In in He as [He _].
    apply list_elem_of_In in He. rewrite mem_ListAfter_0 in He.
    apply elem_of_mem_listing in He as [He _]; [|done].
    rewrite <-Eh, He in Hst. by injection Hst.
  - right. destruct (mem_Get h (n_idx n)) as [e|] eqn:Hg; [|done]. injection Hst as Hs.
    assert (e_HLC e = h) as Eh.
    { apply (inj hlc_String). symmetry. by apply (Hinv (hlc_String h) e). }
    apply list_elem_of_fmap. exists e. split; [done|]. unfold l.
    apply list_elem_of_In, filter_In. split.
    + apply list_elem_of_In. rewrite mem_ListAfter_0. apply elem_of_mem_listing; [done|]. by rewrite Eh.
    + by rewrite Hs.
Qed.
(** The entries that are to be preserved are put back last: when the list of
    commits cannot be read, the rebuild fails and the index stays empty. *)
Theorem failed_rebuild_forgets fuel (n n1 : Node W) (e : string) :
  GetAllCommits fuel (with_idx (resetForRebuild (n_idx n)) n) = (Err e, n1) →
  (initIndexFromDB fuel n).1 = Err e ∧ entries (n_idx (initIndexFromDB fuel n).2) = ∅.
Proof.
  intros E. unfold initIndexFromDB, bind, gets, id, modify. cbn [fst snd]. rewrite E. split; [done|].
  cbn [fst snd]. pose proof (keeps_getCommitsSince (W:=W) (λ i _, entries i = ∅) fuel pool "main" "") as Hk.
  revert E. unfold GetAllCommits, bind, attempt, wrap_err.
  specialize (Hk (with_idx (resetForRebuild (n_idx n)) n) eq_refl).
  destruct (getCommitsSince fuel pool "main" "" _) as [[out|e1|e1] n2]; cbn in Hk; [done| |done].
  pose proof (keeps_lift (W:=W) (λ i _, entries i = ∅) (query pool (QLog "main")) n2 Hk) as Hq.
  destruct (lift (query pool (QLog "main")) n2) as [[rows|e2|e2] n3]; cbn in Hq; [done| |done].
  by intros [= _ <-].
Qed.
End rebuild.

(** ** Moving [main] *)

Lemma holds_both {S A} (m : M S A) s (Q1 Q2 : result A → S → Prop) :
  holds m s Q1 → holds m s Q2 → holds m s (λ r s', Q1 r s' ∧ Q2 r s').
Proof. by split. Qed.

Section moves.
Context {W : Type} `{D : Dolt W, !DoltLaws W} `{R : GoRuntime}.

Local Abbreviation vw n := (view (get_world n)).
Local Abbreviation main n := (v_branches (view (get_world n)) !! "main").
Local Abbreviation moved := (stepped none_dropped).

(** [main] ends at a commit that satisfies [P], or stays where it was. *)
Definition moves {A} (P : dview → string → Prop) (n : Node W) (r : result A) (n' : Node W) : Prop :=
  moved n n' ∧
  match r with Ok _ => ∃ m, main n' = Some m ∧ P (vw n') m | _ => main n' = main n end.

Lemma moves_step {A} P n (r : result A) n1 n2 :
  growing P → moves P n r n1 → moved n1 n2 → main n2 = main n1 → moves P n r n2.
Proof.
  intros HP [Hst H] Hst2 E. split; [by eapply stepped_trans|]. rewrite E. destruct r; [|done..].
  destruct H as (m & Hm & Pm). exists m. split; [done|]. eapply HP; [apply Hst2|done].
Qed.

Lemma moves_before {A} P n n1 (r : result A) n2 :
  moved n n1 → main n1 = main n → moves P n1 r n2 → moves P n r n2.
Proof. intros Hst E [Hst2 H]. split; [by eapply stepped_trans|]. by rewrite <-E. Qed.

(** A step that moves neither [main] nor anything it depends on. *)
Definition idles {A} (m : M (Node W) A) : Prop := ∀ n, wf_world (get_world n) →
  holds m n (λ r n', moved n n' ∧ main n' = main n ∧ match r with Panic _ => False | _ => True end).

Lemma idles_exec c st : spares_main st = true → idles (lift (exec c st)).
Proof.
  intros Hs n Hw. eapply holds_mono; [by apply holds_exec_node|]. intros [u|e|e] n' [Hst He]; [| |done].
  - split_and!; [done|by eapply effect_spares_main|done].
  - split_and!; [done|by destruct He as [-> _]|done].
Qed.

Lemma idles_open : idles (lift open_conn).
Proof.
  intros n Hw. eapply holds_mono; [by apply (holds_open none_dropped (λ _ _, eq_refl))|].
  intros r n' (? & Hv & ?). rewrite Hv. by destruct r.
Qed.

Lemma idles_close c : idles (ignore (lift (close_conn c))).
Proof.
  intros n Hw. eapply holds_mono; [by apply (holds_close none_dropped (λ _ _, eq_refl))|].
  intros r n' (-> & ? & Hb). by rewrite Hb.
Qed.

Lemma idles_time : idles (lift time_now).
Proof.
  intros n Hw. eapply holds_mono; [by apply (holds_time none_dropped (λ _ _, eq_refl) pool)|].
  intros r n' ((Hst & Hb & _) & _ & Hok). rewrite Hb. by destruct r.
Qed.

Lemma idles_bind {A B} (m : M (Node W) A) (k : A → M (Node W) B) :
  idles m → (∀ a, idles (k a)) → idles (bind m k).
Proof.
  intros Hm Hk n Hw. apply holds_bind. eapply holds_mono; [by apply Hm|].
  intros [a|e|e] n1 (Hst & E & Hp); [|done..]. eapply holds_mono; [apply Hk, Hst|].
  intros r n2 (Hst2 & E2 & ?). split_and!; [by eapply stepped_trans|congruence|done].
Qed.

Lemma idles_ignore {A} (m : M (Node W) A) : idles m → idles (ignore m).
Proof.
  intros Hm n Hw. eapply holds_ignore; [by apply Hm|]. intros [a|e|e] n' (? & ? & ?); by split_and!.
Qed.

Lemma idles_cleanup c tmp :
  tmp ≠ "main" →
  idles (ignore (lift (exec c (DoltCheckout "main"))) ;;* ignore (lift (exec c (DoltBranchDelete tmp)))).
Proof.
  intros Hne. apply idles_bind; [|intros _]; apply idles_ignore, idles_exec; [done|].
  by apply negb_true_iff, String.eqb_neq.
Qed.

Section to.
Context (P : dview → string → Prop) (HP : growing P).

Lemma moves_bind {A B} (m : M (Node W) A) (k : A → M (Node W) B) n :
  idles m → wf_world (get_world n) →
  (∀ a n1, moved n n1 → main n1 = main n → m n = (Ok a, n1) → holds (k a) n1 (moves P n1)) →
  holds (bind m k) n (moves P n).
Proof.
  intros Hm Hw Hk. apply holds_bind. specialize (Hm n Hw). unfold holds in *.
  destruct (m n) as [[a|e|e] n1]; cbn [fst snd] in *; destruct Hm as (Hst & E & Hp); [|by split|done].
  eapply moves_before; [done..|]. by apply Hk.
Qed.

Lemma moves_deferred {A} (body : M (Node W) A) cleanup n :
  idles cleanup → holds body n (moves P n) → holds (deferred body cleanup) n (moves P n).
Proof.
  intros Hc Hb. apply holds_deferred. eapply holds_mono; [done|]. intros r n1 H1.
  eapply holds_mono; [apply Hc, H1|]. intros r' n2 (Hst & E & Hp).
  destruct r'; [by eapply moves_step..|done].
Qed.
End to.

(** A temporary branch points at the target while [main] is moved. *)
Lemma run_tmp_branch c tmp h n u n1 :
  wf_world (get_world n) → is_Some (v_commits (vw n) !! h) →
  lift (exec c (DoltBranchForce tmp h)) n = (Ok u, n1) →
  v_branches (vw n1) !! tmp = Some h ∧ current (get_world n1) c = current (get_world n) c.
Proof.
  intros Hw Hh E. pose proof (holds_exec_node c (DoltBranchForce tmp h) n Hw) as H.
  unfold holds in H. rewrite E in H. cbn [fst snd] in H. destruct H as [_ (h' & Hres & Hb & Hc)].
  rewrite resolve_hash in Hres by (done || by apply wf_world_view). injection Hres as <-.
  by rewrite Hb, lookup_insert_eq.
Qed.

Lemma run_checkout c b n u n1 :
  wf_world (get_world n) → lift (exec c (DoltCheckout b)) n = (Ok u, n1) →
  v_branches (vw n1) = v_branches (vw n) ∧ current (get_world n1) c = b.
Proof.
  intros Hw E. pose proof (holds_exec_node c (DoltCheckout b) n Hw) as H.
  unfold holds in H. rewrite E in H. cbn [fst snd] in H. destruct H as [_ (_ & Hb & Hc)]. done.
Qed.

Lemma known_step h n n1 : moved n n1 → is_Some (v_commits (vw n) !! h) → is_Some (v_commits (vw n1) !! h).
Proof. intros Hst [x Hx]. exists x. eapply lookup_weaken; [done|apply Hst]. Qed.

(** A reset of [main] to the temporary branch. *)
Lemma moves_reset c tmp h n :
  wf_world (get_world n) → is_branch_name tmp = true → v_branches (vw n) !! tmp = Some h →
  current (get_world n) c = "main" →
  holds (lift (exec c (DoltResetHard tmp))) n (moves (λ _ m, m = h) n).
Proof.
  intros Hw Ht Hb Hc. eapply holds_mono; [by apply holds_exec_node|].
  intros [u|e|e] n' [Hst He]; [| |done]; (split; [done|]); [|by destruct He as [-> _]].
  destruct He as (h' & Hres & Hb' & _). rewrite resolve_branch in Hres by done.
  unfold branch_head in Hres. rewrite Hb in Hres. injection Hres as <-.
  exists h. by rewrite Hb', Hc, lookup_insert_eq.
Qed.

Lemma moves_forceReset h n :
  wf_world (get_world n) → is_Some (v_commits (vw n) !! h) →
  holds (forceResetMainTo h) n (moves (λ _ m, m = h) n).
Proof.
  intros Hw Hh. assert (growing (λ _ m, m = h)) as HP by by intros ????.
  unfold forceResetMainTo. apply moves_bind; [apply idles_open|done|].
  intros c n1 Hst1 _ _. apply moves_deferred; [done|apply idles_close|].
  apply moves_bind; [apply idles_time|apply Hst1|]. intros t n2 Hst2 _ _.
  assert (tmp_name "swarm_bootstrap_" t ≠ "main") as Hne by (unfold tmp_name; by rewrite append_cons).
  apply moves_bind; [|apply Hst2|].
  { by apply idles_exec, negb_true_iff, String.eqb_neq. }
  intros u n3 Hst3 _ E3. apply run_tmp_branch in E3 as [Hb3 _];
    [|apply Hst2|by eapply known_step, known_step].
  apply moves_deferred; [done|by apply idles_cleanup|].
  apply moves_bind; [by apply idles_exec|apply Hst3|]. intros u' n4 Hst4 _ E4.
  apply run_checkout in E4 as [Hb4 Hc4]; [|apply Hst3].
  apply moves_reset; [apply Hst4|apply tmp_is_branch|by rewrite Hb4|done].
Qed.

(** A fast-forward of [main] to the temporary branch. *)
Lemma moves_ff c tmp h m0 n :
  wf_world (get_world n) → is_branch_name tmp = true → v_branches (vw n) !! tmp = Some h →
  current (get_world n) c = "main" → main n = Some m0 →
  holds (lift (exec c (DoltMergeFFOnly tmp))) n (moves (λ v m, ancestor v h m ∧ ancestor v m0 m) n).
Proof.
  intros Hw Ht Hb Hc Hm. eapply holds_mono; [by apply holds_exec_node|].
  intros [u|e|e] n' [Hst He]; [| |done]; (split; [done|]); [|by destruct He as [-> _]].
  destruct He as (old & h' & new & Hold & Hres & Hnew & Hb' & _). rewrite resolve_branch in Hres by done.
  unfold branch_head in Hres. rewrite Hb in Hres. injection Hres as <-.
  rewrite Hc, Hm in Hold. injection Hold as <-. exists new. rewrite Hb', Hc, lookup_insert_eq.
  split; [done|]. pose proof (st_grow _ _ _ Hst) as Hg.
  destruct Hnew as [[Ha ->]|[Ha ->]]; split;
    first [apply ancestor_refl|by eapply ancestor_grow].
Qed.

Lemma ff_is_branch t : is_branch_name (tmp_name "swarm_ff_" t) = true.
Proof.
  unfold is_branch_name, tmp_name, is_hash. rewrite !append_cons. cbn [all_chars].
  change (hash_char "w") with false. cbn [andb]. rewrite !andb_false_r. done.
Qed.

Lemma moves_tryFastForward h m0 n :
  wf_world (get_world n) → is_Some (v_commits (vw n) !! h) → main n = Some m0 →
  holds (tryFastForward h) n (moves (λ v m, ancestor v h m ∧ ancestor v m0 m) n).
Proof.
  intros Hw Hh Hm. assert (growing (λ v m, ancestor v h m ∧ ancestor v m0 m)) as HP.
  { intros v v' m Hg [??]. by split; eapply ancestor_grow. }
  unfold tryFastForward. apply moves_bind; [apply idles_open|done|].
  intros c n1 Hst1 E1 _. apply moves_deferred; [done|apply idles_close|].
  apply moves_bind; [apply idles_time|apply Hst1|]. intros t n2 Hst2 E2 _.
  assert (tmp_name "swarm_ff_" t ≠ "main") as Hne by (unfold tmp_name; by rewrite append_cons).
  apply moves_bind; [by apply idles_exec|apply Hst2|]. intros u n3 Hst3 E3 Eq3.
  apply run_checkout in Eq3 as [Hb3 Hc3]; [|apply Hst2].
  apply moves_bind; [|apply Hst3|].
  { by apply idles_exec, negb_true_iff, String.eqb_neq. }
  intros u' n4 Hst4 E4 Eq4. apply run_tmp_branch in Eq4 as [Hb4 Hc4];
    [|apply Hst3|by eapply known_step, known_step, known_step].
  apply moves_deferred; [done|by apply idles_cleanup|].
  apply holds_bind. eapply holds_mono.
  { apply moves_ff; [apply Hst4|apply ff_is_branch|done|by rewrite Hc4|by rewrite E4, E3, E2, E1]. }
  intros r n5 H5. by destruct r.
Qed.
End moves.

(** ** Rebuilding the index leaves the repository alone *)

Section same_view.
Context {W : Type} `{D : Dolt W, !DoltLaws W} `{R : GoRuntime} (v : dview).

Definition keeps_view {A} (m : M (Node W) A) : Prop := preserves (λ n, view (get_world n) = v) m.

Lemma keeps_view_lift {A} (m : M W A) : (∀ w, view (m w).2 = view w) → keeps_view (lift m).
Proof.
  intros Hm n <-. unfold lift. specialize (Hm (get_world n)). by destruct (m (get_world n)).
Qed.

Lemma keeps_view_modify f : (∀ n, get_world (f n) = get_world n) → keeps_view (modify f).
Proof. intros Hf n <-. unfold modify. cbn [snd]. by rewrite Hf. Qed.

Ltac view_walk :=
  unfold keeps_view; walk_preserves;
  lazymatch goal with
  | |- preserves _ (lift (query _ _)) => apply keeps_view_lift; intros; apply query_pure
  | |- preserves _ (lift time_now) => apply keeps_view_lift; intros; apply time_pure
  | |- preserves _ (modify _) => apply keeps_view_modify; done
  | _ => idtac
  end.

Lemma keeps_view_bfs fuel q base seen queue commits : keeps_view (bfs fuel q base seen queue commits).
Proof.
  revert seen queue commits. induction fuel as [|fuel IH]; intros seen [|h queue] commits; cbn [bfs];
    unfold getCommitByHash, getParentHashes, query_row; view_walk; apply IH.
Qed.

Lemma keeps_view_for_each {A} (f : A → M (Node W) unit) l :
  (∀ x, keeps_view (f x)) → keeps_view (for_each f l).
Proof.
  intros Hf. induction l as [|x l IH]; [apply preserves_ret|].
  apply preserves_bind; [apply Hf|]. intros _. apply IH.
Qed.

Lemma keeps_view_initIndexFromDB fuel : keeps_view (initIndexFromDB fuel).
Proof.
  unfold initIndexFromDB, GetAllCommits, getCommitsSince, getBranchHeadHash, scan_string, query_row.
  view_walk; try apply keeps_view_bfs.
  - apply keeps_view_for_each. intros x. unfold index_commit, UpsertStatus, Upsert. view_walk.
  - apply keeps_view_for_each. intros x. unfold restore_entry, Upsert. view_walk.
Qed.
End same_view.

(** ** The round *)

Section round.
Context {W : Type} `{D : Dolt W, !DoltLaws W} `{R : GoRuntime} (cfg : NodeConfig).
Context (fuel : nat) (n0 : Node W) (m0 : string) (Hrel : reliable (W:=W)).
Context (Hw0 : wf_world (get_world n0)) (Hidx : mem_inv (n_idx n0)).
Context (Hm0 : v_branches (view (get_world n0)) !! "main" = Some m0).
Context (Hbase : ∀ fb, mem_FinalizedBase (n_idx n0) = Some fb →
  fb_CommitHash fb = "" ∨ is_Some (v_commits (view (get_world n0)) !! fb_CommitHash fb)).

Local Abbreviation vw n := (view (get_world n)).
Local Abbreviation main n := (v_branches (view (get_world n)) !! "main").
Local Abbreviation rc := (installReconcilerHooks (NewReconciler (St:=Node W))).
Local Abbreviation fb0 := (mem_FinalizedBase (n_idx n0)).

(** A commit is in the history of [m], or the index has decided about its
    timestamp. *)
Definition settled (n : Node W) (m : string) (x : commitWithMeta) : Prop :=
  kept (vw n) (cwm_hash x) m ∨ (hlc_lt zero_HLC (cwm_hlc x) → is_decided (cwm_hlc x) n).

(** The outcome of a round that saw the repository [v] after the fetch. *)
Definition round_spec (v : dview) (r : result bool) (n' : Node W) : Prop :=
  match r with
  | Ok true => ∃ h m', branch_head v remoteRef = Some h ∧ main n' = Some m' ∧
      ((∀ a, ¬ (ancestor v a m0 ∧ ancestor v a h)) ∧ m' = h ∨
       ∃ mb local imported, ancestor v mb m0 ∧ ancestor v mb h ∧
         walk_result v (effective_base mb fb0) m0 local ∧ walk_result v mb h imported ∧
         ∀ x, x ∈ collectUserCommits local imported fb0 → settled n' m' x)
  | Ok false => main n' = Some m0 ∧ ∀ h, branch_head v remoteRef = Some h → ancestor v h m0
  | _ => main n' = Some m0
  end.

(** The state after the fetch of a round. *)
Definition fetched (n : Node W) : Node W := ((EnsureSwarmRemote (cfg_Repo cfg) ;;* FetchSwarm) n).2.

Definition round_done (v : dview) (r : result bool) (n' : Node W) : Prop :=
  (walk_fuel (vw n') ≤ fuel)%nat → round_spec v r n'.

(** Rebuilding the index ends the round. *)
Lemma holds_finish v m n :
  wf_world (get_world n) → mem_inv (n_idx n) → main n = Some m →
  (∀ n', vw n' = vw n → main n' = Some m →
     (∀ h, hlc_lt zero_HLC h → status_of h n = Some CommitStatusRejected → is_decided h n') →
     round_spec v (Ok true) n') →
  holds (ignore (initIndexFromDB fuel) ;;* ret true) n (round_done v).
Proof.
  intros Hw Hi Hm Hspec.
  assert (vw (initIndexFromDB fuel n).2 = vw n) as Hv by by apply keeps_view_initIndexFromDB.
  unfold holds, round_done, bind, ignore. destruct (decide (walk_fuel (vw n) ≤ fuel)%nat) as [Hf|Hf].
  - destruct (run_initIndexFromDB fuel n Hrel Hw Hf Hi) as (n' & E & Hd). rewrite E in *.
    intros _. cbn [snd] in Hv. apply (Hspec n'); [done|by rewrite Hv|done].
  - rewrite <-Hv in Hf. destruct (initIndexFromDB fuel n) as [[u|e|e] n']; cbn [fst snd ret] in *; intros; exfalso; lia.
Qed.

Lemma fails_done v n (r : result bool) : (∀ b, r ≠ Ok b) → main n = Some m0 → round_done v r n.
Proof. intros Hr Hm _. destruct r as [b|e|e]; [by destruct (Hr b)|done..]. Qed.

Lemma idx_before n : before_update n0 m0 n → n_idx n = n_idx n0.
Proof. by intros [_ ?]. Qed.

Lemma keeps_inv {A} (m : M (Node W) A) n :
  keeps (λ i _, mem_inv i) m → mem_inv (n_idx n) → holds m n (λ _ n', mem_inv (n_idx n')).
Proof. intros Hm Hn. by apply Hm. Qed.

Lemma keeps_moving h : keeps (W:=W) (λ i _, mem_inv i) (forceResetMainTo h) ∧ keeps (W:=W) (λ i _, mem_inv i) (tryFastForward h).
Proof.
  unfold keeps, forceResetMainTo, tryFastForward.
  split; walk_preserves; apply (keeps_lift (λ i _, mem_inv i)).
Qed.

(** No common history: [main] becomes the remote head. *)
Lemma holds_bootstrap_done h n :
  before_update n0 m0 n → branch_head (vw n) remoteRef = Some h →
  (∀ a, ¬ (ancestor (vw n) a m0 ∧ ancestor (vw n) a h)) →
  holds (forceResetMainTo h ;;* ignore (initIndexFromDB fuel) ;;* ret true) n (round_done (vw n)).
Proof.
  intros Hn Hh Hno. pose proof Hn as [(Hw & _) Hi].
  destruct (branch_head_known _ _ _ (wf_world_view _ Hw) Hh) as [Hk _].
  apply holds_bind. eapply holds_mono.
  { apply holds_both; [by apply moves_forceReset|].
    apply keeps_inv; [apply (keeps_moving h)|by rewrite Hi]. }
  intros [u|e|e] n1 [[Hst H] Hi1]; [|by apply fails_done; [|rewrite H; apply (before_main n0)]..].
  destruct H as (m & Hm & ->). eapply holds_finish; [apply Hst|done|done|].
  intros n' _ Hm' _. exists h, h. split_and!; [done..|]. by left.
Qed.

Lemma effective_known mb n :
  before_update n0 m0 n → is_Some (v_commits (vw n) !! mb) →
  is_Some (v_commits (vw n) !! effective_base mb fb0).
Proof.
  intros Hn Hmb. unfold effective_base. destruct fb0 as [fb|] eqn:E; [|done].
  destruct (negb _) eqn:Eq; [|done]. destruct (Hbase fb eq_refl) as [Hz|Hk].
  - rewrite Hz in Eq. done.
  - by apply (before_known n0 m0).
Qed.

(** After a fast-forward both sides are part of [main]. *)
Lemma settled_ff n n' h mb m local imported x :
  v_commits (vw n) ⊆ v_commits (vw n') →
  walk_result (vw n) (effective_base mb fb0) m0 local → walk_result (vw n) mb h imported →
  ancestor (vw n') h m → ancestor (vw n') m0 m →
  x ∈ collectUserCommits local imported fb0 → settled n' m x.
Proof.
  intros Hg Hl Hi Hh Hm Hx. left.
  assert (known_commits (vw n) (local ++ imported)) as Hk.
  { intros y [Hy|Hy]%elem_of_app; [by eapply (walk_result_known _ _ _ local)|by eapply (walk_result_known _ _ _ imported)]. }
  apply kept_self.
  - destruct (collect_known _ _ _ _ _ Hk Hx) as [y Hy]. exists y. by eapply lookup_weaken.
  - apply elem_of_collect in Hx as [(Hin & _) _]; [|by eapply known_hash_functional].
    apply elem_of_app in Hin as [Hin|Hin].
    + apply Hl in Hin as [Hs%since_ancestor _]. eapply ancestor_trans; [|exact Hm]. by eapply ancestor_grow.
    + apply Hi in Hin as [Hs%since_ancestor _]. eapply ancestor_trans; [|exact Hh]. by eapply ancestor_grow.
Qed.

Lemma settled_accounted n n' m x :
  vw n' = vw n →
  (∀ h, hlc_lt zero_HLC h → status_of h n = Some CommitStatusRejected → is_decided h n') →
  accounted rejected_in_index n m x → settled n' m x.
Proof.
  intros Hg Hd [Hk|(ad & Had & _ & Eh)].
  - left. by rewrite Hg.
  - right. intros Hlt. rewrite <-Eh in *. by apply Hd, Had.
Qed.

(** Some walk from [m0] exists, even when the round did not need it. *)
Lemma local_walk n mb :
  before_update n0 m0 n → ∃ local, walk_result (vw n) (effective_base mb fb0) m0 local.
Proof.
  intros Hn. pose proof Hn as [(Hw & _) _].
  pose proof (reads_getCommitsSince (walk_fuel (vw n)) pool "main" (effective_base mb fb0) n eq_refl
    (Nat.le_refl _) Hw) as Hr.
  pose proof (total_getCommitsSince Hrel (walk_fuel (vw n)) pool "main" (effective_base mb fb0) n eq_refl Hw
    (Nat.le_refl _)) as Ht.
  destruct (getCommitsSince _ _ _ _ n) as [[local|e|e] s']; [|done..].
  destruct Hr as (_ & _ & _ & H). unfold branch_head in H. rewrite (before_main n0 m0 n Hn) in H. by exists local.
Qed.

(** The replay of what was imported, from a state where [main] has not moved. *)
Lemma holds_replay_done h mb imported n n1 :
  before_update n0 m0 n → branch_head (vw n) remoteRef = Some h →
  is_Some (v_commits (vw n) !! mb) → ancestor (vw n) mb m0 → ancestor (vw n) mb h →
  walk_result (vw n) mb h imported →
  stepped none_dropped n n1 → mem_inv (n_idx n1) → main n1 = Some m0 →
  holds (let* _ := ReplayImportedCommits rc fuel mb imported fb0 in
         ignore (initIndexFromDB fuel) ;;* ret true) n1 (round_done (vw n)).
Proof.
  intros Hn Hh Hmb Ha1 Ha2 Himp Hst1 Hi1 Hm1. pose proof (st_grow _ _ _ Hst1) as Hg1.
  apply holds_bind. eapply holds_mono.
  { apply holds_both.
    - apply (holds_import rejected_in_index rejected_in_index_world rc fuel m0);
        [apply node_hooks_report|apply Hst1|done| |].
      + destruct (effective_known mb n Hn Hmb) as [y Hy]. exists y. by eapply lookup_weaken.
      + eapply known_grow; [done|]. by eapply walk_result_known.
    - apply keeps_inv; [|exact Hi1]. apply keeps_ReplayImportedCommits; [|done]. intros now e i _. apply mem_inv_Upsert. }
  intros [k|e|e] n2 [[Hst2 H2] Hi2]; [|by apply fails_done..].
  destruct H2 as (local & head & Hhead & Hl & Hacc).
  eapply holds_finish; [apply Hst2|done|done|]. intros n' Hg' Hm' Hd. exists h, head.
  split_and!; [done..|]. right. exists mb, local, imported. split_and!; [done..| |done|].
  - eapply walk_result_shrink; [..|exact Hl]; [by apply wf_world_view, Hn|done|].
    by apply (before_known n0 m0), (m0_known n0).
  - intros x Hx. by eapply (settled_accounted n2), Hacc.
Qed.

(** The attempt to fast-forward succeeds or fails. *)
Lemma ff_never_false h n : (tryFastForward (W:=W) h n).1 ≠ Ok false.
Proof.
  unfold tryFastForward, bind, deferred, ret.
  repeat (let E := fresh in
    lazymatch goal with
    | |- context [match lift ?m ?s with _ => _ end] => destruct (lift m s) as [[] ?] eqn:E
    | |- context [match ignore ?m ?s with _ => _ end] => destruct (ignore m s) as [[] ?] eqn:E
    end; cbn [fst]; try discriminate).
Qed.

(** Fast-forward, or replay of what was imported. *)
Lemma holds_update_done h mb imported n :
  before_update n0 m0 n → branch_head (vw n) remoteRef = Some h →
  is_Some (v_commits (vw n) !! mb) → ancestor (vw n) mb m0 → ancestor (vw n) mb h →
  walk_result (vw n) mb h imported →
  holds (let* n1 := gets id in
         let fb1 := mem_FinalizedBase (n_idx n1) in
         let* ff := attempt (tryFastForward h) in
         match ff with
         | Ok true => ignore (initIndexFromDB fuel) ;;* ret true
         | _ =>
             let* _ := ReplayImportedCommits rc fuel mb imported fb1 in
             ignore (initIndexFromDB fuel) ;;* ret true
         end) n (round_done (vw n)).
Proof.
  intros Hn Hh Hmb Ha1 Ha2 Himp. pose proof Hn as [(Hw & Hg & _) Hi].
  pose proof (before_main n0 m0 n Hn) as Hm.
  destruct (branch_head_known _ _ _ (wf_world_view _ Hw) Hh) as [Hk _].
  apply holds_bind. unfold holds at 1, gets, id. cbn [fst snd]. rewrite Hi.
  apply holds_bind. eapply holds_mono.
  { apply holds_attempt, holds_both; [by apply (moves_tryFastForward h m0)|].
    apply (holds_both _ _ (λ _ n', mem_inv (n_idx n')) (λ r _, r ≠ Ok false)); [|apply ff_never_false].
    apply keeps_inv; [apply (keeps_moving h)|by rewrite Hi]. }
  intros [ff|e|e] n1 H1; [|done|destruct H1 as [[_ H1] _]; apply fails_done; [done|by rewrite H1]].
  destruct H1 as [[Hst1 H1] [Hi1 Hff]].
  destruct ff as [[]|e|e]; [|done|by eapply holds_replay_done; [..|rewrite H1]..].
  destruct H1 as (m & Hm1 & Hah & Ham). destruct (local_walk n mb Hn) as [local Hl].
  eapply holds_finish; [apply Hst1|done|done|]. intros n' Hg' Hm' _. exists h, m.
  split_and!; [done..|]. right. exists mb, local, imported. split_and!; [done..|].
  intros x Hx. eapply (settled_ff n n'); [rewrite Hg'; apply Hst1|done|done|..|done]; by rewrite Hg'.
Qed.

(** From the comparison of the two heads on. *)
Definition after_fetch : M (Node W) bool :=
  let* remoteHead := GetBranchHead remoteRef in
  if negb remoteHead.2 then ret false else
  let* mergeBase := MergeBase "main" remoteRef in
  if String.eqb mergeBase "" then
    forceResetMainTo remoteHead.1 ;;*
    ignore (initIndexFromDB fuel) ;;*
    ret true
  else
    let* imported := getCommitsSince fuel pool remoteRef mergeBase in
    match imported with
    | [] => ret false
    | _ =>
        let* n := gets id in
        let fb := mem_FinalizedBase (n_idx n) in
        let* ff := attempt (tryFastForward remoteHead.1) in
        match ff with
        | Ok true => ignore (initIndexFromDB fuel) ;;* ret true
        | _ =>
            let* _ := ReplayImportedCommits rc fuel mergeBase imported fb in
            ignore (initIndexFromDB fuel) ;;*
            ret true
        end
    end.

Lemma holds_after_fetch n : before_update n0 m0 n → holds after_fetch n (round_done (vw n)).
Proof.
  intros Hn. pose proof Hn as [(Hw & _) _]. unfold after_fetch.
  apply holds_bind. eapply holds_mono.
  { apply (holds_pre_quiet n0 m0); [apply pre_GetBranchHead|done|]. by apply reads_quiet, reads_GetBranchHead. }
  intros [rh|e|e] n3 (Hn3 & Hv3 & Hrh); [|by apply fails_done; [|apply (before_main n0)]..].
  specialize (Hrh _ eq_refl). rewrite <-Hv3 in *.
  destruct (branch_head (vw n3) remoteRef) as [h|] eqn:Hh; subst rh; cbn [fst snd negb].
  2:{ apply holds_ret. intros _. split; [by apply (before_main n0)|]. by rewrite Hh. }
  clear n Hn Hw Hv3. pose proof Hn3 as [(Hw3 & _) _]. apply holds_bind. eapply holds_mono.
  { apply (holds_pre_quiet n0 m0); [apply pre_MergeBase|done|]. apply reads_quiet.
    apply (reads_MergeBase "main" remoteRef n3 m0 h); [done|reflexivity|reflexivity| |done].
    unfold branch_head. by rewrite (before_main n0 m0 _ Hn3). }
  intros [mb|e|e] n4 (Hn4 & Hv4 & Hmb); [|by apply fails_done; [|apply (before_main n0)]..].
  destruct (Hmb _ eq_refl) as [Hyes Hno]. rewrite <-Hv4 in *. clear n3 Hn3 Hw3 Hv4 Hmb.
  pose proof Hn4 as [(Hw4 & _) _].
  destruct (String.eqb_spec mb "") as [E|E].
  { apply holds_bootstrap_done; [done..|]. by apply Hno. }
  destruct (Hyes E) as (Hk & Ha1 & Ha2). apply holds_bind. eapply holds_mono.
  { apply (holds_pre_quiet n0 m0); [apply pre_getCommitsSince|done|]. by apply quiet_getCommitsSince_exact. }
  intros [imported|e|e] n5 (Hn5 & Hv5 & Himp); [|by apply fails_done; [|apply (before_main n0)]..].
  specialize (Himp _ eq_refl). rewrite Hh in Himp. rewrite <-Hv5 in *.
  destruct imported as [|x imported]; [|by apply holds_update_done].
  apply holds_ret. intros _. split; [by apply (before_main n0)|]. intros h' Hh'.
  rewrite Hh in Hh'. injection Hh' as <-.
  rewrite (walk_result_nil _ _ _ (wf_world_view _ (proj1 (proj1 Hn5)))
    (proj1 (branch_head_known _ _ _ (wf_world_view _ (proj1 (proj1 Hn5))) Hh)) Himp). done.
Qed.

Lemma holds_syncOnce_done :
  holds (syncOnce cfg rc fuel) n0 (round_done (vw (fetched n0))).
Proof.
  assert (before_update n0 m0 n0) as Hn0.
  { split; [|done]. split; [done|]. split; [done|]. by exists m0. }
  pose proof (holds_pre n0 m0 (EnsureSwarmRemote (cfg_Repo cfg)) n0 (pre_EnsureSwarmRemote n0 m0 _) Hn0) as H1.
  change (syncOnce cfg rc fuel) with (EnsureSwarmRemote (cfg_Repo cfg) ;;* FetchSwarm ;;* after_fetch).
  unfold fetched, holds, bind in *.
  destruct (EnsureSwarmRemote (cfg_Repo cfg) n0) as [[u|e|e] n1]; cbn [fst snd] in *;
    [|by apply fails_done; [|apply (before_main n0)]..].
  pose proof (holds_pre n0 m0 FetchSwarm n1 (pre_FetchSwarm n0 m0) H1) as H2. unfold holds in H2.
  destruct (FetchSwarm n1) as [[u'|e|e] n2]; cbn [fst snd] in *;
    [|by apply fails_done; [|apply (before_main n0)]..].
  by apply holds_after_fetch.
Qed.
End round.

(** C1. The outcome of a round of synchronization on an engine that answers
    the queries of the walk over the commit graph ([reliable]; other queries
    and every statement may fail), from a state whose index is consistent and
    whose finalized commit, if there is one, the repository has.  An error
    leaves [main] where it was.  A round that reports no change made none, and
    the head fetched from the swarm, if there is one, was already part of
    [main].  A round that reports a change either adopted the fetched head of
    an unrelated history, or it accounts for both sides: the local commits
    above the base and the fetched commits above the merge base are merged by
    [collectUserCommits], and each commit of that list is in the new history
    of [main] (itself, or re-created with the same parents and the same root
    value under an amended message) or, when its timestamp is a proper one,
    the index has recorded a decision about it. *)
Theorem sync_accounts_for_commits {W} `{D : Dolt W, !DoltLaws W} `{R : GoRuntime} (cfg : NodeConfig)
    (fuel : nat) (n : Node W) (m0 : string)
  (Hrel : reliable (W:=W)) (Hw : wf_world (get_world n)) (Hidx : mem_inv (n_idx n))
  (Hm0 : v_branches (view (get_world n)) !! "main" = Some m0)
  (Hbase : ∀ fb, mem_FinalizedBase (n_idx n) = Some fb →
     fb_CommitHash fb = "" ∨ is_Some (v_commits (view (get_world n)) !! fb_CommitHash fb)) :
  let '(res, n') := syncOnce cfg (installReconcilerHooks NewReconciler) fuel n in
  let v := view (get_world (fetched cfg n)) in
  let fb := mem_FinalizedBase (n_idx n) in
  let main' := v_branches (view (get_world n')) !! "main" in
  (walk_fuel (view (get_world n')) ≤ fuel)%nat →
  match res with
  | Ok true => ∃ h m', branch_head v remoteRef = Some h ∧ main' = Some m' ∧
      ((∀ a, ¬ (ancestor v a m0 ∧ ancestor v a h)) ∧ m' = h ∨
       ∃ mb local imported, ancestor v mb m0 ∧ ancestor v mb h ∧
         walk_result v (effective_base mb fb) m0 local ∧ walk_result v mb h imported ∧
         ∀ x, x ∈ collectUserCommits local imported fb →
           kept (view (get_world n')) (cwm_hash x) m' ∨
           (hlc_lt zero_HLC (cwm_hlc x) → is_decided (cwm_hlc x) n'))
  | Ok false => main' = Some m0 ∧ ∀ h, branch_head v remoteRef = Some h → ancestor v h m0
  | _ => main' = Some m0
  end.
Proof.
  pose proof (holds_syncOnce_done cfg fuel n m0 Hrel Hw Hidx Hm0 Hbase) as H.
  unfold holds, round_done, round_spec in H. by destruct (syncOnce _ _ _ n) as [res n'].
Qed.

Lemma sync_node_idx : mem_inv (n_idx sync_node).
Proof. intros k e. simpl. by rewrite lookup_empty. Qed.

Lemma sync_accounts_for_commits_witness :
  let run := syncOnce toy_cfg (installReconcilerHooks NewReconciler) 20 sync_node in
  node_main run = (Ok true, Some (toy_hash 101)) ∧ (walk_fuel (t_view (get_world run.2)) ≤ 20)%nat ∧
  let '(res, n') := run in
  let v := view (get_world (fetched toy_cfg sync_node)) in
  let fb := mem_FinalizedBase (n_idx sync_node) in
  let main' := v_branches (view (get_world n')) !! "main" in
  (walk_fuel (view (get_world n')) ≤ 20)%nat →
  match res with
  | Ok true => ∃ h m', branch_head v remoteRef = Some h ∧ main' = Some m' ∧
      ((∀ a, ¬ (ancestor v a (toy_hash 2) ∧ ancestor v a h)) ∧ m' = h ∨
       ∃ mb local imported, ancestor v mb (toy_hash 2) ∧ ancestor v mb h ∧
         walk_result v (effective_base mb fb) (toy_hash 2) local ∧ walk_result v mb h imported ∧
         ∀ x, x ∈ collectUserCommits local imported fb →
           kept (view (get_world n')) (cwm_hash x) m' ∨
           (hlc_lt zero_HLC (cwm_hlc x) → is_decided (cwm_hlc x) n'))
  | Ok false => main' = Some (toy_hash 2) ∧ ∀ h, branch_head v remoteRef = Some h → ancestor v h (toy_hash 2)
  | _ => main' = Some (toy_hash 2)
  end.
Proof.
  split; [vm_compute; reflexivity|]. split; [apply Nat.leb_le; vm_compute; reflexivity|].
  pose proof (sync_accounts_for_commits toy_cfg 20 sync_node (toy_hash 2)) as H.
  apply H.
  - intros A c q w Hq. by destruct q.
  - exact toy_repo_wf.
  - exact sync_node_idx.
  - vm_compute. reflexivity.
  - intros fb Hfb. right. injection Hfb as <-. vm_compute. eauto.
Defined.
