(* ===== verification/Chunks.v ===== *)
(** * The chunk store behind [swarm://] remotes
    ([core/remote_chunk_store.go], [core/cache.go], [transport/provider.go])

    A fetch reads chunks through [RemoteChunkStore]: a cache shared by the
    whole process, and behind it the two clients of the chosen provider.  The
    chunk and hash types, the cache policy and the provider are interfaces;
    the theorems hold for every implementation that keeps their laws. *)

From Stdlib Require Import ZArith Lia String Ascii.
From stdpp Require Import gmap strings list sorting pretty.
From S2P Require Import Prelude Metadata.

Local Open Scope Z_scope.

(** ** Dolt's chunks and hashes

    A byte slice is a [string]. *)

Class ChunkLib := {
  Hash : Type;
  Hash_eq_dec :: EqDecision Hash;
  Hash_countable :: Countable Hash;
  hash_String : Hash → string;
  hash_Parse : string → result Hash;            (* hash.Parse: panics *)
  hash_New : string → result Hash;              (* hash.New: panics *)
  hash_bytes : Hash → string;                   (* h[:] *)
  Chunk : Type;
  EmptyChunk : Chunk;
  chunk_Hash : Chunk → Hash;
  chunk_Data : Chunk → string;
  CChunk : Type;                                (* nbs.ToChunker *)
  cc_Hash : CChunk → Hash;
  cc_IsEmpty : CChunk → bool;
  cc_ToChunk : CChunk → result Chunk;
  NewCompressedChunk : Hash → string → result CChunk;
  ChunkToCompressedChunk : Chunk → CChunk;
  FullCompressedChunk : CChunk → string;
  HashSetToSlices : gset Hash → list Hash * list string;
  ParseByteSlices : list string → gset Hash * gmap Hash Z;
}.

(** What the code relies on. *)
Class ChunkLaws `(ChunkLib) := {
  Parse_String : ∀ h, hash_Parse (hash_String h) = Ok h;
  String_nonempty : ∀ h, hash_String h ≠ "";
  New_bytes : ∀ h, hash_New (hash_bytes h) = Ok h;
  bytes_length : ∀ h, String.length (hash_bytes h) = 20%nat;
  NewCompressedChunk_Hash : ∀ h b c, NewCompressedChunk h b = Ok c → cc_Hash c = h;
  NewCompressedChunk_total : ∀ h b e, NewCompressedChunk h b ≠ Panic e;
  ToChunk_total : ∀ c e, cc_ToChunk c ≠ Panic e;
  compressed_roundtrip : ∀ h ch, ∃ cc ch',
    NewCompressedChunk h (FullCompressedChunk (ChunkToCompressedChunk ch)) = Ok cc ∧
    cc_ToChunk cc = Ok ch' ∧ chunk_Hash ch' = h ∧ chunk_Data ch' = chunk_Data ch;
  Full_nonempty : ∀ ch, FullCompressedChunk (ChunkToCompressedChunk ch) ≠ "";
  HashSetToSlices_elems : ∀ hs, (HashSetToSlices hs).1 ≡ₚ elements hs;
  HashSetToSlices_bytes : ∀ hs, (HashSetToSlices hs).2 = map hash_bytes (HashSetToSlices hs).1;
  ParseByteSlices_set : ∀ hs : list Hash,
    (ParseByteSlices (map hash_bytes hs)).1 = list_to_set hs;
  ParseByteSlices_index : ∀ (hs : list Hash) h, h ∈ hs → ∃ i : nat,
    (ParseByteSlices (map hash_bytes hs)).2 !! h = Some (Z.of_nat i) ∧ hs !! i = Some h;
}.

(** ** The cache policy: [lru.TwoQueueCache]

    [lru_mem c k v] says that [k] is stored with [v].  Nothing is said about
    when an entry is evicted. *)

Class LRU (K V C : Type) := {
  lru_New : Z → result C;
  lru_Add : K → V → C → C;
  lru_Get : K → C → option V * C;
  lru_Contains : K → C → bool;
}.

Class LRULaws (K V C : Type) `{LRU K V C} := {
  lru_mem : C → K → V → Prop;
  lru_New_ok : ∀ n, 0 < n → ∃ c, lru_New n = Ok c ∧ ∀ k v, ¬ lru_mem c k v;
  lru_Add_mem : ∀ k v c k' v', lru_mem (lru_Add k v c) k' v' →
    (k' = k ∧ v' = v) ∨ (k' ≠ k ∧ lru_mem c k' v');
  lru_Get_mem : ∀ k c v, (lru_Get k c).1 = Some v → lru_mem c k v;
  lru_Get_sub : ∀ k c k' v', lru_mem (lru_Get k c).2 k' v' → lru_mem c k' v';
  lru_Contains_mem : ∀ k c, lru_Contains k c = true → ∃ v, lru_mem c k v;
}.

(** ** The interfaces of a provider ([transport/provider.go]) *)

Record ClientRepoFormat := mkFormat { NbfVersion : string; NbsVersion : string }.
Record RepoMetadata := mkRepoMetadata { md_NbfVersion : string; md_NbsVersion : string; StorageSize : Z }.
Record TableFileInfo := mkTableFileInfo {
  ti_FileID : string;
  ti_NumChunks : Z;
  ti_URL : string;
  ti_SplitOffset : Z;
  ti_RefreshAfter : option Time;
}.

(** A client answers a request; two requests of one operation are never
    equal, so that a function describes every possible behaviour. *)
Record ChunkStoreClient := mkChunkStoreClient {
  cl_GetRepoMetadata : RepoID → string → ClientRepoFormat → result RepoMetadata;
  cl_HasChunks : string → list string → result (list Z);
  cl_Root : string → result string;
  cl_ListTableFiles : RepoID → string → string →
    result (string * list TableFileInfo * list TableFileInfo);
  cl_RefreshTableFileURL : RepoID → string → string → result (string * option Time);
}.

Record DownloaderClient := mkDownloaderClient {
  dl_DownloadFile : string → result (string * Z);
  dl_DownloadChunks : ∀ S, list string → (string → string → M S unit) → M S unit;
}.

Record Provider := mkProvider {
  ID : string;
  ChunkStore : ChunkStoreClient;
  Downloader : DownloaderClient;
}.

Section chunks.
Context `{CL : ChunkLib} {C1 C2 : Type} `{L1 : !LRU Hash CChunk C1, L2 : !LRU Hash unit C2} `{R : GoRuntime}.

(** ** The cache ([core/cache.go]) *)

Record mapChunkCache := mkCache { chunks : C1; has : C2 }.

Definition defaultCacheChunkCapacity : Z := 32 * 1024.
Definition defaultCacheHasCapacity : Z := 1024 * 1024.

(** An error of the constructor of a cache is a panic. *)
Definition must {A} (r : result A) : result A := match r with Err e => Panic e | r => r end.

Definition NewMapChunkCacheWithCapacity (maxChunkCapacity maxHasCapacity : Z) : result mapChunkCache :=
  match must (lru_New (C:=C1) maxChunkCapacity) with
  | Ok c1 => match must (lru_New (C:=C2) maxHasCapacity) with
             | Ok c2 => Ok (mkCache c1 c2)
             | Err e => Err e
             | Panic e => Panic e
             end
  | Err e => Err e
  | Panic e => Panic e
  end.

Definition newMapChunkCache : result mapChunkCache :=
  NewMapChunkCacheWithCapacity defaultCacheChunkCapacity defaultCacheHasCapacity.

Definition InsertChunks (cs : list CChunk) (m : mapChunkCache) : mapChunkCache :=
  foldl (λ m c, mkCache (lru_Add (cc_Hash c) c (chunks m)) (has m)) m cs.

(** One iteration of [GetCachedChunks]; reading an entry renews it. *)
Definition get_cached (acc : gmap Hash CChunk * mapChunkCache) (h : Hash) : gmap Hash CChunk * mapChunkCache :=
  let '(c, chunks') := lru_Get h (chunks acc.2) in
  (match c with Some c => <[h := c]> acc.1 | None => acc.1 end, mkCache chunks' (has acc.2)).
Definition GetCachedChunks (hs : gset Hash) (m : mapChunkCache) : gmap Hash CChunk * mapChunkCache :=
  foldl get_cached (∅, m) (range_map (elements hs)).

Definition InsertHas (hs : gset Hash) (m : mapChunkCache) : mapChunkCache :=
  foldl (λ m h, mkCache (chunks m) (lru_Add h tt (has m))) m (range_map (elements hs)).

Definition GetCachedHas (hs : gset Hash) (m : mapChunkCache) : gset Hash :=
  foldl (λ (ret : gset Hash) h, if lru_Contains h (has m) then ret else {[h]} ∪ ret) ∅
    (range_map (elements hs)).

(** ** The store *)

Record RemoteChunkStore := mkRCS {
  rcs_repo : RepoID;
  rcs_repoPath : string;
  rcs_chunkClient : ChunkStoreClient;
  rcs_downloader : DownloaderClient;
  rcs_nbfVersion : string;
  rcs_repoSize : Z;
  rcs_root : Hash;
}.

Definition repoPath (r : RepoID) : string :=
  if negb (String.eqb (Org r) "") then Org r +:+ "/" +:+ RepoName r else RepoName r.

Definition res_bind {A B} (r : result A) (k : A → result B) : result B :=
  match r with Ok a => k a | Err e => Err e | Panic e => Panic e end.

(** The new value of the [root] field. *)
Definition loadRoot (cl : ChunkStoreClient) (path : string) : result Hash :=
  res_bind (cl_Root cl path) hash_New.

Definition with_root (h : Hash) (r : RemoteChunkStore) : RemoteChunkStore :=
  mkRCS (rcs_repo r) (rcs_repoPath r) (rcs_chunkClient r) (rcs_downloader r) (rcs_nbfVersion r)
    (rcs_repoSize r) h.

Definition Rebase (r : RemoteChunkStore) : result RemoteChunkStore :=
  res_bind (loadRoot (rcs_chunkClient r) (rcs_repoPath r)) (λ h, Ok (with_root h r)).

Definition Root (r : RemoteChunkStore) : Hash := rcs_root r.
Definition Size (r : RemoteChunkStore) : Z := rcs_repoSize r.
Definition Version (r : RemoteChunkStore) : string := rcs_nbfVersion r.

(** [nbs.StorageVersion] is the argument [StorageVersion]. *)
Definition NewRemoteChunkStore (StorageVersion : string) (provider : option Provider) (repo : RepoID)
    (nbfVersion : string) : result RemoteChunkStore :=
  match provider with
  | None => Err "provider is nil"
  | Some p =>
      if String.eqb (RepoName repo) "" then Err "repo name is empty" else
      res_bind (cl_GetRepoMetadata (ChunkStore p) repo (repoPath repo) (mkFormat nbfVersion StorageVersion))
        (λ meta, res_bind (loadRoot (ChunkStore p) (repoPath repo))
          (λ root, Ok (mkRCS repo (repoPath repo) (ChunkStore p) (Downloader p) nbfVersion
                         (StorageSize meta) root)))
  end.

(** *** Reading chunks

    The state is the cache and the local variables [L] that the callbacks
    capture. *)

Definition on_cache {L A} (f : mapChunkCache → A * mapChunkCache) : M (mapChunkCache * L) A := λ s,
  let '(a, m) := f s.1 in (Ok a, (m, s.2)).

Definition parse_hash {S} (s : string) : M S Hash := λ st, (hash_Parse s, st).
Definition compress {S} (h : Hash) (b : string) : M S CChunk := λ st, (NewCompressedChunk h b, st).

(** The callback of [downloadChunksAndCache]. *)
Definition on_chunk {L} (toSend : gset Hash) (found : CChunk → M (mapChunkCache * L) unit)
    (hashStr compressed : string) : M (mapChunkCache * L) unit :=
  if String.eqb compressed "" then ret tt else
  let* h := parse_hash hashStr in
  let* cc := wrap_err ("create compressed chunk " +:+ hashStr +:+ ": ") (compress h compressed) in
  let* _ := on_cache (λ m, (tt, InsertChunks [cc] m)) in
  if bool_decide (h ∈ toSend) then found cc else ret tt.

Definition downloadChunksAndCache {L} (r : RemoteChunkStore) (notCached : list Hash)
    (found : CChunk → M (mapChunkCache * L) unit) : M (mapChunkCache * L) unit :=
  dl_DownloadChunks (rcs_downloader r) _ (map hash_String notCached)
    (on_chunk (list_to_set notCached) found).

(** The loop over the requested hashes: the chunks of the cache are delivered,
    the others collected. *)
Fixpoint deliver_cached {L} (hashToChunk : gmap Hash CChunk) (found : CChunk → M (mapChunkCache * L) unit)
    (hs notCached : list Hash) : M (mapChunkCache * L) (list Hash) :=
  match hs with
  | [] => ret notCached
  | h :: hs =>
      match hashToChunk !! h with
      | Some c =>
          if cc_IsEmpty c then deliver_cached hashToChunk found hs (notCached ++ [h])
          else found c ;;* deliver_cached hashToChunk found hs notCached
      | None => deliver_cached hashToChunk found hs (notCached ++ [h])
      end
  end.

Definition GetManyCompressed {L} (r : RemoteChunkStore) (hashes : gset Hash)
    (found : CChunk → M (mapChunkCache * L) unit) : M (mapChunkCache * L) unit :=
  let* hashToChunk := on_cache (GetCachedChunks hashes) in
  let* notCached := deliver_cached hashToChunk found (range_map (elements hashes)) [] in
  match notCached with
  | [] => ret tt
  | _ => downloadChunksAndCache r notCached found
  end.

(** Runs a callback of the caller below one more local variable. *)
Definition below {S L X A} (m : M (S * L) A) : M (S * (L * X)) A := λ s,
  let '(r, (s1, l)) := m (s.1, s.2.1) in (r, (s1, (l, s.2.2))).

(** [ae] holds the first error of a decompression. *)
Definition decompress {L} (found : Chunk → M (mapChunkCache * L) unit) (cc : CChunk) :
    M (mapChunkCache * (L * option string)) unit := λ s,
  match s.2.2 with
  | Some _ => (Ok tt, s)
  | None =>
      match cc_ToChunk cc with
      | Ok c => below (found c) s
      | Err e => (Ok tt, (s.1, (s.2.1, Some e)))
      | Panic e => (Panic e, s)
      end
  end.

Definition GetMany {L} (r : RemoteChunkStore) (hashes : gset Hash)
    (found : Chunk → M (mapChunkCache * L) unit) : M (mapChunkCache * L) unit := λ s,
  let '(res, (m, (l, ae))) := GetManyCompressed r hashes (decompress found) (s.1, (s.2, None)) in
  (match res, ae with
   | Ok _, Some e => Err e
   | _, _ => res
   end, (m, l)).

(** [found = c] *)
Definition store_found (c : Chunk) : M (mapChunkCache * option Chunk) unit := λ s, (Ok tt, (s.1, Some c)).

Definition Get (r : RemoteChunkStore) (h : Hash) : M mapChunkCache Chunk := λ m,
  let '(res, (m', found)) := GetMany r {[h]} store_found (m, None) in
  (match res with
   | Ok _ => Ok (default EmptyChunk found)
   | Err e => Err e
   | Panic e => Panic e
   end, m').

(** *** Presence of chunks *)

Definition maxHasManyBatchSize : Z := 16 * 1024.

Fixpoint batch_loop {S} (fuel : nat) (st total batchSize : Z) (cb : Z → Z → M S bool) : M S unit :=
  match fuel with
  | O => ret tt
  | S fuel =>
      if st <? total then
        let en := if total <? st + batchSize then total else st + batchSize in
        let* stop := cb st en in
        if (stop : bool) then ret tt else batch_loop fuel (st + batchSize) total batchSize cb
      else ret tt
  end.

Definition batchItr {S} (total batchSize : Z) (cb : Z → Z → M S bool) : M S unit :=
  batch_loop (Z.to_nat total) 0 total (if batchSize <=? 0 then total else batchSize) cb.

(** [l[st:en]] *)
Definition list_slice {S A} (l : list A) (st en : Z) : M S (list A) :=
  if (0 <=? st) && (st <=? en) && (en <=? Z.of_nat (List.length l))
  then ret (take (Z.to_nat (en - st)) (drop (Z.to_nat st) l))
  else panic "slice bounds out of range".

(** The scan of a batch: [idx] holds the absent indices from [j] on. *)
Fixpoint mark_absent (i : Z) (hs : list Hash) (idx : list Z) (sets : gset Hash * gset Hash) :
    gset Hash * gset Hash :=
  match hs with
  | [] => sets
  | h :: hs =>
      let nextAbsent := match idx with [] => -1 | k :: _ => k end in
      if i =? nextAbsent then mark_absent (i + 1) hs (tail idx) ({[h]} ∪ sets.1, sets.2)
      else mark_absent (i + 1) hs idx (sets.1, {[h]} ∪ sets.2)
  end.

(** The sets [absent] and [found], and [err]. *)
Definition has_locals : Type := (gset Hash * gset Hash) * option string.

Definition has_batch (r : RemoteChunkStore) (hashSl : list Hash) (byteSl : list string) (st en : Z) :
    M has_locals bool :=
  let* currHashSl := list_slice hashSl st en in
  let* currByteSl := list_slice byteSl st en in
  match cl_HasChunks (rcs_chunkClient r) (rcs_repoPath r) currByteSl with
  | Ok absentIndices => λ l,
      (Ok false, (mark_absent 0 currHashSl (sort_slice Z.ltb absentIndices) l.1, None))
  | Err e => λ l, (Ok true, (l.1, Some e))
  | Panic e => panic e
  end.

Definition HasMany (r : RemoteChunkStore) (hashes : gset Hash) : M mapChunkCache (gset Hash) := λ m,
  let notCached := GetCachedHas hashes m in
  if bool_decide (notCached = ∅) then (Ok notCached, m) else
  let '(hashSl, byteSl) := HashSetToSlices notCached in
  match batchItr (Z.of_nat (List.length hashSl)) maxHasManyBatchSize (has_batch r hashSl byteSl)
          ((∅, ∅), None) with
  | (Ok _, ((absent, found), None)) =>
      (Ok absent, if bool_decide (found = ∅) then m else InsertHas found m)
  | (Ok _, (_, Some e)) => (Err e, m)
  | (Err e, _) => (Err e, m)
  | (Panic e, _) => (Panic e, m)
  end.

Definition Has (r : RemoteChunkStore) (h : Hash) : M mapChunkCache bool :=
  let* absent := HasMany r {[h]} in
  ret (bool_decide (absent = ∅)).

(** *** Operations that a read-only store refuses *)

Definition read_only {A} : result A := Err "remote chunk store is read-only".
Definition Put (r : RemoteChunkStore) (c : Chunk) : result unit := read_only.
Definition rcs_Commit (r : RemoteChunkStore) (current last : Hash) : result bool := read_only.
Definition WriteTableFile (r : RemoteChunkStore) (fileId : string) : result unit := read_only.
Definition AddTableFilesToManifest (r : RemoteChunkStore) : result unit := read_only.
Definition PruneTableFiles (r : RemoteChunkStore) : result unit := read_only.

Definition PersistGhostHashes (r : RemoteChunkStore) (refs : gset Hash) : result unit := Err "not supported".

Record TableFileStoreOps := mkOps { CanRead : bool; CanWrite : bool; CanPrune : bool; CanGC : bool }.
Definition SupportedOperations (r : RemoteChunkStore) : TableFileStoreOps := mkOps true false false false.

(** *** Table files *)

Record RemoteTableFile := mkTableFile {
  rtf_downloader : DownloaderClient;
  rtf_chunkClient : ChunkStoreClient;
  rtf_info : TableFileInfo;
}.

Definition getTableFiles (downloader : DownloaderClient) (chunkClient : ChunkStoreClient)
    (infoList : list TableFileInfo) : list RemoteTableFile :=
  map (mkTableFile downloader chunkClient) infoList.

Definition Sources (r : RemoteChunkStore) : result (Hash * list RemoteTableFile * list RemoteTableFile) :=
  res_bind (cl_ListTableFiles (rcs_chunkClient r) (rcs_repo r) (rcs_repoPath r) "")
    (λ '(rootHash, tables, appendix),
       res_bind (hash_New rootHash)
         (λ root, Ok (root, getTableFiles (rcs_downloader r) (rcs_chunkClient r) tables,
                      getTableFiles (rcs_downloader r) (rcs_chunkClient r) appendix))).
End chunks.

Arguments mapChunkCache : clear implicits.
Arguments mkCache {C1 C2}.
Arguments chunks {C1 C2}.
Arguments has {C1 C2}.
Arguments on_cache {C1 C2 L A}.

(** ** What a provider promises

    [content h c]: the chunk with the hash [h] is [c].  [present h]: this
    provider has it. *)

Section promises.
Context `{CL : ChunkLib}.

(** A downloader hands a sequence of messages to the callback, until one of
    them fails; [fin] is how the stream ends. *)
Fixpoint feed {S} (msgs : list (string * string)) (fin : result unit)
    (onChunk : string → string → M S unit) : M S unit :=
  match msgs with
  | [] => λ s, (fin, s)
  | (h, b) :: msgs => onChunk h b ;;* feed msgs fin onChunk
  end.

Definition genuine (content : Hash → Chunk → Prop) (cc : CChunk) : Prop :=
  ∃ ch, cc_ToChunk cc = Ok ch ∧ content (cc_Hash cc) ch.

Definition genuine_message (content : Hash → Chunk → Prop) (msg : string * string) : Prop :=
  msg.2 = "" ∨ ∃ h cc, hash_Parse msg.1 = Ok h ∧ NewCompressedChunk h msg.2 = Ok cc ∧ genuine content cc.

Class HonestDownloader (dl : DownloaderClient) (content : Hash → Chunk → Prop) (present : Hash → bool) := {
  dl_stream : ∀ hs : list Hash, ∃ msgs fin,
    (∀ S (onChunk : string → string → M S unit) s,
       dl_DownloadChunks dl S (map hash_String hs) onChunk s = feed msgs fin onChunk s) ∧
    (∀ msg, msg ∈ msgs → genuine_message content msg) ∧
    (∀ e, fin ≠ Panic e) ∧
    (fin = Ok tt → ∀ h, h ∈ hs → present h = true → ∃ b, b ≠ "" ∧ (hash_String h, b) ∈ msgs);
}.

Class HonestChunkStore (cl : ChunkStoreClient) (path : string) (present : Hash → bool) := {
  cl_has_exact : ∀ (hs : list Hash) idx, NoDup hs → Z.of_nat (List.length hs) ≤ maxHasManyBatchSize →
    cl_HasChunks cl path (map hash_bytes hs) = Ok idx →
    NoDup idx ∧ ∀ i, i ∈ idx ↔ ∃ k h, i = Z.of_nat k ∧ hs !! k = Some h ∧ present h = false;
  cl_has_total : ∀ reqs e, cl_HasChunks cl path reqs ≠ Panic e;
}.
End promises.
