(* ===== verification/ChunkFacts.v ===== *)
(** * What the remote chunk store guarantees

    Reads return what the provider holds and requests answer exactly which
    chunks it lacks, whatever the cache evicts and however a request is split
    into batches. *)

From Stdlib Require Import ZArith Lia String Ascii.
From stdpp Require Import gmap strings list sorting pretty.
From S2P Require Import Prelude Metadata Chunks.

Local Open Scope Z_scope.

(** ** The scan of one batch *)

Section scan.
Context `{CL : ChunkLib}.

(** The two sets after the scan, for indices in strictly increasing order. *)
Lemma mark_absent_spec hs : ∀ i idx A F A' F',
  0 ≤ i → StronglySorted Z.lt idx → Forall (λ k, i ≤ k) idx →
  mark_absent i hs idx (A, F) = (A', F') →
  (∀ h, h ∈ A' ↔ h ∈ A ∨ ∃ k, hs !! k = Some h ∧ (i + Z.of_nat k) ∈ idx) ∧
  (∀ h, h ∈ F' ↔ h ∈ F ∨ ∃ k, hs !! k = Some h ∧ (i + Z.of_nat k) ∉ idx).
Proof.
  induction hs as [|h0 hs IH]; intros i idx A F A' F' Hi Hs Hge; cbn [mark_absent].
  { intros [= <- <-]. split; intros h; naive_solver. }
  assert (∀ (P : Z → Prop) h, (∃ k, (h0 :: hs) !! k = Some h ∧ P (i + Z.of_nat k)) ↔
    (h = h0 ∧ P i) ∨ ∃ k, hs !! k = Some h ∧ P (i + 1 + Z.of_nat k)) as Hsplit.
  { intros P h. split.
    - intros ([|k] & Hk & HP); simpl in Hk.
      + injection Hk as <-. left. split; [done|]. by replace (i + Z.of_nat 0) with i in HP by lia.
      + right. exists k. split; [done|]. by replace (i + 1 + Z.of_nat k) with (i + Z.of_nat (S k)) by lia.
    - intros [[-> HP]|(k & Hk & HP)].
      + exists 0%nat. split; [done|]. by replace (i + Z.of_nat 0) with i by lia.
      + exists (S k). split; [done|]. by replace (i + Z.of_nat (S k)) with (i + 1 + Z.of_nat k) by lia. }
  destruct idx as [|j idx]; cbn [mark_absent tail].
  - replace (i =? -1) with false by (symmetry; apply Z.eqb_neq; lia).
    intros [HA HF]%IH; [|lia|done|constructor]. split; intros h.
    + rewrite HA, (Hsplit (λ z, z ∈ [])). set_solver.
    + rewrite HF, (Hsplit (λ z, z ∉ [])). set_solver.
  - apply StronglySorted_inv in Hs as [Hs Hlt]. apply Forall_cons in Hge as [Hij Hge].
    destruct (Z.eqb_spec i j) as [->|Hne].
    + assert (∀ k, (j + 1 + Z.of_nat k) ∈ j :: idx ↔ (j + 1 + Z.of_nat k) ∈ idx) as Hdrop.
      { intros k. rewrite elem_of_cons. split; [intros [?|?]; [lia|done]|by right]. }
      intros [HA HF]%IH; [|lia|done|eapply Forall_impl; [exact Hlt|simpl; lia]]. split; intros h.
      * rewrite HA, (Hsplit (λ z, z ∈ j :: idx)). setoid_rewrite Hdrop; set_solver.
      * rewrite HF, (Hsplit (λ z, z ∉ j :: idx)). setoid_rewrite Hdrop; set_solver.
    + assert (i ∉ j :: idx) as Hni.
      { rewrite elem_of_cons. intros [?|Hin]; [done|]. rewrite Forall_forall in Hlt.
        specialize (Hlt _ Hin). lia. }
      intros [HA HF]%IH; [|lia|by constructor|].
      2:{ constructor; [lia|]. eapply Forall_impl; [exact Hlt|simpl; lia]. }
      split; intros h.
      * rewrite HA, (Hsplit (λ z, z ∈ j :: idx)). set_solver.
      * rewrite HF, (Hsplit (λ z, z ∉ j :: idx)). set_solver.
Qed.
End scan.

(** Distinct indices come out of the sort in strictly increasing order. *)
Lemma sort_indices `{R : GoRuntime} (idx : list Z) :
  NoDup idx → StronglySorted Z.lt (sort_slice Z.ltb idx).
Proof.
  intros Hnd. assert (strict_weak Z.ltb) as Hsw.
  { split; intros; rewrite ?Z.ltb_lt, ?Z.ltb_ge in *; lia. }
  assert (Transitive (not_less Z.ltb)) as Htr by by apply sw_le_trans.
  pose proof (Sorted_StronglySorted _ _ (sort_slice_sorted _ idx Hsw)) as Hs.
  assert (NoDup (sort_slice Z.ltb idx)) as Hn by by rewrite sort_slice_perm.
  induction Hs as [|z l Hs IH Hz]; [constructor|]. apply NoDup_cons in Hn as [Hzl Hn].
  constructor; [by apply IH|]. rewrite Forall_forall in *. intros y Hy. specialize (Hz y Hy).
  unfold not_less in Hz. assert (y ≠ z) by (by intros ->). destruct (Z.ltb_spec y z); [done|lia].
Qed.

(** ** Batches *)

(** Every call of the callback keeps [I]: the loop covers the whole range. *)
Lemma holds_batch_loop {S} fuel st total bs (cb : Z → Z → M S bool) s
    (I : Z → S → Prop) (Q : result unit → S → Prop) :
  0 < bs → 0 ≤ st → (Z.to_nat (total - st) ≤ fuel)%nat → I (Z.min st total) s →
  (∀ s, I total s → Q (Ok tt) s) →
  (∀ st en s, 0 ≤ st → st < en ≤ total → en - st ≤ bs → I st s →
     holds (cb st en) s (λ r s',
       match r with
       | Ok false => I en s'
       | Ok true => Q (Ok tt) s'
       | Err e => Q (Err e) s'
       | Panic e => Q (Panic e) s'
       end)) →
  holds (batch_loop fuel st total bs cb) s Q.
Proof.
  intros Hbs Hst Hf HI HQ Hcb. revert st s Hst Hf HI.
  induction fuel as [|fuel IH]; intros st s Hst Hf HI; cbn [batch_loop].
  { apply holds_ret, HQ. by replace (Z.min st total) with total in HI by lia. }
  destruct (Z.ltb_spec st total) as [Hlt|Hge].
  2:{ apply holds_ret, HQ. by replace (Z.min st total) with total in HI by lia. }
  replace (Z.min st total) with st in HI by lia.
  assert (∃ en, (if total <? st + bs then total else st + bs) = en ∧ st < en ≤ total ∧ en - st ≤ bs ∧
    en = Z.min (st + bs) total) as (en & -> & Hen & Hle & Hmin)
    by (destruct (Z.ltb_spec total (st + bs)); eexists; split; [done|lia|done|lia]).
  apply holds_bind. eapply holds_mono; [by apply Hcb|]. intros [[]|e|e] s' Hs'; [done| |done..].
  apply IH; [lia|lia|]. by rewrite <-Hmin.
Qed.

(** [batchItr] with a positive batch size. *)
Lemma holds_batchItr {S} total bs (cb : Z → Z → M S bool) s
    (I : Z → S → Prop) (Q : result unit → S → Prop) :
  0 < bs → 0 ≤ total → I 0 s → (∀ s, I total s → Q (Ok tt) s) →
  (∀ st en s, 0 ≤ st → st < en ≤ total → en - st ≤ bs → I st s →
     holds (cb st en) s (λ r s',
       match r with
       | Ok false => I en s'
       | Ok true => Q (Ok tt) s'
       | Err e => Q (Err e) s'
       | Panic e => Q (Panic e) s'
       end)) →
  holds (batchItr total bs cb) s Q.
Proof.
  intros Hbs Ht HI HQ Hcb. unfold batchItr. replace (bs <=? 0) with false by (symmetry; apply Z.leb_gt; lia).
  eapply holds_batch_loop; [done|lia|lia| |done|done]. by replace (Z.min 0 total) with 0 by lia.
Qed.

Lemma holds_list_slice {S A} (l : list A) st en (s : S) (Q : result (list A) → S → Prop) :
  0 ≤ st → st ≤ en ≤ Z.of_nat (List.length l) →
  Q (Ok (take (Z.to_nat (en - st)) (drop (Z.to_nat st) l))) s → holds (list_slice l st en) s Q.
Proof.
  intros Hst Hen HQ. unfold list_slice.
  replace (_ && _ && _) with true; [by apply holds_ret|].
  symmetry. rewrite !andb_true_iff, !Z.leb_le. lia.
Qed.

(** ** Presence *)

Section presence.
Context `{CL : ChunkLib, !ChunkLaws CL} {C1 C2 : Type}.
Context `{L1 : !LRU Hash CChunk C1, L2 : !LRU Hash unit C2, !LRULaws Hash CChunk C1, !LRULaws Hash unit C2}.
Context `{R : GoRuntime}.
Local Abbreviation cache := (mapChunkCache C1 C2).

Lemma elem_of_GetCachedHas hs (m : cache) h :
  h ∈ GetCachedHas hs m ↔ h ∈ hs ∧ lru_Contains h (has m) = false.
Proof.
  unfold GetCachedHas.
  assert (∀ l (acc : gset Hash), h ∈ foldl (λ (ret : gset Hash) h, if lru_Contains h (has m) then ret else {[h]} ∪ ret) acc l
    ↔ h ∈ acc ∨ h ∈ l ∧ lru_Contains h (has m) = false) as Hl.
  { induction l as [|x l IH]; intros acc; cbn [foldl]; [set_solver|]. rewrite IH.
    destruct (lru_Contains x (has m)) eqn:E; [|set_solver].
    split; [set_solver|]. intros [?|[[->|?]%elem_of_cons ?]]; [by left|congruence|by right]. }
  rewrite Hl, range_map_perm, elem_of_elements. set_solver.
Qed.

(** A cache of presence that never claims too much. *)
Definition has_sound (present : Hash → bool) (m : cache) : Prop :=
  ∀ h, lru_mem (has m) h tt → present h = true.

Lemma has_sound_Contains present m h : has_sound present m → lru_Contains h (has m) = true → present h = true.
Proof. intros Hm [[] Hc]%lru_Contains_mem. by apply Hm. Qed.

Lemma has_sound_InsertHas present hs m :
  has_sound present m → (∀ h, h ∈ hs → present h = true) → has_sound present (InsertHas hs m).
Proof.
  intros Hm Hhs. unfold InsertHas.
  assert (∀ h, h ∈ range_map (elements hs) → present h = true) as Hl.
  { intros h. rewrite range_map_perm, elem_of_elements. apply Hhs. }
  clear Hhs. revert m Hm. induction (range_map (elements hs)) as [|x l IH]; intros m Hm; [done|].
  cbn [foldl]. apply IH; [set_solver|]. intros h [[-> _]|[_ Hh]]%lru_Add_mem; [set_solver|by apply Hm].
Qed.

Lemma chunks_InsertHas hs (m : cache) : chunks (InsertHas hs m) = chunks m.
Proof.
  unfold InsertHas. revert m. induction (range_map (elements hs)) as [|x l IH]; intros m; [done|].
  cbn [foldl]. by rewrite IH.
Qed.

Section many.
Context (r : RemoteChunkStore) (present : Hash → bool).
Context `{Hcl : !HonestChunkStore (rcs_chunkClient r) (rcs_repoPath r) present}.
Context (hs : list Hash) (Hnd : NoDup hs).

(** After the first [n] hashes. *)
Definition scanned (n : Z) (l : has_locals) : Prop :=
  l.2 = None ∧
  (∀ h, h ∈ l.1.1 ↔ h ∈ take (Z.to_nat n) hs ∧ present h = false) ∧
  (∀ h, h ∈ l.1.2 ↔ h ∈ take (Z.to_nat n) hs ∧ present h = true).

(** How a query can fail. *)
Definition refused (e : string) : Prop :=
  ∃ req, cl_HasChunks (rcs_chunkClient r) (rcs_repoPath r) req = Err e.

Lemma take_split st en (l : list Hash) :
  0 ≤ st ≤ en → take (Z.to_nat en) l = take (Z.to_nat st) l ++ take (Z.to_nat (en - st)) (drop (Z.to_nat st) l).
Proof. intros ?. rewrite take_take_drop. f_equal. lia. Qed.

Lemma mark_batch (cur : list Hash) idx sets :
  NoDup idx → (∀ i, i ∈ idx ↔ ∃ k h, i = Z.of_nat k ∧ cur !! k = Some h ∧ present h = false) →
  let sets' := mark_absent 0 cur (sort_slice Z.ltb idx) sets in
  (∀ h, h ∈ sets'.1 ↔ h ∈ sets.1 ∨ h ∈ cur ∧ present h = false) ∧
  (∀ h, h ∈ sets'.2 ↔ h ∈ sets.2 ∨ h ∈ cur ∧ present h = true).
Proof.
  intros Hidx Hex. destruct sets as [A F]. cbn zeta.
  destruct (mark_absent 0 cur (sort_slice Z.ltb idx) (A, F)) as [A' F'] eqn:E.
  apply mark_absent_spec in E as [HA HF]; [|lia|by apply sort_indices|].
  2:{ apply Forall_forall. intros i. rewrite sort_slice_perm. intros (k & h & -> & _)%Hex. lia. }
  assert (∀ k h, cur !! k = Some h → (0 + Z.of_nat k) ∈ sort_slice Z.ltb idx ↔ present h = false) as Hk.
  { intros k h Hk. rewrite sort_slice_perm, Hex. split.
    - intros (k' & h' & E & Hk' & Hp). assert (k = k') as <- by lia. congruence.
    - intros Hp. exists k, h. auto with lia. }
  assert (∀ h (P : Z → Prop) Q, (∀ k, cur !! k = Some h → P (0 + Z.of_nat k) ↔ Q) →
    (∃ k, cur !! k = Some h ∧ P (0 + Z.of_nat k)) ↔ h ∈ cur ∧ Q) as Hmem.
  { intros h P Q HPQ. rewrite list_elem_of_lookup. naive_solver. }
  cbn [fst snd]. split; intros h.
  - rewrite HA, (Hmem h (λ z, z ∈ sort_slice Z.ltb idx) (present h = false)); [done|].
    intros k Hkh. by apply Hk.
  - rewrite HF, (Hmem h (λ z, z ∉ sort_slice Z.ltb idx) (present h = true)); [done|].
    intros k Hkh. rewrite Hk by done. by destruct (present h).
Qed.

Lemma holds_has_batch st en l :
  0 ≤ st → st < en ≤ Z.of_nat (List.length hs) → en - st ≤ maxHasManyBatchSize → scanned st l →
  holds (has_batch r hs (map hash_bytes hs) st en) l (λ res l',
    match res with
    | Ok false => scanned en l'
    | Ok true => ∃ e, l'.2 = Some e ∧ refused e
    | _ => False
    end).
Proof.
  intros Hst Hen Hb (Hnone & HA & HF). unfold has_batch.
  apply holds_bind, holds_list_slice; [done|lia|]. cbn.
  apply holds_bind, holds_list_slice; [done|rewrite length_map; lia|]. cbn.
  rewrite skipn_map, firstn_map. set (cur := take (Z.to_nat (en - st)) (drop (Z.to_nat st) hs)).
  assert (NoDup cur) as Hcur.
  { pose proof (take_split st en hs ltac:(lia)) as E. fold cur in E.
    assert (NoDup (take (Z.to_nat en) hs)) as Hn by (eapply sublist_NoDup; [exact Hnd|apply sublist_take]).
    rewrite E in Hn. by apply NoDup_app in Hn as (_ & _ & ?). }
  destruct (cl_HasChunks _ _ (map hash_bytes cur)) as [idx|e|e] eqn:E.
  - apply cl_has_exact in E as [Hidx Hex]; [|done|].
    2:{ unfold cur. rewrite length_take. lia. }
    destruct (mark_batch cur idx l.1 Hidx Hex) as [HA' HF'].
    unfold holds. split; [done|]. cbn [fst snd]. rewrite (take_split st en hs) by lia. fold cur.
    split; intros h; [rewrite HA', HA|rewrite HF', HF]; rewrite elem_of_app; naive_solver.
  - unfold holds. exists e. split; [done|]. by eexists.
  - by destruct (cl_has_total (map hash_bytes cur) e).
Qed.
End many.

Lemma HasMany_spec (r : RemoteChunkStore) (present : Hash → bool)
    `{Hcl : !HonestChunkStore (rcs_chunkClient r) (rcs_repoPath r) present} hashes (m : cache) :
  has_sound present m →
  holds (HasMany r hashes) m (λ res m', chunks m' = chunks m ∧ has_sound present m' ∧
    match res with
    | Ok absent => ∀ h, h ∈ absent ↔ h ∈ hashes ∧ present h = false
    | Err e => m' = m ∧ refused r e
    | Panic _ => False
    end).
Proof.
  intros Hm. unfold HasMany, holds. pose proof (elem_of_GetCachedHas hashes m) as Hget.
  set (notCached := GetCachedHas hashes m) in *.
  assert (∀ h, h ∈ hashes → present h = false → h ∈ notCached) as Hnc.
  { intros h Hh Hp. apply Hget. split; [done|]. destruct (lru_Contains h (has m)) eqn:E; [|done].
    apply (has_sound_Contains present) in E; [congruence|done]. }
  case_bool_decide as Hemp.
  { cbn [fst snd]. split_and!; [done..|]. intros h. set_solver. }
  pose proof (HashSetToSlices_elems notCached) as Hperm. pose proof (HashSetToSlices_bytes notCached) as Hbytes.
  destruct (HashSetToSlices notCached) as [hashSl byteSl]. cbn [fst snd] in Hperm, Hbytes. subst byteSl.
  assert (NoDup hashSl) as Hnd by (rewrite Hperm; apply NoDup_elements).
  assert (∀ h, h ∈ hashSl ↔ h ∈ notCached) as Hin by (intros h; by rewrite Hperm, elem_of_elements).
  set (n := Z.of_nat (List.length hashSl)).
  assert (holds (batchItr n maxHasManyBatchSize (has_batch r hashSl (map hash_bytes hashSl))) ((∅, ∅), None)
    (λ res l, res = Ok tt ∧ (scanned present hashSl n l ∨ ∃ e, l.2 = Some e ∧ refused r e))) as Hloop.
  { apply (holds_batchItr _ _ _ _ (scanned present hashSl)); [done|lia| | |].
    - split; [done|]. split; intros h; simpl; set_solver.
    - intros l Hl. split; [done|by left].
    - intros st en l Hst Hen Hb Hl. eapply holds_mono; [by apply (holds_has_batch r present hashSl)|].
      intros [[]|e|e] l' Hl'; [|done..]. split; [done|by right]. }
  unfold holds in Hloop. revert Hloop.
  destruct (batchItr n maxHasManyBatchSize (has_batch r hashSl (map hash_bytes hashSl)) (∅, ∅, None))
    as [res [[absent found] err]]. cbn [fst snd]. intros Hloop.
  destruct Hloop as [-> [(Hnone & HA & HF)|(e & He & Hr)]]; cbn [fst snd] in *.
  - rewrite Hnone. replace (take (Z.to_nat n) hashSl) with hashSl in HA, HF
      by (rewrite firstn_all2; [done|unfold n; lia]).
    cbn [fst snd]. split_and!.
    + case_bool_decide; [done|]. apply chunks_InsertHas.
    + case_bool_decide; [done|]. apply has_sound_InsertHas; [done|]. intros h. rewrite HF. tauto.
    + intros h. rewrite HA, Hin. split; [|naive_solver]. intros [Hh Hp]. by apply Hget in Hh as [? _].
  - rewrite He. by cbn [fst snd].
Qed.
End presence.

(** C23. [HasMany] tells exactly which chunks the provider lacks: over an honest
    provider, and provided that the process-wide presence cache holds only
    chunks that this provider has ([has_sound]; it need not hold all of them),
    the answer is the set of requested hashes that are absent, however the request is cut into batches and in whatever order the provider
    lists the absent positions; the cache stays right.  It fails only with an
    error of the provider and then leaves the cache as it was; no slice of the
    batches is out of range. *)
Theorem HasMany_exact `{CL : ChunkLib, !ChunkLaws CL} {C1 C2 : Type}
    `{L1 : !LRU Hash CChunk C1, L2 : !LRU Hash unit C2, !LRULaws Hash CChunk C1, !LRULaws Hash unit C2}
    `{R : GoRuntime} (r : RemoteChunkStore) (present : Hash → bool)
    `{Hcl : !HonestChunkStore (rcs_chunkClient r) (rcs_repoPath r) present}
    (hashes : gset Hash) (m : mapChunkCache C1 C2)
  (Hm : has_sound present m) :
  let '(res, m') := HasMany r hashes m in
  chunks m' = chunks m ∧ has_sound present m' ∧
  match res with
  | Ok absent => ∀ h, h ∈ absent ↔ h ∈ hashes ∧ present h = false
  | Err e => m' = m ∧ refused r e
  | Panic _ => False
  end.
Proof.
  pose proof (HasMany_spec r present hashes m Hm) as H. unfold holds in H.
  by destruct (HasMany r hashes m).
Qed.

(** ** Reading *)

Section reading.
Context `{CL : ChunkLib, !ChunkLaws CL} {C1 C2 : Type}.
Context `{L1 : !LRU Hash CChunk C1, L2 : !LRU Hash unit C2, !LRULaws Hash CChunk C1, !LRULaws Hash unit C2}.
Context `{R : GoRuntime} (content : Hash → Chunk → Prop).
Local Abbreviation cache := (mapChunkCache C1 C2).

(** Every cached chunk is the right one for its key. *)
Definition cache_ok (m : cache) : Prop :=
  ∀ h c, lru_mem (chunks m) h c → cc_Hash c = h ∧ genuine content c.

Lemma cache_ok_Insert cc m : cache_ok m → genuine content cc → cache_ok (InsertChunks [cc] m).
Proof.
  intros Hm Hc h c. cbn. intros [[-> ->]|[_ Hh]]%lru_Add_mem; [done|by apply Hm].
Qed.

Lemma GetCachedChunks_spec hs (m : cache) : ∀ acc m',
  GetCachedChunks hs m = (acc, m') →
  (∀ h c, acc !! h = Some c → lru_mem (chunks m) h c) ∧
  (∀ h c, lru_mem (chunks m') h c → lru_mem (chunks m) h c) ∧ has m' = has m.
Proof.
  unfold GetCachedChunks. generalize (range_map (elements hs)) as l. intros l acc m' E.
  assert (∀ l acc0 (m0 : cache),
    (∀ h c, acc0 !! h = Some c → lru_mem (chunks m) h c) →
    (∀ h c, lru_mem (chunks m0) h c → lru_mem (chunks m) h c) → has m0 = has m →
    foldl get_cached (acc0, m0) l = (acc, m') →
    (∀ h c, acc !! h = Some c → lru_mem (chunks m) h c) ∧
    (∀ h c, lru_mem (chunks m') h c → lru_mem (chunks m) h c) ∧ has m' = has m) as Hl.
  { clear E l. induction l as [|x l IH]; intros acc0 m0 Ha Hm Hh; cbn [foldl]; [by intros [= <- <-]|].
    unfold get_cached at 2. cbn [fst snd].
    pose proof (lru_Get_mem x (chunks m0)) as Hg. pose proof (lru_Get_sub x (chunks m0)) as Hs.
    destruct (lru_Get x (chunks m0)) as [o c']. cbn [fst snd] in *. intros E.
    eapply IH; [| | |exact E]; [|naive_solver|done].
    destruct o as [c|]; [|done]. intros h c0 [[<- <-]|[_ ?]]%lookup_insert_Some; [|by apply Ha].
    by apply Hm, Hg. }
  eapply (Hl l ∅ m); [|done..]. intros h c ?. simplify_map_eq.
Qed.

Section deliver.
Context {L : Type} (hashes : gset Hash) (found : CChunk → M (cache * L) unit) (I : gset Hash → L → Prop).

(** The callback of the caller: it succeeds on the right chunks, leaves the
    cache alone, and [I] tells what it has seen. *)
Context (Hfound : ∀ cc m l D, genuine content cc → cc_Hash cc ∈ hashes → I D l →
  holds (found cc) (m, l) (λ r s', r = Ok tt ∧ s'.1 = m ∧ I ({[cc_Hash cc]} ∪ D) s'.2)).

Lemma holds_deliver (g : gmap Hash CChunk) hs : ∀ nc m l D,
  (∀ h c, g !! h = Some c → cc_Hash c = h ∧ genuine content c) →
  (∀ h, h ∈ hs → h ∈ hashes) → I D l →
  holds (deliver_cached g found hs nc) (m, l) (λ r s', ∃ nc' D', r = Ok nc' ∧ s'.1 = m ∧ I D' s'.2 ∧
    D ⊆ D' ∧ (∀ h, h ∈ nc' → h ∈ nc ∨ h ∈ hs) ∧ (∀ h, h ∈ nc → h ∈ nc') ∧
    (∀ h, h ∈ hs → h ∈ nc' ∨ h ∈ D')).
Proof.
  induction hs as [|x hs IH]; intros nc m l D Hg Hhs HI; cbn [deliver_cached].
  { apply holds_ret. exists nc, D. set_solver. }
  assert (∀ s0 : cache * L, s0 = (m, l) → holds (deliver_cached g found hs (nc ++ [x])) s0 (λ r s', ∃ nc' D',
    r = Ok nc' ∧ s'.1 = m ∧ I D' s'.2 ∧ D ⊆ D' ∧ (∀ h, h ∈ nc' → h ∈ nc ∨ h ∈ x :: hs) ∧
    (∀ h, h ∈ nc → h ∈ nc') ∧ (∀ h, h ∈ x :: hs → h ∈ nc' ∨ h ∈ D'))) as Hskip.
  { intros s0 ->. eapply holds_mono; [apply (IH (nc ++ [x]) m l D); [done|set_solver|done]|].
    intros r s' (nc' & D' & ? & ? & ? & ? & H1 & H2 & H3). exists nc', D'.
    split_and!; [done..| | |]; intros h; [intros ?%H1|intros ?|]; set_solver. }
  destruct (g !! x) as [c|] eqn:Ex; [|by apply Hskip]. destruct (cc_IsEmpty c); [by apply Hskip|].
  destruct (Hg x c Ex) as [Hcx Hgen]. apply holds_bind.
  eapply holds_mono; [apply Hfound; [done|rewrite Hcx; set_solver|done]|].
  intros r [m1 l1] (-> & Hm1 & HI1). cbn in Hm1, HI1. subst m1. rewrite Hcx in HI1.
  eapply holds_mono; [apply (IH nc m l1 ({[x]} ∪ D)); [done|set_solver|done]|].
  intros r s' (nc' & D' & ? & ? & ? & ? & H1 & H2 & H3). exists nc', D'.
  split_and!; [done..|set_solver| | |]; [intros h ?%H1; set_solver|done|].
  intros h [->|Hh]%elem_of_cons; [right; set_solver|by apply H3].
Qed.

Lemma holds_on_chunk toSend hs b m l D :
  (∀ h, h ∈ toSend → h ∈ hashes) → genuine_message content (hs, b) → cache_ok m → I D l →
  holds (on_chunk toSend found hs b) (m, l) (λ r s', r = Ok tt ∧ cache_ok s'.1 ∧ has s'.1 = has m ∧
    ∃ D', I D' s'.2 ∧ D ⊆ D' ∧ ∀ h, hash_Parse hs = Ok h → b ≠ "" → h ∈ toSend → h ∈ D').
Proof.
  intros Hsend Hmsg Hm HI. unfold on_chunk. destruct (String.eqb b "") eqn:Eb.
  { apply String.eqb_eq in Eb as ->. apply holds_ret. split_and!; [done..|]. exists D. done. }
  apply String.eqb_neq in Eb. destruct Hmsg as [?|(h & cc & Hp & Hc & Hgen)]; [done|].
  cbn [fst snd] in *. unfold bind, parse_hash, wrap_err, compress, on_cache, holds. rewrite Hp, Hc. cbn -[InsertChunks].
  pose proof (NewCompressedChunk_Hash _ _ _ Hc) as Hcc.
  pose proof (cache_ok_Insert cc m Hm Hgen) as Hm'. case_bool_decide as Hin.
  - pose proof (Hfound cc (InsertChunks [cc] m) l D Hgen) as Hf. rewrite Hcc in Hf.
    destruct (Hf (Hsend _ Hin) HI) as (-> & -> & HI'). split_and!; [done..|].
    exists ({[h]} ∪ D). split_and!; [done|set_solver|]. intros h' [= <-]. set_solver.
  - cbn -[InsertChunks]. split_and!; [done..|]. exists D. split_and!; [done..|]. naive_solver.
Qed.

Lemma holds_feed toSend msgs fin : ∀ m l D,
  (∀ h, h ∈ toSend → h ∈ hashes) → (∀ msg, msg ∈ msgs → genuine_message content msg) → cache_ok m → I D l →
  holds (feed msgs fin (on_chunk toSend found)) (m, l) (λ r s', r = fin ∧ cache_ok s'.1 ∧ has s'.1 = has m ∧
    ∃ D', I D' s'.2 ∧ D ⊆ D' ∧
      ∀ h b, (hash_String h, b) ∈ msgs → b ≠ "" → h ∈ toSend → h ∈ D').
Proof.
  induction msgs as [|[hs b] msgs IH]; intros m l D Hsend Hmsgs Hm HI; cbn [feed].
  { unfold holds. split_and!; [done..|]. exists D. set_solver. }
  apply holds_bind. eapply holds_mono; [apply (holds_on_chunk toSend hs b m l D); [done|set_solver|done..]|].
  intros r [m1 l1] (-> & Hm1 & Hh1 & D1 & HI1 & HD1 & Hd1).
  eapply holds_mono; [apply (IH m1 l1 D1); [done|set_solver|done..]|].
  intros r s' (-> & Hm2 & Hh2 & D2 & HI2 & HD2 & Hd2). split_and!; [done..|by rewrite Hh2|].
  exists D2. split_and!; [done|by etrans|]. intros h b' [[= <- <-]|Hin]%elem_of_cons; [|by apply (Hd2 h b')].
  intros. apply HD2. eapply Hd1; [apply Parse_String|done..].
Qed.

(** What a read establishes. *)
Definition read_post (m : cache) (present : Hash → bool) (r : result unit) (s' : cache * L) : Prop :=
  cache_ok s'.1 ∧ has s'.1 = has m ∧ ∃ D, I D s'.2 ∧
  match r with
  | Ok _ => ∀ h, h ∈ hashes → present h = true → h ∈ D
  | Err _ => True
  | Panic _ => False
  end.

Lemma holds_GetManyCompressed (rc : RemoteChunkStore) present
    `{Hdl : !HonestDownloader (rcs_downloader rc) content present} m l :
  cache_ok m → I ∅ l →
  holds (GetManyCompressed rc hashes found) (m, l) (read_post m present).
Proof.
  intros Hm HI. unfold GetManyCompressed. apply holds_bind. unfold on_cache, holds at 1. cbn [fst snd].
  destruct (GetCachedChunks hashes m) as [g m1] eqn:Eg.
  destruct (GetCachedChunks_spec _ _ _ _ Eg) as (Hg & Hsub & Hhas). cbn [fst snd].
  assert (cache_ok m1) as Hm1 by (intros h c Hc; by apply Hm, Hsub).
  apply holds_bind. eapply holds_mono.
  { apply (holds_deliver g (range_map (elements hashes)) [] m1 l ∅); [|intros h|done].
    - intros h c Hc. by apply Hm, Hg.
    - by rewrite range_map_perm, elem_of_elements. }
  intros r [m2 l2] (nc & D & -> & Hm2 & HI2 & _ & Hnc & _ & Hall). cbn in Hm2, HI2. subst m2.
  assert (∀ h, h ∈ hashes → h ∈ nc ∨ h ∈ D) as Hall'.
  { intros h Hh. apply Hall. by rewrite range_map_perm, elem_of_elements. }
  assert (∀ h, h ∈ nc → h ∈ hashes) as Hnc'.
  { intros h [?|Hh]%Hnc; [set_solver|]. by rewrite range_map_perm, elem_of_elements in Hh. }
  destruct nc as [|x nc].
  { apply holds_ret. split_and!; [done..|]. exists D. split; [done|]. set_solver. }
  set (todo := x :: nc) in *. unfold downloadChunksAndCache.
  destruct (dl_stream todo) as (msgs & fin & Hrun & Hmsgs & Hfin & Hsent).
  unfold holds. rewrite Hrun. change (holds (feed msgs fin (on_chunk (list_to_set todo) found)) (m1, l2)
    (read_post m present)).
  eapply holds_mono; [apply (holds_feed _ msgs fin m1 l2 D); [set_solver|done..]|].
  intros r s' (-> & Hm3 & Hh3 & D3 & HI3 & HD3 & Hd3). split_and!; [done|by rewrite Hh3|].
  exists D3. split; [done|]. destruct fin as [[]|e|e]; [|done|by apply (Hfin e)].
  intros h Hh Hp. destruct (Hall' h Hh) as [Hin|Hin]; [|by apply HD3].
  destruct (Hsent eq_refl h Hin Hp) as (b & Hb & Hmsg). apply (Hd3 h b); [done..|]. set_solver.
Qed.
End deliver.

(** Reads of decompressed chunks. *)
Lemma holds_GetMany {L} (rc : RemoteChunkStore) present
    `{Hdl : !HonestDownloader (rcs_downloader rc) content present}
    (hashes : gset Hash) (found : Chunk → M (cache * L) unit) (I : gset Hash → L → Prop) m l :
  (∀ h ch m l D, content h ch → h ∈ hashes → I D l →
     holds (found ch) (m, l) (λ r s', r = Ok tt ∧ s'.1 = m ∧ I ({[h]} ∪ D) s'.2)) →
  cache_ok m → I ∅ l →
  holds (GetMany rc hashes found) (m, l) (read_post hashes I m present).
Proof.
  intros Hfound Hm HI.
  unfold GetMany, holds. cbn [fst snd].
  assert (holds (GetManyCompressed rc hashes (decompress found)) (m, (l, None))
    (read_post hashes (λ D (la : L * option string), la.2 = None ∧ I D la.1) m present)) as Hc.
  { apply (holds_GetManyCompressed hashes _ _); [|exact Hdl|done|done]. intros cc m0 [l0 ae] D (ch & Hch & Hcont) Hin [Hae HI0].
    cbn in Hae, HI0. subst ae. unfold decompress, holds. cbn [fst snd]. rewrite Hch.
    pose proof (Hfound _ _ m0 l0 D Hcont Hin HI0) as Hf. unfold holds in Hf. unfold below. cbn [fst snd].
    destruct (found ch (m0, l0)) as [r [m1 l1]]. cbn [fst snd] in *. by destruct Hf as (-> & -> & ?). }
  unfold holds in Hc. destruct (GetManyCompressed rc hashes (decompress found) (m, (l, None))) as [r [m1 [l1 ae]]].
  destruct Hc as (Hm1 & Hh1 & D & [Hae HID] & Hr). cbn in *. subst ae.
  split_and!; [done..|]. exists D. destruct r; done.
Qed.
End reading.

(** C24. [GetMany] delivers exactly what was asked for: over an honest provider,
    and a cache whose entries are right, the callback only sees chunks with a
    requested hash and their true content, and when the call succeeds it has
    seen every requested chunk that the provider holds, from the cache or from
    the stream.  The cache stays right and the call does not panic. *)
Theorem GetMany_delivers `{CL : ChunkLib, !ChunkLaws CL} {C1 C2 : Type}
    `{L1 : !LRU Hash CChunk C1, L2 : !LRU Hash unit C2, !LRULaws Hash CChunk C1, !LRULaws Hash unit C2}
    `{R : GoRuntime} (content : Hash → Chunk → Prop) (present : Hash → bool) (r : RemoteChunkStore)
    `{Hdl : !HonestDownloader (rcs_downloader r) content present}
    (hashes : gset Hash) (m : mapChunkCache C1 C2)
  (Hm : cache_ok content m) :
  let found c := λ s, (Ok tt, (s.1, s.2 ++ [c])) in
  let '(res, (m', seen)) := GetMany r hashes found (m, []) in
  cache_ok content m' ∧ has m' = has m ∧
  (∀ c, c ∈ seen → ∃ h, h ∈ hashes ∧ content h c) ∧
  match res with
  | Ok _ => ∀ h, h ∈ hashes → present h = true → ∃ c, c ∈ seen ∧ content h c
  | Err _ => True
  | Panic _ => False
  end.
Proof.
  pose proof (holds_GetMany content r present hashes (λ c s, (Ok tt, (s.1, s.2 ++ [c])))
    (λ D seen, (∀ c, c ∈ seen → ∃ h, h ∈ hashes ∧ content h c) ∧
               (∀ h, h ∈ D → ∃ c, c ∈ seen ∧ content h c)) m []) as H.
  cbn zeta. unfold holds in H.
  destruct (GetMany r hashes _ (m, [])) as [res [m' seen]].
  destruct H as (Hm' & Hh & D & [HS HD] & Hr); [|done|set_solver|].
  { intros h ch m0 l D Hc Hh [HI1 HI2]. cbn. split_and!; [done..| |].
    - intros c [?|Hc'%list_elem_of_singleton]%elem_of_app; [by apply HI1|subst c; by exists h].
    - intros h' [Hh'%elem_of_singleton|Hh']%elem_of_union; [subst h'; exists ch; set_solver|].
      destruct (HI2 h' Hh') as (c & ? & ?). exists c. set_solver. }
  cbn in *. split_and!; [done..|]. destruct res; [|done..]. intros h Hh1 Hh2. by apply HD, Hr.
Qed.

Lemma Get_spec `{CL : ChunkLib, !ChunkLaws CL} {C1 C2 : Type}
    `{L1 : !LRU Hash CChunk C1, L2 : !LRU Hash unit C2, !LRULaws Hash CChunk C1, !LRULaws Hash unit C2}
    `{R : GoRuntime} (content : Hash → Chunk → Prop) (present : Hash → bool) (r : RemoteChunkStore)
    `{Hdl : !HonestDownloader (rcs_downloader r) content present} (h : Hash) (m : mapChunkCache C1 C2) :
  cache_ok content m →
  holds (Get r h) m (λ res m', cache_ok content m' ∧
    match res with
    | Ok c => content h c ∨ c = EmptyChunk ∧ present h = false
    | Err _ => True
    | Panic _ => False
    end).
Proof.
  intros Hm. pose proof (holds_GetMany content r present {[h]} store_found
    (λ D o, (∀ c, o = Some c → content h c) ∧ (h ∈ D → is_Some o)) m None) as H.
  unfold Get, holds. unfold holds in H. destruct (GetMany r {[h]} store_found (m, None)) as [res [m' o]].
  destruct H as (Hm' & _ & D & [HS HD] & Hr); [|done|set_solver|].
  { intros h' ch m0 l D Hc ->%elem_of_singleton _. cbn. split_and!; [done..|naive_solver|by eexists]. }
  cbn in *. split; [done|]. destruct res; [|done..]. destruct o as [c|]; cbn; [left; by apply HS|right].
  split; [done|]. destruct (present h) eqn:E; [|done]. destruct HD as [? ?]; [|done]. apply Hr; [set_solver|done].
Qed.
