(* ===== verification/ChunkServer.v ===== *)
(** * The chunk service between peers
    ([integration/transport/grpcswarm/chunkstore_server.go] and the clients of
    [integration/transport/grpcswarm/providers.go])

    The server answers from the local store; the clients turn the generated
    stubs into the interfaces of [transport/provider.go].  The generated code
    and the connection are a parameter: a stub.  [lossless] is the stub of a
    connection that hands over every message in order, so that the last
    theorems compose client, connection and server. *)

From Stdlib Require Import ZArith Lia String Ascii.
From stdpp Require Import gmap strings list sorting pretty.
From S2P Require Import Prelude Metadata Chunks ChunkFacts.

Local Open Scope Z_scope.

(** [status.Error(code, msg)]: its text. *)
Definition status_Error (code msg : string) : string :=
  "rpc error: code = " +:+ code +:+ " desc = " +:+ msg.

(** [if err != nil { return nil, status.Errorf(code, prefix, err) }] *)
Definition or_status {A B} (code prefix : string) (r : result A) (k : A → result B) : result B :=
  match r with
  | Ok a => k a
  | Err e => Err (status_Error code (prefix +:+ e))
  | Panic e => Panic e
  end.

(** ** Requests *)

Record HasChunksRequest := mkHasChunksRequest {
  hc_RepoId : option RepoID;
  hc_RepoPath : string;
  hc_Hashes : list string;
}.

Record GetRepoMetadataRequest := mkGetRepoMetadataRequest {
  gm_RepoId : option RepoID;
  gm_RepoPath : string;
  gm_ClientRepoFormat : option ClientRepoFormat;
}.

(** [RootRequest] and [ListTableFilesRequest] *)
Record RepoRequest := mkRepoRequest {
  rq_RepoId : option RepoID;
  rq_RepoPath : string;
}.

Definition validateRepoRequest (repoId : option RepoID) (repoPath : string) : result unit :=
  if String.eqb repoPath "" && bool_decide (repoId = None)
  then Err "expected repo_path or repo_id, got neither" else Ok tt.

Definition ByteLen : nat := 20.

Fixpoint validate_from (field : string) (i : nat) (hashes : list string) : result unit :=
  match hashes with
  | [] => Ok tt
  | bs :: hashes =>
      if negb (Nat.eqb (String.length bs) ByteLen)
      then Err ("expected " +:+ field +:+ "[" +:+ pretty i +:+ "] hash to be " +:+ pretty ByteLen +:+
                " bytes long, was " +:+ pretty (String.length bs))
      else validate_from field (S i) hashes
  end.
Definition validateHashes (field : string) (hashes : list string) : result unit :=
  validate_from field 0 hashes.

(** [chunks.TableFile] *)
Record TableFile := mkTF {
  tf_FileID : string;
  tf_LocationPrefix : string;
  tf_LocationSuffix : string;
  tf_NumChunks : Z;
  tf_SplitOffset : Z;
}.

Definition wrapu32 (z : Z) : Z := z mod 2 ^ 32.

Definition buildTableFileInfo (tableList : list TableFile) : list TableFileInfo :=
  map (λ t, mkTableFileInfo (tf_FileID t) (wrapu32 (tf_NumChunks t))
              (tf_LocationPrefix t +:+ tf_FileID t +:+ tf_LocationSuffix t) (tf_SplitOffset t) None)
    tableList.

Section server.
Context `{CL : ChunkLib} `{R : GoRuntime}.

(** The local store: [remotesrv.RemoteSrvStore]. *)
Record RemoteSrvStore := mkStore {
  st_Rebase : result unit;
  st_HasMany : gset Hash → result (gset Hash);
  st_Get : Hash → result Chunk;
  st_Root : result Hash;
  st_Size : result Z;
  st_Version : string;
  st_Sources : result (Hash * list TableFile * list TableFile);
}.

(** ** The handlers *)

Definition HasChunks (s : RemoteSrvStore) (req : HasChunksRequest) : result (list Z) :=
  or_status "InvalidArgument" "" (validateRepoRequest (hc_RepoId req) (hc_RepoPath req)) (λ _,
  or_status "InvalidArgument" "" (validateHashes "hashes" (hc_Hashes req)) (λ _,
  or_status "Internal" "rebase: " (st_Rebase s) (λ _,
  let '(hashes, hashToIndex) := ParseByteSlices (hc_Hashes req) in
  or_status "Internal" "HasMany: " (st_HasMany s hashes) (λ absent,
  Ok (map (λ h, wrap32 (default 0 (hashToIndex !! h))) (range_map (elements absent))))))).

Definition srv_Root (s : RemoteSrvStore) (req : RepoRequest) : result string :=
  or_status "InvalidArgument" "" (validateRepoRequest (rq_RepoId req) (rq_RepoPath req)) (λ _,
  or_status "Internal" "rebase: " (st_Rebase s) (λ _,
  or_status "Internal" "root: " (st_Root s) (λ h, Ok (hash_bytes h)))).

Definition GetRepoMetadata (s : RemoteSrvStore) (req : GetRepoMetadataRequest) : result RepoMetadata :=
  or_status "InvalidArgument" "" (validateRepoRequest (gm_RepoId req) (gm_RepoPath req)) (λ _,
  match gm_ClientRepoFormat req with
  | None => Err (status_Error "InvalidArgument" "expected non-nil client_repo_format")
  | Some fmt =>
      or_status "Internal" "rebase: " (st_Rebase s) (λ _,
      or_status "Internal" "size: " (st_Size s) (λ size,
      Ok (mkRepoMetadata (st_Version s) (NbsVersion fmt) size)))
  end).

Definition ListTableFiles (s : RemoteSrvStore) (req : RepoRequest) :
    result (string * list TableFileInfo * list TableFileInfo) :=
  or_status "InvalidArgument" "" (validateRepoRequest (rq_RepoId req) (rq_RepoPath req)) (λ _,
  or_status "Internal" "rebase: " (st_Rebase s) (λ _,
  or_status "Internal" "sources: " (st_Sources s) (λ '(root, tables, appendixTables),
  Ok (hash_bytes root, buildTableFileInfo tables, buildTableFileInfo appendixTables)))).

(** The handlers that refuse every request. *)
Definition permission_denied {A} (msg : string) : result A := Err (status_Error "PermissionDenied" msg).
Definition GetDownloadLocations : result unit :=
  permission_denied "HTTP download locations are not supported".
Definition StreamDownloadLocations : result unit :=
  permission_denied "HTTP download locations are not supported".
Definition GetUploadLocations : result unit := permission_denied "read-only".
Definition srv_Rebase : result unit := permission_denied "read-only".
Definition srv_Commit : result unit := permission_denied "read-only".
Definition RefreshTableFileUrl : result (string * option Time) :=
  Err (status_Error "Unimplemented" "not supported").
Definition AddTableFiles : result unit := permission_denied "read-only".

(** The loop of [DownloadChunks] over the stream [send]. *)
Fixpoint send_chunks {S} (send : string → string → M S unit) (s : RemoteSrvStore) (hashes : list string) :
    M S unit :=
  match hashes with
  | [] => ret tt
  | hashStr :: hashes =>
      let* h := (λ st, (hash_Parse hashStr, st)) in
      let* ch := wrap_err (status_Error "Internal" ("get " +:+ hashStr +:+ ": ")) (λ st, (st_Get s h, st)) in
      wrap_err (status_Error "Internal" "send: ")
        (send hashStr (FullCompressedChunk (ChunkToCompressedChunk ch))) ;;*
      send_chunks send s hashes
  end.

Definition DownloadChunks {S} (send : string → string → M S unit) (s : RemoteSrvStore)
    (hashes : list string) : M S unit :=
  match hashes with
  | [] => fail (status_Error "InvalidArgument" "at least one hash is required")
  | _ =>
      wrap_err (status_Error "Internal" "rebase: ") (λ st, (st_Rebase s, st)) ;;*
      send_chunks send s hashes
  end.

(** ** The clients over a stub *)

(** The generated clients: each call of the service, and the messages and the
    end of the two streams. *)
Record Stub := mkStub {
  sb_GetRepoMetadata : GetRepoMetadataRequest → result RepoMetadata;
  sb_HasChunks : HasChunksRequest → result (list Z);
  sb_Root : RepoRequest → result string;
  sb_ListTableFiles : RepoRequest → result (string * list TableFileInfo * list TableFileInfo);
  sb_RefreshTableFileUrl : RepoRequest → string → result (string * option Time);
  sb_DownloadChunks : list string → result (list (string * string) * result unit);
}.

Definition chunkStoreClient (sb : Stub) : ChunkStoreClient :=
  mkChunkStoreClient
    (λ repoID repoPath format,
       sb_GetRepoMetadata sb (mkGetRepoMetadataRequest (Some repoID) repoPath (Some format)))
    (λ repoPath hashes, sb_HasChunks sb (mkHasChunksRequest None repoPath hashes))
    (λ repoPath, sb_Root sb (mkRepoRequest None repoPath))
    (λ repoID repoPath repoToken, sb_ListTableFiles sb (mkRepoRequest (Some repoID) repoPath))
    (λ repoID repoPath fileID, sb_RefreshTableFileUrl sb (mkRepoRequest (Some repoID) repoPath) fileID).

(** The loop of [downloaderClient.DownloadChunks] over the received messages. *)
Fixpoint recv_loop {S} (msgs : list (string * string)) (fin : result unit)
    (onChunk : string → string → M S unit) : M S unit :=
  match msgs with
  | [] => λ s, (fin, s)
  | (h, b) :: msgs =>
      if String.eqb h "" || String.eqb b "" then recv_loop msgs fin onChunk
      else onChunk h b ;;* recv_loop msgs fin onChunk
  end.

Definition client_DownloadChunks (sb : Stub) (S : Type) (hashes : list string)
    (onChunk : string → string → M S unit) : M S unit :=
  match sb_DownloadChunks sb hashes with
  | Ok (msgs, fin) => recv_loop msgs fin onChunk
  | Err e => fail e
  | Panic e => panic e
  end.

(** [file] stands for [DownloadFile]: what a reader of the download gets, and the
    size that was announced. *)
Definition downloaderClient (file : string → result (string * Z)) (sb : Stub) : DownloaderClient :=
  mkDownloaderClient file (client_DownloadChunks sb).

(** ** A connection that loses nothing

    The server appends to the stream; the client receives the stream and the
    status.  A handler that panics ends the connection. *)

Definition push (h b : string) : M (list (string * string)) unit := λ l, (Ok tt, l ++ [(h, b)]).

Definition lossless (s : RemoteSrvStore) : Stub :=
  mkStub (GetRepoMetadata s) (HasChunks s) (srv_Root s) (ListTableFiles s)
    (λ _ _, RefreshTableFileUrl)
    (λ hashes,
       let '(r, msgs) := DownloadChunks push s hashes [] in
       Ok (msgs, match r with Panic e => Err (status_Error "Unavailable" e) | r => r end)).
End server.

(** ** The clients over the server keep the promises of a provider *)

Section honest.
Context `{CL : ChunkLib, !ChunkLaws CL} `{R : GoRuntime}.

Lemma recv_loop_feed {S} msgs fin (onChunk : string → string → M S unit) s :
  recv_loop msgs fin onChunk s =
  feed (List.filter (λ m, negb (String.eqb m.1 "" || String.eqb m.2 "")) msgs) fin onChunk s.
Proof.
  revert s. induction msgs as [|[h b] msgs IH]; intros s; [done|]. cbn [recv_loop List.filter fst snd].
  destruct (String.eqb h "" || String.eqb b ""); cbn [negb feed]; [apply IH|].
  unfold bind. destruct (onChunk h b s) as [[] ?]; [apply IH|done..].
Qed.

(** The contract of the local store; [Get] of a hash that is absent returns the
    empty chunk. *)
Class StoreLaws (s : RemoteSrvStore) (present : Hash → bool) := {
  st_has_exact : ∀ hs absent, st_HasMany s hs = Ok absent →
    ∀ h, h ∈ absent ↔ h ∈ hs ∧ present h = false;
  st_get_hash : ∀ h ch, present h = true → st_Get s h = Ok ch → chunk_Hash ch = h;
  st_get_absent : ∀ h ch, present h = false → st_Get s h = Ok ch → ch = EmptyChunk;
  st_total : (∀ e, st_Rebase s ≠ Panic e) ∧ (∀ h e, st_Get s h ≠ Panic e) ∧ (∀ hs e, st_HasMany s hs ≠ Panic e);
}.

(** What the store holds for a hash, as a chunk with that hash. *)
Definition stored (s : RemoteSrvStore) (h : Hash) (ch : Chunk) : Prop :=
  chunk_Hash ch = h ∧ ∃ ch0, st_Get s h = Ok ch0 ∧ chunk_Data ch = chunk_Data ch0.

Context (s : RemoteSrvStore) (present : Hash → bool) `{Hs : !StoreLaws s present}.

Lemma stored_message h ch :
  st_Get s h = Ok ch →
  genuine_message (stored s) (hash_String h, FullCompressedChunk (ChunkToCompressedChunk ch)).
Proof.
  intros Hg. right. destruct (compressed_roundtrip h ch) as (cc & ch' & Hc & Ht & Hh & Hd).
  exists h, cc. split_and!; [apply Parse_String|done|]. exists ch'. split; [done|].
  rewrite (NewCompressedChunk_Hash _ _ _ Hc). split; [done|]. by exists ch.
Qed.

Lemma send_chunks_cons h hs sent :
  send_chunks push s (map hash_String (h :: hs)) sent =
  match st_Get s h with
  | Ok ch => send_chunks push s (map hash_String hs)
               (sent ++ [(hash_String h, FullCompressedChunk (ChunkToCompressedChunk ch))])
  | Err e => (Err (status_Error "Internal" ("get " +:+ hash_String h +:+ ": ") +:+ e), sent)
  | Panic e => (Panic e, sent)
  end.
Proof.
  cbn [map send_chunks]. unfold bind, wrap_err, push. rewrite Parse_String. by destruct (st_Get s h).
Qed.

Lemma send_chunks_spec (hs : list Hash) sent :
  (∀ msg, msg ∈ sent → genuine_message (stored s) msg) →
  holds (send_chunks push s (map hash_String hs)) sent (λ r msgs,
    (∀ msg, msg ∈ msgs → genuine_message (stored s) msg) ∧ (∀ msg, msg ∈ sent → msg ∈ msgs) ∧
    match r with
    | Ok _ => ∀ h, h ∈ hs → ∃ b, b ≠ "" ∧ (hash_String h, b) ∈ msgs
    | Err _ => True
    | Panic _ => False
    end).
Proof.
  revert sent. induction hs as [|h hs IH]; intros sent Hsent; cbn [map send_chunks].
  { apply holds_ret. split_and!; [done..|set_solver]. }
  change (holds (send_chunks push s (map hash_String (h :: hs))) sent (λ r msgs,
    (∀ msg, msg ∈ msgs → genuine_message (stored s) msg) ∧ (∀ msg, msg ∈ sent → msg ∈ msgs) ∧
    match r with
    | Ok _ => ∀ h0, h0 ∈ h :: hs → ∃ b, b ≠ "" ∧ (hash_String h0, b) ∈ msgs
    | Err _ => True
    | Panic _ => False
    end)).
  unfold holds. rewrite send_chunks_cons.
  destruct st_total as (_ & Ht & _). destruct (st_Get s h) as [ch|e|e] eqn:Eg; [|done|by destruct (Ht h e)].
  set (msg := (hash_String h, _)). pose proof (stored_message h ch Eg) as Hmsg. fold msg in Hmsg.
  destruct (IH (sent ++ [msg])) as (H1 & H2 & H3); [set_solver|]. split_and!; [done|set_solver|].
  destruct (send_chunks push s (map hash_String hs) (sent ++ [msg])) as [[] msgs]; cbn in *; [|done..].
  intros h' [->|Hh']%elem_of_cons; [|by apply H3].
  exists (FullCompressedChunk (ChunkToCompressedChunk ch)). split; [apply Full_nonempty|]. apply H2. set_solver.
Qed.

#[export] Instance server_downloader file :
  HonestDownloader (downloaderClient file (lossless s)) (stored s) present.
Proof.
  split. intros hs. cbn [downloaderClient dl_DownloadChunks]. unfold client_DownloadChunks.
  cbn [lossless sb_DownloadChunks].
  set (run := DownloadChunks push s (map hash_String hs) []).
  assert (holds (DownloadChunks push s (map hash_String hs)) [] (λ r msgs,
    (∀ msg, msg ∈ msgs → genuine_message (stored s) msg) ∧
    match r with
    | Ok _ => ∀ h, h ∈ hs → ∃ b, b ≠ "" ∧ (hash_String h, b) ∈ msgs
    | Err _ => True
    | Panic _ => False
    end)) as Hrun.
  { unfold DownloadChunks. destruct (map hash_String hs) as [|x l] eqn:E.
    { unfold holds, fail. cbn. set_solver. }
    rewrite <-E. unfold holds, bind at 1, wrap_err at 1. destruct st_total as (Ht & _).
    destruct (st_Rebase s) as [u|e|e]; [|cbn; set_solver|by destruct (Ht e)].
    destruct (send_chunks_spec hs []) as (H1 & _ & H2); [set_solver|]. done. }
  unfold holds in Hrun. fold run in Hrun. destruct run as [r msgs]. cbn [fst snd] in Hrun.
  destruct Hrun as [Hmsgs Hr]. eexists _, _. split; [intros; apply recv_loop_feed|]. split_and!.
  - intros msg Hin%list_elem_of_In%filter_In. destruct Hin as [Hin _]. by apply Hmsgs, list_elem_of_In.
  - destruct r; naive_solver.
  - destruct r as [[]|e|e]; [|done..]. intros _ h Hh _. destruct (Hr h Hh) as (b & Hb & Hin).
    exists b. split; [done|]. apply list_elem_of_In, filter_In. split; [by apply list_elem_of_In|].
    cbn [fst snd]. apply negb_true_iff, orb_false_iff. split; apply String.eqb_neq; [apply String_nonempty|done].
Qed.

(** ** Presence *)

Lemma validateHashes_ok field (hs : list Hash) : validateHashes field (map hash_bytes hs) = Ok tt.
Proof.
  unfold validateHashes. generalize 0%nat. induction hs as [|h hs IH]; intros i; [done|].
  cbn [map validate_from]. rewrite bytes_length. cbn. apply IH.
Qed.

#[export] Instance server_chunkstore path : HonestChunkStore (chunkStoreClient (lossless s)) path present.
Proof.
  destruct st_total as (Ht1 & _ & Ht2). split.
  - intros hs idx Hnd Hlen. cbn [chunkStoreClient cl_HasChunks lossless sb_HasChunks]. unfold HasChunks, or_status.
    cbn [hc_RepoId hc_RepoPath hc_Hashes]. rewrite validateHashes_ok.
    destruct (validateRepoRequest _ _); [|done..]. destruct (st_Rebase s); [|done..].
    pose proof (ParseByteSlices_set hs) as Hset. pose proof (ParseByteSlices_index hs) as Hidx.
    destruct (ParseByteSlices (map hash_bytes hs)) as [hashes hashToIndex]. cbn [fst snd] in *. subst hashes.
    destruct (st_HasMany s (list_to_set hs)) as [absent|e|e] eqn:E; [|done..]. intros [= <-].
    pose proof (st_has_exact _ _ E) as Habs.
    assert (∀ h, h ∈ absent → ∃ i : nat, wrap32 (default 0 (hashToIndex !! h)) = Z.of_nat i ∧ hs !! i = Some h) as Hpos.
    { intros h [Hh _]%Habs. rewrite elem_of_list_to_set in Hh. destruct (Hidx h Hh) as (i & -> & Hi).
      exists i. split; [|done]. apply wrap32_id. apply lookup_lt_Some in Hi.
      unfold is_int32, min_int32, max_int32, maxHasManyBatchSize in *. simpl. lia. }
    split.
    + apply NoDup_fmap_2_strong; [|rewrite range_map_perm; apply NoDup_elements].
      intros x y. rewrite !range_map_perm, !elem_of_elements. intros Hx Hy Exy.
      destruct (Hpos x Hx) as (i & Ei & Hi), (Hpos y Hy) as (j & Ej & Hj).
      assert (i = j) as <- by lia. congruence.
    + intros i. rewrite list_elem_of_fmap. setoid_rewrite range_map_perm. setoid_rewrite elem_of_elements. split.
      * intros (h & -> & Hh). destruct (Hpos h Hh) as (k & -> & Hk). exists k, h. split_and!; [done..|].
        by apply Habs in Hh as [_ ?].
      * intros (k & h & -> & Hk & Hp).
        assert (h ∈ absent) as Hh by (apply Habs; split; [|done]; apply elem_of_list_to_set; by eapply list_elem_of_lookup_2).
        exists h. split; [|done]. destruct (Hpos h Hh) as (k' & -> & Hk').
        by rewrite (NoDup_lookup hs k k' h).
  - intros reqs e. cbn [chunkStoreClient cl_HasChunks lossless sb_HasChunks]. unfold HasChunks, or_status. cbn.
    assert (∀ i e, validate_from "hashes" i reqs ≠ Panic e) as Hv.
    { clear. induction reqs as [|x l IH]; intros i e; cbn [validate_from]; [done|]. destruct (negb _); [done|apply IH]. }
    unfold validateRepoRequest, validateHashes. destruct (_ && _); [done|].
    destruct (validate_from "hashes" 0 reqs) eqn:Ev; [|done|by destruct (Hv _ _ Ev)].
    destruct (st_Rebase s) eqn:Er; [|done|by edestruct Ht1]. destruct (ParseByteSlices reqs) as [hashes ix].
    destruct (st_HasMany s hashes) eqn:Eh; [done|done|by destruct (Ht2 _ _ Eh)].
Qed.
End honest.

(** ** A fetch from a peer, end to end *)

Definition peer_provider `{CL : ChunkLib} `{R : GoRuntime} (id : string)
    (file : string → result (string * Z)) (s : RemoteSrvStore) : Provider :=
  mkProvider id (chunkStoreClient (lossless s)) (downloaderClient file (lossless s)).

Lemma NewRemoteChunkStore_inv `{CL : ChunkLib} sv p repo nbf r :
  NewRemoteChunkStore sv (Some p) repo nbf = Ok r →
  rcs_chunkClient r = ChunkStore p ∧ rcs_downloader r = Downloader p ∧ rcs_repoPath r = repoPath repo ∧
  ∃ raw, cl_Root (ChunkStore p) (repoPath repo) = Ok raw ∧ hash_New raw = Ok (rcs_root r).
Proof.
  unfold NewRemoteChunkStore, loadRoot, res_bind. destruct (String.eqb _ _); [done|].
  destruct (cl_GetRepoMetadata _ _ _ _); [|done..]. destruct (cl_Root _ _) as [raw|e|e]; [|done..].
  destruct (hash_New raw) eqn:E; [|done..]. intros [= <-]. split_and!; [done..|]. by exists raw.
Qed.

(** C22. Reading from a peer, end to end: a chunk store opened on a provider
    whose clients talk to the server of another peer over a connection that
    loses nothing reports that peer's root.  Provided that the caches of the
    process hold only chunks of that peer ([cache_ok], [has_sound]), [Get]
    returns, if it does not fail, the chunk that the peer stores under a hash
    it has, and a chunk with empty data for one that it lacks; and [HasMany]
    returns, if it does not fail, exactly the requested chunks that the peer
    lacks.  Neither panics.  The caches are shared by the whole process, so
    that with a second peer the provision can fail
    ([ToyChunks.has_cache_is_shared]). *)
Theorem peer_read_end_to_end `{CL : ChunkLib, !ChunkLaws CL} {C1 C2 : Type}
    `{L1 : !LRU Hash CChunk C1, L2 : !LRU Hash unit C2, !LRULaws Hash CChunk C1, !LRULaws Hash unit C2}
    `{R : GoRuntime} (s : RemoteSrvStore) (present : Hash → bool) `{Hs : !StoreLaws s present}
    (id sv nbf : string) (file : string → result (string * Z)) (repo : RepoID) (r : RemoteChunkStore)
    (m : mapChunkCache C1 C2)
  (Hopen : NewRemoteChunkStore sv (Some (peer_provider id file s)) repo nbf = Ok r)
  (Hm : cache_ok (stored s) m) (Hh : has_sound present m) :
  st_Root s = Ok (rcs_root r) ∧
  (∀ h, match (Get r h m).1 with
        | Ok c => if present h then stored s h c else chunk_Data c = chunk_Data EmptyChunk
        | Err _ => True
        | Panic _ => False
        end) ∧
  (∀ hashes, match (HasMany r hashes m).1 with
             | Ok absent => ∀ h, h ∈ absent ↔ h ∈ hashes ∧ present h = false
             | Err _ => True
             | Panic _ => False
             end).
Proof.
  apply NewRemoteChunkStore_inv in Hopen as (Hcl & Hdl & _ & raw & Hraw & Hnew). split_and!.
  - cbn in Hraw. unfold srv_Root, or_status in Hraw. destruct (validateRepoRequest _ _); [|done..].
    destruct (st_Rebase s); [|done..]. destruct (st_Root s) as [h|e|e]; [|done..].
    injection Hraw as <-. rewrite New_bytes in Hnew. by injection Hnew as ->.
  - intros h. assert (HonestDownloader (rcs_downloader r) (stored s) present) as Hd
      by (rewrite Hdl; apply _).
    pose proof (Get_spec (stored s) present r h m Hm) as H. unfold holds in H. destruct H as [_ H].
    destruct (Get r h m).1 as [c|e|e]; [|done..]. destruct (present h) eqn:Hp; [by destruct H as [?|[_ ?]]|].
    destruct H as [(_ & ch0 & Hg & ->)|[-> _]]; [|done]. by rewrite (st_get_absent h ch0 Hp Hg).
  - intros hashes. assert (HonestChunkStore (rcs_chunkClient r) (rcs_repoPath r) present) as Hc
      by (rewrite Hcl; apply _).
    pose proof (HasMany_spec r present hashes m Hh) as H. unfold holds in H. destruct H as (_ & _ & H).
    by destruct (HasMany r hashes m).1.
Qed.

(** A malformed hash is a panic, not an error: [hash.Parse] panics on it,
    and neither the server of [DownloadChunks] nor the client that receives a
    message checks the text first.  One request from a peer, or one message of
    a provider, with such a hash stops the process ([HasChunks] validates its
    hashes and answers with an error). *)
Theorem malformed_hash_panics `{CL : ChunkLib} {C1 C2 S L : Type}
    `{L1 : !LRU Hash CChunk C1, L2 : !LRU Hash unit C2}
    (hashStr e : string) (Hbad : hash_Parse hashStr = Panic e) :
  (∀ (send : string → string → M S unit) s rest st, st_Rebase s = Ok tt →
     DownloadChunks send s (hashStr :: rest) st = (Panic e, st)) ∧
  (∀ toSend (found : CChunk → M (mapChunkCache C1 C2 * L) unit) b m, b ≠ "" →
     on_chunk toSend found hashStr b m = (Panic e, m)).
Proof.
  split.
  - intros send s rest st Hr. unfold DownloadChunks, bind, wrap_err. rewrite Hr.
    cbn [send_chunks]. unfold bind. by rewrite Hbad.
  - intros toSend found b m Hb. unfold on_chunk. rewrite (proj2 (String.eqb_neq _ _) Hb).
    unfold bind, parse_hash. by rewrite Hbad.
Qed.
