(* ===== verification/FileTransfer.v ===== *)
(** * Table files between peers
    ([DownloadFile] of [grpcswarm/chunkstore_server.go] and
    [grpcswarm/providers.go], with [filepath.Join] of the Go library)

    The server streams a file of its store in pieces, through one buffer that
    it cuts down to the size of each read; the client hands the pieces on
    through a pipe.  The file system is a parameter, with the contract of
    [os.File.Read] as its law. *)

From Stdlib Require Import ZArith Lia String Ascii.
From stdpp Require Import gmap strings list sorting pretty.
From S2P Require Import Prelude GoTime GoJson GoJsonFacts Metadata Chunks ChunkServer.

Local Open Scope Z_scope.

(** ** [path/filepath] on Unix *)

Fixpoint split_slash (s : string) : list string :=
  match s with
  | EmptyString => [EmptyString]
  | String c s =>
      if Ascii.eqb c "/" then EmptyString :: split_slash s
      else match split_slash s with
           | [] => [String c EmptyString]
           | x :: l => String c x :: l
           end
  end.

Fixpoint join_slash (l : list string) : string :=
  match l with
  | [] => ""
  | [x] => x
  | x :: l => x +:+ "/" +:+ join_slash l
  end.

(** One component of a path; [stack] holds the components so far, the last one
    first. *)
Definition clean_step (rooted : bool) (stack : list string) (x : string) : list string :=
  if String.eqb x "" || String.eqb x "." then stack
  else if String.eqb x ".." then
    match stack with
    | [] => if rooted then [] else [".."]
    | top :: rest => if String.eqb top ".." then ".." :: stack else rest
    end
  else x :: stack.

Definition is_rooted (s : string) : bool :=
  match s with String c _ => Ascii.eqb c "/" | EmptyString => false end.

Definition filepath_Clean (s : string) : string :=
  let out := join_slash (rev (foldl (clean_step (is_rooted s)) [] (split_slash s))) in
  if is_rooted s then "/" +:+ out else if String.eqb out "" then "." else out.

Definition filepath_Join (elems : list string) : string :=
  match List.filter (λ e, negb (String.eqb e "")) elems with
  | [] => ""
  | l => filepath_Clean (join_slash l)
  end.

(** ** Files *)

Inductive read_err := EOF | ReadErr (e : string).

(** [os.Stat], [os.Open] and [File.Read] into a buffer of the given size. *)
Class FileSystem (F : Type) := {
  fs_Stat : string → result Z;
  fs_Open : string → result F;
  fs_Read : nat → F → (string * option read_err) * F;
}.

(** [rest f] is what has not been read: a read into a buffer that is not empty
    returns a prefix of it that is not empty, or [EOF] at the end. *)
Class FileLaws (F : Type) `{FileSystem F} := {
  rest : F → string;
  Read_eof : ∀ n f, (0 < n)%nat → rest f = "" → (fs_Read n f).1 = ("", Some EOF);
  Read_data : ∀ n f, (0 < n)%nat → rest f ≠ "" → ∃ b, (fs_Read n f).1 = (b, None) ∧
    b ≠ "" ∧ (String.length b ≤ n)%nat ∧ rest f = b +:+ rest (fs_Read n f).2;
}.

Definition downloadChunkSize : nat := 3 * 1024.

Section transfer.
Context {F : Type} `{FS : FileSystem F}.

(** The loop of the server; [buf] is the length of the buffer. *)
Fixpoint send_file {S} (fuel : nat) (send : string → M S unit) (buf : nat) (f : F) : M S unit :=
  match fuel with
  | O => fail "out of fuel"
  | S fuel =>
      let '((b, err), f') := fs_Read buf f in
      match err with
      | None =>
          wrap_err (status_Error "Internal" "send: ") (send b) ;;*
          send_file fuel send (String.length b) f'
      | Some EOF => ret tt
      | Some (ReadErr e) => fail (status_Error "Internal" ("read: " +:+ e))
      end
  end.

Definition store_path (filePath id : string) : string := filepath_Join [filePath; ".dolt"; "noms"; id].

(** An error of [SendHeader] is replaced. *)
Definition header_failed {S A} (m : M S A) : M S A := λ s,
  match m s with
  | (Err _, s') => (Err (status_Error "Internal" "send header failed"), s')
  | r => r
  end.

Definition srv_DownloadFile {S} (fuel : nat) (sendHeader : list (string * string) → M S unit)
    (send : string → M S unit) (filePath id : string) : M S unit :=
  if String.eqb id "" then fail (status_Error "InvalidArgument" "id is required") else
  let path := store_path filePath id in
  match fs_Stat path with
  | Err e => fail (status_Error "NotFound" ("stat " +:+ path +:+ ": " +:+ e))
  | Panic e => panic e
  | Ok size =>
      match fs_Open path with
      | Err e => fail (status_Error "Internal" ("open " +:+ path +:+ ": " +:+ e))
      | Panic e => panic e
      | Ok f =>
          header_failed (sendHeader [("file-name", id); ("file-size", pretty size)]) ;;*
          send_file fuel send downloadChunkSize f
      end
  end.
End transfer.

(** ** The client *)

(** [strconv.ParseUint(s, 10, 64)] *)
Definition ParseUint (s : string) : option Z :=
  if String.eqb s "" then None else
  match parse_dec 0 s with
  | Some n => if n <? 2 ^ 64 then Some n else None
  | None => None
  end.

(** [md.Get(key)], the first value. *)
Definition md_Get (md : list (string * string)) (key : string) : option string :=
  snd <$> List.find (λ kv, String.eqb kv.1 key) md.

(** A download stream as the generated client sees it. *)
Record FileStream := mkFileStream {
  fst_Header : result (list (string * string));
  fst_Msgs : list string;
  fst_End : result unit;
}.

(** What a reader of the pipe gets: all the data, and how it ends. *)
Definition pipe_data (msgs : list string) : string :=
  foldr (λ b acc, if String.eqb b "" then acc else b +:+ acc) "" msgs.

Definition header_size (md : list (string * string)) : Z :=
  match md_Get md "file-size" with
  | Some v => default 0 (ParseUint v)
  | None => 0
  end.

Definition client_DownloadFile (stream : result FileStream) : result (string * result unit * Z) :=
  res_bind stream (λ st, res_bind (fst_Header st)
    (λ md, Ok (pipe_data (fst_Msgs st), fst_End st, header_size md))).

(** A connection that loses nothing: the header and the messages that the
    server sends, and its status. *)
Definition wire : Type := list (string * string) * list string.
Definition wire_header (md : list (string * string)) : M wire unit := λ w, (Ok tt, (md, w.2)).
Definition wire_send (b : string) : M wire unit := λ w, (Ok tt, (w.1, w.2 ++ [b])).
Definition file_stream {F} `{FileSystem F} (fuel : nat) (filePath id : string) : result FileStream :=
  let '(r, (md, msgs)) := srv_DownloadFile fuel wire_header wire_send filePath id ([], []) in
  match r with
  | Panic e => Ok (mkFileStream (Err (status_Error "Unavailable" e)) msgs (Err (status_Error "Unavailable" e)))
  | r => Ok (mkFileStream (match r, md with Err e, [] => Err e | _, _ => Ok md end) msgs r)
  end.

(** ** The transfer *)

Definition concat_str (l : list string) : string := foldr (λ b acc, b +:+ acc) "" l.

Lemma pipe_data_concat msgs : pipe_data msgs = concat_str msgs.
Proof.
  induction msgs as [|b msgs IH]; [done|]. cbn. unfold pipe_data in IH. rewrite IH.
  destruct (String.eqb b "") eqn:E; [|done]. apply String.eqb_eq in E as ->. by rewrite append_nil_l.
Qed.

Section laws.
Context {F : Type} `{FS : FileSystem F, !FileLaws F}.

(** A message of the stream. *)
Definition piece (b : string) : Prop := b ≠ "" ∧ (String.length b ≤ downloadChunkSize)%nat.

Lemma send_file_spec fuel : ∀ buf (f : F) (w : wire),
  (0 < buf ≤ downloadChunkSize)%nat → (String.length (rest f) < fuel)%nat →
  ∃ msgs, send_file fuel wire_send buf f w = (Ok tt, (w.1, w.2 ++ msgs)) ∧
    Forall piece msgs ∧ concat_str msgs = rest f.
Proof.
  induction fuel as [|fuel IH]; intros buf f w Hbuf Hfuel; [lia|]. cbn [send_file].
  destruct (decide (rest f = "")) as [He|Hne].
  { pose proof (Read_eof buf f ltac:(lia) He) as Hr. destruct (fs_Read buf f) as [[b err] f'].
    cbn in Hr. injection Hr as -> ->. exists []. rewrite app_nil_r, He. by destruct w. }
  destruct (Read_data buf f ltac:(lia) Hne) as (b & Hr & Hb & Hlen & Hrest).
  destruct (fs_Read buf f) as [[b' err] f']. cbn in Hr, Hrest. injection Hr as -> ->.
  unfold bind, wrap_err, wire_send at 1. cbn [fst snd].
  assert (0 < String.length b)%nat as Hpos by (destruct b; [done|cbn; lia]).
  destruct (IH (String.length b) f' (w.1, w.2 ++ [b])) as (msgs & -> & Hp & Hc).
  - lia.
  - rewrite Hrest, length_append in Hfuel. lia.
  - exists (b :: msgs). cbn [fst snd]. rewrite <-app_assoc. split; [done|]. split.
    + constructor; [split; [done|lia]|done].
    + cbn [concat_str foldr]. fold (concat_str msgs). by rewrite Hc.
Qed.

Lemma ParseUint_pretty n : 0 ≤ n < 2 ^ 64 → ParseUint (pretty n) = Some n.
Proof.
  intros Hn. unfold ParseUint. pose proof (parse_dec_pretty (Z.to_N n)) as Hp.
  assert (pretty (Z.to_N n) = pretty n) as E by (by destruct n as [|p|p]; [| |lia]).
  rewrite E, Z2N.id in Hp by lia. rewrite Hp. destruct (String.eqb_spec (pretty n) "") as [Hn0|_].
  - rewrite Hn0 in Hp. injection Hp as <-. discriminate Hn0.
  - by replace (n <? 2 ^ 64) with true by (symmetry; apply Z.ltb_lt; lia).
Qed.

Lemma file_stream_spec fuel filePath id (f : F) size :
  id ≠ "" → fs_Stat (store_path filePath id) = Ok size → fs_Open (store_path filePath id) = Ok f →
  (String.length (rest f) < fuel)%nat →
  ∃ msgs, file_stream (F:=F) fuel filePath id =
      Ok (mkFileStream (Ok [("file-name", id); ("file-size", pretty size)]) msgs (Ok tt)) ∧
    Forall piece msgs ∧ concat_str msgs = rest f.
Proof.
  intros Hid Hstat Hopen Hfuel. unfold file_stream, srv_DownloadFile.
  rewrite (proj2 (String.eqb_neq _ _) Hid), Hstat, Hopen. unfold bind, header_failed, wire_header at 1. cbn [snd].
  destruct (send_file_spec fuel downloadChunkSize f ([("file-name", id); ("file-size", pretty size)], []))
    as (msgs & -> & Hp & Hc); [unfold downloadChunkSize; lia|done|]. by exists msgs.
Qed.

Lemma client_download_spec fuel filePath id (f : F) :
  id ≠ "" → fs_Open (store_path filePath id) = Ok f →
  fs_Stat (store_path filePath id) = Ok (Z.of_nat (String.length (rest f))) →
  Z.of_nat (String.length (rest f)) < 2 ^ 64 → (String.length (rest f) < fuel)%nat →
  client_DownloadFile (file_stream (F:=F) fuel filePath id) =
    Ok (rest f, Ok tt, Z.of_nat (String.length (rest f))).
Proof.
  intros Hid Hopen Hstat Hsize Hfuel.
  destruct (file_stream_spec fuel filePath id f _ Hid Hstat Hopen Hfuel) as (msgs & -> & Hp & Hc).
  cbn. rewrite pipe_data_concat, Hc. unfold header_size. cbn. by rewrite ParseUint_pretty by lia.
Qed.
End laws.

(** A table file arrives whole: over a connection that loses nothing, for a
    file that does not change while it is read, the client's pipe yields
    exactly the content of the file and then ends without error, and the size
    it reports is the length of the file.  The server finishes within one read
    per byte and one more, although its buffer shrinks to the size of each
    short read, and no message is empty or larger than the first buffer. *)
Theorem file_download_roundtrip {F : Type} `{FS : FileSystem F, !FileLaws F}
    (fuel : nat) (filePath id : string) (f : F)
  (Hid : id ≠ "") (Hopen : fs_Open (store_path filePath id) = Ok f)
  (Hstat : fs_Stat (store_path filePath id) = Ok (Z.of_nat (String.length (rest f))))
  (Hsize : Z.of_nat (String.length (rest f)) < 2 ^ 64) (Hfuel : (String.length (rest f) < fuel)%nat) :
  ∃ st, file_stream (F:=F) fuel filePath id = Ok st ∧
    Forall (λ b, b ≠ "" ∧ (String.length b ≤ downloadChunkSize)%nat) (fst_Msgs st) ∧
    client_DownloadFile (file_stream (F:=F) fuel filePath id) =
      Ok (rest f, Ok tt, Z.of_nat (String.length (rest f))).
Proof.
  destruct (file_stream_spec fuel filePath id f _ Hid Hstat Hopen Hfuel) as (msgs & E & Hp & _).
  exists (mkFileStream (Ok [("file-name", id); ("file-size", pretty (Z.of_nat (String.length (rest f))))]) msgs (Ok tt)).
  split; [done|]. split; [exact Hp|]. by apply client_download_spec.
Qed.

(** ** The path of a table file *)

Lemma split_slash_nonempty s : split_slash s ≠ [].
Proof. destruct s as [|c s]; cbn; [done|]. destruct (Ascii.eqb c "/"); [done|]. by destruct (split_slash s). Qed.

Lemma split_slash_app s t : split_slash (s +:+ String "/" t) = split_slash s ++ split_slash t.
Proof.
  induction s as [|c s IH]; [by rewrite append_nil_l|]. rewrite append_cons. cbn [split_slash]. rewrite IH.
  destruct (Ascii.eqb c "/"); [done|]. pose proof (split_slash_nonempty s). by destruct (split_slash s).
Qed.

Lemma split_slash_free s : str_free "/" s → split_slash s = [s].
Proof.
  induction s as [|c s IH]; [done|]. cbn [str_free split_slash]. intros [Hc Hs].
  rewrite (IH Hs). by destruct (Ascii.eqb_spec c "/").
Qed.

Lemma join_slash_snoc l x : l ≠ [] → join_slash (l ++ [x]) = join_slash l +:+ "/" +:+ x.
Proof.
  induction l as [|y l IH]; [done|]. intros _. destruct l as [|z l]; [done|].
  change (join_slash ((y :: z :: l) ++ [x])) with (y +:+ "/" +:+ join_slash ((z :: l) ++ [x])).
  rewrite IH by done. cbn [join_slash]. by rewrite !append_assoc.
Qed.

Lemma append_slash t : "/" +:+ t = String "/" t.
Proof. by rewrite append_cons, append_nil_l. Qed.

(** The components of the directory of the table files, the last one first. *)
Definition noms_stack (filePath : string) : list string :=
  "noms" :: ".dolt" :: foldl (clean_step (is_rooted filePath)) [] (split_slash filePath).

Definition render_path (rooted : bool) (stack : list string) : string :=
  let out := join_slash (rev stack) in
  if rooted then "/" +:+ out else if String.eqb out "" then "." else out.

Lemma is_rooted_append s t : s ≠ "" → is_rooted (s +:+ t) = is_rooted s.
Proof. destruct s as [|c s]; [done|]. intros _. by rewrite append_cons. Qed.

Lemma noms_dir filePath :
  filePath ≠ "" → filepath_Join [filePath; ".dolt"; "noms"] = render_path (is_rooted filePath) (noms_stack filePath).
Proof.
  intros Hf. unfold filepath_Join. cbn [List.filter]. rewrite (proj2 (String.eqb_neq _ _) Hf). cbn [negb String.eqb Ascii.eqb Bool.eqb andb].
  cbn [join_slash]. rewrite !append_slash. unfold filepath_Clean. rewrite is_rooted_append, !split_slash_app by done.
  unfold render_path. by rewrite !foldl_app.
Qed.

Lemma store_path_stack filePath id :
  filePath ≠ "" → id ≠ "" →
  store_path filePath id =
  render_path (is_rooted filePath)
    (foldl (clean_step (is_rooted filePath)) (noms_stack filePath) (split_slash id)).
Proof.
  intros Hf Hid. unfold store_path, filepath_Join. cbn [List.filter].
  rewrite (proj2 (String.eqb_neq _ _) Hf), (proj2 (String.eqb_neq _ _) Hid).
  cbn [negb String.eqb Ascii.eqb Bool.eqb andb]. cbn [join_slash]. rewrite !append_slash.
  unfold filepath_Clean. rewrite is_rooted_append, !split_slash_app by done.
  unfold render_path. by rewrite !foldl_app.
Qed.

(** A table file named by a plain identifier is looked up in the store of
    the database: when the identifier is one path component, neither "." nor
    "..", the path that the server opens is that component directly below the
    directory [.dolt/noms] of the database, wherever the database is. *)
Theorem store_path_plain (filePath id : string)
  (Hf : filePath ≠ "") (Hid : id ≠ "" ∧ id ≠ "." ∧ id ≠ "..") (Hs : str_free "/" id) :
  store_path filePath id = filepath_Join [filePath; ".dolt"; "noms"] +:+ "/" +:+ id.
Proof.
  destruct Hid as (H0 & H1 & H2). rewrite store_path_stack, noms_dir, split_slash_free by done.
  cbn [foldl]. unfold clean_step at 1.
  rewrite (proj2 (String.eqb_neq _ _) H0), (proj2 (String.eqb_neq _ _) H1), (proj2 (String.eqb_neq _ _) H2).
  cbn [orb]. unfold render_path. cbn [rev].
  assert (rev (noms_stack filePath) ≠ []) as Hne.
  { unfold noms_stack. cbn [rev]. intros E%(f_equal (@List.length _)). rewrite !length_app in E. cbn in E. lia. }
  rewrite join_slash_snoc by done.
  assert (∀ s, s +:+ "/" +:+ id ≠ "") as Hnn by (intros []; [by rewrite append_nil_l, append_slash|by rewrite append_cons]).
  assert (join_slash (rev (noms_stack filePath)) ≠ "") as Hj.
  { unfold noms_stack. cbn [rev]. rewrite join_slash_snoc.
    - destruct (join_slash _); [by rewrite append_nil_l, append_slash|by rewrite append_cons].
    - intros E%(f_equal (@List.length _)). rewrite length_app in E. cbn in E. lia. }
  rewrite (proj2 (String.eqb_neq _ _) (Hnn _)), (proj2 (String.eqb_neq _ _) Hj).
  destruct (is_rooted filePath); [|done]. by rewrite append_assoc.
Qed.

(** ** Paths that climb out of the store *)

(** One component of a path that names something. *)
Definition named (x : string) : Prop := x ≠ "" ∧ x ≠ "." ∧ x ≠ ".." ∧ str_free "/" x.

Lemma split_join l : l ≠ [] → Forall (str_free "/") l → split_slash (join_slash l) = l.
Proof.
  intros Hne Hl. induction Hl as [|x l Hx Hl IH]; [done|]. destruct l as [|y l]; [by apply split_slash_free|].
  change (join_slash (x :: y :: l)) with (x +:+ "/" +:+ join_slash (y :: l)).
  rewrite append_slash, split_slash_app, IH, split_slash_free by done. done.
Qed.

(** Below the root no component is "..". *)
Lemma clean_rooted l stack : Forall (λ x, x ≠ "..") stack → Forall (λ x, x ≠ "..") (foldl (clean_step true) stack l).
Proof.
  revert stack. induction l as [|x l IH]; intros stack Hs; [done|]. apply IH. unfold clean_step.
  destruct (_ || _); [done|]. destruct (String.eqb_spec x "..") as [->|Hx]; [|by constructor].
  destruct Hs as [|top rest Ht Hr]; [done|]. by rewrite (proj2 (String.eqb_neq _ _) Ht).
Qed.

(** Enough ".." lead to the root, and not further. *)
Lemma clean_climb k stack :
  Forall (λ x, x ≠ "..") stack → (length stack ≤ k)%nat → foldl (clean_step true) stack (replicate k "..") = [].
Proof.
  revert stack. induction k as [|k IH]; intros stack Hs Hk; [by destruct stack; [|cbn in Hk; lia]|].
  cbn [replicate foldl]. apply IH; unfold clean_step; cbn;
    (destruct Hs as [|top rest Ht Hr]; [try constructor; cbn; lia|rewrite (proj2 (String.eqb_neq _ _) Ht)]);
    [done|cbn in Hk; lia].
Qed.

Lemma clean_named l stack : Forall named l → foldl (clean_step true) stack l = rev l ++ stack.
Proof.
  intros Hl. revert stack. induction Hl as [|x l (H0 & H1 & H2 & _) _ IH]; intros stack; [done|].
  cbn [foldl]. unfold clean_step at 2.
  rewrite (proj2 (String.eqb_neq _ _) H0), (proj2 (String.eqb_neq _ _) H1), (proj2 (String.eqb_neq _ _) H2).
  cbn [orb]. rewrite IH. cbn [rev]. by rewrite <-app_assoc.
Qed.

Lemma store_path_climb filePath k comps :
  is_rooted filePath = true → (length (noms_stack filePath) ≤ k)%nat → comps ≠ [] → Forall named comps →
  store_path filePath (join_slash (replicate k ".." ++ comps)) = "/" +:+ join_slash comps.
Proof.
  intros Hr Hk Hne Hc.
  assert (Forall (str_free "/") (replicate k ".." ++ comps)) as Hfree.
  { apply Forall_app. split; [apply Forall_replicate; repeat split; discriminate|].
    eapply Forall_impl; [exact Hc|]. by intros x (_ & _ & _ & ?). }
  assert (replicate k ".." ++ comps ≠ []) as Hne' by (destruct comps; [done|by destruct k]).
  pose proof (split_join _ Hne' Hfree) as Hsplit.
  rewrite store_path_stack, Hr, Hsplit, foldl_app; [|by destruct filePath|].
  2:{ intros E. rewrite E in Hsplit. destruct k as [|[|k]]; [unfold noms_stack in Hk; cbn in Hk; lia| |done].
      cbn in Hsplit. by destruct comps. }
  rewrite clean_climb; [|repeat (constructor; [done|]); rewrite Hr; by apply clean_rooted|done].
  rewrite clean_named, app_nil_r by done. unfold render_path. by rewrite rev_involutive.
Qed.

(** C39. The identifier of a download is not confined to the store: for a
    database anywhere below the root, and any file of the machine that the
    server can open, the identifier made of enough ".." components (more do no
    harm, so that the peer need not know where the database is) and the path
    of the file names that file, and the peer receives its whole content. *)
Theorem DownloadFile_escapes_store {F : Type} `{FS : FileSystem F, !FileLaws F}
    (fuel k : nat) (filePath : string) (comps : list string) (f : F)
  (Hroot : is_rooted filePath = true) (Hk : (length (noms_stack filePath) ≤ k)%nat)
  (Hne : comps ≠ []) (Hcomps : Forall named comps)
  (Hopen : fs_Open ("/" +:+ join_slash comps) = Ok f)
  (Hstat : fs_Stat ("/" +:+ join_slash comps) = Ok (Z.of_nat (String.length (rest f))))
  (Hsize : Z.of_nat (String.length (rest f)) < 2 ^ 64) (Hfuel : (String.length (rest f) < fuel)%nat) :
  let id := join_slash (replicate k ".." ++ comps) in
  store_path filePath id = "/" +:+ join_slash comps ∧
  client_DownloadFile (file_stream (F:=F) fuel filePath id) =
    Ok (rest f, Ok tt, Z.of_nat (String.length (rest f))).
Proof.
  intros id. pose proof (store_path_climb filePath k comps Hroot Hk Hne Hcomps) as Hp. fold id in Hp.
  split; [done|]. rewrite <-Hp in Hopen, Hstat. apply client_download_spec; try done.
  intros E. rewrite E in Hp. unfold id in E. destruct k as [|k]; [unfold noms_stack in Hk; cbn in Hk; lia|].
  destruct k, comps; done.
Qed.

(** ** A file system held in memory *)

#[export] Instance mem_fs : FileSystem string := {
  fs_Stat p := if String.eqb p "/data/secret" then Ok 6
               else if String.eqb p "/data/db/.dolt/noms/abc" then Ok 5 else Err "no such file";
  fs_Open p := if String.eqb p "/data/secret" then Ok "secret"
               else if String.eqb p "/data/db/.dolt/noms/abc" then Ok "table" else Err "no such file";
  fs_Read n f :=
    match n, f with
    | O, _ => (("", None), f)
    | S _, EmptyString => (("", Some EOF), f)
    | S _, String c r => ((String c EmptyString, None), r)
    end;
}.

#[export] Program Instance mem_fs_laws : FileLaws string := { rest f := f }.
Next Obligation. intros [|n] f Hn ->; [lia|done]. Qed.
Next Obligation.
  intros [|n] [|c f] Hn Hf; [lia|lia|done|]. exists (String c EmptyString). cbn.
  split_and!; [done|done|lia|by rewrite append_cons, append_nil_l].
Qed.

Lemma file_download_roundtrip_witness :
  fst_Msgs <$> (match file_stream (F:=string) 6 "/data/db" "abc" with Ok st => Some st | _ => None end)
    = Some ["t"; "a"; "b"; "l"; "e"] ∧
  ∃ st, file_stream (F:=string) 6 "/data/db" "abc" = Ok st ∧
    Forall (λ b, b ≠ "" ∧ (String.length b ≤ downloadChunkSize)%nat) (fst_Msgs st) ∧
    client_DownloadFile (file_stream (F:=string) 6 "/data/db" "abc") = Ok ("table", Ok tt, 5).
Proof.
  assert (store_path "/data/db" "abc" = "/data/db/.dolt/noms/abc") as E by (vm_compute; reflexivity).
  split; [vm_compute; reflexivity|].
  pose proof (file_download_roundtrip (F:=string) 6 "/data/db" "abc" "table") as H.
  change (rest "table") with "table" in H. change (Z.of_nat (String.length "table")) with 5 in H. apply H.
  - discriminate.
  - rewrite E. reflexivity.
  - rewrite E. reflexivity.
  - reflexivity.
  - cbn. lia.
Defined.

Lemma store_path_plain_witness :
  store_path "/data/db" "abc" = filepath_Join ["/data/db"; ".dolt"; "noms"] +:+ "/" +:+ "abc".
Proof.
  apply store_path_plain; [discriminate|split_and!; discriminate|]. repeat split; discriminate.
Defined.

Lemma DownloadFile_escapes_store_witness :
  let id := join_slash (replicate 6 ".." ++ ["data"; "secret"]) in
  id = "../../../../../../data/secret" ∧
  store_path "/data/db" id = "/data/secret" ∧
  client_DownloadFile (file_stream (F:=string) 7 "/data/db" id) = Ok ("secret", Ok tt, 6).
Proof.
  intros id. split; [reflexivity|].
  pose proof (DownloadFile_escapes_store (F:=string) 7 6 "/data/db" ["data"; "secret"] "secret") as H.
  apply H.
  - reflexivity.
  - vm_compute. lia.
  - discriminate.
  - repeat (constructor; [repeat split; discriminate|]). constructor.
  - reflexivity.
  - reflexivity.
  - reflexivity.
  - cbn. lia.
Defined.
