(* ===== verification/Swarm.v ===== *)
(** * Swarm remotes and the choice of a provider
    ([core/swarm_registry.go], [core/swarm_dbfactory.go],
    [transport/provider_hint.go] and [Providers] of
    [integration/transport/grpcswarm/providers.go])

    A fetch of the remote [swarm://org/repo] reaches the database factory,
    which finds the repository in a process-wide registry, asks its picker for
    a peer and opens a chunk store on it. *)

From Stdlib Require Import ZArith Lia String Ascii.
From stdpp Require Import gmap strings list sorting pretty.
From S2P Require Import Prelude Metadata Linearize Dolt Reconciler Db Chunks.

Local Open Scope Z_scope.

(** ** The registry

    [P] is the type of references to pickers. *)

Section registry.
Context {P : Type}.

Definition swarmProviders : Type := gmap RepoID P.

Definition RegisterSwarmProviders (repo : RepoID) (picker : option P) (m : swarmProviders) : swarmProviders :=
  match picker with None => m | Some p => <[repo := p]> m end.
Definition UnregisterSwarmProviders (repo : RepoID) (m : swarmProviders) : swarmProviders := delete repo m.
Definition getSwarmProviderPicker (repo : RepoID) (m : swarmProviders) : option P := m !! repo.
End registry.
Arguments swarmProviders : clear implicits.

(** ** URLs *)

Record URL := mkURL { Host : string; Path : string }.

Fixpoint trim_left (c : ascii) (s : string) : string :=
  match s with
  | String d r => if Ascii.eqb d c then trim_left c r else s
  | EmptyString => EmptyString
  end.
Fixpoint trim_right (c : ascii) (s : string) : string :=
  match s with
  | String d r =>
      match trim_right c r with
      | EmptyString => if Ascii.eqb d c then EmptyString else String d EmptyString
      | r' => String d r'
      end
  | EmptyString => EmptyString
  end.
(** [strings.Trim(s, c)] *)
Definition Trim (s : string) (c : ascii) : string := trim_right c (trim_left c s).

Definition parseSwarmRepoID (u : URL) : RepoID :=
  let path := Trim (Path u) "/" in
  if negb (String.eqb (Host u) "") && negb (String.eqb path "") then mkRepo (Host u) path
  else if negb (String.eqb path "") then mkRepo "" path
  else mkRepo "" (Host u).

(** [url.Parse] on [swarm://...]: for a URL whose characters are unreserved or
    slashes, the host is what comes before the first slash and the path the
    rest.  Other URLs are left out. *)
Definition unreserved (c : ascii) : bool :=
  let n := N_of_ascii c in
  ((48 <=? n) && (n <=? 57) || (65 <=? n) && (n <=? 90) || (97 <=? n) && (n <=? 122))%N
  || existsb (Ascii.eqb c) ["-"; "_"; "."; "~"]%char.

Fixpoint str_all (p : ascii → bool) (s : string) : bool :=
  match s with EmptyString => true | String c s => p c && str_all p s end.

Fixpoint split_host (s : string) : string * string :=
  match s with
  | EmptyString => (EmptyString, EmptyString)
  | String c r => if Ascii.eqb c "/" then (EmptyString, s) else let '(h, p) := split_host r in (String c h, p)
  end.

Fixpoint strip_prefix (p s : string) : option string :=
  match p, s with
  | EmptyString, _ => Some s
  | String a p, String b s => if Ascii.eqb a b then strip_prefix p s else None
  | String _ _, EmptyString => None
  end.

Definition parse_swarm_url (s : string) : option URL :=
  match strip_prefix "swarm://" s with
  | Some r =>
      if str_all (λ c, unreserved c || Ascii.eqb c "/") r
      then let '(h, p) := split_host r in Some (mkURL h p) else None
  | None => None
  end.

(** ** The database factory *)

Definition PrepareDB : result unit := Err "swarm dbfactory is read-only".

Section factory.
Context `{CL : ChunkLib} {P S : Type} (PickProvider : P → RepoID → M S Provider).

(** The store that [CreateDB] wraps; the quoted URL is left out of the text of
    the first error, and quotes around the repository name of the second. *)
Definition CreateDB (StorageVersion : string) (reg : swarmProviders P) (u : URL) (nbfVersion : string) :
    M S RemoteChunkStore :=
  let repo := parseSwarmRepoID u in
  if String.eqb (RepoName repo) "" then fail "swarm url missing repo name: " else
  match getSwarmProviderPicker repo reg with
  | None => fail ("no swarm ProviderPicker registered for repo " +:+ RepoName repo)
  | Some picker =>
      let* provider := wrap_err "pick provider: " (PickProvider picker repo) in
      λ s, (NewRemoteChunkStore StorageVersion (Some provider) repo nbfVersion, s)
  end.
End factory.

(** ** Round robin over the connected peers *)

Section providers.
Context {C : Type} `{R : GoRuntime}.

(** [Providers]: the counter [rr] is a [uint64]; [tracker] is the
    [UsedProviderTracker] of the context, when there is one. *)
Record Providers := mkProviders {
  rr : Z;
  lastUsed : option string;
  tracker : option string;
}.

Definition LastUsedProvider (p : option Providers) : string :=
  match p with None => "" | Some p => default "" (lastUsed p) end.

Definition tracker_Set (providerID : string) (t : string) : string := providerID.
Definition tracker_Get (t : string) : string := t.

Definition wrapu64 (z : Z) : Z := z mod 2 ^ 64.

Definition recordUsed (id : string) (p : Providers) : Providers :=
  mkProviders (rr p) (Some id) (tracker_Set id <$> tracker p).

Definition sorted_ids (conns : gmap string C) : list string :=
  sort_slice str_lt (range_map (map fst (map_to_list conns))).

(** [conns] is the snapshot of [p.Src], [None] when there is no source;
    [mk id cc] is the provider over the connection. *)
Definition PickProvider (mk : string → C → Provider) (conns : option (gmap string C)) (repo : RepoID) :
    M Providers Provider := λ p,
  match conns with
  | None => (Err "no conn source", p)
  | Some conns =>
      if bool_decide (conns = ∅) then (Err "no connected providers", p) else
      let ids := sorted_ids conns in
      let rr' := wrapu64 (rr p + 1) in
      let idx := wrapu64 (rr' - 1) in
      match ids !! Z.to_nat (idx mod Z.of_nat (List.length ids)) with
      | None => (Panic "index out of range", mkProviders rr' (lastUsed p) (tracker p))
      | Some id =>
          let p' := recordUsed id (mkProviders rr' (lastUsed p) (tracker p)) in
          match conns !! id with
          | Some cc => (Ok (mk id cc), p')
          | None => (Panic "nil connection", p')
          end
      end
  end.
End providers.

(** ** The registry keeps the last registration *)

Inductive reg_op {P : Type} :=
| Register (repo : RepoID) (picker : option P)
| Unregister (repo : RepoID).
Arguments reg_op : clear implicits.

Definition reg_apply {P} (m : swarmProviders P) (op : reg_op P) : swarmProviders P :=
  match op with
  | Register repo p => RegisterSwarmProviders repo p m
  | Unregister repo => UnregisterSwarmProviders repo m
  end.

(** What an operation says about a repository; [None] when nothing. *)
Definition reg_says {P} (repo : RepoID) (op : reg_op P) : option (option P) :=
  match op with
  | Register repo' (Some p) => if decide (repo' = repo) then Some (Some p) else None
  | Register _ None => None
  | Unregister repo' => if decide (repo' = repo) then Some None else None
  end.

Definition reg_last {P} (repo : RepoID) (ops : list (reg_op P)) : option P :=
  foldl (λ cur op, default cur (reg_says repo op)) None ops.

Lemma reg_run_lookup {P} repo (ops : list (reg_op P)) m :
  getSwarmProviderPicker repo (foldl reg_apply m ops) =
  foldl (λ cur op, default cur (reg_says repo op)) (m !! repo) ops.
Proof.
  unfold swarmProviders in *. revert m. induction ops as [|op ops IH]; intros m; [done|]. cbn [foldl].
  rewrite IH. f_equal.
  destruct op as [r [p|]|r]; cbn [reg_apply reg_says]; unfold RegisterSwarmProviders, UnregisterSwarmProviders.
  - destruct (decide (r = repo)) as [->|?]; [by rewrite lookup_insert_eq|by rewrite lookup_insert_ne].
  - done.
  - destruct (decide (r = repo)) as [->|?]; [by rewrite lookup_delete_eq|by rewrite lookup_delete_ne].
Qed.

Lemma reg_run_last {P} repo (ops : list (reg_op P)) :
  getSwarmProviderPicker repo (foldl reg_apply ∅ ops) = reg_last repo ops.
Proof. rewrite reg_run_lookup. unfold swarmProviders. by rewrite lookup_empty. Qed.

(** ** URLs *)

Lemma trim_left_id c s : str_free c s → trim_left c s = s.
Proof. destruct s as [|d s]; [done|]. cbn. intros [Hd _]. by destruct (Ascii.eqb_spec d c). Qed.

Lemma trim_right_id c s : str_free c s → trim_right c s = s.
Proof.
  induction s as [|d s IH]; [done|]. cbn. intros [Hd Hs]. rewrite (IH Hs).
  destruct s; [|done]. by destruct (Ascii.eqb_spec d c).
Qed.

Definition plain_name (s : string) : Prop := str_all unreserved s = true.

Lemma plain_no_slash s : plain_name s → str_free "/" s.
Proof.
  unfold plain_name. induction s as [|c s IH]; [done|]. cbn [str_all str_free]. intros [Hc Hs]%andb_prop.
  split; [|by apply IH]. intros <-. discriminate Hc.
Qed.

Lemma plain_url_chars s t :
  plain_name s → str_all (λ c, unreserved c || Ascii.eqb c "/") t = true →
  str_all (λ c, unreserved c || Ascii.eqb c "/") (s +:+ t) = true.
Proof.
  unfold plain_name. intros Hs Ht. induction s as [|c s IH]; [by rewrite append_nil_l|].
  rewrite append_cons. cbn [str_all] in *. apply andb_prop in Hs as [-> Hs]. by apply IH.
Qed.

Lemma split_host_plain s t :
  str_free "/" s → (t = "" ∨ ∃ r, t = String "/" r) → split_host (s +:+ t) = (s, t).
Proof.
  intros Hs Ht. induction s as [|c s IH].
  - rewrite append_nil_l. destruct Ht as [->|[r ->]]; done.
  - rewrite append_cons. cbn [split_host str_free] in *. destruct Hs as [Hc Hs].
    destruct (Ascii.eqb_spec c "/"); [congruence|]. by rewrite IH.
Qed.

Lemma strip_scheme s : strip_prefix "swarm://" (SwarmDBFactoryScheme +:+ "://" +:+ s) = Some s.
Proof. unfold SwarmDBFactoryScheme. by rewrite !append_cons, !append_nil_l. Qed.

Lemma parse_swarm_url_repo repo :
  plain_name (Org repo) → plain_name (RepoName repo) → RepoName repo ≠ "" →
  ∃ u, parse_swarm_url (swarm_url repo) = Some u ∧ parseSwarmRepoID u = repo.
Proof.
  destruct repo as [org name]. cbn [Org RepoName]. intros Ho Hn Hne.
  pose proof (plain_no_slash _ Ho) as Hos. pose proof (plain_no_slash _ Hn) as Hns.
  unfold parse_swarm_url, swarm_url. cbn [Org RepoName]. unfold parseSwarmRepoID.
  pose proof (plain_url_chars name "" Hn eq_refl) as Hnc. rewrite append_nil_r in Hnc.
  destruct (String.eqb_spec org "") as [->|Hoe]; cbn [negb]; rewrite strip_scheme.
  - rewrite Hnc.
    pose proof (split_host_plain name "" Hns (or_introl eq_refl)) as E. rewrite append_nil_r in E. rewrite E.
    eexists. split; [done|]. cbn. by rewrite andb_false_r.
  - rewrite append_cons, append_nil_l. rewrite plain_url_chars; [|done|].
    2:{ cbn [str_all]. exact Hnc. }
    rewrite split_host_plain; [|done|right; by eexists]. eexists. split; [done|]. cbn [Path Host].
    unfold Trim. cbn [trim_left Ascii.eqb Bool.eqb]. rewrite trim_left_id, trim_right_id by done.
    rewrite (proj2 (String.eqb_neq _ _) Hoe), (proj2 (String.eqb_neq _ _) Hne). done.
Qed.

(** C26. A swarm remote resolves to the repository it was made for: after any
    registrations and removals, the factory, given the URL that
    [EnsureSwarmRemote] stores for a repository with plain names, uses exactly
    the picker of the last registration of that repository, and asks it for
    that repository; when there is none, it fails without asking anyone. *)
Theorem swarm_remote_resolves `{CL : ChunkLib} {P S : Type} (pick : P → RepoID → M S Provider)
    (StorageVersion nbfVersion : string) (ops : list (reg_op P)) (repo : RepoID) (s : S)
  (Horg : plain_name (Org repo)) (Hname : plain_name (RepoName repo)) (Hne : RepoName repo ≠ "") :
  ∃ u, parse_swarm_url (swarm_url repo) = Some u ∧
    CreateDB pick StorageVersion (foldl reg_apply ∅ ops) u nbfVersion s =
    match reg_last repo ops with
    | None => (Err ("no swarm ProviderPicker registered for repo " +:+ RepoName repo), s)
    | Some picker =>
        match pick picker repo s with
        | (Ok p, s') => (NewRemoteChunkStore StorageVersion (Some p) repo nbfVersion, s')
        | (Err e, s') => (Err ("pick provider: " +:+ e), s')
        | (Panic e, s') => (Panic e, s')
        end
    end.
Proof.
  destruct (parse_swarm_url_repo repo Horg Hname Hne) as (u & Hu & Hr). exists u. split; [done|].
  unfold CreateDB. rewrite Hr, (proj2 (String.eqb_neq _ _) Hne), reg_run_last.
  destruct (reg_last repo ops) as [picker|]; [|done].
  unfold bind, wrap_err. by destruct (pick picker repo s) as [[] ?].
Qed.

(** ** Round robin *)

Section robin.
Context {C : Type} `{R : GoRuntime} (mk : string → C → Provider) (conns : gmap string C) (repo : RepoID).
Context (Hne : conns ≠ ∅).

Local Abbreviation ids := (sorted_ids conns).

Lemma ids_perm : ids ≡ₚ elements (dom conns).
Proof.
  unfold sorted_ids. rewrite sort_slice_perm, range_map_perm. apply NoDup_Permutation.
  - apply NoDup_fst_map_to_list.
  - apply NoDup_elements.
  - intros x. rewrite elem_of_elements, elem_of_dom, list_elem_of_fmap. split.
    + intros ([k c] & -> & Hk). apply elem_of_map_to_list in Hk. by exists c.
    + intros [c Hc]. exists (x, c). split; [done|]. by apply elem_of_map_to_list.
Qed.

Lemma ids_nonempty : (0 < List.length ids)%nat.
Proof.
  rewrite ids_perm. change (0 < size (dom conns))%nat. rewrite size_dom.
  destruct (decide (size conns = 0%nat)) as [E|?]; [|lia]. by apply map_size_empty_iff in E.
Qed.

(** One pick. *)
Definition picked (p : Providers) (r : result Provider) (p' : Providers) (id : string) : Prop :=
  ∃ cc, conns !! id = Some cc ∧ r = Ok (mk id cc) ∧
    p' = mkProviders (wrapu64 (rr p + 1)) (Some id) (tracker_Set id <$> tracker p).

Lemma pick_spec p :
  0 ≤ rr p < 2 ^ 64 → ∃ id, ids !! Z.to_nat (rr p mod Z.of_nat (List.length ids)) = Some id ∧
    picked p (PickProvider mk (Some conns) repo p).1 (PickProvider mk (Some conns) repo p).2 id.
Proof.
  intros Hrr. unfold PickProvider. rewrite bool_decide_eq_false_2 by done.
  assert (wrapu64 (wrapu64 (rr p + 1) - 1) = rr p) as ->.
  { unfold wrapu64. rewrite Zminus_mod_idemp_l, Z.add_simpl_r. by apply Z.mod_small. }
  pose proof ids_nonempty as Hpos.
  destruct (lookup_lt_is_Some_2 ids (Z.to_nat (rr p mod Z.of_nat (List.length ids)))) as [id Hid].
  { pose proof (Z.mod_pos_bound (rr p) (Z.of_nat (List.length ids))). lia. }
  exists id. split; [done|]. rewrite Hid.
  assert (is_Some (conns !! id)) as [cc Hcc].
  { apply elem_of_dom, elem_of_elements. rewrite <-ids_perm. by eapply list_elem_of_lookup_2. }
  rewrite Hcc. by exists cc.
Qed.

(** The results of consecutive picks. *)
Fixpoint picks (k : nat) (p : Providers) : list (result Provider) :=
  match k with
  | O => []
  | S k => let '(r, p') := PickProvider mk (Some conns) repo p in r :: picks k p'
  end.

Definition pick_of (r : result Provider) (id : string) : Prop :=
  ∃ cc, conns !! id = Some cc ∧ r = Ok (mk id cc).

Lemma picks_rotate k : ∀ j p r0,
  0 ≤ r0 → rr p = r0 + Z.of_nat j → r0 + Z.of_nat (j + k) ≤ 2 ^ 64 → (j + k ≤ List.length ids)%nat →
  Forall2 pick_of (picks k p) (take k (drop j (rotate (Z.to_nat r0) ids))).
Proof.
  induction k as [|k IH]; intros j p r0 H0 Hrr Hmax Hlen; cbn [picks]; [rewrite take_0; constructor|].
  destruct (pick_spec p) as (id & Hid & (cc & Hcc & Hr & Hp)); [lia|].
  destruct (PickProvider mk (Some conns) repo p) as [r p']. cbn [fst snd] in Hr, Hp.
  assert (rotate (Z.to_nat r0) ids !! j = Some id) as Hj.
  { rewrite lookup_rotate_r by lia. rewrite <-Hid. f_equal. unfold rotate_nat_add. f_equal. f_equal. lia. }
  rewrite (drop_S _ id j) by done. cbn [take]. constructor; [by exists cc|].
  destruct (decide (k = 0%nat)) as [->|Hk]; [cbn [picks]; rewrite take_0; constructor|].
  apply IH; [done| |lia|lia]. subst p'. cbn [rr]. unfold wrapu64. rewrite Z.mod_small by lia. lia.
Qed.

Lemma rotate_perm {A} n (l : list A) : rotate n l ≡ₚ l.
Proof. unfold rotate. rewrite Permutation_app_comm. by rewrite take_drop. Qed.
End robin.

(** C27. Round robin is fair: while the set of connected peers does not change
    and the counter does not wrap around, as many consecutive picks as there
    are peers succeed and use every peer exactly once, whatever the counter
    was, the order in which Go visits the map and the sort it uses. *)
Theorem PickProvider_fair {C : Type} `{R : GoRuntime} (mk : string → C → Provider)
    (conns : gmap string C) (repo : RepoID) (p : Providers)
  (Hne : conns ≠ ∅) (Hrr : 0 ≤ rr p) (Hmax : rr p + Z.of_nat (size conns) ≤ 2 ^ 64) :
  ∃ ids, ids ≡ₚ elements (dom conns) ∧
    Forall2 (λ r id, ∃ cc, conns !! id = Some cc ∧ r = Ok (mk id cc))
      (picks mk conns repo (size conns) p) ids.
Proof.
  assert (List.length (sorted_ids conns) = size conns) as Hlen.
  { rewrite (ids_perm conns). change (size (dom conns) = size conns). apply size_dom. }
  exists (rotate (Z.to_nat (rr p)) (sorted_ids conns)). split; [by rewrite rotate_perm, ids_perm|].
  pose proof (picks_rotate mk conns repo Hne (size conns) 0 p (rr p)) as H. rewrite drop_0 in H.
  rewrite take_ge in H by (rewrite length_rotate; lia). apply H; lia.
Qed.
