(* ===== verification/ToyChunks.v ===== *)
(** * A concrete chunk library, cache and peer

    Two hashes, chunks stored with a one-byte header, a cache that evicts
    nothing.  The laws of the interfaces hold of them, and the theorems on
    chunk stores apply to a store that has one chunk and lacks the other. *)

From Stdlib Require Import ZArith Lia String Ascii.
From stdpp Require Import gmap strings list sorting pretty.
From S2P Require Import Prelude Metadata Linearize Dolt Reconciler Db Chunks ChunkFacts ChunkServer Swarm.

Local Open Scope Z_scope.

(** ** The cache *)

#[export] Instance map_lru `{Countable K} V : LRU K V (gmap K V) := {
  lru_New n := if n <=? 0 then Err "invalid size" else Ok ∅;
  lru_Add k v c := <[k := v]> c;
  lru_Get k c := (c !! k, c);
  lru_Contains k c := bool_decide (is_Some (c !! k));
}.

#[export] Program Instance map_lru_laws `{Countable K} V : LRULaws K V (gmap K V) := {
  lru_mem c k v := c !! k = Some v;
}.
Next Obligation.
  intros K ? ? V n Hn. exists ∅. unfold lru_New; cbn. destruct (Z.leb_spec n 0); [lia|]. split; [done|].
  intros k v. by rewrite lookup_empty.
Qed.
Next Obligation.
  intros K ? ? V k v c k' v' Hk. cbn in Hk. apply lookup_insert_Some in Hk as [[-> ->]|[? ?]]; [by left|by right].
Qed.
Next Obligation. done. Qed.
Next Obligation. done. Qed.
Next Obligation. intros K ? ? V k c Hc. by apply bool_decide_eq_true in Hc. Qed.

(** ** Chunks *)

Definition toy_name (h : bool) : string := if h then "t" else "f".
Definition toy_bytes (h : bool) : string :=
  if h then "tttttttttttttttttttt" else "ffffffffffffffffffff".
Definition toy_read (s : string) : option bool :=
  match s with String "t" _ => Some true | String "f" _ => Some false | _ => None end.

Fixpoint toy_index (i : Z) (l : list string) : gset bool * gmap bool Z :=
  match l with
  | [] => (∅, ∅)
  | s :: l =>
      let '(hs, ix) := toy_index (i + 1) l in
      match toy_read s with Some h => ({[h]} ∪ hs, <[h := i]> ix) | None => (hs, ix) end
  end.

#[export] Instance toy_chunks : ChunkLib := {
  Hash := bool;
  hash_String := toy_name;
  hash_Parse s := match toy_read s with Some h => Ok h | None => Panic "invalid hash" end;
  hash_New s := if Nat.eqb (String.length s) 20 then
                  match toy_read s with Some h => Ok h | None => Panic "invalid hash" end
                else Panic "invalid hash";
  hash_bytes := toy_bytes;
  Chunk := bool * string;
  EmptyChunk := (false, "");
  chunk_Hash c := c.1;
  chunk_Data c := c.2;
  CChunk := bool * string;
  cc_Hash c := c.1;
  cc_IsEmpty c := String.eqb c.2 "";
  cc_ToChunk c := Ok c;
  NewCompressedChunk h b := match b with String "z" d => Ok (h, d) | _ => Err "checksum error" end;
  ChunkToCompressedChunk c := c;
  FullCompressedChunk c := String "z" c.2;
  HashSetToSlices hs := (elements hs, map toy_bytes (elements hs));
  ParseByteSlices := toy_index 0;
}.

Lemma toy_read_bytes h : toy_read (toy_bytes h) = Some h.
Proof. by destruct h. Qed.

Lemma toy_index_set i (hs : list bool) : (toy_index i (map toy_bytes hs)).1 = list_to_set hs.
Proof.
  revert i. induction hs as [|h hs IH]; intros i; [done|]. cbn [map toy_index]. specialize (IH (i + 1)).
  destruct (toy_index (i + 1) (map toy_bytes hs)) as [s ix]. rewrite toy_read_bytes. cbn in *. by rewrite IH.
Qed.

Lemma toy_index_lookup (hs : list bool) h : ∀ i, h ∈ hs → ∃ k : nat,
  (toy_index i (map toy_bytes hs)).2 !! h = Some (i + Z.of_nat k) ∧ hs !! k = Some h.
Proof.
  induction hs as [|x hs IH]; intros i Hin; [by apply not_elem_of_nil in Hin|]. cbn [map toy_index].
  specialize (IH (i + 1)). destruct (toy_index (i + 1) (map toy_bytes hs)) as [s ix]. rewrite toy_read_bytes.
  cbn [snd] in *. destruct (decide (x = h)) as [->|Hne].
  - exists 0%nat. rewrite lookup_insert_eq. split; [f_equal; lia|done].
  - destruct IH as (k & Hk & Hx); [set_solver|]. exists (S k). rewrite lookup_insert_ne by done.
    rewrite Hk. split; [f_equal; lia|done].
Qed.

#[export] Program Instance toy_chunks_laws : ChunkLaws toy_chunks.
Next Obligation. by intros []. Qed.
Next Obligation. by intros []. Qed.
Next Obligation. by intros []. Qed.
Next Obligation. by intros []. Qed.
Next Obligation.
  intros h [|a b] c; cbn; [done|]. repeat case_match; try done. by intros [= <-].
Qed.
Next Obligation. intros h [|a b] e; cbn; repeat case_match; done. Qed.
Next Obligation. done. Qed.
Next Obligation. intros h ch. by exists (h, ch.2), (h, ch.2). Qed.
Next Obligation. done. Qed.
Next Obligation. done. Qed.
Next Obligation. done. Qed.
Next Obligation. intros hs. apply toy_index_set. Qed.
Next Obligation. intros hs h Hh. destruct (toy_index_lookup hs h 0 Hh) as (k & Hk & ?). by exists k. Qed.

(** ** A peer that has the chunk [true] and lacks [false] *)

Definition toy_present (h : bool) : bool := h.

Definition toy_store : RemoteSrvStore :=
  mkStore (Ok tt) (λ hs, Ok (filter (λ h, h = false) hs))
    (λ h, Ok (if (h : bool) then (true, "data") else EmptyChunk)) (Ok true) (Ok 4) "__DOLT__" (Ok (true, [], [])).

#[export] Instance toy_store_laws : StoreLaws toy_store toy_present.
Proof.
  split.
  - intros hs absent [= <-] h. rewrite elem_of_filter. unfold toy_present. tauto.
  - intros [] ch Hp [= <-]; [done|discriminate].
  - intros [] ch Hp [= <-]; [discriminate|done].
  - done.
Qed.

#[export] Instance toy_lru_chunks : LRU Hash CChunk (gmap bool (bool * string)) := map_lru (K:=bool) _.
#[export] Instance toy_lru_has : LRU Hash unit (gmap bool unit) := map_lru (K:=bool) _.
#[export] Instance toy_lru_chunks_laws : LRULaws Hash CChunk (gmap bool (bool * string)) :=
  map_lru_laws (K:=bool) _.
#[export] Instance toy_lru_has_laws : LRULaws Hash unit (gmap bool unit) := map_lru_laws (K:=bool) _.

Definition toy_cache : mapChunkCache (gmap bool (bool * string)) (gmap bool unit) := mkCache ∅ ∅.

Definition no_file (id : string) : result (string * Z) := Err "no such file".
Definition toy_remote : RemoteChunkStore :=
  mkRCS (mkRepo "" "repo") "repo" (chunkStoreClient (lossless toy_store))
    (downloaderClient no_file (lossless toy_store)) "__DOLT__" 4 true.

Lemma toy_cache_ok (content : bool → bool * string → Prop) : cache_ok (CL:=toy_chunks) content toy_cache.
Proof. intros h c Hc. cbn in Hc. by rewrite lookup_empty in Hc. Qed.

Lemma toy_has_sound (present : bool → bool) : has_sound (CL:=toy_chunks) present toy_cache.
Proof. intros h Hc. cbn in Hc. by rewrite lookup_empty in Hc. Qed.

Definition both : gset bool := {[true; false]}.

Lemma HasMany_exact_witness :
  (HasMany toy_remote both toy_cache).1 = Ok {[false]} ∧
  let '(res, m') := HasMany toy_remote both toy_cache in
  chunks m' = chunks toy_cache ∧ has_sound toy_present m' ∧
  match res with
  | Ok absent => ∀ h, h ∈ absent ↔ h ∈ both ∧ toy_present h = false
  | Err e => m' = toy_cache ∧ refused toy_remote e
  | Panic _ => False
  end.
Proof.
  split; [vm_compute; reflexivity|].
  pose proof (HasMany_exact toy_remote toy_present both toy_cache) as H.
  apply H. apply toy_has_sound.
Defined.

Lemma GetMany_delivers_witness :
  let found c := λ s, (Ok tt, (s.1, s.2 ++ [c])) in
  (GetMany toy_remote {[true]} found (toy_cache, [])).2.2 = [(true, "data")] ∧
  let '(res, (m', seen)) := GetMany toy_remote {[true]} found (toy_cache, []) in
  cache_ok (stored toy_store) m' ∧ has m' = has toy_cache ∧
  (∀ c, c ∈ seen → ∃ h, h ∈ ({[true]} : gset Hash) ∧ stored toy_store h c) ∧
  match res with
  | Ok _ => ∀ h, h ∈ ({[true]} : gset Hash) → toy_present h = true → ∃ c, c ∈ seen ∧ stored toy_store h c
  | Err _ => True
  | Panic _ => False
  end.
Proof.
  split; [vm_compute; reflexivity|].
  pose proof (GetMany_delivers (stored toy_store) toy_present toy_remote {[true]} toy_cache) as H.
  apply H. apply toy_cache_ok.
Defined.

Lemma toy_remote_opens :
  NewRemoteChunkStore "5" (Some (peer_provider "peer" no_file toy_store)) (mkRepo "" "repo") "__DOLT__"
    = Ok toy_remote.
Proof. reflexivity. Qed.

Lemma peer_read_end_to_end_witness :
  NewRemoteChunkStore "5" (Some (peer_provider "peer" no_file toy_store)) (mkRepo "" "repo") "__DOLT__"
    = Ok toy_remote ∧
  st_Root toy_store = Ok (rcs_root toy_remote) ∧
  (∀ h, match (Get toy_remote h toy_cache).1 with
        | Ok c => if toy_present h then stored toy_store h c else chunk_Data c = chunk_Data EmptyChunk
        | Err _ => True
        | Panic _ => False
        end) ∧
  (∀ hashes, match (HasMany toy_remote hashes toy_cache).1 with
             | Ok absent => ∀ h, h ∈ absent ↔ h ∈ hashes ∧ toy_present h = false
             | Err _ => True
             | Panic _ => False
             end).
Proof.
  split; [exact toy_remote_opens|].
  pose proof (peer_read_end_to_end toy_store toy_present "peer" "5" "__DOLT__" no_file (mkRepo "" "repo")
    toy_remote toy_cache) as H.
  apply H; [exact toy_remote_opens|apply toy_cache_ok|apply toy_has_sound].
Defined.

Lemma malformed_hash_panics_witness :
  hash_Parse "?" = Panic "invalid hash" ∧
  (∀ (send : string → string → M unit unit) s rest st, st_Rebase s = Ok tt →
     DownloadChunks send s ("?" :: rest) st = (Panic "invalid hash", st)) ∧
  (∀ toSend (found : CChunk → M (mapChunkCache (gmap bool (bool * string)) (gmap bool unit) * unit) unit) b m,
     b ≠ "" → on_chunk toSend found "?" b m = (Panic "invalid hash", m)).
Proof.
  split; [reflexivity|]. apply (malformed_hash_panics "?" "invalid hash"). reflexivity.
Defined.

(** ** Two providers, one cache *)

Definition empty_store : RemoteSrvStore :=
  mkStore (Ok tt) (λ hs, Ok hs) (λ h, Ok EmptyChunk) (Ok true) (Ok 0) "__DOLT__" (Ok (true, [], [])).
Definition empty_remote : RemoteChunkStore :=
  mkRCS (mkRepo "" "repo") "repo" (chunkStoreClient (lossless empty_store))
    (downloaderClient no_file (lossless empty_store)) "__DOLT__" 0 true.

(** The presence cache is shared by the whole process, and not kept per
    provider: the second provider has no chunk at all and says so, but after a
    query to the first one its store reports the chunk as present. *)
Theorem has_cache_is_shared :
  (HasMany empty_remote {[true]} toy_cache).1 = Ok {[true]} ∧
  (HasMany empty_remote {[true]} (HasMany toy_remote {[true]} toy_cache).2).1 = Ok ∅.
Proof. split; vm_compute; reflexivity. Qed.

(** ** Remotes and providers *)

Definition toy_provider (id : string) (cc : unit) : Provider := peer_provider id no_file toy_store.

Lemma swarm_remote_resolves_witness :
  let repo := mkRepo "org" "repo" in
  let pick (p : string) (r : RepoID) : M nat Provider := λ n, (Ok (toy_provider p tt), S n) in
  let ops := [Register repo (Some "old"); Register repo (Some "new"); Unregister (mkRepo "" "repo")] in
  reg_last repo ops = Some "new" ∧
  ∃ u, parse_swarm_url (swarm_url repo) = Some u ∧
    CreateDB pick "5" (foldl reg_apply ∅ ops) u "__DOLT__" 0%nat =
    match reg_last repo ops with
    | None => (Err ("no swarm ProviderPicker registered for repo " +:+ RepoName repo), 0%nat)
    | Some picker =>
        match pick picker repo 0%nat with
        | (Ok p, s') => (NewRemoteChunkStore "5" (Some p) repo "__DOLT__", s')
        | (Err e, s') => (Err ("pick provider: " +:+ e), s')
        | (Panic e, s') => (Panic e, s')
        end
    end.
Proof.
  intros repo pick ops. split; [vm_compute; reflexivity|].
  pose proof (swarm_remote_resolves pick "5" "__DOLT__" ops repo 0%nat) as H.
  apply H; [vm_compute; reflexivity|vm_compute; reflexivity|discriminate].
Defined.

Definition toy_conns : gmap string unit := {["b" := tt; "a" := tt; "c" := tt]}.

Definition picked_ids (l : list (result Provider)) : list (option string) :=
  map (λ r, match r with Ok p => Some (ID p) | _ => None end) l.

Lemma PickProvider_fair_witness :
  picked_ids (picks toy_provider toy_conns (mkRepo "" "repo") 3 (mkProviders 4 None None))
    = [Some "b"; Some "c"; Some "a"] ∧
  ∃ ids, ids ≡ₚ elements (dom toy_conns) ∧
    Forall2 (λ r id, ∃ cc, toy_conns !! id = Some cc ∧ r = Ok (toy_provider id cc))
      (picks toy_provider toy_conns (mkRepo "" "repo") (size toy_conns) (mkProviders 4 None None)) ids.
Proof.
  split; [vm_compute; reflexivity|].
  pose proof (PickProvider_fair toy_provider toy_conns (mkRepo "" "repo") (mkProviders 4 None None)) as H.
  apply H; [discriminate|done|vm_compute; discriminate].
Defined.
