(* ===== verification/TableFiles.v ===== *)
(** * Table files of a peer ([core/remote_table_file.go])

    A table file of the swarm remote: its attributes come from the listing of
    the peer, and its content is downloaded under the last component of the
    listed URL.  Together with the server of the peer, a remote table file is
    the file of the peer's store. *)

From Stdlib Require Import ZArith Lia String Ascii.
From stdpp Require Import gmap strings list sorting pretty.
From S2P Require Import Prelude Metadata Chunks ChunkFacts ChunkServer FileTransfer Swarm ToyChunks.

Local Open Scope Z_scope.

(** [path.Base] *)
Definition path_Base (s : string) : string :=
  if String.eqb s "" then "." else
  let t := trim_right "/" s in
  if String.eqb t "" then "/" else List.last (split_slash t) "".

(** [url.Parse], and [nbs.ArchiveFileSuffix]. *)
Class UrlParser := {
  url_Parse : string → result URL;
  ArchiveFileSuffix : string;
}.

(** A reference of unreserved characters only is a path; the suffix is an
    extension. *)
Class UrlLaws `(UrlParser) := {
  Parse_relative : ∀ s, plain_name s → url_Parse s = Ok (mkURL "" s);
  suffix_dot : ∃ ext, ArchiveFileSuffix = String "." ext;
  suffix_plain : plain_name ArchiveFileSuffix;
}.

Section table_files.
Context `{U : UrlParser}.

Definition rtf_LocationPrefix (rtf : RemoteTableFile) : string := "".

Definition rtf_LocationSuffix (rtf : RemoteTableFile) : string :=
  match url_Parse (ti_URL (rtf_info rtf)) with
  | Ok u => if has_suffix (Path u) ArchiveFileSuffix then ArchiveFileSuffix else ""
  | _ => ""
  end.

Definition rtf_FileID (rtf : RemoteTableFile) : string := ti_FileID (rtf_info rtf).
(** An [int] holds every [uint32]. *)
Definition rtf_NumChunks (rtf : RemoteTableFile) : Z := ti_NumChunks (rtf_info rtf).
Definition rtf_SplitOffset (rtf : RemoteTableFile) : Z := ti_SplitOffset (rtf_info rtf).

(** The name under which [Open] downloads the file. *)
Definition download_id (rtf : RemoteTableFile) : string :=
  match url_Parse (ti_URL (rtf_info rtf)) with
  | Ok u =>
      let base := path_Base (Path u) in
      if negb (String.eqb base "") && negb (String.eqb base ".") && negb (String.eqb base "/")
      then base else ti_FileID (rtf_info rtf)
  | _ => ti_FileID (rtf_info rtf)
  end.

Definition rtf_Open (rtf : RemoteTableFile) : result (string * Z) :=
  match dl_DownloadFile (rtf_downloader rtf) (download_id rtf) with
  | Ok (r, size) => Ok (r, size)
  | Err e => Err ("download file: " +:+ e)
  | Panic e => Panic e
  end.
End table_files.

(** What a reader that reads a download to its end gets. *)
Definition peer_file {F} `{FileSystem F} (fuel : nat) (filePath id : string) : result (string * Z) :=
  res_bind (client_DownloadFile (file_stream (F:=F) fuel filePath id))
    (λ '(data, fin, size), res_bind fin (λ _, Ok (data, size))).

(** ** Names *)

Lemma str_all_append p s t : str_all p (s +:+ t) = str_all p s && str_all p t.
Proof. induction s as [|c s IH]; [done|]. rewrite append_cons. cbn. by rewrite IH, andb_assoc. Qed.

Lemma plain_slash_free s : plain_name s → str_free "/" s.
Proof.
  unfold plain_name. induction s as [|c s IH]; [done|]. cbn. intros [Hc Hs]%andb_prop.
  split; [|auto]. by intros <-.
Qed.

Lemma path_Base_plain s : plain_name s → s ≠ "" → path_Base s = s.
Proof.
  intros Hp%plain_slash_free Hs. unfold path_Base.
  by rewrite trim_right_id, (proj2 (String.eqb_neq _ _) Hs), split_slash_free.
Qed.

(** The local table files that a store lists: a plain identifier without an
    extension, and the suffix of an archive or none. *)
Record plain_table `{UrlParser} (t : TableFile) : Prop := {
  pt_prefix : tf_LocationPrefix t = "";
  pt_name : plain_name (tf_FileID t) ∧ tf_FileID t ≠ "" ∧ str_free "." (tf_FileID t);
  pt_suffix : tf_LocationSuffix t = "" ∨ tf_LocationSuffix t = ArchiveFileSuffix;
  pt_chunks : 0 ≤ tf_NumChunks t < 2 ^ 32;
}.

(** The remote table file [rt] stands for [t] of the peer whose database is at
    [filePath]. *)
Definition mirrors {F} `{FileSystem F, !FileLaws F} `{UrlParser} (fuel : nat) (filePath : string)
    (t : TableFile) (rt : RemoteTableFile) : Prop :=
  rtf_FileID rt = tf_FileID t ∧
  rtf_LocationPrefix rt = tf_LocationPrefix t ∧ rtf_LocationSuffix rt = tf_LocationSuffix t ∧
  rtf_NumChunks rt = tf_NumChunks t ∧ rtf_SplitOffset rt = tf_SplitOffset t ∧
  ∀ f : F,
    let path := filepath_Join [filePath; ".dolt"; "noms"] +:+ "/" +:+ (tf_FileID t +:+ tf_LocationSuffix t) in
    fs_Open path = Ok f → fs_Stat (F:=F) path = Ok (Z.of_nat (String.length (rest f))) →
    Z.of_nat (String.length (rest f)) < 2 ^ 64 → (String.length (rest f) < fuel)%nat →
    rtf_Open rt = Ok (rest f, Z.of_nat (String.length (rest f))).

Section faithful.
Context {F : Type} `{FS : FileSystem F, !FileLaws F} `{U : UrlParser, !UrlLaws U}.

Lemma plain_url t : plain_table t → plain_name (tf_FileID t +:+ tf_LocationSuffix t).
Proof.
  intros [_ (Hn & _) Hs _]. unfold plain_name in *. rewrite str_all_append, Hn. cbn.
  destruct Hs as [-> | ->]; [done|apply suffix_plain].
Qed.

Lemma url_suffix t :
  plain_table t →
  (if has_suffix (tf_FileID t +:+ tf_LocationSuffix t) ArchiveFileSuffix then ArchiveFileSuffix else "")
    = tf_LocationSuffix t.
Proof.
  intros [_ (_ & _ & Hd) Hs _]. destruct Hs as [-> | ->].
  - rewrite append_nil_r. destruct suffix_dot as [ext ->]. by rewrite has_suffix_free.
  - by rewrite has_suffix_append.
Qed.

Lemma url_nonempty t :
  plain_table t →
  tf_FileID t +:+ tf_LocationSuffix t ≠ "" ∧ tf_FileID t +:+ tf_LocationSuffix t ≠ "." ∧
  tf_FileID t +:+ tf_LocationSuffix t ≠ "/" ∧ tf_FileID t +:+ tf_LocationSuffix t ≠ "..".
Proof.
  intros Ht. pose proof (plain_url t Ht) as Hp%plain_slash_free. destruct Ht as [_ (_ & Hne & Hd) _ _].
  destruct (tf_FileID t) as [|c s]; [done|]. destruct Hd as [Hc _]. rewrite append_cons in *.
  destruct Hp as [Hc' _]. split_and!; congruence.
Qed.

Lemma mirrors_listed fuel filePath (t : TableFile) dl cl :
  filePath ≠ "" → plain_table t → (∀ id, dl_DownloadFile dl id = peer_file (F:=F) fuel filePath id) →
  mirrors (F:=F) fuel filePath t
    (mkTableFile dl cl (mkTableFileInfo (tf_FileID t) (wrapu32 (tf_NumChunks t))
       (tf_LocationPrefix t +:+ tf_FileID t +:+ tf_LocationSuffix t) (tf_SplitOffset t) None)).
Proof.
  intros Hf Ht Hdl. pose proof (plain_url t Ht) as Hu. pose proof (url_suffix t Ht) as Hsuf.
  pose proof (url_nonempty t Ht) as (H0 & H1 & H2 & H3). pose proof (pt_prefix t Ht) as Hpre.
  unfold mirrors, rtf_FileID, rtf_LocationPrefix, rtf_LocationSuffix, rtf_NumChunks, rtf_SplitOffset.
  cbn [rtf_info ti_FileID ti_URL ti_NumChunks ti_SplitOffset]. rewrite Hpre, append_nil_l, Parse_relative by done.
  cbn [Path]. split_and!; [done|done|done|by apply Z.mod_small, pt_chunks|done|].
  intros f Hopen Hstat Hsize Hfuel. unfold rtf_Open, download_id.
  cbn [rtf_info rtf_downloader ti_URL ti_FileID]. rewrite Parse_relative by done. cbn [Path].
  rewrite path_Base_plain, (proj2 (String.eqb_neq _ _) H0), (proj2 (String.eqb_neq _ _) H1),
    (proj2 (String.eqb_neq _ _) H2) by done. cbn [negb andb].
  assert (store_path filePath (tf_FileID t +:+ tf_LocationSuffix t)
    = filepath_Join [filePath; ".dolt"; "noms"] +:+ "/" +:+ (tf_FileID t +:+ tf_LocationSuffix t)) as Hpath
    by (apply store_path_plain; [done|done|by apply plain_slash_free]).
  rewrite Hdl. unfold peer_file. rewrite (client_download_spec (F:=F) fuel filePath _ f) by (done || by rewrite Hpath).
  done.
Qed.
End faithful.

(** C25. The table files of a swarm remote are those of the peer: through a
    chunk store opened on the peer's server, [Sources] lists every table file
    of the peer's store, in order, with the same identifier, suffix, number of
    chunks and split offset, and opening one yields the bytes of the file in
    the peer's store and their number. *)
Theorem remote_table_files_faithful `{CL : ChunkLib, !ChunkLaws CL} `{R : GoRuntime}
    {F : Type} `{FS : FileSystem F, !FileLaws F} `{U : UrlParser, !UrlLaws U}
    (s : RemoteSrvStore) (id sv nbf filePath : string) (fuel : nat) (repo : RepoID) (r : RemoteChunkStore)
    (root : Hash) (tables appendix : list TableFile)
  (Hopen : NewRemoteChunkStore sv (Some (peer_provider id (peer_file (F:=F) fuel filePath) s)) repo nbf = Ok r)
  (Hrebase : st_Rebase s = Ok tt) (Hsrc : st_Sources s = Ok (root, tables, appendix))
  (Hpath : filePath ≠ "") (Hplain : Forall plain_table (tables ++ appendix)) :
  ∃ ts aps, Sources r = Ok (root, ts, aps) ∧
    Forall2 (mirrors (F:=F) fuel filePath) tables ts ∧
    Forall2 (mirrors (F:=F) fuel filePath) appendix aps.
Proof.
  apply NewRemoteChunkStore_inv in Hopen as (Hcl & Hdl & _).
  apply Forall_app in Hplain as [Ht Ha].
  exists (getTableFiles (rcs_downloader r) (rcs_chunkClient r) (buildTableFileInfo tables)),
    (getTableFiles (rcs_downloader r) (rcs_chunkClient r) (buildTableFileInfo appendix)).
  assert (∀ l, Forall plain_table l → Forall2 (mirrors (F:=F) fuel filePath) l
            (getTableFiles (rcs_downloader r) (rcs_chunkClient r) (buildTableFileInfo l))) as Hm.
  { induction 1 as [|t l Hp _ IH]; constructor; [|exact IH]. apply mirrors_listed; [done|done|].
    intros x. by rewrite Hdl. }
  split; [|split; by apply Hm]. unfold Sources. rewrite Hcl. cbn. unfold ListTableFiles, validateRepoRequest.
  cbn. rewrite andb_false_r. cbn. rewrite Hrebase. cbn. rewrite Hsrc. cbn. by rewrite New_bytes.
Qed.

(** ** A peer with two table files *)

#[export] Instance toy_url : UrlParser := {
  url_Parse s := if str_all unreserved s then Ok (mkURL "" s) else Err "invalid URL";
  ArchiveFileSuffix := ".darc";
}.

#[export] Program Instance toy_url_laws : UrlLaws toy_url.
Next Obligation. unfold plain_name. intros s Hs. cbn. by rewrite Hs. Qed.
Next Obligation. by eexists. Qed.
Next Obligation. vm_compute. reflexivity. Qed.

#[export] Instance table_fs : FileSystem string := {
  fs_Stat p := if String.eqb p "/data/db/.dolt/noms/abc" then Ok 5
               else if String.eqb p "/data/db/.dolt/noms/xyz.darc" then Ok 7 else Err "no such file";
  fs_Open p := if String.eqb p "/data/db/.dolt/noms/abc" then Ok "table"
               else if String.eqb p "/data/db/.dolt/noms/xyz.darc" then Ok "archive" else Err "no such file";
  fs_Read n f := fs_Read (FileSystem:=mem_fs) n f;
}.

#[export] Instance table_fs_laws : @FileLaws string table_fs.
Proof. exact (@Build_FileLaws string table_fs (λ f, f) (@Read_eof string mem_fs mem_fs_laws) (@Read_data string mem_fs mem_fs_laws)). Defined.

Definition two_tables : list TableFile := [mkTF "abc" "" "" 3 0; mkTF "xyz" "" ".darc" 9 4].

Definition table_store : RemoteSrvStore :=
  mkStore (st_Rebase toy_store) (st_HasMany toy_store) (st_Get toy_store) (st_Root toy_store)
    (st_Size toy_store) (st_Version toy_store) (Ok (true, two_tables, [])).

Definition table_provider : Provider :=
  peer_provider "peer" (peer_file (H:=table_fs) 10 "/data/db") table_store.

Definition table_remote : RemoteChunkStore :=
  mkRCS (mkRepo "" "repo") "repo" (ChunkStore table_provider) (Downloader table_provider) "__DOLT__" 4 true.

Lemma remote_table_files_faithful_witness :
  match Sources table_remote with
  | Ok (_, ts, _) => map rtf_Open ts = [Ok ("table", 5); Ok ("archive", 7)]
  | _ => False
  end ∧
  ∃ ts aps, Sources table_remote = Ok (true, ts, aps) ∧
    Forall2 (mirrors (H:=table_fs) 10 "/data/db") two_tables ts ∧
    Forall2 (mirrors (H:=table_fs) 10 "/data/db") [] aps.
Proof.
  split; [vm_compute; reflexivity|].
  pose proof (remote_table_files_faithful (FS:=table_fs) table_store "peer" "v" "__DOLT__" "/data/db" 10
    (mkRepo "" "repo") table_remote true two_tables []) as H.
  apply H; [reflexivity|reflexivity|reflexivity|discriminate|].
  constructor; [|constructor; [|constructor]]; split; cbn; try lia; auto; repeat split; done.
Defined.
