(* ===== verification/Lifecycle.v ===== *)
(** * Opening and closing ([core/db.go], [core/utils.go], [OpenNode] and
    [Close] of [core/node.go])

    The process holds SQL handles ([sql.DB]) by number, each with the
    connection string it was opened with, the connections taken out of their
    pools, and the registry of swarm providers.  A handle that was closed
    answers with an error, a nil handle panics.  The driver, the file system and
    the environments of the engine are a parameter. *)

From Stdlib Require Import ZArith Lia String Ascii.
From stdpp Require Import gmap strings list sorting pretty.
From S2P Require Import Prelude Hlc Metadata Sql Index Linearize Dolt ToyDolt Reconciler Db Node NodeFacts Swarm.

Local Open Scope Z_scope.

(** ** [fmt.Sprintf]

    With the verb [%s] and string operands.  What is left of a format at
    another verb, and at the end of the operands, is handed to [fmt_other]. *)

Section sprintf.
Context (fmt_other : string → list string → string).

Fixpoint Sprintf (fmt : string) (args : list string) : string :=
  match fmt with
  | EmptyString =>
      match args with
      | [] => ""
      | _ => fmt_other fmt args
      end
  | String c r =>
      if Ascii.eqb c "%" then
        match r with
        | String v r' =>
            if Ascii.eqb v "s" then
              match args with
              | a :: args => a +:+ Sprintf r' args
              | [] => "%!s(MISSING)" +:+ Sprintf r' []
              end
            else if Ascii.eqb v "%" then String "%" (Sprintf r' args)
            else fmt_other fmt args
        | EmptyString => fmt_other fmt args
        end
      else String c (Sprintf r args)
  end.
End sprintf.

(** ** The engine, the driver and the operating system *)

Class Driver (W : Type) := {
  CS : Type;                                        (* chunks.ChunkStore *)
  fmt_other : string → list string → string;
  fs_Abs : string → result string;
  os_Mkdir : string → M W unit;
  IsExist : string → bool;                          (* os.IsExist of the error *)
  os_IsDir : string → M W bool;                     (* os.Stat, then IsDir *)
  drv_Open : string → result unit;                  (* sql.Open of the connection string *)
  drv_Ping : string → M W unit;
  drv_Close : string → M W unit;
  drv_Raw : string → W → result (option (string → option CS));
                                                    (* GetMultiRepoEnv, and GetEnv of it *)
}.

Record Proc (W P : Type) := mkProc {
  pr_world : W;
  pr_handles : gmap nat string;
  pr_next : nat;
  pr_conns : gmap nat nat;                          (* connections taken out of each pool *)
  pr_registry : gmap RepoID P;
}.
Arguments mkProc {W P}.
Arguments pr_world {W P}.
Arguments pr_handles {W P}.
Arguments pr_next {W P}.
Arguments pr_conns {W P}.
Arguments pr_registry {W P}.

#[export] Instance Proc_world W P : HasWorld (Proc W P) W := {
  get_world := pr_world;
  set_world w p := mkProc w (pr_handles p) (pr_next p) (pr_conns p) (pr_registry p);
  get_set_world _ _ := eq_refl;
}.

(** The engine as its own state. *)
Definition self_world W : HasWorld W W := {|
  get_world w := w;
  set_world w _ := w;
  get_set_world _ _ := eq_refl;
|}.

(** A [DB] in memory: [sqldb] may be nil. *)
Record DBHandle := mkDBHandle {
  h_name : string;
  h_workingDir : string;
  h_initialized : bool;
  h_sqldb : option nat;
}.

Definition sql_closed : string := "sql: database is closed".

Section lifecycle.
Context {W P : Type} `{D : Dolt W} `{DR : Driver W}.
Local Abbreviation proc := (Proc W P).

(** *** [database/sql] *)

Definition sql_Open (dsn : string) : M proc nat := λ p,
  match drv_Open dsn with
  | Ok _ => (Ok (pr_next p), mkProc (pr_world p) (<[pr_next p := dsn]> (pr_handles p)) (S (pr_next p))
                               (pr_conns p) (pr_registry p))
  | Err e => (Err e, p)
  | Panic e => (Panic e, p)
  end.

(** An operation on an open handle. *)
Definition on_handle {A} (h : option nat) (m : string → M W A) : M proc A := λ p,
  match h with
  | None => (Panic "invalid memory address or nil pointer dereference", p)
  | Some i =>
      match pr_handles p !! i with
      | Some dsn => lift (m dsn) p
      | None => (Err sql_closed, p)
      end
  end.

Definition sql_Ping (h : nat) : M proc unit := on_handle (Some h) drv_Ping.
Definition sql_Exec (h : option nat) (s : stmt) : M proc unit := on_handle h (λ _, exec pool s).
Definition sql_Query {A} (h : option nat) (q : qry A) : M proc (list A) := on_handle h (λ _, query pool q).

(** [Close] ends the handle, whatever the driver answers; closing a closed
    handle does nothing. *)
Definition sql_Close (h : option nat) : M proc unit := λ p,
  match h with
  | None => (Panic "invalid memory address or nil pointer dereference", p)
  | Some i =>
      match pr_handles p !! i with
      | Some dsn =>
          lift (drv_Close dsn)
            (mkProc (pr_world p) (delete i (pr_handles p)) (pr_next p) (pr_conns p) (pr_registry p))
      | None => (Ok tt, p)
      end
  end.

(** [sqldb.Conn(ctx)]: the connection is taken out of the pool. *)
Definition sql_Conn (h : option nat) : M proc unit := λ p,
  match h with
  | None => (Panic "invalid memory address or nil pointer dereference", p)
  | Some i =>
      match pr_handles p !! i with
      | Some _ => (Ok tt, mkProc (pr_world p) (pr_handles p) (pr_next p)
                             (<[i := S (default 0%nat (pr_conns p !! i))]> (pr_conns p)) (pr_registry p))
      | None => (Err sql_closed, p)
      end
  end.

(** *** Helpers *)

Definition ensureDir (dirName : string) : M proc unit :=
  let* r := attempt (lift (os_Mkdir dirName)) in
  match r with
  | Ok _ => ret tt
  | Err e =>
      if IsExist e then
        let* isDir := lift (os_IsDir dirName) in
        if negb isDir then fail "path exists but is not a directory" else ret tt
      else fail e
  | Panic e => panic e
  end.

Definition conn_string (workingDir signerID : string) : string :=
  "file://" +:+ workingDir +:+ "?commitname=" +:+ signerID +:+ "&commitemail=" +:+ signerID
    +:+ "@doltswarm&multistatements=true".

(** With a name, the connection string is used as a format. *)
Definition db_conn_string (workingDir signerID dbName : string) : string :=
  let dbConnString := conn_string workingDir signerID in
  if negb (String.eqb dbName "") then Sprintf fmt_other (dbConnString +:+ "&database=%s") [dbName]
  else dbConnString.

(** A failing ping is reported with the error of [sql.Open], which is nil. *)
Definition openDB (workingDir signerID dbName : string) : M proc nat :=
  if String.eqb workingDir "" || String.eqb signerID "" then fail "workingDir and signerID cannot be empty" else
  let* sqldb := wrap_err "failed to open db: " (sql_Open (db_conn_string workingDir signerID dbName)) in
  let* r := attempt (sql_Ping sqldb) in
  match r with
  | Ok _ => ret sqldb
  | Err _ => fail "failed to ping db: %!w(<nil>)"
  | Panic e => panic e
  end.

(** [DatabaseExists] of a handle that is not nil. *)
Definition exists_on (h : nat) (name : string) : M proc bool :=
  let* rows := sql_Query (Some h) (QShowDatabases name) in
  match rows with
  | [] => fail "sql: no rows in result set"
  | Some dbName :: _ => ret (negb (String.eqb "" dbName))
  | None :: _ => fail "converting NULL to string is unsupported"
  end.

Definition first_commit_on (h : option nat) : M proc Commit :=
  let* commits := wrap_err "failed to retrieve last commit hash: " (sql_Query h (QLogOldest "main")) in
  match commits with
  | [] => fail "no commits found"
  | c :: _ => ret c
  end.

(** *** [Open] *)

(** The second half: the handle is re-opened on the database that was found. *)
Definition reopen (wd signerID name : string) (h : nat) : M proc nat :=
  wrap_err "failed to close db connection after init local: " (sql_Close (Some h)) ;;*
  let* h' := wrap_err "failed to re-open db: " (openDB wd signerID name) in
  wrap_err "failed to use db: " (sql_Exec (Some h') (UseDatabase name)) ;;*
  let* r := attempt (sql_Exec (Some h') (DoltRemoteRemove "origin")) in
  match r with
  | Err e => if contains e "unknown remote" then ret h'
             else fail ("failed to remove origin remote during init: " +:+ e)
  | Panic e => panic e
  | Ok _ => ret h'
  end.

Definition Open (dir name : string) (logger : bool) (signer : option Signer) : M proc DBHandle :=
  if negb logger then fail "logger is nil" else
  match signer with
  | None => fail "signer is nil"
  | Some signer =>
      let* wd := match fs_Abs dir with
                 | Ok wd => ret wd
                 | Err e => fail ("failed to get absolute path for : " +:+ e)
                 | Panic e => panic e
                 end in
      wrap_err "failed to open db: " (ensureDir wd) ;;*
      let* h := wrap_err "failed to open db: " (openDB wd (GetID signer) "") in
      let* found := attempt (exists_on h name) in
      match found with
      | Ok true =>
          let* h' := reopen wd (GetID signer) name h in
          ret (mkDBHandle name wd true (Some h'))
      | Panic e => panic e
      | _ => ret (mkDBHandle name wd false (Some h))
      end
  end.

(** *** The other operations, on a [DB] *)

Definition on_proc {A} (m : M proc A) : M (proc * DBHandle) A := λ s,
  let '(r, p) := m s.1 in (r, (p, s.2)).

Definition set_sqldb (h : option nat) : M (proc * DBHandle) unit :=
  modify (λ s, (s.1, mkDBHandle (h_name s.2) (h_workingDir s.2) (h_initialized s.2) h)).

Definition with_sqldb {A} (m : option nat → M proc A) : M (proc * DBHandle) A :=
  let* s := gets id in on_proc (m (h_sqldb s.2)).

(** [db.sqldb, err = openDB(...)]: on an error [db.sqldb] is nil. *)
Definition assign_sqldb (m : M proc nat) : M (proc * DBHandle) unit :=
  let* r := attempt (on_proc m) in
  match r with
  | Ok h => set_sqldb (Some h)
  | Err e => set_sqldb None ;;* fail e
  | Panic e => panic e
  end.

Definition InitLocal (signer : Signer) : M (proc * DBHandle) unit :=
  let* s := gets id in
  let name := h_name s.2 in
  wrap_err ("failed to exec 'CREATE DATABASE " +:+ name +:+ ";': ")
    (with_sqldb (λ h, sql_Exec h (CreateDatabase name))) ;;*
  wrap_err "failed to commit db creation: " (with_sqldb (λ h, sql_Exec h CommitTransaction)) ;;*
  wrap_err "failed to close db connection after init local: " (with_sqldb sql_Close) ;;*
  wrap_err "failed to re-open db after local init: "
    (assign_sqldb (openDB (h_workingDir s.2) (GetID signer) name)) ;;*
  wrap_err "failed to use db after init local: " (with_sqldb (λ h, sql_Exec h (UseDatabase name))) ;;*
  let* commit := wrap_err "failed to retrieve init commit: " (with_sqldb first_commit_on) in
  match Sign signer (c_Hash commit) with
  | Ok signature =>
      wrap_err ("failed to create signature tag (" +:+ signature +:+ ") for init commit ("
                  +:+ c_Hash commit +:+ "): ")
        (with_sqldb (λ h, sql_Exec h (DoltTag (PublicKey signer) (GetID signer) (signer_email (GetID signer))
                                        signature (c_Hash commit)))) ;;*
      modify (λ s, (s.1, mkDBHandle (h_name s.2) (h_workingDir s.2) true (h_sqldb s.2)))
  | Err e => fail ("failed to sign init commit '" +:+ c_Hash commit +:+ "': " +:+ e)
  | Panic e => panic e
  end.

Definition GetFilePath (d : DBHandle) : string := h_workingDir d +:+ "/" +:+ h_name d.

(** The connection is not given back. *)
Definition GetChunkStore : M (proc * DBHandle) CS :=
  wrap_err "failed to retrieve db connection: " (with_sqldb sql_Conn) ;;*
  let* s := gets id in
  let* env := wrap_err "failed to retrieve multi repo env: "
                (with_sqldb (λ h, on_handle h (λ dsn w, (drv_Raw dsn w, w)))) in
  match env with
  | None => fail "multi repo env not found"
  | Some GetEnv =>
      match GetEnv (h_name s.2) with
      | None => fail "failed to retrieve db env"
      | Some cs => ret cs
      end
  end.

(** [stoppers] are the answers of the registered stoppers, in the order of the
    iteration; the errors are joined. *)
Definition join_errs (l : list string) : option string :=
  match l with
  | [] => None
  | e :: l => Some (foldl (λ acc x, acc +:+ "; " +:+ x) e l)
  end.

Definition db_Close (stoppers : list (result unit)) : M (proc * DBHandle) unit :=
  let errs := omap (λ r, match r with Err e => Some e | _ => None end) stoppers in
  let* s := gets id in
  let* r := match h_sqldb s.2 with
            | None => ret (Ok tt)
            | Some _ => attempt (with_sqldb sql_Close)
            end in
  match join_errs (errs ++ match r with Err e => [e] | _ => [] end) with
  | None => ret tt
  | Some e => fail e
  end.

(** *** Nodes *)

Definition Register (repo : RepoID) (picker : P) : M proc unit :=
  modify (λ p, mkProc (pr_world p) (pr_handles p) (pr_next p) (pr_conns p)
                 (RegisterSwarmProviders repo (Some picker) (pr_registry p))).
Definition Unregister (repo : RepoID) : M proc unit :=
  modify (λ p, mkProc (pr_world p) (pr_handles p) (pr_next p) (pr_conns p)
                 (UnregisterSwarmProviders repo (pr_registry p))).

(** A node that is open: its configuration, its database and whether it owns
    it. *)
Record NodeHandle := mkNodeHandle { nh_cfg : NodeConfig; nh_db : DBHandle; nh_ownsDB : bool }.

(** [db] is the database of the configuration, if it gives one, and [picker]
    what [Transport.Providers()] returns.  An error of [EnsureSwarmRemote] is
    dropped. *)
Definition OpenNode (cfg : NodeConfigIn) (db : option DBHandle) (picker : P) : M proc NodeHandle :=
  let* c := of_result (OpenNode_config cfg) in
  let* d := match db with
            | Some d => ret d
            | None => Open (in_Dir cfg) (RepoName (in_Repo cfg)) true (in_Signer cfg)
            end in
  Register (cfg_Repo c) picker ;;*
  ignore (on_handle (h_sqldb d) (λ _, EnsureSwarmRemote (HW:=self_world W) (cfg_Repo c))) ;;*
  ret (mkNodeHandle c d (match db with Some _ => false | None => true end)).

Definition node_Close (n : NodeHandle) : M proc unit :=
  Unregister (cfg_Repo (nh_cfg n)) ;;*
  if negb (nh_ownsDB n) then ret tt else
  λ p, let '(r, s) := db_Close [] (p, nh_db n) in (r, s.1).
End lifecycle.

(** ** Handles *)

Section handles.
Context {W P : Type} `{D : Dolt W} `{DR : Driver W}.
Local Abbreviation proc := (Proc W P).

(** The numbers of the handles come from a counter. *)
Definition proc_wf (p : proc) : Prop := ∀ i dsn, pr_handles p !! i = Some dsn → (i < pr_next p)%nat.

(** The same handles, counter and registry. *)
Definition same_handles (p p' : proc) : Prop :=
  pr_handles p' = pr_handles p ∧ pr_next p' = pr_next p ∧ pr_registry p' = pr_registry p.

(** [p'] has the handle [h] with [dsn] besides those of [p]. *)
Definition one_more (p p' : proc) (h : nat) (dsn : string) : Prop :=
  pr_handles p !! h = None ∧ pr_handles p' = <[h := dsn]> (pr_handles p) ∧
  (pr_next p ≤ pr_next p')%nat ∧ (h < pr_next p')%nat ∧ pr_registry p' = pr_registry p.

#[export] Instance same_handles_refl : Reflexive same_handles.
Proof. by intros p. Qed.
#[export] Instance same_handles_trans : Transitive same_handles.
Proof. intros p q r (?&?&?) (?&?&?). split_and!; congruence. Qed.

Lemma same_lift {A} (m : M W A) p : same_handles p (lift m p).2.
Proof. unfold lift. by destruct (m (get_world p)). Qed.

Lemma same_on_handle {A} h (m : string → M W A) p : same_handles p (on_handle h m p).2.
Proof.
  unfold on_handle. destruct h as [i|]; [|done]. destruct (pr_handles p !! i); [apply same_lift|done].
Qed.

Lemma same_bind {A B} (m : M proc A) (k : A → M proc B) p :
  same_handles p (m p).2 → (∀ a p', same_handles p' (k a p').2) → same_handles p (bind m k p).2.
Proof.
  intros Hm Hk. unfold bind. destruct (m p) as [[a|e|e] p']; [|done..]. etrans; [exact Hm|apply Hk].
Qed.

Lemma same_attempt {A} (m : M proc A) p : same_handles p (m p).2 → same_handles p (attempt m p).2.
Proof. unfold attempt. by destruct (m p) as [[] ?]. Qed.

Lemma same_wrap {A} pre (m : M proc A) p : same_handles p (m p).2 → same_handles p (wrap_err pre m p).2.
Proof. unfold wrap_err. by destruct (m p) as [[] ?]. Qed.

Lemma wf_one_more p p' h dsn : proc_wf p → one_more p p' h dsn → proc_wf p'.
Proof.
  intros Hp (_ & E & Hn & Hh & _) i d Hi. rewrite E in Hi.
  apply lookup_insert_Some in Hi as [[<- _]|[_ Hi]]; [done|]. apply Hp in Hi. lia.
Qed.

Lemma one_more_same p p1 p2 h dsn : one_more p p1 h dsn → same_handles p1 p2 → one_more p p2 h dsn.
Proof. intros (?&?&?&?&?) (?&?&?). split_and!; try congruence; lia. Qed.

Lemma same_one_more p p1 p2 h dsn : same_handles p p1 → one_more p1 p2 h dsn → one_more p p2 h dsn.
Proof. intros (E1&E2&E3) (?&?&?&?&?). split_and!; try congruence; lia. Qed.

Lemma same_ensureDir dir p : same_handles p (ensureDir dir p).2.
Proof.
  unfold ensureDir. apply same_bind; [apply same_attempt, same_lift|].
  intros [a|e|e] p'; [done| |done]. destruct (IsExist e); [|done]. apply same_bind; [apply same_lift|].
  by intros [] p''.
Qed.

Lemma openDB_session wd sid name p h p' :
  proc_wf p → openDB wd sid name p = (Ok h, p') → one_more p p' h (db_conn_string wd sid name).
Proof.
  intros Hp. unfold openDB. destruct (_ || _); [done|]. unfold bind at 1, wrap_err, sql_Open.
  destruct (drv_Open _); [|done..]. set (q := mkProc _ _ _ _ _).
  intros E. pose proof (same_attempt (sql_Ping (pr_next p)) q (same_on_handle _ _ q)) as Hs.
  unfold bind in E. destruct (attempt _ q) as [[[u|e|e]|e|e] q']; cbn in E, Hs; try done.
  injection E as <- <-. apply (one_more_same p q); [|done]. split_and!; cbn; try lia; [|done|done].
  destruct (pr_handles p !! pr_next p) eqn:El; [|done]. apply Hp in El. lia.
Qed.

Lemma sql_Close_session h p : same_handles
  (mkProc (pr_world p) (delete h (pr_handles p)) (pr_next p) (pr_conns p) (pr_registry p)) (sql_Close (Some h) p).2.
Proof.
  unfold sql_Close. destruct (pr_handles p !! h) eqn:E; [apply same_lift|].
  by rewrite delete_id.
Qed.

(** Closing a handle and opening another one. *)
Lemma reopened p0 p p1 p2 h h' dsn dsn' :
  proc_wf p0 → one_more p0 p h dsn → same_handles (mkProc (pr_world p) (delete h (pr_handles p)) (pr_next p) (pr_conns p) (pr_registry p)) p1 →
  (proc_wf p1 → one_more p1 p2 h' dsn') → one_more p0 p2 h' dsn'.
Proof.
  intros Hp (Hn & E & Hle & Hlt & Er) (E1 & E2 & E3) H2. cbn in *.
  rewrite E, delete_insert_id in E1 by done.
  destruct H2 as (?&?&?&?&?).
  { intros i d Hi. rewrite E1 in Hi. apply Hp in Hi. lia. }
  split_and!; try congruence; lia.
Qed.

Lemma reopen_session p0 wd sid name h dsn p h' p' :
  proc_wf p0 → one_more p0 p h dsn → reopen wd sid name h p = (Ok h', p') →
  one_more p0 p' h' (db_conn_string wd sid name).
Proof.
  intros Hp Hone. unfold reopen, bind at 1, wrap_err at 1.
  pose proof (sql_Close_session h p) as Hc. destruct (sql_Close (Some h) p) as [[[]|e|e] p1]; [|done..].
  unfold bind at 1, wrap_err at 1. destruct (openDB wd sid name p1) as [[h1|e|e] p2] eqn:Ho; [|done..].
  assert (one_more p0 p2 h1 (db_conn_string wd sid name)) as H2.
  { eapply reopened; [done|exact Hone|exact Hc|]. intros Hw. by eapply openDB_session. }
  unfold bind at 1. pose proof (same_wrap "failed to use db: " _ p2 (same_on_handle (Some h1) (λ _, exec pool (UseDatabase name)) p2)) as Hu.
  unfold sql_Exec in *. destruct (wrap_err _ _ p2) as [[[]|e|e] p3]; [|done..].
  pose proof (same_attempt _ p3 (same_on_handle (Some h1) (λ _, exec pool (DoltRemoteRemove "origin")) p3)) as Hr.
  unfold bind. destruct (attempt _ p3) as [[r|e|e] p4]; [|done..]. cbn in Hu, Hr.
  pose proof (one_more_same _ _ _ _ _ (one_more_same _ _ _ _ _ H2 Hu) Hr) as H4.
  destruct r as [[]|e|e]; [by intros [= <- <-]| |done].
  destruct (contains e _); [by intros [= <- <-]|done].
Qed.

Lemma same_exists_on h name p : same_handles p (exists_on h name p).2.
Proof.
  unfold exists_on. apply same_bind; [apply same_on_handle|]. by intros [|[] ?] p'.
Qed.

Lemma Open_session dir name signer p d p' :
  proc_wf p → Open dir name true (Some signer) p = (Ok d, p') →
  ∃ h, h_sqldb d = Some h ∧ h_name d = name ∧
    one_more p p' h (db_conn_string (h_workingDir d) (GetID signer) (if h_initialized d then name else "")).
Proof.
  intros Hp. unfold Open. cbn [negb]. unfold bind at 1. destruct (fs_Abs dir) as [wd|e|e]; [|done..].
  cbn. unfold bind at 1. pose proof (same_wrap "failed to open db: " _ p (same_ensureDir wd p)) as H1.
  destruct (wrap_err _ _ p) as [[[]|e|e] p1]; [|done..]. cbn in H1.
  assert (proc_wf p1) as Hp1 by (destruct H1 as (E1 & E2 & _); intros i dsn; rewrite E1, E2; apply Hp).
  unfold bind at 1, wrap_err at 1. destruct (openDB wd _ "" p1) as [[h|e|e] p2] eqn:Ho; [|done..].
  apply openDB_session in Ho; [|done]. apply (same_one_more p) in Ho; [|done].
  unfold bind at 1. pose proof (same_attempt _ p2 (same_exists_on h name p2)) as H3.
  destruct (attempt _ p2) as [[found|e|e] p3]; [|done..]. cbn in H3.
  pose proof (one_more_same _ _ _ _ _ Ho H3) as Hone.
  destruct found as [[]|e|e]; [| | |done].
  - unfold bind. destruct (reopen _ _ _ h p3) as [[h'|e|e] p4] eqn:Hr; [|done..]. intros [= <- <-].
    exists h'. split_and!; [done|done|]. cbn. by eapply reopen_session.
  - intros [= <- <-]. by exists h.
  - intros [= <- <-]. by exists h.
Qed.

(** The engine lists a database of that name: the first row of the answer to
    SHOW DATABASES LIKE has a name. *)
Definition listed (h : nat) (name : string) (p : proc) : Prop :=
  ∃ db rows, (sql_Query (Some h) (QShowDatabases name) p).1 = Ok (Some db :: rows) ∧ db ≠ "".

Lemma exists_on_listed h name p : (exists_on h name p).1 = Ok true ↔ listed h name p.
Proof.
  unfold exists_on, listed, bind. destruct (sql_Query _ _ p) as [[[|[db|] rows]|e|e] p']; cbn; [naive_solver| |naive_solver..].
  destruct db as [|a db]; cbn; [naive_solver|]. split; [|done]. intros _. by exists (String a db), rows.
Qed.

(** [Open] counts the database as initialized when the engine lists it on a
    handle of the directory. *)
Lemma Open_initialized dir name signer p d p' :
  Open dir name true (Some signer) p = (Ok d, p') →
  fs_Abs dir = Ok (h_workingDir d) ∧
  ∃ h0 q0, (ensureDir (h_workingDir d) ;;* openDB (h_workingDir d) (GetID signer) "") p = (Ok h0, q0) ∧
    (h_initialized d = true ↔ listed h0 name q0).
Proof.
  unfold Open. cbn [negb]. unfold bind at 1. destruct (fs_Abs dir) as [wd|e|e]; [|done..]. cbn.
  unfold bind at 1, wrap_err at 1. destruct (ensureDir wd p) as [[[]|e|e] p1] eqn:He; [|done..].
  unfold bind at 1, wrap_err at 1. destruct (openDB wd _ "" p1) as [[h|e|e] p2] eqn:Ho; [|done..].
  unfold bind at 1, attempt. pose proof (exists_on_listed h name p2) as Hl.
  destruct (exists_on h name p2) as [[[]|e|e] p3]; cbn in Hl.
  - unfold bind. destruct (reopen _ _ _ h p3) as [[h'|e|e] p4]; [|done..]. intros [= <- <-]. cbn.
    split; [done|]. exists h, p2. rewrite He. split; [done|]. by rewrite <-Hl.
  - intros [= <- <-]. cbn. split; [done|]. exists h, p2. unfold bind. rewrite He. split; [done|]. by rewrite <-Hl.
  - intros [= <- <-]. cbn. split; [done|]. exists h, p2. unfold bind. rewrite He. split; [done|]. by rewrite <-Hl.
  - done.
Qed.

Lemma with_sqldb_spec {A} (m : option nat → M proc A) p d :
  with_sqldb m (p, d) = let '(r, p') := m (h_sqldb d) p in (r, (p', d)).
Proof. unfold with_sqldb, on_proc, bind, gets. cbn. by destruct (m (h_sqldb d) p). Qed.

Lemma db_Close_session stoppers (p : proc) d h :
  h_sqldb d = Some h →
  pr_handles (db_Close stoppers (p, d)).2.1 = delete h (pr_handles p) ∧
  pr_registry (db_Close stoppers (p, d)).2.1 = pr_registry p.
Proof.
  intros Hd. unfold db_Close, bind, gets. cbn. rewrite Hd. unfold attempt. rewrite with_sqldb_spec, Hd.
  pose proof (sql_Close_session h p) as (E & _ & Er).
  destruct (sql_Close (Some h) p) as [[u|e|e] p']; cbn in E, Er |- *; [| |done]; by destruct (join_errs _).
Qed.

Lemma InitLocal_session signer (p0 p : proc) d h dsn p' d' :
  proc_wf p0 → h_sqldb d = Some h → one_more p0 p h dsn → InitLocal signer (p, d) = (Ok tt, (p', d')) →
  h_initialized d' = true ∧ h_name d' = h_name d ∧ h_workingDir d' = h_workingDir d ∧
  ∃ h', h_sqldb d' = Some h' ∧
    one_more p0 p' h' (db_conn_string (h_workingDir d) (GetID signer) (h_name d)).
Proof.
  intros Hp Hd Hone. unfold InitLocal, bind at 1, gets. cbn [fst snd id].
  (* CREATE DATABASE and commit *)
  assert (∀ pre st q dd, ∃ r q',
    wrap_err pre (with_sqldb (λ h, sql_Exec h st)) (q, dd) = (r, (q', dd)) ∧ same_handles q q') as Hexec.
  { intros pre st q dd. unfold wrap_err. rewrite with_sqldb_spec.
    pose proof (same_on_handle (h_sqldb dd) (λ _, exec pool st) q) as Hs. unfold sql_Exec.
    destruct (on_handle _ _ q) as [[] q']; cbn in *; eauto. }
  unfold bind at 1. edestruct Hexec as (r1 & p1 & -> & S1); destruct r1 as [[]|e|e]; [|done..].
  unfold bind at 1. edestruct Hexec as (r2 & p2 & -> & S2); destruct r2 as [[]|e|e]; [|done..].
  unfold bind at 1, wrap_err at 1. rewrite with_sqldb_spec, Hd.
  pose proof (sql_Close_session h p2) as Hc. destruct (sql_Close (Some h) p2) as [[[]|e|e] p3]; [|done..].
  unfold bind at 1, wrap_err at 1, assign_sqldb, bind at 1, attempt at 1, on_proc at 1. cbn [fst snd].
  destruct (openDB _ _ _ p3) as [[h1|e|e] p4] eqn:Ho; [|done..].
  assert (one_more p0 p4 h1 (db_conn_string (h_workingDir d) (GetID signer) (h_name d))) as H4.
  { eapply reopened; [done| |exact Hc|intros Hw; by eapply openDB_session].
    eapply one_more_same; [exact Hone|]. by etrans. }
  cbn [set_sqldb modify fst snd]. set (d1 := mkDBHandle _ _ _ (Some h1)).
  unfold bind at 1. edestruct Hexec as (r5 & p5 & -> & S5); destruct r5 as [[]|e|e]; [|done..].
  unfold bind at 1, wrap_err at 1. rewrite with_sqldb_spec.
  assert (∀ q, same_handles q (first_commit_on (h_sqldb d1) q).2) as Hfc.
  { intros q. unfold first_commit_on. apply same_bind; [apply same_wrap, same_on_handle|]. by intros [|] q'. }
  specialize (Hfc p5). destruct (first_commit_on (h_sqldb d1) p5) as [[c|e|e] p6]; [|done..].
  destruct (Sign signer (c_Hash c)) as [signature|e|e]; [|done..].
  unfold bind at 1. edestruct Hexec as (r7 & p7 & -> & S7); destruct r7 as [[]|e|e]; [|done..].
  cbn. intros [= <- <-]. cbn. split_and!; [done..|]. exists h1. split; [done|].
  eapply one_more_same; [exact H4|]. do 2 (etrans; [eassumption|]). done.
Qed.
End handles.

(** C35. Opening and closing a database leaks nothing.  A successful [Open]
    asks the engine, on a handle of the absolute directory, for the database,
    and counts it as initialized exactly when the engine lists it; it adds
    exactly one SQL handle, on the database when it was listed and on the
    directory otherwise (also when the engine could not be asked).  A
    successful [InitLocal] replaces it by one on the database; [Close] gives
    back the handles of before, also when it reports errors. *)
Theorem open_close_handles {W P : Type} `{D : Dolt W} `{DR : Driver W} (dir name : string) (signer : Signer)
    (p p1 : Proc W P) (d : DBHandle)
  (Hp : proc_wf p) (Hopen : Open dir name true (Some signer) p = (Ok d, p1)) :
  (fs_Abs dir = Ok (h_workingDir d) ∧
   ∃ h0 q0, (ensureDir (h_workingDir d) ;;* openDB (h_workingDir d) (GetID signer) "") p = (Ok h0, q0) ∧
     (h_initialized d = true ↔ listed h0 name q0)) ∧
  (∃ h, h_sqldb d = Some h ∧ pr_handles p !! h = None ∧
     pr_handles p1 = <[h := db_conn_string (h_workingDir d) (GetID signer)
                              (if h_initialized d then name else "")]> (pr_handles p)) ∧
  (∀ stoppers, pr_handles (db_Close stoppers (p1, d)).2.1 = pr_handles p) ∧
  (∀ p2 d2, InitLocal signer (p1, d) = (Ok tt, (p2, d2)) →
     h_initialized d2 = true ∧
     (∃ h, h_sqldb d2 = Some h ∧ pr_handles p !! h = None ∧
        pr_handles p2 = <[h := db_conn_string (h_workingDir d) (GetID signer) name]> (pr_handles p)) ∧
     ∀ stoppers, pr_handles (db_Close stoppers (p2, d2)).2.1 = pr_handles p).
Proof.
  destruct (Open_session dir name signer p d p1 Hp Hopen) as (h & Hd & Hname & Hone).
  pose proof Hone as (Hn & E & _). split; [by eapply Open_initialized|]. split_and!.
  - by exists h.
  - intros stoppers. rewrite (proj1 (db_Close_session stoppers p1 d h Hd)), E. by apply delete_insert_id.
  - intros p2 d2 Hi.
    destruct (InitLocal_session signer p p1 d h _ p2 d2 Hp Hd Hone Hi) as (Hin & _ & _ & h2 & Hd2 & Hn2 & E2 & _).
    rewrite Hname in E2. split_and!; [done|by exists h2|].
    intros stoppers. rewrite (proj1 (db_Close_session stoppers p2 d2 h2 Hd2)), E2. by apply delete_insert_id.
Qed.

(** A node that owns its database cleans up after itself: while it is open
    the registry resolves its repository to the picker of its transport, and
    after [Close] the handles are those of before and the repository is not
    registered; the other registrations stay. *)
Theorem node_open_close {W P : Type} `{D : Dolt W} `{DR : Driver W} (cfg : NodeConfigIn) (picker : P)
    (p p1 : Proc W P) (n : NodeHandle)
  (Hp : proc_wf p) (Hopen : OpenNode cfg None picker p = (Ok n, p1)) :
  getSwarmProviderPicker (in_Repo cfg) (pr_registry p1) = Some picker ∧
  (∀ repo, repo ≠ in_Repo cfg → pr_registry p1 !! repo = pr_registry p !! repo) ∧
  let p2 := (node_Close n p1).2 in
  pr_handles p2 = pr_handles p ∧ pr_registry p2 = delete (in_Repo cfg) (pr_registry p).
Proof.
  unfold OpenNode, bind at 1, of_result in Hopen.
  destruct (OpenNode_config cfg) as [c|e|e] eqn:Hc; [|done..].
  assert (cfg_Repo c = in_Repo cfg ∧ in_Signer cfg = Some (cfg_Signer c)) as [Hrepo Hsig].
  { unfold OpenNode_config in Hc. destruct (String.eqb _ _); [done|]. destruct (in_Signer cfg); [|done].
    destruct (in_Transport cfg) as [[gossip providers]|]; [|done]. repeat (case_match; [done|]).
    by injection Hc as <-. }
  unfold bind at 1 in Hopen. rewrite Hsig in Hopen.
  destruct (Open _ _ true _ p) as [[d|e|e] q] eqn:Ho; [|done..].
  apply Open_session in Ho as (h & Hd & _ & Hn & E & _ & _ & Er); [|done].
  unfold bind, Register, modify, ignore in Hopen. cbn [fst snd] in Hopen. set (q1 := mkProc _ _ _ _ _) in Hopen.
  pose proof (same_on_handle (h_sqldb d) (λ _, EnsureSwarmRemote (HW:=self_world W) (cfg_Repo c)) q1) as (S1 & _ & S3).
  assert (n = mkNodeHandle c d true ∧ pr_handles p1 = pr_handles q ∧
          pr_registry p1 = <[in_Repo cfg := picker]> (pr_registry p)) as (-> & H1 & H2).
  { destruct (on_handle _ _ q1) as [[u|e|e] q2]; cbn in *; try done; injection Hopen as <- <-;
      rewrite S1, S3, Hrepo, Er; done. }
  split_and!.
  - transitivity (<[in_Repo cfg := picker]> (pr_registry p) !! in_Repo cfg); [by rewrite <-H2|].
    apply lookup_insert_eq.
  - intros repo Hne. by rewrite H2, lookup_insert_ne.
  - unfold node_Close, bind, Unregister, modify. cbn [nh_cfg nh_ownsDB nh_db negb].
    set (p1' := mkProc _ _ _ _ _). destruct (db_Close_session [] p1' d h Hd) as [Hcl Hcr].
    destruct (db_Close [] (p1', d)) as [r [p2 d2]]. cbn in Hcl, Hcr |- *. split.
    + rewrite Hcl, H1, E. by apply delete_insert_id.
    + rewrite Hcr, H2, Hrepo. apply delete_insert_eq.
Qed.

(** ** Examples *)

Definition good_driver (ping : result unit) : Driver toy := {|
  CS := unit;
  fmt_other fmt args := fmt;
  fs_Abs := Ok;
  os_Mkdir _ w := (Err "file exists", w);
  IsExist e := String.eqb e "file exists";
  os_IsDir _ w := (Ok true, w);
  drv_Open _ := Ok tt;
  drv_Ping _ w := (ping, w);
  drv_Close _ w := (Ok tt, w);
  drv_Raw _ _ := Ok (Some (λ _, Some tt));
|}.

Definition fresh_proc : Proc toy unit := mkProc toy_repo ∅ 0 ∅ ∅.

Lemma fresh_proc_wf : proc_wf fresh_proc.
Proof. intros i dsn Hi. cbn in Hi. by rewrite lookup_empty in Hi. Qed.

Definition data_cfg : NodeConfigIn :=
  mkConfigIn "/data" (mkRepo "" "repo") (Some (toy_signer "k")) (Some (true, true)) false 0 0 None 0.

Definition toy_open (driver : Driver toy) : result DBHandle * Proc toy unit :=
  Open (DR:=driver) "/data" "repo" true (Some (toy_signer "k")) fresh_proc.
Definition toy_opened : DBHandle := mkDBHandle "repo" "/data" false (Some 0%nat).

Lemma toy_open_ok :
  toy_open (good_driver (Ok tt)) = (Ok toy_opened, (toy_open (good_driver (Ok tt))).2).
Proof. vm_compute. reflexivity. Qed.

Definition toy_init : result unit * (Proc toy unit * DBHandle) :=
  InitLocal (DR:=good_driver (Ok tt)) (toy_signer "k") ((toy_open (good_driver (Ok tt))).2, toy_opened).

Lemma toy_init_ok : toy_init = (Ok tt, (toy_init.2.1, toy_init.2.2)).
Proof. vm_compute. reflexivity. Qed.

(** Open, initialize, close: no handle is left. *)
Lemma open_close_handles_witness :
  map snd (map_to_list (pr_handles toy_init.2.1)) =
    ["file:///data?commitname=k&commitemail=k@doltswarm&multistatements=true&database=repo"] ∧
  pr_handles (db_Close (DR:=good_driver (Ok tt)) [] (toy_init.2.1, toy_init.2.2)).2.1 = ∅.
Proof.
  split; [vm_compute; reflexivity|].
  exact (proj2 (proj2 (proj2 (proj2 (proj2 (open_close_handles (DR:=good_driver (Ok tt)) "/data" "repo" (toy_signer "k")
    fresh_proc (toy_open (good_driver (Ok tt))).2 toy_opened fresh_proc_wf toy_open_ok)))
    toy_init.2.1 toy_init.2.2 toy_init_ok)) []).
Defined.

Definition toy_node_open : result NodeHandle * Proc toy unit :=
  OpenNode (DR:=good_driver (Ok tt)) data_cfg None tt fresh_proc.
Definition toy_node_handle : NodeHandle :=
  mkNodeHandle (mkConfig (mkRepo "" "repo") (toy_signer "k") true MaxClockSkew (30 * second) None (5 * second))
    toy_opened true.

Lemma toy_node_open_ok : toy_node_open = (Ok toy_node_handle, toy_node_open.2).
Proof. vm_compute. reflexivity. Qed.

Lemma node_open_close_witness :
  pr_registry toy_node_open.2 = {[mkRepo "" "repo" := tt]} ∧
  let p2 := (node_Close (DR:=good_driver (Ok tt)) toy_node_handle toy_node_open.2).2 in
  pr_handles p2 = ∅ ∧ pr_registry p2 = delete (mkRepo "" "repo") ∅.
Proof.
  split; [vm_compute; reflexivity|].
  exact (proj2 (proj2 (node_open_close (DR:=good_driver (Ok tt)) data_cfg tt fresh_proc toy_node_open.2
    toy_node_handle fresh_proc_wf toy_node_open_ok))).
Defined.

(** When the first ping fails, [Open] fails and its handle stays open; the
    error of the ping is lost. *)
Theorem failed_open_leaks (e : string) :
  (toy_open (good_driver (Err e))).1 = Err "failed to open db: failed to ping db: %!w(<nil>)" ∧
  size (pr_handles (toy_open (good_driver (Err e))).2) = 1%nat.
Proof. vm_compute. done. Qed.

(** The connection string is used as a format: with a directory whose path
    contains a percent sign, the database is opened in another directory, and
    not under its name. *)
Theorem percent_in_path `{DR : Driver toy} :
  db_conn_string "/data/%s" "k" "repo" =
    "file:///data/repo?commitname=k&commitemail=k@doltswarm&multistatements=true&database=%!s(MISSING)".
Proof. vm_compute. reflexivity. Qed.

(** [GetChunkStore] takes a connection out of the pool and does not give it
    back. *)
Theorem chunk_store_keeps_connection {W P : Type} `{D : Dolt W} `{DR : Driver W} (p p' : Proc W P)
    (d d' : DBHandle) (cs : CS) (h : nat) :
  h_sqldb d = Some h → GetChunkStore (p, d) = (Ok cs, (p', d')) →
  pr_conns p' !! h = Some (S (default 0%nat (pr_conns p !! h))).
Proof.
  intros Hd. unfold GetChunkStore, bind, wrap_err. rewrite with_sqldb_spec, Hd. unfold sql_Conn.
  destruct (pr_handles p !! h) as [dsn|] eqn:Eh; [|done]. unfold gets. cbn [fst snd].
  rewrite with_sqldb_spec, Hd. unfold on_handle. cbn [pr_handles]. rewrite Eh. unfold lift. cbn.
  destruct (drv_Raw dsn (pr_world p)) as [[GetEnv|]|e|e]; [|done..]. destruct (GetEnv _); [|done].
  intros [= _ <- _]. cbn. by rewrite lookup_insert_eq.
Qed.
