(* ===== verification/Peers.v ===== *)
(** * Peers and connections ([integration/p2p/p2p.go])

    The manager keeps what it knows of every peer and a client per gossip
    peer; providers are chosen among the clients.  The libp2p host, gRPC
    connections and the clock are a parameter: the state [H] of the host and
    the calls that the code makes.  Notifications on channels and the per-peer
    mutexes are left out: every operation runs to completion. *)

From Stdlib Require Import ZArith Lia String Ascii.
From stdpp Require Import gmap strings list sorting pretty.
From S2P Require Import Prelude.

Local Open Scope Z_scope.

(** [t.Add(d)] *)
Definition time_Add (t : Time) (d : Z) : Time :=
  mkTime (t_sec t + (t_nsec t + d) / 1000000000) ((t_nsec t + d) mod 1000000000) (t_off t).

(** ** The host *)

Record AddrInfo := mkAddrInfo { ai_ID : string; ai_Addrs : list string }.

Class Host (H C : Type) := {
  host_ID : string;                               (* host.ID() *)
  pid_String : string → string;                   (* peer.ID.String() *)
  pid_Decode : string → result string;            (* peer.Decode *)
  Now : H → Time * H;
  Connected : string → H → bool;                  (* Connectedness(pid) == Connected *)
  HostPeers : H → nat;                            (* len(Network().Peers()) *)
  PeerAddrs : string → H → list string;           (* Peerstore().Addrs *)
  AddAddrs : string → list string → H → H;
  Connect : AddrInfo → M H unit;
  ClosePeer : string → H → H;
  Protect : string → H → H;
  Unprotect : string → H → H;
  Dial : string → M H C;                          (* grpc.Dial *)
  Ping : C → M H unit;
  CloseConn : C → H → H;
}.

(** ** The state *)

Record knownPeer := mkKnown {
  kp_info : AddrInfo;
  kp_lastSeen : Time;
  kp_lastAttempt : Time;
  kp_rejectedUntil : Time;
  kp_rejects : Z;
  kp_lastRejectReason : string;
  kp_connected : bool;
}.

Definition new_known (info : AddrInfo) : knownPeer :=
  mkKnown info zero_time zero_time zero_time 0 "" false.

Definition defaultRejectBackoff : Z := 30 * 1000000000.
Definition defaultRejectBackoffMax : Z := 5 * 60 * 1000000000.

Section peers.
Context {H C : Type} `{HH : !Host H C}.

(** [conn] may be nil. *)
Record P2PClient := mkClient { cli_id : string; cli_conn : option C }.

Record P2P := mkP2P {
  host : H;
  clients : gmap string P2PClient;
  knownPeers : gmap string knownPeer;
  rejectBackoff : Z;
  rejectBackoffMax : Z;
  shuttingDown : bool;
  gossip : option (H → list string);              (* its [ListPeers], when set *)
}.

Definition with_host (h : H) (p : P2P) : P2P :=
  mkP2P h (clients p) (knownPeers p) (rejectBackoff p) (rejectBackoffMax p) (shuttingDown p) (gossip p).
Definition with_clients (c : gmap string P2PClient) (p : P2P) : P2P :=
  mkP2P (host p) c (knownPeers p) (rejectBackoff p) (rejectBackoffMax p) (shuttingDown p) (gossip p).
Definition with_known (k : gmap string knownPeer) (p : P2P) : P2P :=
  mkP2P (host p) (clients p) k (rejectBackoff p) (rejectBackoffMax p) (shuttingDown p) (gossip p).
Definition on_host (f : H → H) (p : P2P) : P2P := with_host (f (host p)) p.

(** The manager with its defaults, around a host. *)
Definition NewManagerWithConfig (h : H) (RejectBackoff RejectBackoffMax : Z) : P2P :=
  mkP2P h ∅ ∅ (if RejectBackoff =? 0 then defaultRejectBackoff else RejectBackoff)
    (if RejectBackoffMax =? 0 then defaultRejectBackoffMax else RejectBackoffMax) false None.

(** ** Known peers *)

Definition recordKnownPeer (info : AddrInfo) (p : P2P) : P2P :=
  if String.eqb (ai_ID info) "" then p else
  let key := pid_String (ai_ID info) in
  let kp := default (new_known info) (knownPeers p !! key) in
  let '(now, h) := Now (host p) in
  let kp' := mkKnown info now (kp_lastAttempt kp) (kp_rejectedUntil kp) (kp_rejects kp)
               (kp_lastRejectReason kp) (kp_connected kp) in
  let p' := with_known (<[key := kp']> (knownPeers p)) (with_host h p) in
  match ai_Addrs info with
  | [] => p'
  | addrs => on_host (AddAddrs (ai_ID info) addrs) p'
  end.

Definition setKnownPeerConnected (peerID : string) (connected : bool) (p : P2P) : P2P :=
  if String.eqb peerID "" then p else
  match knownPeers p !! peerID with
  | None => p
  | Some kp =>
      let '(seen, h) := if connected then Now (host p) else (kp_lastSeen kp, host p) in
      with_known (<[peerID := mkKnown (kp_info kp) seen (kp_lastAttempt kp) (kp_rejectedUntil kp)
                                (kp_rejects kp) (kp_lastRejectReason kp) connected]> (knownPeers p))
        (with_host h p)
  end.

Definition setKnownPeerAttempt (peerID : string) (p : P2P) : P2P :=
  if String.eqb peerID "" then p else
  match knownPeers p !! peerID with
  | None => p
  | Some kp =>
      let '(now, h) := Now (host p) in
      with_known (<[peerID := mkKnown (kp_info kp) (kp_lastSeen kp) now (kp_rejectedUntil kp)
                                (kp_rejects kp) (kp_lastRejectReason kp) (kp_connected kp)]> (knownPeers p))
        (with_host h p)
  end.

(** The pause after the [rejects]-th rejection: [int] shifts and [int64]
    products wrap around. *)
Definition backoff_for (base max rejects : Z) : Z :=
  let backoff := if 1 <? rejects then wrap64 (base * wrap64 (Z.shiftl 1 (rejects - 1))) else base in
  if max <? backoff then max else backoff.

Definition markRejected (peerID reason : string) (p : P2P) : P2P :=
  if String.eqb peerID "" then p else
  let kp := match knownPeers p !! peerID with
            | Some kp => kp
            | None => new_known (mkAddrInfo (match pid_Decode peerID with Ok pid => pid | _ => "" end) [])
            end in
  let rejects := wrap64 (kp_rejects kp + 1) in
  let '(now, h) := Now (host p) in
  with_known (<[peerID := mkKnown (kp_info kp) (kp_lastSeen kp) (kp_lastAttempt kp)
                            (time_Add now (backoff_for (rejectBackoff p) (rejectBackoffMax p) rejects))
                            rejects reason false]> (knownPeers p))
    (with_host h p).

Definition isRejected (peerID : string) (p : P2P) : bool * P2P :=
  if String.eqb peerID "" then (false, p) else
  match knownPeers p !! peerID with
  | None => (false, p)
  | Some kp =>
      if time_IsZero (kp_rejectedUntil kp) then (false, p) else
      let '(now, h) := Now (host p) in (time_Before now (kp_rejectedUntil kp), with_host h p)
  end.

(** ** Connections *)

Definition tryConnectPeer (info : AddrInfo) (p : P2P) : P2P :=
  if String.eqb (ai_ID info) "" then p else
  if String.eqb (ai_ID info) host_ID then p else
  let peerID := pid_String (ai_ID info) in
  let '(rejected, p) := isRejected peerID p in
  if rejected then p else
  if Connected (ai_ID info) (host p) then setKnownPeerConnected peerID true p else
  let p := setKnownPeerAttempt peerID p in
  match Connect info (host p) with
  | (Ok _, h) => setKnownPeerConnected peerID true (with_host h p)
  | (_, h) => markRejected peerID "connect failed" (with_host h p)
  end.

Definition connectRPCPeer (peerID : string) (p : P2P) : P2P :=
  if String.eqb peerID "" then p else
  if String.eqb peerID (pid_String host_ID) then p else
  match clients p !! peerID with
  | Some _ => p
  | None =>
      let '(rejected, p) := isRejected peerID p in
      if rejected then p else
      match pid_Decode peerID with
      | Ok pid =>
          if negb (Connected pid (host p)) then p else
          match Dial peerID (host p) with
          | (Ok conn, h) =>
              match Ping conn h with
              | (Ok _, h) =>
                  let p := with_clients (<[peerID := mkClient peerID (Some conn)]> (clients p)) (with_host h p) in
                  setKnownPeerConnected peerID true (on_host (Protect pid) p)
              | (_, h) =>
                  on_host (ClosePeer pid) (markRejected peerID "grpc ping failed" (with_host (CloseConn conn h) p))
              end
          | (_, h) => on_host (ClosePeer pid) (markRejected peerID "grpc dial failed" (with_host h p))
          end
      | _ => p
      end
  end.

Definition removeRPCPeer (peerID : string) (p : P2P) : P2P :=
  if String.eqb peerID "" then p else
  let p := match clients p !! peerID with
           | Some c =>
               let p := match cli_conn c with Some conn => on_host (CloseConn conn) p | None => p end in
               with_clients (delete peerID (clients p)) p
           | None => p
           end in
  let p := match pid_Decode peerID with Ok pid => on_host (Unprotect pid) p | _ => p end in
  setKnownPeerConnected peerID false p.

Definition onGossipPeerJoin (pid : string) (p : P2P) : P2P :=
  if String.eqb pid "" then p else
  if String.eqb pid host_ID then p else
  let p := recordKnownPeer (mkAddrInfo pid (PeerAddrs pid (host p))) p in
  let '(rejected, p) := isRejected (pid_String pid) p in
  if rejected then on_host (ClosePeer pid) p else connectRPCPeer (pid_String pid) p.

Definition onGossipPeerLeave (pid : string) (p : P2P) : P2P :=
  if String.eqb pid "" then p else removeRPCPeer (pid_String pid) p.

(** One iteration of the discovery processor, and [HandlePeerFound]. *)
Definition peerDiscovered (info : AddrInfo) (p : P2P) : P2P :=
  let p := tryConnectPeer info (recordKnownPeer info p) in
  let peerID := pid_String (ai_ID info) in
  if String.eqb peerID "" then p
  else setKnownPeerConnected peerID (Connected (ai_ID info) (host p)) p.

Definition openConnectionHandler (remote : string) (p : P2P) : P2P :=
  setKnownPeerConnected (pid_String remote) true
    (recordKnownPeer (mkAddrInfo remote (PeerAddrs remote (host p))) p).

Definition closeConnectionHandler (remote : string) (p : P2P) : P2P :=
  if shuttingDown p then p
  else if Connected remote (host p) then p else setKnownPeerConnected (pid_String remote) false p.

(** [HandlePeerFound], whose send on the channel is an event of its own. *)
Definition HandlePeerFound (info : AddrInfo) (p : P2P) : P2P := recordKnownPeer info p.

(** The function that stops the server: the connections of the clients are
    closed, the clients stay in the map. *)
Definition stop_server `{R : GoRuntime} (p : P2P) : P2P :=
  let p := mkP2P (host p) (clients p) (knownPeers p) (rejectBackoff p) (rejectBackoffMax p) true (gossip p) in
  foldl (λ p c, match cli_conn c with Some conn => on_host (CloseConn conn) p | None => p end) p
    (range_map (map snd (map_to_list (clients p)))).

(** ** Views *)

Definition GetClients `{R : GoRuntime} (p : P2P) : list P2PClient := range_map (map snd (map_to_list (clients p))).

Definition IsPeerConnected (peerID : string) (p : P2P) : bool :=
  if String.eqb peerID "" then false else bool_decide (is_Some (clients p !! peerID)).

Definition PeerCounts (p : P2P) : nat * nat * nat :=
  (HostPeers (host p), size (clients p),
   match gossip p with Some ListPeers => length (ListPeers (host p)) | None => 0%nat end).

Definition SnapshotConns `{R : GoRuntime} (p : P2P) : gmap string C :=
  foldl (λ out c, match cli_conn c with
                  | Some conn => if String.eqb (cli_id c) "" then out else <[cli_id c := conn]> out
                  | None => out
                  end) ∅ (range_map (map snd (map_to_list (clients p)))).
End peers.
Arguments P2P : clear implicits.
Arguments P2PClient : clear implicits.

(** ** The clients *)

Section facts.
Context {H C : Type} `{HH : !Host H C} `{R : GoRuntime}.
Local Abbreviation mgr := (P2P H C).

(** What happens to a manager. *)
Inductive peer_op :=
| OpAnnounce (info : AddrInfo)
| OpFound (info : AddrInfo)
| OpJoin (pid : string)
| OpLeave (pid : string)
| OpOpen (remote : string)
| OpClose (remote : string)
| OpStop.

Definition peer_apply (p : mgr) (op : peer_op) : mgr :=
  match op with
  | OpAnnounce info => HandlePeerFound info p
  | OpFound info => peerDiscovered info p
  | OpJoin pid => onGossipPeerJoin pid p
  | OpLeave pid => onGossipPeerLeave pid p
  | OpOpen remote => openConnectionHandler remote p
  | OpClose remote => closeConnectionHandler remote p
  | OpStop => stop_server p
  end.

(** A client is stored under its own identifier, has a connection, and is not
    this node. *)
Definition clients_ok (m : gmap string (P2PClient C)) : Prop :=
  ∀ id c, m !! id = Some c → cli_id c = id ∧ id ≠ "" ∧ id ≠ pid_String host_ID ∧ is_Some (cli_conn c).

Lemma clients_record info (p : mgr) : clients (recordKnownPeer info p) = clients p.
Proof.
  unfold recordKnownPeer. destruct (String.eqb _ _); [done|]. destruct (Now (host p)). by destruct (ai_Addrs info).
Qed.

Lemma clients_connected id b (p : mgr) : clients (setKnownPeerConnected id b p) = clients p.
Proof.
  unfold setKnownPeerConnected. destruct (String.eqb _ _); [done|]. destruct (knownPeers p !! id); [|done].
  by destruct b; [destruct (Now (host p))|].
Qed.

Lemma clients_attempt id (p : mgr) : clients (setKnownPeerAttempt id p) = clients p.
Proof.
  unfold setKnownPeerAttempt. destruct (String.eqb _ _); [done|]. destruct (knownPeers p !! id); [|done].
  by destruct (Now (host p)).
Qed.

Lemma clients_rejected id reason (p : mgr) : clients (markRejected id reason p) = clients p.
Proof. unfold markRejected. destruct (String.eqb _ _); [done|]. by destruct (Now (host p)). Qed.

Lemma clients_isRejected id (p : mgr) : clients (isRejected id p).2 = clients p.
Proof.
  unfold isRejected. destruct (String.eqb _ _); [done|]. destruct (knownPeers p !! id) as [kp|]; [|done].
  destruct (time_IsZero _); [done|]. by destruct (Now (host p)).
Qed.

#[local] Hint Rewrite clients_record clients_connected clients_attempt clients_rejected clients_isRejected
  : swarm_simpl.

Lemma clients_stop (p : mgr) : clients (stop_server p) = clients p.
Proof.
  unfold stop_server. set (q := mkP2P _ _ _ _ _ _ _). transitivity (clients q); [|done].
  generalize (range_map (map snd (map_to_list (clients q)))). clearbody q. intros l. revert q.
  induction l as [|c l IH]; intros q; [done|]. cbn [foldl]. rewrite IH. by destruct (cli_conn c).
Qed.

Lemma clients_try info (p : mgr) : clients (tryConnectPeer info p) = clients p.
Proof.
  unfold tryConnectPeer. do 2 (destruct (String.eqb _ _); [done|]).
  pose proof (clients_isRejected (pid_String (ai_ID info)) p) as Hr.
  destruct (isRejected _ p) as [[] p1]; cbn in Hr; [done|].
  destruct (Connected _ _); [by autorewrite with swarm_simpl|].
  destruct (Connect info _) as [[] h]; autorewrite with swarm_simpl; cbn; by autorewrite with swarm_simpl.
Qed.

Lemma clients_ok_connect id (p : mgr) : clients_ok (clients p) → clients_ok (clients (connectRPCPeer id p)).
Proof.
  intros Hp. unfold connectRPCPeer. destruct (String.eqb_spec id ""); [done|].
  destruct (String.eqb_spec id (pid_String host_ID)); [done|]. destruct (clients p !! id); [done|].
  pose proof (clients_isRejected id p) as Hr. destruct (isRejected id p) as [[] p1]; cbn in Hr; [by rewrite Hr|].
  destruct (pid_Decode id) as [pid|e|e]; [|by rewrite Hr..]. destruct (negb _); [by rewrite Hr|].
  destruct (Dial id (host p1)) as [[conn|e|e] h].
  2,3: cbn; autorewrite with swarm_simpl; cbn; by rewrite Hr.
  destruct (Ping conn h) as [[u|e|e] h']; cbn; autorewrite with swarm_simpl; cbn; rewrite Hr; [|done..].
  intros id' c [[<- <-]|[_ Hc]]%lookup_insert_Some; [|by apply Hp]. cbn. by split_and!.
Qed.

Lemma clients_remove id (p : mgr) :
  clients (removeRPCPeer id p) = if String.eqb id "" then clients p else delete id (clients p).
Proof.
  unfold removeRPCPeer. destruct (String.eqb id ""); [done|]. autorewrite with swarm_simpl.
  destruct (clients p !! id) as [c|] eqn:E.
  - destruct (cli_conn c); by destruct (pid_Decode id).
  - rewrite delete_id by done. by destruct (pid_Decode id).
Qed.

Lemma clients_ok_apply (p : mgr) op : clients_ok (clients p) → clients_ok (clients (peer_apply p op)).
Proof.
  intros Hp. destruct op as [info|info|pid|pid|r|r|]; cbn [peer_apply].
  - unfold HandlePeerFound. by rewrite clients_record.
  - unfold peerDiscovered. destruct (String.eqb _ _); autorewrite with swarm_simpl;
      by rewrite clients_try, clients_record.
  - unfold onGossipPeerJoin. do 2 (destruct (String.eqb _ _); [done|]).
    pose proof (clients_isRejected (pid_String pid) (recordKnownPeer (mkAddrInfo pid (PeerAddrs pid (host p))) p)) as Hr.
    rewrite clients_record in Hr. destruct (isRejected _ _) as [[] p1]; cbn in Hr |- *.
    + by rewrite Hr.
    + apply clients_ok_connect. by rewrite Hr.
  - unfold onGossipPeerLeave. destruct (String.eqb pid ""); [done|]. rewrite clients_remove.
    destruct (String.eqb _ _); [done|]. intros id c [_ Hc]%lookup_delete_Some. by apply Hp.
  - unfold openConnectionHandler. by autorewrite with swarm_simpl.
  - unfold closeConnectionHandler. destruct (shuttingDown p); [done|]. destruct (Connected _ _); [done|].
    by autorewrite with swarm_simpl.
  - by rewrite clients_stop.
Qed.

Lemma clients_ok_run ops (p : mgr) : clients_ok (clients p) → clients_ok (clients (foldl peer_apply p ops)).
Proof.
  revert p. induction ops as [|op ops IH]; intros p Hp; [done|]. cbn [foldl]. by apply IH, clients_ok_apply.
Qed.

Lemma SnapshotConns_lookup (p : mgr) id :
  clients_ok (clients p) → SnapshotConns p !! id = clients p !! id ≫= cli_conn.
Proof.
  intros Hp. unfold SnapshotConns.
  assert (∀ l (out : gmap string C), NoDup (map cli_id l) → (∀ c, c ∈ l → cli_id c ≠ "" ∧ is_Some (cli_conn c)) →
    foldl (λ out c, match cli_conn c with
                    | Some conn => if String.eqb (cli_id c) "" then out else <[cli_id c := conn]> out
                    | None => out
                    end) out l !! id =
    match List.find (λ c, String.eqb (cli_id c) id) l with Some c => cli_conn c | None => out !! id end) as Hl.
  { induction l as [|c l IH]; intros out Hnd Hc; [done|]. cbn [map foldl List.find] in *.
    apply NoDup_cons in Hnd as [Hni Hnd]. destruct (Hc c) as [Hid [conn Hconn]]; [set_solver|].
    rewrite Hconn, (proj2 (String.eqb_neq _ _) Hid), IH by (done || set_solver).
    destruct (String.eqb_spec (cli_id c) id) as [<-|Hne].
    - destruct (List.find _ l) as [c'|] eqn:E; [|by rewrite lookup_insert_eq].
      apply find_some in E as [Hin Heq%String.eqb_eq]. exfalso. apply Hni. apply list_elem_of_fmap.
      exists c'. split; [done|]. by apply list_elem_of_In.
    - by rewrite lookup_insert_ne. }
  set (l := range_map (map snd (map_to_list (clients p)))).
  assert (∀ c, c ∈ l ↔ ∃ k, clients p !! k = Some c) as Hin.
  { intros c. unfold l. rewrite range_map_perm, list_elem_of_fmap. split.
    - intros ([k c'] & -> & Hk%elem_of_map_to_list). by exists k.
    - intros [k Hk]. exists (k, c). split; [done|]. by apply elem_of_map_to_list. }
  rewrite Hl.
  - rewrite lookup_empty. destruct (List.find (λ c, String.eqb (cli_id c) id) l) as [c|] eqn:E.
    + apply find_some in E as [Hc%list_elem_of_In Heq%String.eqb_eq]. apply Hin in Hc as [k Hk].
      destruct (Hp k c Hk) as [Hk' _]. rewrite <-Heq, Hk', Hk. done.
    + destruct (clients p !! id) as [c|] eqn:Ec; [|done]. exfalso.
      destruct (Hp id c Ec) as [Hid _].
      assert (String.eqb (cli_id c) id = false) as Hf.
      { apply (find_none (λ c, String.eqb (cli_id c) id) l E). apply list_elem_of_In, Hin. by exists id. }
      by rewrite Hid, String.eqb_refl in Hf.
  - unfold l. rewrite range_map_perm, map_map.
    assert (map (λ x, cli_id x.2) (map_to_list (clients p)) = map fst (map_to_list (clients p))) as ->.
    { apply map_ext_in. intros [k c] Hk%list_elem_of_In%elem_of_map_to_list. by destruct (Hp k c Hk). }
    apply NoDup_fst_map_to_list.
  - intros c [k Hk]%Hin. destruct (Hp k c Hk) as (-> & ? & _ & ?). done.
Qed.

(** How one event changes the connections: only the arrival and the departure
    of a gossip peer do, and only that peer's. *)
Definition conns_step (op : peer_op) (m m' : gmap string C) : Prop :=
  match op with
  | OpJoin pid => m' = m ∨ ∃ conn, m !! pid_String pid = None ∧ m' = <[pid_String pid := conn]> m
  | OpLeave pid => m' = if String.eqb pid "" then m else delete (pid_String pid) m
  | _ => m' = m
  end.

Lemma clients_connect id (p : mgr) :
  clients (connectRPCPeer id p) = clients p ∨
  ∃ conn, clients p !! id = None ∧ clients (connectRPCPeer id p) = <[id := mkClient id (Some conn)]> (clients p).
Proof.
  unfold connectRPCPeer. destruct (String.eqb id ""); [by left|].
  destruct (String.eqb _ _); [by left|]. destruct (clients p !! id) eqn:Hid; [by left|].
  pose proof (clients_isRejected id p) as Hr. destruct (isRejected id p) as [[] p1]; cbn in Hr; [by left|].
  destruct (pid_Decode id) as [pid|e|e]; [|by left..]. destruct (negb _); [by left|].
  destruct (Dial id (host p1)) as [[conn|e|e] h].
  2,3: left; cbn; autorewrite with swarm_simpl; by cbn.
  destruct (Ping conn h) as [[u|e|e] h']; cbn; autorewrite with swarm_simpl; cbn; rewrite Hr; [|by left..].
  right. by exists conn.
Qed.

Lemma clients_join pid (p : mgr) :
  clients (onGossipPeerJoin pid p) = clients p ∨
  ∃ conn, clients p !! pid_String pid = None ∧
    clients (onGossipPeerJoin pid p) = <[pid_String pid := mkClient (pid_String pid) (Some conn)]> (clients p).
Proof.
  unfold onGossipPeerJoin. do 2 (destruct (String.eqb _ _); [by left|]).
  pose proof (clients_isRejected (pid_String pid) (recordKnownPeer (mkAddrInfo pid (PeerAddrs pid (host p))) p)) as Hr.
  rewrite clients_record in Hr. destruct (isRejected _ _) as [[] p1]; cbn in Hr |- *; [by left|].
  rewrite <-Hr. apply clients_connect.
Qed.

Lemma conns_step_apply (p : mgr) op :
  clients_ok (clients p) → conns_step op (SnapshotConns p) (SnapshotConns (peer_apply p op)).
Proof.
  intros Hp. pose proof (clients_ok_apply p op Hp) as Hp'.
  assert (clients (peer_apply p op) = clients p → SnapshotConns (peer_apply p op) = SnapshotConns p) as Hsame.
  { intros E. unfold SnapshotConns. by rewrite E. }
  destruct op as [info|info|pid|pid|r|r|]; cbn [conns_step].
  - apply Hsame, clients_record.
  - apply Hsame. cbn [peer_apply]. unfold peerDiscovered.
    destruct (String.eqb _ _); autorewrite with swarm_simpl; by rewrite clients_try, clients_record.
  - destruct (clients_join pid p) as [E|(conn & Hnone & E)]; [left; by apply Hsame|].
    right. exists conn. rewrite SnapshotConns_lookup, Hnone by done. split; [done|]. apply map_eq. intros id.
    rewrite SnapshotConns_lookup by done. cbn [peer_apply]. rewrite E.
    destruct (decide (id = pid_String pid)) as [->|Hne]; [by rewrite !lookup_insert_eq|].
    by rewrite !lookup_insert_ne, SnapshotConns_lookup.
  - destruct (String.eqb_spec pid "") as [->|Hpid]; [by apply Hsame|]. apply map_eq. intros id.
    rewrite SnapshotConns_lookup by done. cbn [peer_apply]. unfold onGossipPeerLeave.
    rewrite (proj2 (String.eqb_neq _ _) Hpid), clients_remove.
    destruct (decide (id = pid_String pid)) as [->|Hne].
    + rewrite lookup_delete_eq. destruct (String.eqb_spec (pid_String pid) "") as [E|_]; [|by rewrite lookup_delete_eq].
      destruct (clients p !! pid_String pid) as [c|] eqn:Ec; [|done]. by destruct (Hp _ _ Ec) as (_ & ? & _).
    + rewrite lookup_delete_ne, SnapshotConns_lookup by done.
      destruct (String.eqb _ ""); [done|]. by rewrite lookup_delete_ne.
  - apply Hsame. cbn [peer_apply]. unfold openConnectionHandler. by autorewrite with swarm_simpl.
  - apply Hsame. cbn [peer_apply]. unfold closeConnectionHandler. destruct (shuttingDown p); [done|].
    destruct (Connected _ _); [done|]. by autorewrite with swarm_simpl.
  - apply Hsame, clients_stop.
Qed.

(** C28. Whatever happens to a manager, the connections that it offers to the
    providers are those of its clients, [IsPeerConnected] and the gRPC count of
    [PeerCounts] agree with them, the node itself is never among them, and
    each further event changes them as specified: a peer enters them only when it
    joins the topic, and leaves them exactly when it leaves the topic.  How the
    peer was found plays no role: one that nobody discovered is offered too,
    although the comment of [SnapshotConns] says that it is filtered out. *)
Theorem snapshot_exact (h : H) (base max : Z) (ops : list peer_op) :
  let p := foldl peer_apply (NewManagerWithConfig h base max) ops in
  (∀ id, SnapshotConns p !! id = clients p !! id ≫= cli_conn) ∧
  (∀ id, IsPeerConnected id p = bool_decide (is_Some (SnapshotConns p !! id))) ∧
  (PeerCounts p).1.2 = size (SnapshotConns p) ∧
  SnapshotConns p !! pid_String host_ID = None ∧
  (∀ op, conns_step op (SnapshotConns p) (SnapshotConns (peer_apply p op))).
Proof.
  intros p. assert (clients_ok (clients p)) as Hp by (apply clients_ok_run; intros id c; cbn; by rewrite lookup_empty).
  pose proof (λ id, SnapshotConns_lookup p id Hp) as Hl.
  assert (∀ id, is_Some (SnapshotConns p !! id) ↔ is_Some (clients p !! id)) as Hdom.
  { intros id. rewrite Hl. destruct (clients p !! id) as [c|] eqn:E; cbn; [|by split; intros [? [=]]].
    destruct (Hp _ _ E) as (_ & _ & _ & Hc). split; [by eexists|done]. }
  split_and!; [done| | | |by intros op; apply conns_step_apply].
  - intros id. unfold IsPeerConnected. destruct (String.eqb_spec id "") as [->|_].
    + symmetry. apply bool_decide_eq_false. rewrite Hdom. intros [c E]. by destruct (Hp _ _ E) as (_ & ? & _).
    + apply bool_decide_ext. symmetry. apply Hdom.
  - cbn. rewrite <-!size_dom. f_equal. apply set_eq. intros id. by rewrite !elem_of_dom, Hdom.
  - rewrite Hl. destruct (clients p !! _) as [c|] eqn:E; [|done]. by destruct (Hp _ _ E) as (_ & _ & ? & _).
Qed.
End facts.

(** ** The back-off *)

Definition nanos (t : Time) : Z := t_sec t * 1000000000 + t_nsec t.
Definition clock_ok (t : Time) : Prop := 0 ≤ t_sec t ∧ 0 ≤ t_nsec t < 1000000000.

Lemma nanos_Add t d : nanos (time_Add t d) = nanos t + d.
Proof. unfold nanos, time_Add. cbn. pose proof (Z.div_mod (t_nsec t + d) 1000000000). lia. Qed.

Lemma Before_nanos t u :
  0 ≤ t_nsec t < 1000000000 → 0 ≤ t_nsec u < 1000000000 → time_Before t u = (nanos t <? nanos u).
Proof. intros ??. unfold time_Before, nanos. lia. Qed.

Section backoff.
Context {H C : Type} `{HH : !Host H C}.
Local Abbreviation mgr := (P2P H C).

(** How often a peer has been rejected so far. *)
Definition rejections (id : string) (p : mgr) : Z :=
  match knownPeers p !! id with Some kp => kp_rejects kp | None => 0 end.

(** Is the peer refused when the host's clock shows [t]? *)
Definition refused_at (id : string) (p : mgr) (h : H) : bool := (isRejected id (with_host h p)).1.

Lemma refused_after (p : mgr) id reason t0 h0 t h h' :
  id ≠ "" → Now (host p) = (t0, h0) → clock_ok t0 → Now h = (t, h') → clock_ok t →
  - 2 ^ 63 ≤ backoff_for (rejectBackoff p) (rejectBackoffMax p) (wrap64 (rejections id p + 1)) →
  refused_at id (markRejected id reason p) h =
    (nanos t <? nanos t0 + backoff_for (rejectBackoff p) (rejectBackoffMax p) (wrap64 (rejections id p + 1))).
Proof.
  intros Hid Hn0 Hc0 Hn Hc Hb. unfold refused_at, isRejected, markRejected, rejections in *.
  rewrite (proj2 (String.eqb_neq _ _) Hid), Hn0. cbn. rewrite lookup_insert_eq. cbn [kp_rejectedUntil kp_rejects].
  replace (kp_rejects _) with (match knownPeers p !! id with Some kp => kp_rejects kp | None => 0 end)
    by (by destruct (knownPeers p !! id)).
  set (r := wrap64 _) in *. set (u := time_Add t0 _).
  assert (nanos u = nanos t0 + backoff_for (rejectBackoff p) (rejectBackoffMax p) r) as Hu by apply nanos_Add.
  assert (0 ≤ t_nsec u < 1000000000) by (apply Z.mod_pos_bound; lia).
  assert (time_IsZero u = false) as ->.
  { unfold time_IsZero, unix_of_year_1, nanos in *. destruct Hc0. lia. }
  rewrite Hn. cbn. rewrite Before_nanos, Hu by (done || apply Hc). done.
Qed.

Lemma backoff_exact base max r :
  0 < base ≤ max → max < 2 ^ 63 → 1 ≤ r → base * 2 ^ (r - 1) < 2 ^ 63 →
  backoff_for base max r = Z.min (base * 2 ^ (r - 1)) max.
Proof.
  intros Hb Hm Hr Hlt. unfold backoff_for.
  assert (2 ^ (r - 1) > 0) by lia. assert (2 ^ (r - 1) < 2 ^ 63) by nia.
  rewrite Z.shiftl_mul_pow2, Z.mul_1_l by lia. 
  rewrite (wrap64_id (2 ^ (r - 1))) by (split; unfold min_int64, max_int64; lia).
  rewrite (wrap64_id (base * _)) by (split; unfold min_int64, max_int64; nia).
  destruct (1 <? r) eqn:E1.
  - destruct (max <? _) eqn:E; lia.
  - replace (r - 1) with 0 by lia. rewrite Z.pow_0_r, Z.mul_1_r. destruct (max <? base) eqn:E; lia.
Qed.

(** C38. After its [r]-th rejection a peer is refused for exactly
    [base * 2^(r-1)] nanoseconds, at most the maximum, as long as that product
    fits in an [int64]. *)
Theorem reject_backoff (p : mgr) (id reason : string) (t0 t : Time) (h0 h h' : H) :
  let r := rejections id p + 1 in
  id ≠ "" → 0 < rejectBackoff p ≤ rejectBackoffMax p → rejectBackoffMax p < 2 ^ 63 →
  1 ≤ r → rejectBackoff p * 2 ^ (r - 1) < 2 ^ 63 →
  Now (host p) = (t0, h0) → clock_ok t0 → Now h = (t, h') → clock_ok t →
  refused_at id (markRejected id reason p) h =
    (nanos t <? nanos t0 + Z.min (rejectBackoff p * 2 ^ (r - 1)) (rejectBackoffMax p)).
Proof.
  intros r Hid Hb Hm Hr Hlt Hn0 Hc0 Hn Hc.
  assert (r < 2 ^ 63) by (pose proof (Z.pow_gt_lin_r 2 (r - 1)); nia).
  pose proof (backoff_exact _ _ _ Hb Hm Hr Hlt) as E.
  rewrite <-(wrap64_id r) in E at 1 by (split; unfold min_int64, max_int64; lia).
  rewrite (refused_after p id reason t0 h0 t h h') by (try done; fold r; rewrite E; unfold nanos, clock_ok in *; lia).
  fold r. by rewrite E.
Qed.

Lemma backoff_default_30 : backoff_for defaultRejectBackoff defaultRejectBackoffMax 30 = -2340616713709551616.
Proof. reflexivity. Qed.

Lemma backoff_default_55 r :
  55 ≤ r → backoff_for defaultRejectBackoff defaultRejectBackoffMax r = 0.
Proof.
  intros Hr. unfold backoff_for. replace (1 <? r) with true by lia.
  rewrite Z.shiftl_mul_pow2, Z.mul_1_l by lia.
  assert (∀ k m, wrap64 (k * 2 ^ 10 * wrap64 (m * 2 ^ 54)) = 0) as Hw.
  { intros k m. unfold wrap64. rewrite (Z.mod_eq (m * 2 ^ 54 + 2 ^ 63)) by lia.
    set (q := (m * 2 ^ 54 + 2 ^ 63) / 2 ^ 64).
    replace (k * 2 ^ 10 * (m * 2 ^ 54 + 2 ^ 63 - 2 ^ 64 * q - 2 ^ 63) + 2 ^ 63)
      with (2 ^ 63 + (k * m - k * 2 ^ 10 * q) * 2 ^ 64) by lia.
    rewrite Z.mod_add by lia. by rewrite Z.mod_small by lia. }
  replace (2 ^ (r - 1)) with (2 ^ (r - 55) * 2 ^ 54) by (rewrite <-Z.pow_add_r by lia; f_equal; lia).
  change defaultRejectBackoff with (29296875 * 2 ^ 10). rewrite Hw. reflexivity.
Qed.

(** With the default settings the product overflows: the 30th rejection of
    a peer, and every one from the 55th on, refuses it for no time at all, at
    any clock that has not gone back. *)
Theorem reject_backoff_overflow (p : mgr) (id reason : string) (t0 t : Time) (h0 h h' : H) :
  let r := rejections id p + 1 in
  id ≠ "" → rejectBackoff p = defaultRejectBackoff → rejectBackoffMax p = defaultRejectBackoffMax →
  r = 30 ∨ 55 ≤ r < 2 ^ 63 →
  Now (host p) = (t0, h0) → clock_ok t0 →
  Now h = (t, h') → clock_ok t → nanos t0 ≤ nanos t →
  refused_at id (markRejected id reason p) h = false.
Proof.
  intros r Hid Hb Hm Hr Hn0 Hc0 Hn Hc Hle.
  assert (wrap64 r = r) as Hw by (apply wrap64_id; split; unfold min_int64, max_int64; lia).
  assert (backoff_for (rejectBackoff p) (rejectBackoffMax p) r ≤ 0 ∧
          - 2 ^ 63 ≤ backoff_for (rejectBackoff p) (rejectBackoffMax p) r) as [E1 E2].
  { rewrite Hb, Hm. destruct Hr as [->|Hr]; [rewrite backoff_default_30; lia|].
    rewrite backoff_default_55 by lia. lia. }
  rewrite (refused_after p id reason t0 h0 t h h') by (try done; fold r; by rewrite Hw). fold r. rewrite Hw. lia.
Qed.
End backoff.

(** ** A host on which nothing answers *)

Definition toy_host : Host Time unit := {|
  host_ID := "self";
  pid_String := id;
  pid_Decode := Ok;
  Now h := (h, h);
  Connected _ _ := false;
  HostPeers _ := 0%nat;
  PeerAddrs _ _ := [];
  AddAddrs _ _ h := h;
  Connect _ h := (Err "unreachable", h);
  ClosePeer _ h := h;
  Protect _ h := h;
  Unprotect _ h := h;
  Dial _ h := (Err "unreachable", h);
  Ping _ h := (Err "unreachable", h);
  CloseConn _ h := h;
|}.

Definition noon : Time := mkTime 1700000000 0 0.

(** A manager that has failed to reach peer [b] [n] times. *)
Definition rejected_times (n : nat) : P2P Time unit :=
  Nat.iter n (markRejected (HH := toy_host) "b" "connect failed")
    (NewManagerWithConfig noon 0 0).

(** The third rejection at noon is over 120 seconds later, and not before. *)
Lemma reject_backoff_witness :
  refused_at (HH := toy_host) "b" (markRejected (HH := toy_host) "b" "connect failed" (rejected_times 2)) (mkTime 1700000119 0 0) = true ∧
  refused_at (HH := toy_host) "b" (markRejected (HH := toy_host) "b" "connect failed" (rejected_times 2)) (mkTime 1700000120 0 0) = false.
Proof.
  split.
  - rewrite (reject_backoff (HH := toy_host) (rejected_times 2) "b" "connect failed" noon
      (mkTime 1700000119 0 0) noon (mkTime 1700000119 0 0) (mkTime 1700000119 0 0)); by vm_compute.
  - rewrite (reject_backoff (HH := toy_host) (rejected_times 2) "b" "connect failed" noon
      (mkTime 1700000120 0 0) noon (mkTime 1700000120 0 0) (mkTime 1700000120 0 0)); by vm_compute.
Defined.

(** Thirty failures in a row, and the peer is not refused any more. *)
Lemma reject_backoff_overflow_witness :
  refused_at (HH := toy_host) "b" (markRejected (HH := toy_host) "b" "connect failed" (rejected_times 29)) noon = false.
Proof.
  rewrite (reject_backoff_overflow (HH := toy_host) (rejected_times 29) "b" "connect failed" noon noon
    noon noon noon); try by vm_compute. by left; vm_compute.
Defined.
