(* ===== verification/Base64.v ===== *)
(** * Standard base64 ([encoding/base64], [StdEncoding])

    The encoding with padding, and the decoding that [DecodeString] does: line
    breaks are skipped, the padding is required, the unused bits of the last
    character are not looked at.  The text of a decoding error does not carry
    the offset of the bad byte. *)

From Stdlib Require Import ZArith Lia String Ascii.
From stdpp Require Import gmap strings list.
From S2P Require Import Prelude.

(** Six bits, the most significant one first. *)
Record sextet := mkSextet { x5 : bool; x4 : bool; x3 : bool; x2 : bool; x1 : bool; x0 : bool }.

Definition sextet_nat (x : sextet) : nat :=
  let b (v : bool) (n : nat) := if v then n else 0 in
  b (x5 x) 32 + b (x4 x) 16 + b (x3 x) 8 + b (x2 x) 4 + b (x1 x) 2 + b (x0 x) 1.

Definition nat_sextet (n : nat) : sextet :=
  let b (k : nat) := Nat.odd (n / k) in
  mkSextet (b 32) (b 16) (b 8) (b 4) (b 2) (b 1).

Definition alphabet : string := "ABCDEFGHIJKLMNOPQRSTUVWXYZabcdefghijklmnopqrstuvwxyz0123456789+/".

Definition enc_char (x : sextet) : ascii := default "A"%char (String.get (sextet_nat x) alphabet).

Fixpoint index_of (c : ascii) (s : string) : option nat :=
  match s with
  | EmptyString => None
  | String d s => if Ascii.eqb c d then Some 0 else S <$> index_of c s
  end.

Definition dec_char (c : ascii) : option sextet := nat_sextet <$> index_of c alphabet.

(** The bits of a byte, from its most significant one. *)
Definition enc3 (a b c : ascii) : sextet * sextet * sextet * sextet :=
  let '(Ascii a0 a1 a2 a3 a4 a5 a6 a7) := a in
  let '(Ascii b0 b1 b2 b3 b4 b5 b6 b7) := b in
  let '(Ascii c0 c1 c2 c3 c4 c5 c6 c7) := c in
  (mkSextet a7 a6 a5 a4 a3 a2, mkSextet a1 a0 b7 b6 b5 b4, mkSextet b3 b2 b1 b0 c7 c6,
   mkSextet c5 c4 c3 c2 c1 c0).

Definition dec4 (p q r s : sextet) : ascii * ascii * ascii :=
  (Ascii (x4 q) (x5 q) (x0 p) (x1 p) (x2 p) (x3 p) (x4 p) (x5 p),
   Ascii (x2 r) (x3 r) (x4 r) (x5 r) (x0 q) (x1 q) (x2 q) (x3 q),
   Ascii (x0 s) (x1 s) (x2 s) (x3 s) (x4 s) (x5 s) (x0 r) (x1 r)).

Fixpoint EncodeToString (s : string) : string :=
  match s with
  | String a (String b (String c r)) =>
      let '(p, q, x, y) := enc3 a b c in
      String (enc_char p) (String (enc_char q) (String (enc_char x) (String (enc_char y) (EncodeToString r))))
  | String a (String b EmptyString) =>
      let '(p, q, x, _) := enc3 a b "000"%char in
      String (enc_char p) (String (enc_char q) (String (enc_char x) "="))
  | String a EmptyString =>
      let '(p, q, _, _) := enc3 a "000"%char "000"%char in
      String (enc_char p) (String (enc_char q) "==")
  | EmptyString => ""
  end.

Definition line_break (c : ascii) : bool := Ascii.eqb c "010" || Ascii.eqb c "013".

Fixpoint drop_breaks (s : string) : string :=
  match s with
  | EmptyString => EmptyString
  | String c s => if line_break c then drop_breaks s else String c (drop_breaks s)
  end.

(** Groups of four characters. *)
Fixpoint decode_groups (s : string) : option string :=
  match s with
  | EmptyString => Some ""
  | String c1 (String c2 (String c3 (String c4 r))) =>
      match dec_char c1, dec_char c2, dec_char c3, dec_char c4 with
      | Some p, Some q, Some x, Some y =>
          let '(a, b, c) := dec4 p q x y in
          (λ t, String a (String b (String c t))) <$> decode_groups r
      | Some p, Some q, Some x, None =>
          if Ascii.eqb c4 "=" && String.eqb r "" then
            let '(a, b, _) := dec4 p q x (nat_sextet 0) in Some (String a (String b ""))
          else None
      | Some p, Some q, None, None =>
          if Ascii.eqb c3 "=" && Ascii.eqb c4 "=" && String.eqb r "" then
            let '(a, _, _) := dec4 p q (nat_sextet 0) (nat_sextet 0) in Some (String a "")
          else None
      | _, _, _, _ => None
      end
  | _ => None
  end.

Definition DecodeString (s : string) : result string :=
  match decode_groups (drop_breaks s) with
  | Some t => Ok t
  | None => Err "illegal base64 data"
  end.

(** ** Round trip *)

Lemma dec_enc_char x : dec_char (enc_char x) = Some x.
Proof. by destruct x as [[] [] [] [] [] []]; vm_compute. Qed.

Lemma enc_char_breaks x : line_break (enc_char x) = false.
Proof. by destruct x as [[] [] [] [] [] []]; vm_compute. Qed.

Lemma dec4_enc3 a b c :
  let '(p, q, x, y) := enc3 a b c in dec4 p q x y = (a, b, c).
Proof. by destruct a, b, c. Qed.

Lemma dec_pad : dec_char "=" = None.
Proof. reflexivity. Qed.

(** Induction three characters at a time. *)
Lemma string_ind3 (Q : string → Prop) :
  Q "" → (∀ a, Q (String a "")) → (∀ a b, Q (String a (String b ""))) →
  (∀ a b c s, Q s → Q (String a (String b (String c s)))) → ∀ s, Q s.
Proof.
  intros H0 H1 H2 H3. fix IH 1. intros [|a [|b [|c s]]]; [done|done|done|]. apply H3, IH.
Qed.

Lemma drop_breaks_Encode s : drop_breaks (EncodeToString s) = EncodeToString s.
Proof.
  induction s as [|a|a b|a b c s IH] using string_ind3; [done|..]; cbn [EncodeToString];
    repeat destruct (enc3 _ _ _) as [[[? ?] ?] ?]; cbn [drop_breaks]; rewrite !enc_char_breaks; [done..|].
  by rewrite IH.
Qed.

Lemma base64_roundtrip s : DecodeString (EncodeToString s) = Ok s.
Proof.
  unfold DecodeString. rewrite drop_breaks_Encode.
  enough (decode_groups (EncodeToString s) = Some s) as -> by done.
  induction s as [|a|a b|a b c s IH] using string_ind3; [done|..]; cbn [EncodeToString].
  - pose proof (dec4_enc3 a "000" "000") as Hd. destruct (enc3 _ _ _) as [[[p q] x] y] eqn:E.
    cbn [decode_groups]. rewrite !dec_enc_char, dec_pad. cbn [andb Ascii.eqb Bool.eqb String.eqb].
    destruct a as [a0 a1 a2 a3 a4 a5 a6 a7]. by injection E as <- <- <- <-.
  - destruct (enc3 _ _ _) as [[[p q] x] y] eqn:E.
    cbn [decode_groups]. rewrite !dec_enc_char, dec_pad. cbn [andb Ascii.eqb Bool.eqb String.eqb].
    destruct a as [a0 a1 a2 a3 a4 a5 a6 a7], b as [b0 b1 b2 b3 b4 b5 b6 b7]. by injection E as <- <- <- <-.
  - pose proof (dec4_enc3 a b c) as Hd. destruct (enc3 _ _ _) as [[[p q] x] y].
    cbn [decode_groups]. rewrite !dec_enc_char, Hd, IH. done.
Qed.
