(* ===== verification/Keys.v ===== *)
(** * Keys and addresses ([integration/p2p/p2p.go])

    The signer of a peer is its libp2p key.  The crypto library and base36 are
    a parameter with their laws, base64 is [Base64.v]; the file system is a
    parameter with the operations that [NewKey] uses.  The key keeps the
    promise that the commit metadata relies on, and survives a restart. *)

From Stdlib Require Import ZArith Lia String Ascii.
From stdpp Require Import gmap strings list sorting pretty.
From S2P Require Import Prelude Hlc GoJson Metadata Base64 Peers.

(** ** The crypto library *)

Class Crypto := {
  PrivKey : Type;
  PubKey : Type;
  priv_Sign : PrivKey → string → result string;
  GetPublic : PrivKey → PubKey;
  MarshalPublicKey : PubKey → result string;
  UnmarshalPublicKey : string → result PubKey;
  pub_Verify : PubKey → string → string → result bool;
  IDFromPrivateKey : PrivKey → result string;      (* and its String() *)
  MarshalPrivateKey : PrivKey → result string;
  UnmarshalPrivateKey : string → result PrivKey;
  EncodeBytes : string → string;                    (* base36 *)
  DecodeToBytes : string → string;
}.

Class CryptoLaws `(Crypto) := {
  Verify_signed : ∀ k data sig, priv_Sign k data = Ok sig → pub_Verify (GetPublic k) data sig = Ok true;
  Unmarshal_public : ∀ pk b, MarshalPublicKey pk = Ok b → UnmarshalPublicKey b = Ok pk;
  Unmarshal_private : ∀ k b, MarshalPrivateKey k = Ok b → UnmarshalPrivateKey b = Ok k;
  Decode_base36 : ∀ b, DecodeToBytes (EncodeBytes b) = b;
  base36_text : ∀ b, valid_utf8 (EncodeBytes b) = true;
}.

(** ** [P2PKey] *)

Section keys.
Context `{CR : Crypto}.

Definition key_Sign (k : PrivKey) (commit : string) : result string :=
  match priv_Sign k commit with
  | Ok sig => Ok (EncodeBytes sig)
  | Err e => Err ("failed to create signature: " +:+ e)
  | Panic e => Panic e
  end.

(** The receiver is not used. *)
Definition key_Verify (commit signature publicKey : string) : result unit :=
  match DecodeString publicKey with
  | Err e => Err ("failed to decode public key: " +:+ e)
  | Panic e => Panic e
  | Ok pubKeyBytes =>
      match UnmarshalPublicKey pubKeyBytes with
      | Err e => Err ("failed to unmarshal public key: " +:+ e)
      | Panic e => Panic e
      | Ok pubKey =>
          match pub_Verify pubKey commit (DecodeToBytes signature) with
          | Err e => Err ("failed to verify signature: " +:+ e)
          | Panic e => Panic e
          | Ok true => Ok tt
          | Ok false => Err ("verification failed for public key " +:+ publicKey +:+ " commit " +:+ commit
                               +:+ " signature " +:+ signature +:+ " ")
          end
      end
  end.

Definition key_PublicKey (k : PrivKey) : result string :=
  match MarshalPublicKey (GetPublic k) with
  | Ok b => Ok (EncodeToString b)
  | Err e => Panic e
  | Panic e => Panic e
  end.

Definition key_GetID (k : PrivKey) : result string :=
  match IDFromPrivateKey k with
  | Ok id => Ok id
  | Err e => Panic e
  | Panic e => Panic e
  end.

(** The key as a [Signer]: [PublicKey] and [GetID] return. *)
Definition key_signer (k : PrivKey) (pub id : string) : Signer :=
  mkSigner (key_Sign k) key_Verify pub id.

(** ** The key file *)

Context {S : Type}.

Record KeyFS := mkKeyFS {
  os_Stat : string → M S bool;                      (* IsDir of the information *)
  IsNotExist : string → bool;                       (* of the error *)
  kf_Mkdir : string → M S unit;
  WriteFile : string → string → M S unit;
  ReadFile : string → M S string;
  GenerateKeyPair : M S PrivKey;
}.

Definition NewKeyInMemory (fs : KeyFS) : M S PrivKey := GenerateKeyPair fs.

(** The working directory is created when it does not exist. *)
Definition ensure_workdir (fs : KeyFS) (workdir : string) : M S unit :=
  let* info := attempt (os_Stat fs workdir) in
  match info with
  | Err e => if IsNotExist fs e then kf_Mkdir fs workdir else fail e
  | Panic e => panic e
  | Ok isDir => if negb isDir then fail ("workdir " +:+ workdir +:+ " is not a directory") else ret tt
  end.

Definition NewKey (fs : KeyFS) (workdir : string) : M S PrivKey :=
  ensure_workdir fs workdir ;;*
  let keyFile := workdir +:+ "/key" in
  let* keyInfo := attempt (os_Stat fs keyFile) in
  match keyInfo with
  | Err e =>
      if IsNotExist fs e then
        let* prvKey := GenerateKeyPair fs in
        let* prvKeyBytes := of_result (MarshalPrivateKey prvKey) in
        WriteFile fs keyFile prvKeyBytes ;;*
        ret prvKey
      else fail e
  | Panic e => panic e
  | Ok true => fail ("key file " +:+ keyFile +:+ " is a directory")
  | Ok false =>
      let* prvKeyBytes := ReadFile fs keyFile in
      of_result (UnmarshalPrivateKey prvKeyBytes)
  end.

(** What a file system promises: looking does not change it, what was written is
    read back, and writing the key leaves the directory in place. *)
Class KeyFSLaws (fs : KeyFS) := {
  Stat_reads : ∀ f s, (os_Stat fs f s).2 = s;
  Read_reads : ∀ f s, (ReadFile fs f s).2 = s;
  Stat_mkdir : ∀ d s s', kf_Mkdir fs d s = (Ok tt, s') → (os_Stat fs d s').1 = Ok true;
  Gen_files : ∀ f s, (os_Stat fs f (GenerateKeyPair fs s).2).1 = (os_Stat fs f s).1;
  Stat_written : ∀ f b s s', WriteFile fs f b s = (Ok tt, s') → (os_Stat fs f s').1 = Ok false;
  Read_written : ∀ f b s s', WriteFile fs f b s = (Ok tt, s') → (ReadFile fs f s').1 = Ok b;
  Write_keeps_dir : ∀ d f b s, (os_Stat fs d s).1 = Ok true → (os_Stat fs d (WriteFile fs f b s).2).1 = Ok true;
}.
End keys.
Arguments KeyFS {CR} S.

(** ** Facts *)

Section facts.
Context `{CR : Crypto, !CryptoLaws CR}.

Lemma key_signer_correct k pub id :
  key_PublicKey k = Ok pub → signer_correct (key_signer k pub id).
Proof.
  intros Hpub data sig. cbn. unfold key_Sign, key_PublicKey in *.
  destruct (priv_Sign k data) as [s|e|e] eqn:Hs; [|done..]. intros [= <-]. split; [apply base36_text|].
  destruct (MarshalPublicKey (GetPublic k)) as [b|e|e] eqn:Hb; [|done..]. injection Hpub as <-.
  unfold key_Verify. rewrite base64_roundtrip, (Unmarshal_public _ _ Hb), Decode_base36.
  by rewrite (Verify_signed _ _ _ Hs).
Qed.

(** C33. The interface is implemented: metadata signed with the key of a peer,
    written to a commit message and parsed elsewhere is verified by any other
    peer with the published key (through base36, base64 and the encodings of
    the crypto library). *)
Theorem peer_commit_verifies (k k' : PrivKey) (pub pub' id id' s : string) (m m' : CommitMetadata)
  (Hpub : key_PublicKey k = Ok pub) (Hm : meta_ok m) (Hk : Kind m = CommitKindUser)
  (Hsign : meta_Sign m (key_signer k pub id) = Ok m') (Hmarshal : Marshal m' = Ok s) :
  ParseCommitMetadata s = Ok m' ∧ meta_Verify m' (key_signer k' pub' id') pub = Ok tt.
Proof.
  destruct (Parse_signed (key_signer k pub id) m m' s (key_signer_correct k pub id Hpub) Hm Hk Hsign Hmarshal)
    as (Hp & _ & Hv). split; [done|]. by apply (Hv (key_signer k' pub' id')).
Qed.

Context {S : Type} (fs : KeyFS S) `{!KeyFSLaws fs}.

Lemma ensure_workdir_dir wd s s' :
  ensure_workdir fs wd s = (Ok tt, s') → (os_Stat fs wd s').1 = Ok true.
Proof.
  unfold ensure_workdir, bind, attempt. pose proof (Stat_reads wd s) as Hs.
  destruct (os_Stat fs wd s) as [[isDir|e|e] s1] eqn:E; cbn in Hs; subst s1; [| |done].
  - destruct isDir; [|done]. intros [= <-]. by rewrite E.
  - destruct (IsNotExist fs e); [|done]. apply Stat_mkdir.
Qed.

Lemma ensure_workdir_again wd s : (os_Stat fs wd s).1 = Ok true → ensure_workdir fs wd s = (Ok tt, s).
Proof.
  intros H. unfold ensure_workdir, bind, attempt. pose proof (Stat_reads wd s) as Hs.
  destruct (os_Stat fs wd s) as [r s1]; cbn in *. by subst.
Qed.

(** The identity of a peer survives a restart: after [NewKey] has returned a
    key, generated or read, calling it again on the same directory returns the
    same key and changes nothing. *)
Theorem key_persists (wd : string) (s s' : S) (k : PrivKey) (Hnew : NewKey fs wd s = (Ok k, s')) :
  NewKey fs wd s' = (Ok k, s').
Proof.
  unfold NewKey, bind at 1 in Hnew. destruct (ensure_workdir fs wd s) as [[[]|e|e] s1] eqn:Ew; [|done..].
  apply ensure_workdir_dir in Ew.
  assert (∀ t b, (os_Stat fs wd t).1 = Ok true → (os_Stat fs (wd +:+ "/key") t).1 = Ok false →
    (ReadFile fs (wd +:+ "/key") t).1 = Ok b → NewKey fs wd t = (UnmarshalPrivateKey b, t)) as Hread.
  { intros t b H1 H2 H3. unfold NewKey, bind at 1. rewrite ensure_workdir_again by done.
    unfold bind, attempt. pose proof (Stat_reads (wd +:+ "/key") t) as Hs.
    destruct (os_Stat fs (wd +:+ "/key") t) as [r t1]; cbn in *. subst. cbn.
    pose proof (Read_reads (wd +:+ "/key") t) as Hr.
    destruct (ReadFile fs (wd +:+ "/key") t) as [r t2]; cbn in *. by subst. }
  unfold bind, attempt in Hnew. pose proof (Stat_reads (wd +:+ "/key") s1) as Hs.
  destruct (os_Stat fs (wd +:+ "/key") s1) as [[[]|e|e] s2] eqn:Est; cbn in Hs; subst s2; [done| | |done].
  - pose proof (Read_reads (wd +:+ "/key") s1) as Hr.
    destruct (ReadFile fs (wd +:+ "/key") s1) as [[b|e|e] s3] eqn:Er; cbn in Hr; subst s3; [|done..].
    unfold of_result in Hnew. injection Hnew as Hk <-. rewrite (Hread s1 b); [by rewrite Hk|done|by rewrite Est|by rewrite Er].
  - destruct (IsNotExist fs e); [|done].
    pose proof (Gen_files wd s1) as Hg. destruct (GenerateKeyPair fs s1) as [[k1|e'|e'] s3]; [|done..]. cbn in Hg.
    unfold of_result in Hnew. destruct (MarshalPrivateKey k1) as [b|e'|e'] eqn:Eb; [|done..].
    destruct (WriteFile fs (wd +:+ "/key") b s3) as [[[]|e'|e'] s4] eqn:Ewr; [|done..]. injection Hnew as <- <-.
    rewrite (Hread s4 b), (Unmarshal_private _ _ Eb); [done| | |].
    + pose proof (Write_keeps_dir wd (wd +:+ "/key") b s3) as H. rewrite Ewr in H. apply H. by rewrite Hg.
    + by eapply Stat_written.
    + by eapply Read_written.
Qed.
End facts.

(** ** Addresses *)

Section addresses.
Context {MA : Type} (NewMultiaddr : string → result MA) (AddrInfoFromP2pAddr : MA → result AddrInfo).

(** What is sent on the channel of discovered peers: bad addresses are logged
    and skipped. *)
Definition connectToBootstrapPeers (bootstrapPeers : list string) : list AddrInfo :=
  omap (λ addrStr, match NewMultiaddr addrStr with
                   | Ok ma => match AddrInfoFromP2pAddr ma with Ok info => Some info | _ => None end
                   | _ => None
                   end) bootstrapPeers.
End addresses.

Definition is_loopback (addr : string) : bool := contains addr "/ip4/127." || contains addr "/ip6/::1".

(** The loop over the addresses: [best] is the fallback so far. *)
Fixpoint best_addr (best : option string) (addrs : list string) : option string :=
  match addrs with
  | [] => best
  | addr :: addrs =>
      if is_loopback addr then best_addr (match best with None => Some addr | _ => best end) addrs
      else Some addr
  end.

Definition GetMultiaddr (addrs : list string) (id : string) : string :=
  match addrs with
  | [] => ""
  | first :: _ => default first (best_addr None addrs) +:+ "/p2p/" +:+ id
  end.

(** The first address that is not a loopback one, or else the first. *)
Lemma best_addr_spec addrs best :
  best_addr best addrs = match List.find (λ a, negb (is_loopback a)) addrs with
                         | Some a => Some a
                         | None => match best with Some b => Some b | None => head addrs end
                         end.
Proof.
  revert best. induction addrs as [|a addrs IH]; intros best; cbn; [by destruct best|].
  destruct (is_loopback a); cbn; [|done]. rewrite IH. destruct (List.find _ addrs); [done|]. by destruct best.
Qed.

Lemma GetMultiaddr_spec a addrs id :
  GetMultiaddr (a :: addrs) id =
    default a (List.find (λ a, negb (is_loopback a)) (a :: addrs)) +:+ "/p2p/" +:+ id.
Proof. unfold GetMultiaddr. rewrite best_addr_spec. by destruct (List.find _ _). Qed.

(** ** A toy key *)

#[export] Instance toy_crypto : Crypto := {|
  PrivKey := string;
  PubKey := string;
  priv_Sign k data := if valid_utf8 (k +:+ data) then Ok (k +:+ data) else Err "bad data";
  GetPublic k := k;
  MarshalPublicKey := Ok;
  UnmarshalPublicKey := Ok;
  pub_Verify pk data sig := Ok (String.eqb sig (pk +:+ data));
  IDFromPrivateKey := Ok;
  MarshalPrivateKey := Ok;
  UnmarshalPrivateKey := Ok;
  EncodeBytes := EncodeToString;
  DecodeToBytes s := match DecodeString s with Ok b => b | _ => "" end;
|}.

Lemma enc_char_ascii x : (byte (enc_char x) <? 128)%Z = true.
Proof. by destruct x as [[] [] [] [] [] []]; vm_compute. Qed.

Lemma valid_utf8_ascii c s : (byte c <? 128)%Z = true → valid_utf8 (String c s) = valid_utf8 s.
Proof. intros H. cbn [valid_utf8]. by rewrite H. Qed.

Lemma Encode_utf8 s : valid_utf8 (EncodeToString s) = true.
Proof.
  induction s as [|a|a b|a b c s IH] using string_ind3; [done|..]; cbn [EncodeToString];
    destruct (enc3 _ _ _) as [[[? ?] ?] ?]; rewrite !valid_utf8_ascii; try apply enc_char_ascii; done.
Qed.

#[export] Program Instance toy_crypto_laws : CryptoLaws toy_crypto.
Next Obligation. cbn. intros k data sig. case_match; [|done]. intros [= <-]. by rewrite String.eqb_refl. Qed.
Next Obligation. by intros pk b [= <-]. Qed.
Next Obligation. by intros k b [= <-]. Qed.
Next Obligation. intros b. cbn. by rewrite base64_roundtrip. Qed.
Next Obligation. apply Encode_utf8. Qed.

Lemma peer_commit_verifies_witness :
  ∃ m' s, meta_Sign example_meta (key_signer (CR:=toy_crypto) "k" (EncodeToString "k") "id") = Ok m' ∧
    Marshal m' = Ok s ∧
    ParseCommitMetadata s = Ok m' ∧
    meta_Verify m' (key_signer (CR:=toy_crypto) "other" (EncodeToString "other") "id2") (EncodeToString "k") = Ok tt.
Proof.
  eexists _, _. split; [vm_compute; reflexivity|]. split; [vm_compute; reflexivity|].
  apply (peer_commit_verifies (CR:=toy_crypto) "k" "other" (EncodeToString "k") (EncodeToString "other") "id" "id2"
    _ example_meta); [reflexivity|apply example_meta_ok|reflexivity|vm_compute; reflexivity|vm_compute; reflexivity].
Defined.

(** A disk with directories (no content) and files, and keys numbered as they
    are generated. *)
Definition disk : Type := gmap string (option string) * nat.

Definition toy_disk : KeyFS (CR:=toy_crypto) disk := mkKeyFS
  (λ f d, match d.1 !! f with
          | Some None => (Ok true, d)
          | Some (Some _) => (Ok false, d)
          | None => (Err "not found", d)
          end)
  (λ e, String.eqb e "not found")
  (λ f d, match d.1 !! f with
          | None => (Ok tt, (<[f := None]> d.1, d.2))
          | Some _ => (Err "exists", d)
          end)
  (λ f b d, match d.1 !! f with
            | Some None => (Err "is a directory", d)
            | _ => (Ok tt, (<[f := Some b]> d.1, d.2))
            end)
  (λ f d, match d.1 !! f with Some (Some b) => (Ok b, d) | _ => (Err "not found", d) end)
  (λ d, (Ok ("key" +:+ pretty d.2), (d.1, S d.2))).

#[export] Program Instance toy_disk_laws : KeyFSLaws toy_disk.
Next Obligation. intros f d. cbn. by repeat case_match. Qed.
Next Obligation. intros f d. cbn. by repeat case_match. Qed.
Next Obligation. intros f d d'. cbn. case_match; [done|]. intros [= <-]. cbn. by rewrite lookup_insert_eq. Qed.
Next Obligation. intros f d. cbn. by repeat case_match. Qed.
Next Obligation.
  intros f b d d'. cbn. destruct (d.1 !! f) as [[]|]; intros [= <-]; cbn; by rewrite lookup_insert_eq.
Qed.
Next Obligation.
  intros f b d d'. cbn. destruct (d.1 !! f) as [[]|]; intros [= <-]; cbn; by rewrite lookup_insert_eq.
Qed.
Next Obligation.
  intros dir f b d. cbn. destruct (decide (dir = f)) as [->|Hne].
  - destruct (d.1 !! f) as [[c|]|] eqn:E; cbn; rewrite ?E; by intros.
  - intros H. destruct (d.1 !! f) as [[c|]|] eqn:E; cbn; rewrite ?lookup_insert_ne by done;
      by destruct (d.1 !! dir) as [[]|].
Qed.

Lemma key_persists_witness :
  let first := NewKey toy_disk "/home" (∅, 0%nat) in
  first.1 = Ok "key0" ∧ NewKey toy_disk "/home" first.2 = (Ok "key0", first.2).
Proof.
  split; [vm_compute; reflexivity|].
  apply (key_persists toy_disk "/home" (∅, 0%nat)). vm_compute. reflexivity.
Defined.
