(* ===== verification/Manager.v ===== *)
(** * The p2p manager as a server ([integration/p2p/p2p.go]:
    [NewManagerWithConfig], [setGossip], [NewGossipSub], [StartServer])

    Around the peers of [Peers.v]: the gossip topic that the manager watches,
    the services it offers, and the goroutines it starts and stops.  A context
    is a number; cancelling it ends the goroutine that runs under it.  The
    libp2p host, mdns and the gRPC server are a parameter. *)

From Stdlib Require Import ZArith Lia String Ascii.
From stdpp Require Import gmap strings list sorting pretty.
From S2P Require Import Prelude Metadata Peers Keys.

Local Open Scope Z_scope.

(** ** Configuration *)

Record P2PConfig (K DBI : Type) := mkP2PConfig {
  pc_Key : K;
  pc_Port : Z;
  pc_ListenAddr : string;
  pc_ExternalDB : option DBI;
  pc_BootstrapPeers : list string;
  pc_RejectBackoff : Z;
  pc_RejectBackoffMax : Z;
}.
Arguments mkP2PConfig {K DBI}.
Arguments pc_Key {K DBI}.
Arguments pc_Port {K DBI}.
Arguments pc_ListenAddr {K DBI}.
Arguments pc_ExternalDB {K DBI}.
Arguments pc_BootstrapPeers {K DBI}.
Arguments pc_RejectBackoff {K DBI}.
Arguments pc_RejectBackoffMax {K DBI}.

Definition listen_addr (addr : string) (port : Z) : string :=
  "/ip4/" +:+ (if String.eqb addr "" then "127.0.0.1" else addr) +:+ "/udp/" +:+ pretty port +:+ "/quic-v1".

(** ** State *)

(** A gossip object: its [ListPeers] and its [EventHandler]. *)
Record GossipObj (H : Type) := mkGossipObj {
  go_ListPeers : H → list string;
  go_EventHandler : M H unit;
}.
Arguments mkGossipObj {H}.
Arguments go_ListPeers {H}.
Arguments go_EventHandler {H}.

(** The services registered with the gRPC server; the two of
    [p2psrv.Server] hold the node that was set at that time. *)
Inductive service (N : Type) :=
| SvcPinger (node : option N)
| SvcTester (node : option N)
| SvcChunkStore
| SvcDownloader.
Arguments SvcPinger {N}.
Arguments SvcTester {N}.
Arguments SvcChunkStore {N}.
Arguments SvcDownloader {N}.

Record Manager (H C N DBI : Type) := mkManager {
  mg_p2p : P2P H C;
  mg_externalDB : option DBI;
  mg_bootstrapPeers : list string;
  mg_node : option N;
  mg_gossipCancel : option nat;
  mg_nextctx : nat;
  mg_watchers : gset nat;            (* goroutines that follow a topic, by context *)
  mg_services : list (service N);
  mg_serving : bool;                 (* the goroutine of [grpcServer.Serve] *)
  mg_discovery : bool;               (* the goroutine of [peerDiscoveryProcessor] *)
  mg_mdns : bool;
  mg_found : list AddrInfo;          (* peers being sent on [PeerChan] *)
}.
Arguments mkManager {H C N DBI}.
Arguments mg_p2p {H C N DBI}.
Arguments mg_externalDB {H C N DBI}.
Arguments mg_bootstrapPeers {H C N DBI}.
Arguments mg_node {H C N DBI}.
Arguments mg_gossipCancel {H C N DBI}.
Arguments mg_nextctx {H C N DBI}.
Arguments mg_watchers {H C N DBI}.
Arguments mg_services {H C N DBI}.
Arguments mg_serving {H C N DBI}.
Arguments mg_discovery {H C N DBI}.
Arguments mg_mdns {H C N DBI}.
Arguments mg_found {H C N DBI}.

(** The rest of the host and the libraries around it; [E] is the environment
    in which hosts are made. *)
Class Daemon (E H K MA : Type) := {
  NewConnManager : Z → Z → result unit;
  libp2p_New : K → string → M E H;
  Listen : M H unit;
  mdns_Start : M H unit;
  mdns_Close : H → H;
  GracefulStop : H → option H;   (* [None]: it waits for calls that never end *)
  host_Close : M H unit;
  NewMultiaddr : string → result MA;
  AddrInfoFromP2pAddr : MA → result AddrInfo;
}.

Section manager.
Context {E H C K MA N DBI : Type} `{HH : !Host H C} `{DM : !Daemon E H K MA} `{R : GoRuntime}.
Local Abbreviation mgr := (Manager H C N DBI).

Definition set_p2p (p : P2P H C) (m : mgr) : mgr :=
  mkManager p (mg_externalDB m) (mg_bootstrapPeers m) (mg_node m) (mg_gossipCancel m) (mg_nextctx m)
    (mg_watchers m) (mg_services m) (mg_serving m) (mg_discovery m) (mg_mdns m) (mg_found m).
Definition set_watch (c : option nat) (next : nat) (w : gset nat) (m : mgr) : mgr :=
  mkManager (mg_p2p m) (mg_externalDB m) (mg_bootstrapPeers m) (mg_node m) c next w
    (mg_services m) (mg_serving m) (mg_discovery m) (mg_mdns m) (mg_found m).
Definition set_found (l : list AddrInfo) (m : mgr) : mgr :=
  mkManager (mg_p2p m) (mg_externalDB m) (mg_bootstrapPeers m) (mg_node m) (mg_gossipCancel m) (mg_nextctx m)
    (mg_watchers m) (mg_services m) (mg_serving m) (mg_discovery m) (mg_mdns m) l.
Definition set_servers (svcs : list (service N)) (serving discovery mdns : bool) (m : mgr) : mgr :=
  mkManager (mg_p2p m) (mg_externalDB m) (mg_bootstrapPeers m) (mg_node m) (mg_gossipCancel m) (mg_nextctx m)
    (mg_watchers m) svcs serving discovery mdns (mg_found m).

Definition NewManagerWithConfig (cfg : P2PConfig K DBI) : M E mgr :=
  let* _ := of_result (NewConnManager 10000 10004) in
  let* h := wrap_err "failed to setup p2p host: "
              (libp2p_New (pc_Key cfg) (listen_addr (pc_ListenAddr cfg) (pc_Port cfg))) in
  ret (mkManager (Peers.NewManagerWithConfig h (pc_RejectBackoff cfg) (pc_RejectBackoffMax cfg))
         (pc_ExternalDB cfg) (pc_BootstrapPeers cfg) None None 0 ∅ [] false false false []).

Definition NewManager (key : K) (port : Z) (externalDB : option DBI) : M E mgr :=
  NewManagerWithConfig (mkP2PConfig key port "127.0.0.1" externalDB [] 0 0).

Definition SetNode (n : option N) (m : mgr) : mgr :=
  mkManager (mg_p2p m) (mg_externalDB m) (mg_bootstrapPeers m) n (mg_gossipCancel m) (mg_nextctx m)
    (mg_watchers m) (mg_services m) (mg_serving m) (mg_discovery m) (mg_mdns m) (mg_found m).

Definition mg_GetID (m : mgr) : string := pid_String host_ID.

(** ** Following a topic *)

(** [gossipCancel()], when it is set. *)
Definition cancel_gossip (m : mgr) : mgr :=
  match mg_gossipCancel m with
  | Some c => set_watch (mg_gossipCancel m) (mg_nextctx m) (mg_watchers m ∖ {[c]}) m
  | None => m
  end.

Definition on_p2p (f : P2P H C → P2P H C) (m : mgr) : mgr := set_p2p (f (mg_p2p m)) m.

Definition startGossipPeerSync (gs : option (GossipObj H)) (m : mgr) : mgr :=
  match gs with
  | None => m
  | Some gs =>
      let ctx := mg_nextctx m in
      let m := set_watch (Some ctx) (S ctx) (mg_watchers m) m in
      let '(r, h) := go_EventHandler gs (host (mg_p2p m)) in
      let m := on_p2p (with_host h) m in
      match r with
      | Ok _ =>
          let m := on_p2p (λ p, foldl (λ p pid, onGossipPeerJoin pid p) p (go_ListPeers gs (host p))) m in
          set_watch (mg_gossipCancel m) (mg_nextctx m) ({[ctx]} ∪ mg_watchers m) m
      | _ => m
      end
  end.

Definition setGossip (gs : option (GossipObj H)) (m : mgr) : mgr :=
  let m := on_p2p (λ p, mkP2P (host p) (clients p) (knownPeers p) (rejectBackoff p) (rejectBackoffMax p)
                          (shuttingDown p) (go_ListPeers <$> gs)) m in
  startGossipPeerSync gs (cancel_gossip m).

Definition NewGossipSub (New : string → M H (GossipObj H)) (topic : string) : M mgr (GossipObj H) := λ m,
  let '(r, h) := New topic (host (mg_p2p m)) in
  let m := on_p2p (with_host h) m in
  match r with
  | Ok gs => (Ok gs, setGossip (Some gs) m)
  | Err e => (Err e, m)
  | Panic e => (Panic e, m)
  end.

(** What [NextPeerEvent] returns to the goroutine under the context [ctx]; an
    error ends it. *)
Inductive topic_event := PeerJoin (pid : string) | PeerLeave (pid : string) | PeerEventError.

Definition watch (ctx : nat) (e : topic_event) (m : mgr) : mgr :=
  if bool_decide (ctx ∈ mg_watchers m) then
    match e with
    | PeerJoin pid => on_p2p (onGossipPeerJoin pid) m
    | PeerLeave pid => on_p2p (onGossipPeerLeave pid) m
    | PeerEventError => set_watch (mg_gossipCancel m) (mg_nextctx m) (mg_watchers m ∖ {[ctx]}) m
    end
  else m.

(** ** Serving *)

(** [cs] is what [grpcswarm.NewChunkStoreServer] answers for the database of the
    configuration.  Without a database, or when its chunk store cannot be
    opened, no chunks are offered. *)
Definition chunk_services (db : option DBI) (cs : result unit) : list (service N) :=
  match db with
  | Some _ => match cs with Ok _ => [SvcChunkStore; SvcDownloader] | _ => [] end
  | None => []
  end.

Definition StartServer (cs : result unit) : M mgr unit := λ m,
  let svcs := mg_services m ++ [SvcPinger (mg_node m); SvcTester (mg_node m)] ++ chunk_services (mg_externalDB m) cs in
  let m := set_servers svcs true (mg_discovery m) (mg_mdns m) m in
  match Listen (host (mg_p2p m)) with
  | (Err e, h) => (Err ("failed to listen: " +:+ e), on_p2p (with_host h) m)
  | (Panic e, h) => (Panic e, on_p2p (with_host h) m)
  | (Ok _, h) =>
      let m := set_servers svcs true true (mg_mdns m) (on_p2p (with_host h) m) in
      match mdns_Start (host (mg_p2p m)) with
      | (Ok _, h) =>
          let m := set_servers svcs true true true (on_p2p (with_host h) m) in
          (Ok tt, set_found (mg_found m ++ connectToBootstrapPeers NewMultiaddr AddrInfoFromP2pAddr
                                             (mg_bootstrapPeers m)) m)
      | (Err e, h) => (Panic e, on_p2p (with_host h) m)
      | (Panic e, h) => (Panic e, on_p2p (with_host h) m)
      end
  end.

(** One iteration of the discovery processor on a peer from [PeerChan]. *)
Definition discover (m : mgr) : mgr :=
  if negb (mg_discovery m) then m else
  match mg_found m with
  | [] => m
  | info :: l => on_p2p (peerDiscovered info) (set_found l m)
  end.

(** [HandlePeerFound]: the send is dropped when the processor is not waiting. *)
Definition announce (info : AddrInfo) (waiting : bool) (m : mgr) : mgr :=
  let m := on_p2p (HandlePeerFound info) m in
  if waiting && mg_discovery m then on_p2p (peerDiscovered info) m else m.

(** [p2p.shuttingDown = true] *)
Definition begin_shutdown (p : P2P H C) : P2P H C :=
  mkP2P (host p) (clients p) (knownPeers p) (rejectBackoff p) (rejectBackoffMax p) true (gossip p).

(** The function that stops the server.  It hands a token to the discovery
    processor: without that goroutine nobody takes it and the call never
    returns, which is [None].  [GracefulStop] waits for the calls that are
    being served: when one of them does not end, the call does not return
    either. *)
Definition stop (m : mgr) : option (result unit * mgr) :=
  if negb (mg_discovery m) then None else
  let m := set_servers (mg_services m) (mg_serving m) false (mg_mdns m) (on_p2p begin_shutdown m) in
  let m := cancel_gossip m in
  let m := set_servers (mg_services m) (mg_serving m) false false (on_p2p (on_host mdns_Close) m) in
  let m := on_p2p stop_server m in
  match GracefulStop (host (mg_p2p m)) with
  | None => None
  | Some h =>
      let m := set_servers (mg_services m) false false false (on_p2p (with_host h) m) in
      let '(r, h) := host_Close (host (mg_p2p m)) in
      Some (r, on_p2p (with_host h) m)
  end.
End manager.

(** ** What the goroutines guarantee *)

Section facts.
Context {E H C K MA N DBI : Type} `{HH : !Host H C} `{DM : !Daemon E H K MA} `{R : GoRuntime}.
Local Abbreviation mgr := (Manager H C N DBI).

(** What happens to a manager after it was made; a call that does not return
    changes nothing any more. *)
Inductive mg_op :=
| MSetGossip (gs : option (GossipObj H))
| MWatch (ctx : nat) (e : topic_event)
| MDiscover
| MAnnounce (info : AddrInfo) (waiting : bool)
| MOpen (remote : string)
| MClose (remote : string)
| MSetNode (n : option N)
| MStart (cs : result unit)
| MStop.

Definition mg_apply (m : mgr) (op : mg_op) : mgr :=
  match op with
  | MSetGossip gs => setGossip gs m
  | MWatch ctx e => watch ctx e m
  | MDiscover => discover m
  | MAnnounce info w => announce info w m
  | MOpen r => on_p2p (openConnectionHandler r) m
  | MClose r => on_p2p (closeConnectionHandler r) m
  | MSetNode n => SetNode n m
  | MStart cs => (StartServer cs m).2
  | MStop => match stop m with Some (_, m') => m' | None => m end
  end.

(** Every goroutine that follows a topic runs under the context that the next
    cancellation ends. *)
Definition watch_ok (m : mgr) : Prop :=
  (∀ c, c ∈ mg_watchers m → mg_gossipCancel m = Some c) ∧
  (∀ c, mg_gossipCancel m = Some c → (c < mg_nextctx m)%nat).

(** An operation that leaves the contexts alone. *)
Definition same_watch (m m' : mgr) : Prop :=
  mg_watchers m' = mg_watchers m ∧ mg_gossipCancel m' = mg_gossipCancel m ∧ mg_nextctx m' = mg_nextctx m.

Lemma same_watch_ok m m' : same_watch m m' → watch_ok m → watch_ok m'.
Proof. intros (H1 & H2 & H3). unfold watch_ok. by rewrite H1, H2, H3. Qed.

Lemma cancel_gossip_watch m :
  watch_ok m → mg_watchers (cancel_gossip m) = ∅ ∧ watch_ok (cancel_gossip m).
Proof.
  intros [Hw Hc]. unfold cancel_gossip. destruct (mg_gossipCancel m) as [c|] eqn:Eg; cbn.
  - assert (mg_watchers m ∖ {[c]} = ∅) as H0.
    { apply set_eq. intros i. rewrite elem_of_difference, elem_of_singleton. split; [|set_solver].
      intros [Hi Hne]. apply Hw in Hi. congruence. }
    split; [done|]. split; cbn; [rewrite H0; set_solver|]. apply Hc.
  - assert (mg_watchers m = ∅) as H0; [|by split; [|split; rewrite ?H0, ?Eg; set_solver]].
    apply set_eq. intros i. split; [|set_solver]. intros Hi. apply Hw in Hi. congruence.
Qed.

Lemma setGossip_watch gs m :
  watch_ok m → watch_ok (setGossip gs m) ∧ (size (mg_watchers (setGossip gs m)) ≤ 1)%nat ∧
  (mg_watchers m ## mg_watchers (setGossip gs m)).
Proof.
  intros Hm. unfold setGossip. set (m1 := on_p2p _ m).
  assert (watch_ok m1) as Hm1 by (by eapply same_watch_ok; [|exact Hm]).
  destruct (cancel_gossip_watch m1 Hm1) as [Hw0 Hok].
  assert (mg_nextctx (cancel_gossip m1) = mg_nextctx m) as Hnext by (unfold cancel_gossip; by case_match).
  set (m2 := cancel_gossip m1) in *. unfold startGossipPeerSync. destruct gs as [gs|].
  2:{ split; [done|]. rewrite Hw0, size_empty. split; [lia|set_solver]. }
  destruct (go_EventHandler gs _) as [[u|e|e] h]; cbn.
  - rewrite Hw0, union_empty_r_L. split; [split; cbn|split].
    + by intros c ->%elem_of_singleton.
    + intros c [= <-]. lia.
    + by rewrite size_singleton.
    + intros c Hc ->%elem_of_singleton. apply (proj1 Hm) in Hc. apply (proj2 Hm) in Hc. lia.
  - split; [split; cbn|split]; rewrite ?Hw0, ?size_empty; [set_solver|intros c [= <-]; lia|lia|set_solver].
  - split; [split; cbn|split]; rewrite ?Hw0, ?size_empty; [set_solver|intros c [= <-]; lia|lia|set_solver].
Qed.

Lemma start_same_watch cs m : same_watch m (StartServer cs m).2.
Proof.
  unfold StartServer. destruct (Listen _) as [[u|e|e] h]; [|by split_and!..].
  destruct (mdns_Start _) as [[u'|e|e] h']; by split_and!.
Qed.

Lemma stop_watch m r m' : stop m = Some (r, m') → watch_ok m → mg_watchers m' = ∅ ∧ watch_ok m'.
Proof.
  unfold stop. destruct (negb (mg_discovery m)); [done|]. cbv zeta.
  set (m1 := set_servers (mg_services m) (mg_serving m) false (mg_mdns m) (on_p2p begin_shutdown m)). intros Es Hm.
  assert (watch_ok m1) as Hm1 by (by eapply same_watch_ok; [|exact Hm]).
  destruct (cancel_gossip_watch m1 Hm1) as [Hw0 Hok].
  destruct (GracefulStop _) as [h0|]; [|done].
  destruct (host_Close _) as [r' h]. injection Es as <- <-. split; [done|].
  by eapply same_watch_ok; [|exact Hok].
Qed.

(** Stopping the server does not end the goroutine that sends the bootstrap
    peers: what it has not sent yet stays with it, and the processor that
    would take it from the channel is gone. *)
Theorem bootstrap_sender_stuck (m m' : mgr) (r : result unit) :
  stop m = Some (r, m') → mg_found m' = mg_found m ∧ mg_discovery m' = false ∧ discover m' = m'.
Proof.
  unfold stop. destruct (negb (mg_discovery m)); [done|]. cbv zeta.
  destruct (GracefulStop _) as [h0|]; [|done]. destruct (host_Close _) as [r' h]. intros [= <- <-].
  split_and!; [|done|done]. cbn. unfold cancel_gossip. by case_match.
Qed.

Lemma watch_apply m op : watch_ok m → watch_ok (mg_apply m op).
Proof.
  intros Hm. destruct op as [gs|ctx e| |info w|r|r|n|cs|]; cbn [mg_apply].
  - by apply setGossip_watch.
  - unfold watch. case_bool_decide; [|done]. destruct e; try by eapply same_watch_ok; [|exact Hm].
    destruct Hm as [Hw Hc]. split; cbn; [set_solver|done].
  - unfold discover. destruct (negb _); [done|]. destruct (mg_found m); [done|].
    by eapply same_watch_ok; [|exact Hm].
  - unfold announce. destruct (_ && _); by eapply same_watch_ok; [|exact Hm].
  - by eapply same_watch_ok; [|exact Hm].
  - by eapply same_watch_ok; [|exact Hm].
  - by eapply same_watch_ok; [|exact Hm].
  - eapply same_watch_ok; [apply start_same_watch|done].
  - destruct (stop m) as [[r m']|] eqn:Es; [|done]. by eapply stop_watch.
Qed.
End facts.
