(* ===== verification/App.v ===== *)
(** * The program ([integration/main.go], [integration/ui.go],
    [integration/utils.go])

    The commands [init] and [server]: they open the key, the database and the
    manager, run a node with its stoppers, and close everything.  The state
    joins those of the components.  The terminal interface shows what it is
    handed; its layout is left out, and so are log lines and [logSystemTables],
    which only reads.  A call that waits for a goroutine that is gone never
    returns: its outcome is [Panic blocked]. *)

From Stdlib Require Import ZArith Lia String Ascii.
From stdpp Require Import gmap strings list sorting pretty.
From S2P Require Import Prelude Hlc GoTime GoJson GoJsonFacts Metadata Sql Index Linearize Dolt ToyDolt Reconciler.
From S2P Require Import Walk Replay Db Node NodeFacts Gossip Server Swarm Lifecycle Peers Keys Manager.

Local Open Scope Z_scope.

Definition blocked : string := "blocked forever".
Definition nil_pointer : string := "invalid memory address or nil pointer dereference".

Definition dbName : string := "doltswarmdemo".
Definition tableName : string := "testtable".
Definition gossipTopic : string := "doltswarmdemo-gossip-v1".

(** ** Data *)

Record Flags := mkFlags {
  fl_log : string;
  fl_db : string;
  fl_port : Z;
  fl_noGUI : bool;
  fl_noCommits : bool;
  fl_commitInterval : Z;
  fl_listenAddr : string;
  fl_bootstrapPeers : list string;
}.

(** The functions in the map [stoppers]. *)
Inductive stopper := StopNode | StopP2P | StopUpdater.

(** The goroutine of [startCommitUpdater]: at its [select], sending a list on
    [commitListChan], or gone. *)
Inductive updater_phase := UpWaiting | UpSending (commits : list Commit) | UpStopped.

(** It has a ticker for the interface ([updateC]) and one for commits
    ([commitC]), or nil channels. *)
Record updater := mkUpdater { up_phase : updater_phase; up_updateC : bool; up_commitC : bool }.

(** What the interface shows, and whether its goroutine runs. *)
Record UI := mkUI {
  ui_peers : list string;
  ui_events : list string;
  ui_commits : list string;
  ui_running : bool;
}.

(** The line of a commit: the last sixteen bytes of a long committer. *)
Definition commit_line (c : Commit) : string :=
  let committer := c_Committer c in
  let committer := if (16 <? String.length committer)%nat
                   then "..." +:+ String.substring (String.length committer - 16) 16 committer
                   else committer in
  c_Hash c +:+ " [" +:+ committer +:+ "] " +:+ c_Message c.

(** [cap(commitListChan)] and [cap(uiLog.eventChan)] *)
Definition commit_list_cap : nat := 100.
Definition event_cap : nat := 5000.

(** [EventWriter.Write]: the channel of log lines; a full channel blocks. *)
Definition Write (p : string) (eventChan : list string) : option (nat * list string) :=
  if (length eventChan <? event_cap)%nat then Some (String.length p, eventChan ++ [p]) else None.

Section app.
Context {W P H C MA : Type} `{D : Dolt W} `{DR : Driver W} `{CR : Crypto}.
Context `{HH : !Host H C} `{DM : !Daemon W H PrivKey MA} `{PS : !PubSub H} `{R : GoRuntime}.
(** The manager holds [dbi] itself, hence no value of its own. *)
Local Abbreviation manager := (Manager H C NodeHandle unit).

(** The variables of the package and the goroutines.  [a_data] is what the
    database and the node keep in memory. *)
Record App := mkApp {
  a_proc : Proc W P;
  a_dbi : option DBHandle;
  a_data : Node W;
  a_signer : option Signer;
  a_p2pmgr : option manager;
  a_nodei : option NodeHandle;
  a_nodeCtx : bool;                  (* [Run] was started and its context is live *)
  a_stoppers : gmap string stopper;
  a_updater : option updater;
  a_commitList : list (list Commit);  (* [commitListChan] *)
  a_ui : option UI;
}.

Definition set_proc (p : Proc W P) (a : App) : App :=
  mkApp p (a_dbi a) (a_data a) (a_signer a) (a_p2pmgr a) (a_nodei a) (a_nodeCtx a) (a_stoppers a) (a_updater a) (a_commitList a) (a_ui a).
Definition set_dbi (d : option DBHandle) (a : App) : App :=
  mkApp (a_proc a) d (a_data a) (a_signer a) (a_p2pmgr a) (a_nodei a) (a_nodeCtx a) (a_stoppers a) (a_updater a) (a_commitList a) (a_ui a).
Definition set_data (n : Node W) (a : App) : App :=
  mkApp (a_proc a) (a_dbi a) n (a_signer a) (a_p2pmgr a) (a_nodei a) (a_nodeCtx a) (a_stoppers a) (a_updater a) (a_commitList a) (a_ui a).
Definition set_signer (s : option Signer) (a : App) : App :=
  mkApp (a_proc a) (a_dbi a) (a_data a) s (a_p2pmgr a) (a_nodei a) (a_nodeCtx a) (a_stoppers a) (a_updater a) (a_commitList a) (a_ui a).
Definition set_mgr (m : option manager) (a : App) : App :=
  mkApp (a_proc a) (a_dbi a) (a_data a) (a_signer a) m (a_nodei a) (a_nodeCtx a) (a_stoppers a) (a_updater a) (a_commitList a) (a_ui a).
Definition set_nodei (n : option NodeHandle) (ctx : bool) (a : App) : App :=
  mkApp (a_proc a) (a_dbi a) (a_data a) (a_signer a) (a_p2pmgr a) n ctx (a_stoppers a) (a_updater a) (a_commitList a) (a_ui a).
Definition set_stopper (k : string) (s : stopper) (a : App) : App :=
  mkApp (a_proc a) (a_dbi a) (a_data a) (a_signer a) (a_p2pmgr a) (a_nodei a) (a_nodeCtx a) (<[k := s]> (a_stoppers a)) (a_updater a) (a_commitList a) (a_ui a).
Definition set_updater (u : option updater) (l : list (list Commit)) (a : App) : App :=
  mkApp (a_proc a) (a_dbi a) (a_data a) (a_signer a) (a_p2pmgr a) (a_nodei a) (a_nodeCtx a) (a_stoppers a) u l (a_ui a).
Definition set_ui (u : option UI) (a : App) : App :=
  mkApp (a_proc a) (a_dbi a) (a_data a) (a_signer a) (a_p2pmgr a) (a_nodei a) (a_nodeCtx a) (a_stoppers a) (a_updater a) (a_commitList a) u.

Definition set_phase (ph : updater_phase) (l : list (list Commit)) (a : App) : App :=
  set_updater ((λ u, mkUpdater ph (up_updateC u) (up_commitC u)) <$> a_updater a) l a.

(** Calls of the components. *)
Definition in_proc {A} (m : M (Proc W P) A) : M App A := λ a,
  let '(r, p) := m (a_proc a) in (r, set_proc p a).
Definition in_world {A} (m : M W A) : M App A := in_proc (lift m).
Definition in_dbi {A} (m : M (Proc W P * DBHandle) A) : M App A := λ a,
  match a_dbi a with
  | None => (Panic nil_pointer, a)
  | Some d => let '(r, (p, d')) := m (a_proc a, d) in (r, set_dbi (Some d') (set_proc p a))
  end.
Definition in_mgr {A} (m : M manager A) : M App A := λ a,
  match a_p2pmgr a with
  | None => (Panic nil_pointer, a)
  | Some g => let '(r, g') := m g in (r, set_mgr (Some g') a)
  end.

(** Work on the repository and on the memory of the node, through the SQL
    handle of [dbi]. *)
Definition in_data {A} (m : M (Node W) A) : M App A := λ a,
  match a_dbi a ≫= h_sqldb with
  | None => (Panic nil_pointer, a)
  | Some h =>
      match pr_handles (a_proc a) !! h with
      | None => (Err sql_closed, a)
      | Some _ =>
          let '(r, n) := m (set_world (pr_world (a_proc a)) (a_data a)) in
          (r, set_data n (set_proc (set_world (get_world n) (a_proc a)) a))
      end
  end.

(** ** Stopping *)

Definition stop_updater : M App unit := λ a,
  match up_phase <$> a_updater a with
  | Some UpWaiting => (Ok tt, set_phase UpStopped (a_commitList a) a)
  | _ => (Panic blocked, a)
  end.

Definition stop_mgr : M App unit := λ a,
  match a_p2pmgr a with
  | None => (Panic nil_pointer, a)
  | Some g =>
      match stop g with
      | None => (Panic blocked, a)
      | Some (r, g') => (r, set_mgr (Some g') a)
      end
  end.

Definition stop_node : M App unit := λ a,
  match a_nodei a with
  | None => (Panic nil_pointer, a)
  | Some n => in_proc (node_Close n) (set_nodei (Some n) false a)
  end.

Definition run_stopper (s : stopper) : M App unit :=
  match s with StopNode => stop_node | StopP2P => stop_mgr | StopUpdater => stop_updater end.

(** [stoppers.Iter(...)]: errors are logged. *)
Fixpoint stop_each (l : list stopper) : M App unit :=
  match l with
  | [] => ret tt
  | s :: l => ignore (run_stopper s) ;;* stop_each l
  end.
Definition stop_all : M App unit := λ a,
  stop_each (range_map (map snd (map_to_list (a_stoppers a)))) a.

(** [catchSignals], once a signal has arrived. *)
Definition catchSignals : M App unit := stop_all.

(** ** The updater *)

(** A ticker needs a positive interval. *)
Definition startCommitUpdater (noGUI noCommits : bool) (commitInterval : Z) : M App unit := λ a,
  if negb noCommits && (wrap64 (commitInterval * second) <=? 0)
  then (Panic "non-positive interval for NewTicker", a)
  else (Ok tt, set_updater (Some (mkUpdater UpWaiting (negb noGUI) (negb noCommits))) (a_commitList a) a).

(** The text of the periodic statement and of its commit message. *)
Definition insert_statement (uid id timer : string) : string :=
  "INSERT INTO " +:+ tableName +:+ " (id, name) VALUES ('" +:+ uid +:+ "', '" +:+ id +:+ " - " +:+ timer +:+ "');".

Context (tx_Exec : conn → string → M (DB W) unit) (fuel : nat).

(** [nodei.ExecAndCommit] when there is a node, [dbi.ExecAndCommit]
    otherwise. *)
Definition exec_and_commit (statement msg : string) : M App string := λ a,
  match a_nodei a, a_signer a with
  | Some n, _ => in_data (node_ExecAndCommit (nh_cfg n) (exec_func tx_Exec statement) msg) a
  | None, Some s => in_data (on_db (db_ExecAndCommit s (exec_func tx_Exec statement) msg)) a
  | None, None => (Panic nil_pointer, a)
  end.

(** One iteration of the loop; a goroutine that is not at its [select] takes
    nothing.  [uid] is the answer of [ksuid.NewRandom], [timer] the time of the
    tick as a text. *)
Definition update_tick : M App unit := λ a,
  match a_updater a with
  | Some (mkUpdater UpWaiting true _) =>
      match in_data (GetAllCommits fuel) a with
      | (Ok commits, a') =>
          if (length (a_commitList a') <? commit_list_cap)%nat
          then (Ok tt, set_phase UpWaiting (a_commitList a' ++ [commits]) a')
          else (Ok tt, set_phase (UpSending commits) (a_commitList a') a')
      | (Err _, a') => (Ok tt, a')
      | (Panic e, a') => (Panic e, a')
      end
  | _ => (Ok tt, a)
  end.

Definition commit_tick (uid : result string) (timer : string) : M App unit := λ a,
  match a_updater a with
  | Some (mkUpdater UpWaiting _ true) =>
      match uid, a_p2pmgr a with
      | Ok uid, Some g => ignore (exec_and_commit (insert_statement uid (mg_GetID g) timer)
                                    ("Periodic commit at " +:+ timer)) a
      | Ok _, None => (Panic nil_pointer, a)
      | Err _, _ => (Ok tt, a)
      | Panic e, _ => (Panic e, a)
      end
  | _ => (Ok tt, a)
  end.

(** ** The interface *)

Context (ShortString : string → string).

(** What reaches the goroutine of [uiUpdate]: peers, a log line with the answer
    of [textView.Write], a list of commits, or Ctrl-C. *)
Inductive ui_input := UiPeers (peerList : list string) | UiEvent (event : string) (answer : result unit) | UiCommits | UiQuit.

Definition createUI : M App unit := modify (set_ui (Some (mkUI [] [] [] true))).

(** A list taken from [commitListChan] lets a blocked sender go on. *)
Definition uiUpdate (i : ui_input) : M App unit := λ a,
  match a_ui a with
  | Some (mkUI peers events commits true) =>
      match i with
      | UiPeers l => (Ok tt, set_ui (Some (mkUI (ShortString <$> l) events commits true)) a)
      | UiEvent e (Ok _) => (Ok tt, set_ui (Some (mkUI peers (events ++ [e]) commits true)) a)
      | UiEvent _ (Err err) | UiEvent _ (Panic err) => (Panic err, a)
      | UiCommits =>
          match a_commitList a with
          | [] => (Ok tt, a)
          | commitList :: l =>
              let a := set_ui (Some (mkUI peers events (commit_line <$> commitList) true)) a in
              match up_phase <$> a_updater a with
              | Some (UpSending waiting) => (Ok tt, set_phase UpWaiting (l ++ [waiting]) a)
              | _ => (Ok tt, set_updater (a_updater a) l a)
              end
          end
      | UiQuit => (Ok tt, set_ui (Some (mkUI peers events commits false)) a)
      end
  | _ => (Ok tt, a)
  end.

(** ** The commands *)

Context (ParseLevel : string → result unit) (fs : KeyFS W) (providers : P).
Context (other_store : CS → option string).         (* the type of a store that is not a [RemoteSrvStore] *)

Definition ensureDir (dirName : string) : M (Proc W P) unit := Lifecycle.ensureDir dirName.

(** The key as a signer; [GetID] and [PublicKey] panic when they fail. *)
Definition signer_of (k : PrivKey) : result Signer :=
  match key_GetID k with
  | Ok id => match key_PublicKey k with
             | Ok pub => Ok (key_signer k pub id)
             | Err e => Err e
             | Panic e => Panic e
             end
  | Err e => Err e
  | Panic e => Panic e
  end.

Definition funcBefore (f : Flags) : M App unit :=
  wrap_err "failed to parse log level: " (of_result (ParseLevel (fl_log f))) ;;*
  wrap_err "failed to create working directory: " (in_proc (ensureDir (fl_db f))) ;;*
  let* p2pKey := wrap_err "failed to create key: " (in_world (NewKey fs (fl_db f))) in
  let* signer := of_result (signer_of p2pKey) in
  modify (set_signer (Some signer)) ;;*
  let* t := in_world time_now in
  let* d := wrap_err "failed to create db: " (in_proc (Open (fl_db f) dbName true (Some signer))) in
  modify (λ a, set_dbi (Some d) (set_data (new_node (mkDB (pr_world (a_proc a)) (NewHLC (UnixNano t) (GetID signer)) [] [])) a)) ;;*
  let* g := wrap_err "failed to create p2p manager: "
              (in_world (NewManagerWithConfig (mkP2PConfig p2pKey (fl_port f) (fl_listenAddr f) (Some tt)
                                                 (fl_bootstrapPeers f) 0 0))) in
  modify (set_mgr (Some g)).

Definition funcAfter : M App unit := λ a,
  match a_dbi a with
  | None => (Ok tt, a)
  | Some _ => in_dbi (db_Close []) a
  end.

Definition node_config (s : option Signer) : NodeConfigIn :=
  mkConfigIn "" (mkRepo "" dbName) s (Some (true, true)) true 0 0 None 0.

(** [grpcswarm.NewChunkStoreServer(dbi)]: the path that it serves. *)
Definition NewChunkStoreServer : M (Proc W P * DBHandle) string :=
  let* cs := GetChunkStore in
  match other_store cs with
  | Some typ => fail ("chunk store is " +:+ typ +:+ " (expected remotesrv.RemoteSrvStore)")
  | None => gets (λ s, GetFilePath s.2)
  end.

Definition mgr_StartServer : M App unit :=
  let* cs := attempt (in_dbi NewChunkStoreServer) in
  in_mgr (StartServer match cs with Ok _ => Ok tt | Err e => Err e | Panic e => Panic e end).

(** [gossipsub.New] on the host, and what the manager uses of the object. *)
Definition gossip_New (topic : string) : M H (GossipObj H) :=
  let* g := New topic in
  ret (mkGossipObj (ListPeers (Some g)) (let* _ := EventHandler (Some g) in ret tt)).

Definition mgr_NewGossipSub : M App (GossipObj H) := λ a,
  match a_p2pmgr a with
  | None => (Err "p2p manager is nil", a)
  | Some _ => in_mgr (NewGossipSub gossip_New gossipTopic) a
  end.

(** The node is started when it can be; failures are logged. *)
Definition start_node : M App unit := λ a,
  match a_nodei a, a_signer a with
  | None, Some s =>
      match mgr_NewGossipSub a with
      | (Ok _, a) =>
          match in_proc (OpenNode (node_config (Some s)) (a_dbi a) providers) a with
          | (Ok n, a) =>
              (modify (set_nodei (Some n) true) ;;*
               in_mgr (λ g, (Ok tt, SetNode (Some n) g)) ;;*
               modify (set_stopper "node" StopNode)) a
          | (Err _, a) => (Ok tt, set_nodei None (a_nodeCtx a) a)
          | (Panic e, a) => (Panic e, a)
          end
      | (Err _, a) => (Ok tt, a)
      | (Panic e, a) => (Panic e, a)
      end
  | _, _ => (Ok tt, a)
  end.

(** What happens while the server waits: ticks of the updater, input of the
    interface, and what the peers do. *)
Inductive peer_event :=
| PeWatch (ctx : nat) (e : topic_event)
| PeDiscover
| PeAnnounce (info : AddrInfo) (waiting : bool)
| PeOpen (remote : string)
| PeClose (remote : string).

Definition peer_mg_op (e : peer_event) : mg_op (H := H) (N := NodeHandle) :=
  match e with
  | PeWatch ctx e => MWatch ctx e
  | PeDiscover => MDiscover
  | PeAnnounce info w => MAnnounce info w
  | PeOpen r => MOpen r
  | PeClose r => MClose r
  end.

Inductive tick :=
| TickUpdate
| TickCommit (uid : result string) (timer : string)
| TickUI (i : ui_input)
| TickPeers (e : peer_event).

Definition on_tick (t : tick) : M App unit :=
  match t with
  | TickUpdate => update_tick
  | TickCommit uid timer => commit_tick uid timer
  | TickUI i => uiUpdate i
  | TickPeers e => in_mgr (λ g, (Ok tt, mg_apply g (peer_mg_op e)))
  end.
Fixpoint on_ticks (l : list tick) : M App unit :=
  match l with [] => ret tt | t :: l => on_tick t ;;* on_ticks l end.

(** A signal that arrives while the server starts is handled at once, with the
    stoppers that are registered by then: [sig] is the point at which it
    arrives, if it does. *)
Definition at_point (sig : option nat) (k : nat) : M App unit :=
  if bool_decide (sig = Some k) then catchSignals else ret tt.

(** [p2pRun] until it waits. *)
Definition p2pRun_start (sig : option nat) (noGUI noCommits : bool) (commitInterval : Z) : M App unit :=
  let* a := gets id in
  match a_dbi a with
  | None => panic nil_pointer
  | Some d =>
      if negb (h_initialized d) then fail "db not initialized" else
      start_node ;;*
      at_point sig 0 ;;*
      mgr_StartServer ;;*
      at_point sig 1 ;;*
      modify (set_stopper "p2p" StopP2P) ;;*
      at_point sig 2 ;;*
      startCommitUpdater noGUI noCommits commitInterval ;;*
      at_point sig 3 ;;*
      modify (set_stopper "updater" StopUpdater) ;;*
      if negb noGUI then createUI else ret tt
  end.

(** How it ends.  Without an interface a signal ends the run; when it has
    arrived before ([early]) there is nothing to wait for.  With one, [gui.Run]
    returns [gui_Run]; a signal may have arrived before.  Only one signal is
    handled. *)
Definition p2pRun_end (early noGUI signalled : bool) (gui_Run : result unit) : M App unit :=
  if noGUI then (if early then ret tt else catchSignals) else
  (if signalled && negb early then catchSignals else ret tt) ;;*
  match gui_Run with
  | Ok _ => stop_all
  | Err e | Panic e => panic e
  end.

Definition p2pRun (sig : option nat) (noGUI noCommits : bool) (commitInterval : Z) (ticks : list tick) (signalled : bool)
    (gui_Run : result unit) : M App unit :=
  p2pRun_start sig noGUI noCommits commitInterval ;;*
  on_ticks ticks ;;*
  p2pRun_end (bool_decide (is_Some sig)) noGUI signalled gui_Run.

(** *** [init] *)

Definition create_table : string :=
  let nl := String "010" "" in
  let tabs := String "009" (String "009" (String "009" "")) in
  "CREATE TABLE IF NOT EXISTS " +:+ tableName +:+ "(" +:+ nl
    +:+ tabs +:+ String "009" ("id varchar(256) PRIMARY KEY," +:+ nl)
    +:+ tabs +:+ String "009" ("name varchar(512)" +:+ nl)
    +:+ tabs +:+ "  );".

Definition InitLocal_dbi : M App unit := λ a,
  match a_signer a with
  | None => (Panic nil_pointer, a)
  | Some s => in_dbi (InitLocal s) a
  end.

Definition init_local : M App unit :=
  wrap_err "failed to init local db: " InitLocal_dbi ;;*
  let* _ := wrap_err "failed to create table: " (exec_and_commit create_table "Initialize doltswarmdemo") in
  ret tt.

(** The loop of synchronizations: [rounds] is how many fit before the context
    expires, [expired] the error of a synchronization after that. *)
Context (expired : string).

Fixpoint sync_until_unchanged (n : NodeHandle) (rounds : nat) : M App unit :=
  match rounds with
  | O => fail ("sync failed: " +:+ expired)
  | S rounds =>
      let* changed := wrap_err "sync failed: "
        (in_data (Sync (nh_cfg n) (installReconcilerHooks NewReconciler) fuel)) in
      if negb changed then ret tt else sync_until_unchanged n rounds
  end.

(** While the loop waits for a connection the manager does its work:
    [waiting]. *)
Definition init_peer (waiting : list peer_event) (rounds : nat) : M App unit :=
  wrap_err "failed to init local db for peer bootstrap: " InitLocal_dbi ;;*
  let* r := attempt mgr_StartServer in
  match r with
  | Err e | Panic e => panic e
  | Ok _ =>
      deferred
        (let* _ := wrap_err "failed to init gossip: " mgr_NewGossipSub in
         let* a := gets id in
         let* n := wrap_err "failed to open node: "
                     (in_proc (OpenNode (node_config (a_signer a)) (a_dbi a) providers)) in
         deferred
           (on_ticks (TickPeers <$> waiting) ;;* sync_until_unchanged n rounds)
           (ignore (in_proc (node_Close n))))
        (ignore stop_mgr)
  end.

Definition Init (localInit : bool) (peerInit : string) (waiting : list peer_event) (rounds : nat) : M App unit :=
  if localInit && negb (String.eqb peerInit "") then fail "cannot specify both local and peer init" else
  if localInit then init_local
  else if negb (String.eqb peerInit "") then init_peer waiting rounds
  else fail "must specify either local or peer init".

(** *** The commands, as the library [cli] runs them: [After] whatever [Before]
    and the action returned, the two errors joined by [multi_error].  A panic
    ends the process. *)
Context (multi_error : string → string → string).

Definition command (before action after : M App unit) : M App unit := λ a,
  match (before ;;* action) a with
  | (Panic e, a1) => (Panic e, a1)
  | (r, a1) =>
      match r, after a1 with
      | Err e, (Err e', a2) => (Err (multi_error e e'), a2)
      | Ok _, (r', a2) => (r', a2)
      | _, (_, a2) => (r, a2)
      end
  end.

Definition server (f : Flags) (sig : option nat) (ticks : list tick) (signalled : bool) (gui_Run : result unit) : M App unit :=
  command (funcBefore f) (p2pRun sig (fl_noGUI f) (fl_noCommits f) (fl_commitInterval f) ticks signalled gui_Run) funcAfter.

Definition init (f : Flags) (localInit : bool) (peerInit : string) (waiting : list peer_event) (rounds : nat) : M App unit :=
  command (funcBefore f) (Init localInit peerInit waiting rounds) funcAfter.

(** The line that [status] prints. *)
Definition status (f : Flags) (a : App) : option string :=
  match (funcBefore f) a with
  | (Ok _, a1) => (λ g, "PEER ID: " +:+ mg_GetID g) <$> a_p2pmgr a1
  | _ => None
  end.
End app.
