(* ===== verification/AppFacts.v ===== *)
(** * Starting and stopping the program

    What the command [server] leaves behind: the stoppers run in the order of
    an iteration over a map, and each of them touches a part of the state that
    the others do not. *)

From Stdlib Require Import ZArith Lia String Ascii.
From stdpp Require Import gmap strings list sorting pretty.
From S2P Require Import Prelude Hlc GoTime GoJson GoJsonFacts Metadata Sql Index Linearize Dolt ToyDolt Reconciler.
From S2P Require Import Walk Replay Db Node NodeFacts Gossip Server Swarm Lifecycle Peers Base64 Keys Manager App.

Local Open Scope Z_scope.

Section stopping.
Context {W P H C MA : Type} `{D : Dolt W} `{DR : Driver W} `{CR : Crypto}.
Context `{HH : !Host H C} `{DM : !Daemon W H PrivKey MA} `{PS : !PubSub H} `{R : GoRuntime}.
Local Abbreviation app := (App (W := W) (P := P) (H := H) (C := C)).
Local Abbreviation manager := (Manager H C NodeHandle unit).

Definition repo : RepoID := mkRepo "" dbName.

(** What a stopper needs, and what holds once it has run. *)
Definition ready (s : stopper) (a : app) : Prop :=
  match s with
  | StopNode => ∃ n, a_nodei a = Some n ∧ nh_ownsDB n = false ∧ cfg_Repo (nh_cfg n) = repo
  | StopP2P => ∃ g, a_p2pmgr a = Some g ∧ mg_discovery g = true ∧ watch_ok g
  | StopUpdater => up_phase <$> a_updater a = Some UpWaiting
  end.

(** The manager follows no topic, and serves, discovers and announces nothing.
    The goroutine that sends the bootstrap peers is not covered: see
    [Manager.bootstrap_sender_stuck]. *)
Definition quiet (g : manager) : Prop :=
  mg_watchers g = ∅ ∧ mg_serving g = false ∧ mg_discovery g = false ∧ mg_mdns g = false.

Definition stopped (s : stopper) (a : app) : Prop :=
  match s with
  | StopNode => a_nodeCtx a = false ∧ pr_registry (a_proc a) !! repo = None
  | StopP2P => ∃ g, a_p2pmgr a = Some g ∧ quiet g
  | StopUpdater => up_phase <$> a_updater a = Some UpStopped
  end.

(** What no stopper touches. *)
Definition same_db (a a' : app) : Prop :=
  a_dbi a' = a_dbi a ∧ pr_handles (a_proc a') = pr_handles (a_proc a) ∧ a_stoppers a' = a_stoppers a ∧
  a_nodei a' = a_nodei a.

#[export] Instance same_db_refl : Reflexive same_db.
Proof. by intros a. Qed.
#[export] Instance same_db_trans : Transitive same_db.
Proof. intros a b c (?&?&?&?) (?&?&?&?). split_and!; congruence. Qed.

#[export] Instance stopper_eq : EqDecision stopper.
Proof. solve_decision. Defined.

Context (close_returns : ∀ h e, (host_Close h).1 ≠ Panic e).

(** The calls that a server is serving when it is stopped come to an end. *)
Definition graceful : Prop := ∀ h : H, is_Some (GracefulStop h).

Lemma stop_quiet (g : manager) :
  mg_discovery g = true → watch_ok g →
  (stop g = None ∧ ¬ graceful) ∨ ∃ r g', stop g = Some (r, g') ∧ (∀ e, r ≠ Panic e) ∧ quiet g'.
Proof.
  intros Hd Hw. destruct (stop g) as [[r g']|] eqn:Es; [right|left; split; [done|]].
  - exists r, g'. split; [done|]. destruct (stop_watch g r g' Es Hw) as [Hg _].
    unfold stop in Es. rewrite Hd in Es. cbn [negb] in Es. cbv zeta in Es.
    destruct (GracefulStop _) as [h0|]; [|done].
    destruct (host_Close _) as [r' h] eqn:Ec. injection Es as <- <-. split; [|by split_and!].
    intros e ->. eapply close_returns. by rewrite Ec.
  - unfold stop in Es. rewrite Hd in Es. cbn [negb] in Es. cbv zeta in Es. intros Hg.
    destruct (GracefulStop _) as [h0|] eqn:Eg; [by destruct (host_Close _)|].
    match type of Eg with GracefulStop ?h = _ => destruct (Hg h) as [? E] end. congruence.
Qed.

(** What a run of stoppers has done when it returned. *)
Definition returned (m : result unit * app) (Q : app → Prop) : Prop :=
  (m.1 = Panic blocked ∧ ¬ graceful) ∨ ∃ a', m = (Ok tt, a') ∧ Q a'.

Lemma graceful_returned m Q : graceful → returned m Q → ∃ a', m = (Ok tt, a') ∧ Q a'.
Proof. intros Hg [[_ Hn]|Hr]; done. Qed.

(** A stopper that is ready leaves the others alone and runs to its end, unless
    the server waits for a call that does not end. *)
Lemma run_stopper_ready s a :
  ready s a → returned (ignore (run_stopper s) a) (λ a', stopped s a' ∧ same_db a a' ∧
    ∀ s', s' ≠ s → (ready s' a → ready s' a') ∧ (stopped s' a → stopped s' a')).
Proof.
  destruct s; cbn [ready run_stopper]; unfold ignore.
  - intros (n & Hn & Ho & Hr). unfold stop_node. rewrite Hn. unfold in_proc, node_Close, bind, Unregister, modify.
    cbn [a_proc set_nodei set_proc]. rewrite Ho. cbn. right. eexists. split; [done|]. rewrite Hr. split_and!; [done| |done|].
    + cbn. apply lookup_delete_eq.
    + intros [] Hne; try done; by split.
  - intros (g & Hg & Hd & Hw). unfold stop_mgr. rewrite Hg.
    destruct (stop_quiet g Hd Hw) as [[-> Hb]|(r & g' & -> & Hr & Hq)]; [by left|right].
    exists (set_mgr (Some g') a). split; [by destruct r as [[]| |]; [..|destruct (Hr e)]|].
    split_and!; [by exists g'|by split_and!|]. intros [] Hne; try done; by split.
  - intros Hu. unfold stop_updater. rewrite Hu. right. eexists. split; [done|]. split_and!; [|by split_and!|].
    + cbn. by destruct (a_updater a).
    + intros [] Hne; try done; by split.
Qed.

Lemma stop_each_ready l a :
  NoDup l → (∀ s, s ∈ l → ready s a) →
  returned (stop_each l a) (λ a', same_db a a' ∧ (∀ s, s ∈ l → stopped s a') ∧
    ∀ s, s ∉ l → stopped s a → stopped s a').
Proof.
  revert a. induction l as [|s l IH]; intros a Hnd Hl.
  { right. exists a. split_and!; [done|done|set_solver|done]. }
  apply NoDup_cons in Hnd as [Hs Hnd]. cbn [stop_each]. unfold bind.
  destruct (run_stopper_ready s a (Hl s ltac:(set_solver))) as [[Hp Hb]|(a1 & -> & H1 & Hsame & Hother)].
  { left. split; [|done]. destruct (ignore _ a) as [r a1]. cbn in Hp. by subst r. }
  destruct (IH a1 Hnd) as [[Hp Hb]|(a2 & -> & Hsame2 & Hin & Hout)]; [|by left|].
  { intros s' Hs'. apply Hother; [set_solver|]. apply Hl. set_solver. }
  right. exists a2. split; [done|]. split; [by etrans|]. split.
  - intros s' [->|Hs']%elem_of_cons; [by apply Hout|by apply Hin].
  - intros s' [Hne Hs']%not_elem_of_cons Hst. apply Hout; [done|]. by apply Hother.
Qed.

(** Running the updater's stopper again never ends. *)
Lemma stop_each_again l a :
  StopUpdater ∈ l → stopped StopP2P a → stopped StopUpdater a →
  (StopNode ∈ l → ready StopNode a) → (stop_each l a).1 = Panic blocked.
Proof.
  revert a. induction l as [|s l IH]; intros a Hin Hp Hu Hn; [set_solver|].
  cbn [stop_each]. unfold bind. destruct s.
  - destruct (run_stopper_ready StopNode a (Hn ltac:(set_solver))) as [[Hb _]|(a1 & -> & _ & Hsame & Ho)].
    { destruct (ignore _ a) as [r a1]. cbn in Hb. by subst r. }
    apply IH; [set_solver|by apply Ho|by apply Ho|]. intros _.
    cbn [ready]. rewrite (proj2 (proj2 (proj2 Hsame))). apply (Hn ltac:(set_solver)).
  - destruct Hp as (g & Hg & _ & _ & Hd & _). unfold ignore. cbn [run_stopper]. unfold stop_mgr.
    rewrite Hg. unfold stop. by rewrite Hd.
  - unfold ignore. cbn [run_stopper]. unfold stop_updater. cbn in Hu. by rewrite Hu.
Qed.
End stopping.

(** ** A run of the server *)

Section running.
Context {W P H C MA : Type} `{D : Dolt W} `{DR : Driver W} `{CR : Crypto}.
Context `{HH : !Host H C} `{DM : !Daemon W H PrivKey MA} `{PS : !PubSub H} `{R : GoRuntime}.
Context (tx_Exec : conn → string → M (DB W) unit) (fuel : nat) (ShortString : string → string).
Context (ParseLevel : string → result unit) (fs : KeyFS W) (providers : P).
Context (other_store : CS → option string).
Local Abbreviation app := (App (W := W) (P := P) (H := H) (C := C)).

(** The process before the command. *)
Definition fresh (a : app) : Prop :=
  proc_wf (a_proc a) ∧ pr_registry (a_proc a) !! repo = None ∧ a_dbi a = None ∧ a_p2pmgr a = None ∧
  a_nodei a = None ∧ a_nodeCtx a = false ∧ a_stoppers a = ∅ ∧ a_updater a = None.

(** One SQL handle more than in [p0], that of [dbi]. *)
Definition serving (p0 : Proc W P) (a : app) : Prop :=
  ∃ d h dsn, a_dbi a = Some d ∧ h_sqldb d = Some h ∧ pr_handles p0 !! h = None ∧
    pr_handles (a_proc a) = <[h := dsn]> (pr_handles p0).

Definition base_stoppers (m : gmap string stopper) : gmap string stopper :=
  <["updater" := StopUpdater]> (<["p2p" := StopP2P]> m).

(** The state while the server waits; [b] says whether there is an interface to
    update. *)
Record started (p0 : Proc W P) (b : bool) (a : app) : Prop := {
  st_serving : serving p0 a;
  st_p2p : ready StopP2P a;
  st_updater : ∃ ph c, a_updater a = Some (mkUpdater ph b c) ∧ (b = false → ph = UpWaiting) ∧ ph ≠ UpStopped;
  st_node : (a_stoppers a = base_stoppers ∅ ∧ stopped StopNode a) ∨
            (a_stoppers a = base_stoppers {["node" := StopNode]} ∧ ready StopNode a);
}.

(** The parts of the state that [started] looks at. *)
Definition frame (a a' : app) : Prop :=
  same_db a a' ∧ pr_registry (a_proc a') = pr_registry (a_proc a) ∧ a_nodeCtx a' = a_nodeCtx a.
Definition quiet_frame (a a' : app) : Prop :=
  frame a a' ∧ a_p2pmgr a' = a_p2pmgr a ∧ a_updater a' = a_updater a.

#[export] Instance quiet_frame_trans : Transitive quiet_frame.
Proof.
  intros a b c ((F1 & F2 & F3) & F4 & F5) ((I1 & I2 & I3) & I4 & I5).
  split; [split; [by etrans|split]|split]; congruence.
Qed.

Lemma in_data_frame {A} (m : M (Node W) A) a : quiet_frame a (in_data m a).2.
Proof.
  unfold in_data. destruct (a_dbi a ≫= h_sqldb); [|by split_and!].
  destruct (pr_handles _ !! _); [|by split_and!]. destruct (m _) as [r n']. by split_and!.
Qed.

Lemma exec_and_commit_frame st msg (a : app) : quiet_frame a (exec_and_commit tx_Exec st msg a).2.
Proof.
  unfold exec_and_commit. destruct (a_nodei a); [apply in_data_frame|].
  destruct (a_signer a); [apply in_data_frame|by split_and!].
Qed.

Lemma started_frame p0 b a a' :
  started p0 b a → frame a a' → ready StopP2P a' →
  (∃ ph c, a_updater a' = Some (mkUpdater ph b c) ∧ (b = false → ph = UpWaiting) ∧ ph ≠ UpStopped) →
  started p0 b a'.
Proof.
  intros [Hs _ _ Hn] ((Ed & Eh & Est & En) & Er & Ec) Hp Hu. split; [|done|done|].
  - destruct Hs as (d & h & dsn & ?). exists d, h, dsn. by rewrite Ed, Eh.
  - rewrite Est. cbn [stopped ready] in *. by rewrite Er, En, Ec.
Qed.

Lemma started_quiet p0 b a a' : started p0 b a → quiet_frame a a' → started p0 b a'.
Proof.
  intros Hs (Hf & Ep & Eu). apply (started_frame p0 b a a' Hs Hf); cbn [ready].
  - rewrite Ep. apply (st_p2p _ _ _ Hs).
  - rewrite Eu. apply (st_updater _ _ _ Hs).
Qed.

Lemma discovery_peer_event (g : Manager H C NodeHandle unit) e :
  mg_discovery (mg_apply g (peer_mg_op e)) = mg_discovery g.
Proof.
  destruct e as [ctx e| |info w|r|r]; cbn [peer_mg_op mg_apply]; [| | |done|done].
  - unfold watch. case_bool_decide; [|done]. by destruct e.
  - unfold discover. destruct (negb _); [done|]. by destruct (mg_found g).
  - unfold announce. by destruct (_ && _).
Qed.

(** Whatever happens while the server waits, it can be stopped. *)
Lemma started_tick p0 b t a :
  started p0 b a → started p0 b (on_tick tx_Exec fuel ShortString t a).2.
Proof.
  intros Hs. pose proof (st_updater _ _ _ Hs) as (ph & c & Hu & Hb & Hns).
  pose proof (st_p2p _ _ _ Hs) as Hp.
  destruct t as [|uid timer|i|e]; cbn [on_tick].
  - unfold update_tick. rewrite Hu. destruct ph; [|done|done]. destruct b; [|done].
    pose proof (in_data_frame (GetAllCommits fuel) a) as Hf'.
    destruct (in_data (GetAllCommits fuel) a) as [[commits|e|e] a']; cbn [snd] in Hf' |- *;
      [|by eapply started_quiet..].
    destruct Hf' as (Hf & Ep & Eu).
    destruct (_ <? _)%nat; cbn [snd]; (apply (started_frame p0 true a); [done|done|cbn; by rewrite Ep|]);
      cbn; rewrite Eu, Hu; cbn; naive_solver.
  - unfold commit_tick. rewrite Hu. destruct ph; [|done|done]. destruct c; [|done].
    destruct uid as [uid| |], (a_p2pmgr a) as [g|]; try done. unfold ignore.
    pose proof (exec_and_commit_frame (insert_statement uid (mg_GetID g) timer) ("Periodic commit at " +:+ timer) a) as Hf.
    destruct (exec_and_commit _ _ _ a) as [[] a']; by eapply started_quiet.
  - unfold uiUpdate. destruct (a_ui a) as [[peers events commits []]|]; [|done|done].
    destruct i as [l|e [] | |]; try done; try by eapply started_quiet; [exact Hs|split_and!].
    destruct (a_commitList a) as [|cl l]; [done|]. cbn [a_updater set_ui]. rewrite Hu. cbn.
    destruct ph; cbn [snd]; (apply (started_frame p0 b a); [done|done|done|]); cbn; rewrite ?Hu; cbn; naive_solver.
  - unfold in_mgr. destruct Hp as (g & Hg & Hd & Hw). rewrite Hg.
    apply (started_frame p0 b a); [done|done| |naive_solver].
    eexists. split_and!; [done| |by apply watch_apply]. by rewrite discovery_peer_event.
Qed.

Lemma started_ticks p0 b l a :
  started p0 b a → started p0 b (on_ticks tx_Exec fuel ShortString l a).2.
Proof.
  revert a. induction l as [|t l IH]; intros a Hs; [done|]. cbn [on_ticks]. unfold bind.
  pose proof (started_tick p0 b t a Hs) as Ht. destruct (on_tick _ _ _ t a) as [[[]|e|e] a1]; [|done..]. by apply IH.
Qed.
(** *** Starting *)

(** After [funcBefore]. *)
Definition prepared (p0 : Proc W P) (a : app) : Prop :=
  serving p0 a ∧ (∃ g, a_p2pmgr a = Some g ∧ watch_ok g) ∧ stopped StopNode a ∧ a_nodei a = None ∧ a_stoppers a = ∅.

Lemma wf_same_handles (p p' : Proc W P) : proc_wf p → same_handles p p' → proc_wf p'.
Proof. intros Hp (E1 & E2 & _) i dsn. rewrite E1, E2. apply Hp. Qed.

Lemma in_proc_Ok {A} (m : M (Proc W P) A) (a a' : app) x :
  in_proc m a = (Ok x, a') → ∃ p', m (a_proc a) = (Ok x, p') ∧ a' = set_proc p' a.
Proof. unfold in_proc. destruct (m (a_proc a)) as [r p']. intros [= -> <-]. eauto. Qed.

Lemma in_world_Ok {A} (m : M W A) (a a' : app) x :
  in_world m a = (Ok x, a') → ∃ w w', m w = (Ok x, w') ∧ ∃ p', a' = set_proc p' a ∧ same_handles (a_proc a) p'.
Proof.
  intros (p' & Hm & ->)%in_proc_Ok. pose proof (same_lift m (a_proc a)) as Hs. unfold lift in Hm, Hs.
  destruct (m (get_world (a_proc a))) as [r w'] eqn:E. injection Hm as -> <-. eauto 6.
Qed.

(** The database was opened once, and the manager has done nothing yet. *)
Definition opened (p0 : Proc W P) (a : app) : Prop :=
  ∃ d h dsn, a_dbi a = Some d ∧ h_sqldb d = Some h ∧ one_more p0 (a_proc a) h dsn.

Lemma funcBefore_opened f a a' :
  fresh a → funcBefore ParseLevel fs f a = (Ok tt, a') →
  opened (a_proc a) a' ∧ (∃ g, a_p2pmgr a' = Some g ∧ watch_ok g ∧ quiet g) ∧ stopped StopNode a' ∧
  a_nodei a' = None ∧ a_stoppers a' = ∅.
Proof.
  intros (Hwf & Hreg & Hdb & Hm & Hn & Hc & Hst & Hu). unfold funcBefore.
  intros (u1 & a1 & E1%wrap_Ok & E)%bind_Ok. injection E1 as _ <-.
  apply bind_Ok in E as (u2 & a2 & (p2 & E2 & ->)%wrap_Ok%in_proc_Ok & E).
  pose proof (same_ensureDir (fl_db f) (a_proc a)) as S2. unfold App.ensureDir in E2. rewrite E2 in S2. cbn [snd] in S2.
  apply bind_Ok in E as (k & a3 & (w & w' & _ & p3 & -> & S3)%wrap_Ok%in_world_Ok & E).
  apply bind_Ok in E as (signer & a4 & E4 & E). injection E4 as E4 <-.
  apply bind_Ok in E as (u5 & a5 & E5 & E). injection E5 as _ <-.
  apply bind_Ok in E as (t & a6 & (w6 & w6' & _ & p6 & -> & S6)%in_world_Ok & E).
  apply bind_Ok in E as (d & a7 & (p7 & E7 & ->)%wrap_Ok%in_proc_Ok & E).
  apply bind_Ok in E as (u8 & a8 & E8 & E). injection E8 as _ <-.
  apply bind_Ok in E as (g & a9 & (w9 & w9' & E9 & p9 & -> & S9)%wrap_Ok%in_world_Ok & E). injection E as <-.
  cbn [a_proc set_proc set_dbi set_data set_signer] in *.
  assert (same_handles (a_proc a) p6) as S6' by (do 2 (etrans; [eassumption|]); done).
  apply Open_session in E7 as (h & Hh & _ & Hone); [|by eapply wf_same_handles].
  pose proof (one_more_same _ _ _ _ _ (same_one_more _ _ _ _ _ S6' Hone) S9) as Hm9. pose proof Hm9 as (_ & _ & _ & _ & H5).
  split_and!; cbn [set_mgr set_proc set_dbi set_data set_signer a_dbi a_p2pmgr a_nodei a_stoppers].
  - exists d, h. eexists. by split_and!.
  - exists g. split; [done|]. unfold Manager.NewManagerWithConfig in E9.
    apply bind_Ok in E9 as (? & ? & _ & E9). apply bind_Ok in E9 as (? & ? & _ & E9). injection E9 as <- <-.
    split; [split; cbn; [set_solver|done]|by split_and!].
  - split; [exact Hc|]. cbn. by rewrite H5.
  - done.
  - done.
Qed.

Lemma opened_serving p0 a : opened p0 a → serving p0 a.
Proof. intros (d & h & dsn & Hd & Hh & H1 & H2 & _). by exists d, h, dsn. Qed.

Lemma funcBefore_prepared f a a' :
  fresh a → funcBefore ParseLevel fs f a = (Ok tt, a') → prepared (a_proc a) a'.
Proof.
  intros Hf (Ho & (g & Hg & Hw & _) & Hrest)%funcBefore_opened; [|done].
  split; [by apply opened_serving|]. split; [by exists g|done].
Qed.

Lemma OpenNode_shared cfg d (p p' : Proc W P) r :
  OpenNode cfg (Some d) providers p = (r, p') →
  pr_handles p' = pr_handles p ∧
  match r with
  | Ok n => nh_ownsDB n = false ∧ cfg_Repo (nh_cfg n) = in_Repo cfg
  | Err _ => pr_registry p' = pr_registry p
  | Panic _ => True
  end.
Proof.
  unfold OpenNode, bind, of_result. destruct (OpenNode_config cfg) as [c|e|e] eqn:Hc; [|by intros [= <- <-]..].
  unfold Register, modify, ignore. cbn. set (q := mkProc _ _ _ _ _).
  pose proof (same_on_handle (h_sqldb d) (λ _, EnsureSwarmRemote (HW:=self_world W) (cfg_Repo c)) q) as (S1 & _ & _).
  assert (cfg_Repo c = in_Repo cfg) as Hrepo.
  { unfold OpenNode_config in Hc. destruct (String.eqb _ _); [done|]. destruct (in_Signer cfg); [|done].
    destruct (in_Transport cfg) as [[gossip prov]|]; [|done]. repeat (case_match; [done|]). by injection Hc as <-. }
  destruct (on_handle _ _ q) as [[u|e|e] q2]; cbn in S1 |- *; intros [= <- <-]; by rewrite S1.
Qed.
(** After the attempt to start a node. *)
Definition with_node (p0 : Proc W P) (a : app) : Prop :=
  serving p0 a ∧ (∃ g, a_p2pmgr a = Some g ∧ watch_ok g) ∧
  ((a_stoppers a = ∅ ∧ stopped StopNode a) ∨ (a_stoppers a = {["node" := StopNode]} ∧ ready StopNode a)).

Lemma start_node_spec p0 a a' :
  prepared p0 a → start_node providers a = (Ok tt, a') → with_node p0 a'.
Proof.
  intros (Hs & (g & Hg & Hw) & Hn & Hni & Hst). unfold start_node. rewrite Hni.
  destruct (a_signer a) as [s|]; [|intros [= <-]; split_and!; eauto].
  unfold mgr_NewGossipSub, in_mgr. rewrite Hg. unfold NewGossipSub.
  destruct (gossip_New gossipTopic _) as [[gs|e|e] h]; [|intros [= <-]..|done].
  2:{ split_and!; [done| |by left]. eexists. split; [done|]. by eapply same_watch_ok; [|exact Hw]. }
  set (g1 := setGossip _ _).
  assert (watch_ok g1) as Hg1 by (apply setGossip_watch; by eapply same_watch_ok; [|exact Hw]).
  set (a1 := set_mgr (Some g1) a). destruct Hs as (d & hd & dsn & Hd & Hh & H1 & H2).
  unfold in_proc. change (a_dbi a1) with (a_dbi a). change (a_proc a1) with (a_proc a). rewrite Hd.
  destruct (OpenNode _ _ _ (a_proc a)) as [[n|e|e] p'] eqn:E; apply OpenNode_shared in E as [Eh Er]; [| |done].
  - unfold bind, modify, in_mgr. cbn. intros [= <-]. destruct Er as [Ho Hr]. split_and!; cbn.
    + exists d, hd, dsn. cbn. split_and!; [done..|congruence].
    + eexists. split; [done|]. by eapply same_watch_ok; [|exact Hg1].
    + right. rewrite Hst. split; [done|]. exists n. by split_and!.
  - intros [= <-]. split_and!; cbn.
    + exists d, hd, dsn. cbn. split_and!; [done..|congruence].
    + by exists g1.
    + left. split; [done|]. destruct Hn as [Hn1 Hn2]. split; [done|]. cbn. congruence.
Qed.

Lemma NewChunkStoreServer_session p d :
  (NewChunkStoreServer (P:=P) other_store (p, d)).2.2 = d ∧
  same_handles p (NewChunkStoreServer other_store (p, d)).2.1.
Proof.
  unfold NewChunkStoreServer, GetChunkStore, bind, wrap_err, gets. rewrite with_sqldb_spec.
  assert (∃ r q, sql_Conn (h_sqldb d) p = (r, q) ∧ same_handles p q) as (r & q & -> & Sq).
  { unfold sql_Conn. destruct (h_sqldb d) as [i|]; [|by eexists _, _]. destruct (pr_handles p !! i); by eexists _, _. }
  destruct r as [[]|e|e]; [|done..]. rewrite with_sqldb_spec. cbn [id fst snd].
  pose proof (same_on_handle (h_sqldb d) (λ dsn w, (drv_Raw dsn w, w)) q) as Sh.
  destruct (on_handle _ _ q) as [[env|e|e] q']; cbn [snd] in Sh; [|by split; [|etrans]..].
  destruct env as [GetEnv|]; [|by split; [|etrans]]. destruct (GetEnv (h_name d)) as [cs|]; [|by split; [|etrans]].
  cbn. destruct (other_store cs); by split; [|etrans].
Qed.

Lemma mgr_StartServer_spec p0 a a' :
  with_node p0 a → mgr_StartServer other_store a = (Ok tt, a') →
  with_node p0 a' ∧ ready StopP2P a' ∧ frame a a'.
Proof.
  intros (Hs & (g & Hg & Hw) & Hn) (cs & a1 & E1 & E)%bind_Ok.
  destruct Hs as (d & h & dsn & Hd & Hh & H1 & H2).
  unfold attempt, in_dbi in E1. rewrite Hd in E1. pose proof (NewChunkStoreServer_session (a_proc a) d) as (Ed & Eh & _ & Er).
  destruct (NewChunkStoreServer _ _) as [r [p' d']]. cbn [fst snd] in Ed, Eh, Er. subst d'.
  assert (a1 = set_dbi (Some d) (set_proc p' a)) as -> by (destruct r; by injection E1).
  unfold in_mgr in E. cbn [a_p2pmgr set_dbi set_proc] in E. rewrite Hg in E. set (c := match cs with Ok _ => _ | _ => _ end) in E.
  pose proof (start_same_watch c g) as Hsw. destruct (StartServer c g) as [r' g'] eqn:Eg. cbn [snd] in Hsw.
  injection E as -> <-. assert (watch_ok g') as Hw' by by eapply same_watch_ok.
  split; [split_and!|split; [|split; [by split_and!|done]]].
  - exists d, h, dsn. cbn. split_and!; [done..|congruence].
  - by exists g'.
  - cbn. rewrite Er. exact Hn.
  - exists g'. split_and!; [done| |done]. unfold StartServer in Eg.
    destruct (Listen _) as [[u|e|e] hl]; [|done..]. destruct (mdns_Start _) as [[u'|e|e] hm]; [|done..].
    by injection Eg as <-.
Qed.

Lemma no_signal {A} sig k (m : M app A) a x a' :
  bool_decide (sig = Some k) = false → (at_point sig k ;;* m) a = (x, a') → m a = (x, a').
Proof. intros Hs. unfold at_point. by rewrite Hs. Qed.

Lemma p2pRun_start_spec noGUI noCommits interval p0 a a' :
  prepared p0 a →
  p2pRun_start providers other_store None noGUI noCommits interval a = (Ok tt, a') →
  started p0 (negb noGUI) a'.
Proof.
  intros Hp. unfold p2pRun_start, bind at 1, gets, id. destruct (a_dbi a) as [d|]; [|done].
  destruct (negb (h_initialized d)); [done|].
  intros ([] & a1 & E1%(start_node_spec p0) & E)%bind_Ok; [|done].
  apply no_signal in E; [|done]. apply bind_Ok in E as ([] & a2 & (Hn & Hr & _)%(mgr_StartServer_spec p0) & E); [|done].
  apply no_signal in E; [|done]. apply bind_Ok in E as ([] & a3 & E3 & E). injection E3 as <-.
  apply no_signal in E; [|done]. apply bind_Ok in E as ([] & a4 & E4 & E). unfold startCommitUpdater in E4. destruct (_ && _); [done|]. injection E4 as <-.
  apply no_signal in E; [|done].
  apply bind_Ok in E as ([] & a5 & E5 & E). injection E5 as <-.
  assert (∀ u, started p0 (negb noGUI) (set_ui u (set_stopper "updater" StopUpdater
    (set_updater (Some (mkUpdater UpWaiting (negb noGUI) (negb noCommits))) (a_commitList (set_stopper "p2p" StopP2P a2))
      (set_stopper "p2p" StopP2P a2))))) as Hst.
  { intros u. destruct Hn as (Hs & _ & Hn). split; [exact Hs|exact Hr|cbn; naive_solver|].
    destruct Hn as [[Hst Hn]|[Hst Hn]]; [left|right]; cbn; (split; [|exact Hn]); unfold base_stoppers; by rewrite Hst. }
  destruct (negb noGUI); injection E as <-; [apply Hst|].
  specialize (Hst (a_ui a2)). exact Hst.
Qed.
(** *** Stopping *)

Lemma stoppers_of (m : gmap string stopper) l :
  map snd (map_to_list m) = l → NoDup l →
  NoDup (range_map (map snd (map_to_list m))) ∧ ∀ s : stopper, s ∈ range_map (map snd (map_to_list m)) ↔ s ∈ l.
Proof.
  intros El Hl. pose proof (range_map_perm (map snd (map_to_list m))) as Hp. rewrite El in Hp at 2. split.
  - by rewrite Hp.
  - intros s. by rewrite Hp.
Qed.

(** Who is registered: the p2p server and the updater, and the node when it
    was opened. *)
Lemma started_stoppers p0 b a :
  started p0 b a →
  NoDup (range_map (map snd (map_to_list (a_stoppers a)))) ∧
  StopP2P ∈ range_map (map snd (map_to_list (a_stoppers a))) ∧
  StopUpdater ∈ range_map (map snd (map_to_list (a_stoppers a))) ∧
  (if decide (StopNode ∈ range_map (map snd (map_to_list (a_stoppers a)))) then ready StopNode a else stopped StopNode a).
Proof.
  intros [_ _ _ [[-> Hn]|[-> Hn]]].
  - destruct (stoppers_of (base_stoppers ∅) (map snd (map_to_list (base_stoppers ∅))) eq_refl) as [Hnd Hin].
    { by apply (bool_decide_unpack _); vm_compute. }
    split_and!; [done|apply Hin..|]; [by apply (bool_decide_unpack _); vm_compute..|].
    destruct (decide _) as [Hd|]; [|done]. apply Hin in Hd. exfalso. revert Hd.
    apply (bool_decide_unpack (StopNode ∉ _)). by vm_compute.
  - destruct (stoppers_of _ (map snd (map_to_list (base_stoppers {["node" := StopNode]}))) eq_refl) as [Hnd Hin].
    { by apply (bool_decide_unpack _); vm_compute. }
    split_and!; [done|apply Hin..|]; [by apply (bool_decide_unpack _); vm_compute..|].
    destruct (decide _) as [|Hd]; [done|]. destruct Hd. apply Hin. by apply (bool_decide_unpack _); vm_compute.
Qed.

(** All stoppers together, from a state in which the updater is waiting. *)
Lemma stop_all_spec p0 b a :
  (∀ h e, (host_Close h).1 ≠ Panic e) → started p0 b a → ready StopUpdater a →
  returned (stop_all a) (λ a', same_db a a' ∧ ∀ s, stopped s a').
Proof.
  intros Hclose Hs Hu. destruct (started_stoppers p0 b a Hs) as (Hnd & Hp & Hup & Hn).
  pose proof (st_p2p _ _ _ Hs) as Hr. unfold stop_all. set (l := range_map _) in *.
  destruct (stop_each_ready Hclose l a Hnd) as [Hb|(a' & E & Hsame & Hin & Hout)]; [|by left|right].
  { intros [] Hl; [|done..]. by destruct (decide _). }
  exists a'. split_and!; [done|done|]. intros []; [|by apply Hin..].
  destruct (decide (StopNode ∈ l)) as [Hl|Hl]; [by apply Hin|by apply Hout].
Qed.

Lemma stopped_ready_updater p0 a : started p0 false a → ready StopUpdater a.
Proof. intros Hs. destruct (st_updater _ _ _ Hs) as (ph & c & Hu & Hb & _). cbn. rewrite Hu. cbn. by rewrite Hb. Qed.

(** [funcAfter] closes the handle of [dbi]. *)
Lemma funcAfter_handles p0 a a' :
  serving p0 a → same_db a a' → pr_handles (a_proc (funcAfter a').2) = pr_handles p0.
Proof.
  intros (d & h & dsn & Hd & Hh & H1 & H2) (Ed & Eh & _ & _). unfold funcAfter. rewrite Ed, Hd.
  unfold in_dbi. rewrite Ed, Hd. destruct (db_Close_session [] (a_proc a') d h Hh) as [E _].
  destruct (db_Close [] (a_proc a', d)) as [r [p d']]. cbn in E |- *. rewrite E, Eh, H2. by apply delete_insert_id.
Qed.

(** A run up to the point where it is told to end. *)
Definition run_until (f : Flags) (ticks : list tick) : M app unit :=
  funcBefore ParseLevel fs f ;;*
  p2pRun_start providers other_store None (fl_noGUI f) (fl_noCommits f) (fl_commitInterval f) ;;*
  on_ticks tx_Exec fuel ShortString ticks.

Lemma run_until_started f ticks a a1 :
  fresh a → run_until f ticks a = (Ok tt, a1) → started (a_proc a) (negb (fl_noGUI f)) a1.
Proof.
  intros Hf ([] & b1 & E1%funcBefore_prepared & E)%bind_Ok; [|done].
  apply bind_Ok in E as ([] & b2 & E2%(p2pRun_start_spec _ _ _ (a_proc a)) & E); [|done].
  pose proof (started_ticks (a_proc a) (negb (fl_noGUI f)) ticks b2 E2) as Hst. by rewrite E in Hst.
Qed.
(** *** A signal that comes too early *)

Lemma stop_all_node p0 (a : app) : with_node p0 a → ∃ a', catchSignals a = (Ok tt, a') ∧ with_node p0 a'.
Proof.
  intros (Hs & Hg & [[Hst Hn]|[Hst Hn]]); unfold catchSignals, stop_all; rewrite Hst.
  - assert (range_map (map snd (map_to_list (∅ : gmap string stopper))) = []) as -> by (apply Permutation_nil_r, range_map_perm).
    exists a. split; [done|]. split_and!; [done|done|by left].
  - assert (range_map (map snd (map_to_list ({["node" := StopNode]} : gmap string stopper))) = [StopNode]) as ->
      by (apply Permutation_singleton_r; rewrite range_map_perm, map_to_list_singleton; done).
    pose proof Hn as (n & Hni & Ho & Hr). cbn [stop_each]. unfold bind, ignore. cbn [run_stopper]. unfold stop_node.
    rewrite Hni. unfold in_proc, node_Close, bind, Unregister, modify. rewrite Ho. cbn.
    eexists. split; [done|]. split_and!; [exact Hs|exact Hg|right]. split; [done|]. by exists n.
Qed.

Lemma early_start noCommits interval p0 a a' :
  prepared p0 a → p2pRun_start providers other_store (Some 0%nat) true noCommits interval a = (Ok tt, a') →
  ready StopP2P a' ∧ ready StopUpdater a'.
Proof.
  intros Hp. unfold p2pRun_start, bind at 1, gets, id. destruct (a_dbi a) as [d|]; [|done].
  destruct (negb (h_initialized d)); [done|].
  intros ([] & a1 & E1%(start_node_spec p0) & E)%bind_Ok; [|done].
  apply bind_Ok in E as ([] & a2 & E2 & E). unfold at_point in E2. rewrite bool_decide_true in E2 by done.
  destruct (stop_all_node p0 a1 E1) as (a2' & E2' & Hw). rewrite E2' in E2. injection E2 as <-.
  apply bind_Ok in E as ([] & a3 & (_ & Hr & _)%(mgr_StartServer_spec p0) & E); [|done].
  apply no_signal in E; [|done]. apply bind_Ok in E as ([] & a4 & E4 & E). injection E4 as <-.
  apply no_signal in E; [|done]. apply bind_Ok in E as ([] & a5 & E5 & E). unfold startCommitUpdater in E5. destruct (_ && _); [done|]. injection E5 as <-.
  apply no_signal in E; [|done]. apply bind_Ok in E as ([] & a6 & E6 & E). injection E6 as <-. injection E as <-. by split.
Qed.

(** *** Initializing *)

Context (expired : string).

(** What [InitLocal] leaves: an initialized database on one handle. *)
Definition initialized (p0 : Proc W P) (a : app) : Prop :=
  serving p0 a ∧ ∃ d, a_dbi a = Some d ∧ h_initialized d = true.

(** The rest of the state, between [a] and [a']. *)
Definition same_rest (a a' : app) : Prop :=
  a_p2pmgr a' = a_p2pmgr a ∧ a_nodei a' = a_nodei a ∧ a_nodeCtx a' = a_nodeCtx a ∧ a_stoppers a' = a_stoppers a ∧
  pr_registry (a_proc a') = pr_registry (a_proc a).

Lemma InitLocal_dbi_spec p0 (a a' : app) :
  proc_wf p0 → opened p0 a → InitLocal_dbi a = (Ok tt, a') → initialized p0 a' ∧ same_rest a a'.
Proof.
  intros Hwf (d & h & dsn & Hd & Hh & Hone). unfold InitLocal_dbi. destruct (a_signer a) as [s|]; [|done].
  unfold in_dbi. rewrite Hd. destruct (InitLocal s (a_proc a, d)) as [r [p' d']] eqn:E. intros [= -> <-].
  apply (InitLocal_session s p0 (a_proc a) d h dsn p' d') in E as (Hin & _ & _ & h' & Hh' & Hone'); [|done..].
  destruct Hone as (_ & _ & _ & _ & Er). destruct Hone' as (H1 & H2 & _ & _ & Er').
  split; [split|by split_and!; cbn; congruence]; [|by exists d'].
  exists d', h'. eexists. by split_and!.
Qed.

Lemma initialized_frame p0 a a' : initialized p0 a → same_db a a' → initialized p0 a'.
Proof.
  intros [(d & h & dsn & Hs) Hi] (Ed & Eh & _). split; [|by rewrite Ed]. exists d, h, dsn. by rewrite Ed, Eh.
Qed.

Lemma sync_frame n rounds a : quiet_frame a (sync_until_unchanged fuel expired n rounds a).2.
Proof.
  revert a. induction rounds as [|rounds IH]; intros a; cbn [sync_until_unchanged]; [by split_and!|].
  unfold bind, wrap_err. pose proof (in_data_frame (Sync (nh_cfg n) (installReconcilerHooks NewReconciler) fuel) a) as Hf.
  destruct (in_data _ a) as [[changed|e|e] a1]; [|done..]. cbn [snd] in Hf. destruct (negb changed); [done|].
  by etrans.
Qed.
(** Opening the topic and the events of peers leave the server running. *)
Lemma mgr_NewGossipSub_frame a :
  ready StopP2P a → frame a (mgr_NewGossipSub a).2 ∧ ready StopP2P (mgr_NewGossipSub a).2.
Proof.
  intros (g & Hg & Hd & Hw). unfold mgr_NewGossipSub, in_mgr, NewGossipSub. rewrite Hg.
  assert (∀ h, watch_ok (on_p2p (with_host h) g)) as Hh by (intros h; by eapply same_watch_ok; [|exact Hw]).
  destruct (gossip_New gossipTopic _) as [[gs|e|e] h]; cbn [snd]; (split; [by split_and!|]); eexists;
    (split; [done|split; [|by first [apply setGossip_watch, Hh|apply Hh]]]); [|done..].
  unfold setGossip, startGossipPeerSync, cancel_gossip. cbn [mg_gossipCancel on_p2p set_p2p].
  by destruct (mg_gossipCancel g); destruct (go_EventHandler gs _) as [[u|e|e] h'].
Qed.

Lemma peer_ticks_frame l a :
  ready StopP2P a →
  frame a (on_ticks tx_Exec fuel ShortString (TickPeers <$> l) a).2 ∧
  ready StopP2P (on_ticks tx_Exec fuel ShortString (TickPeers <$> l) a).2.
Proof.
  revert a. induction l as [|e l IH]; intros a Hr; [by repeat split|].
  cbn [fmap list_fmap on_ticks on_tick]. unfold bind, in_mgr. destruct Hr as (g & Hg & Hd & Hw). rewrite Hg.
  destruct (IH (set_mgr (Some (mg_apply g (peer_mg_op e))) a)) as [Hf Hr].
  { eexists. split_and!; [done|by rewrite discovery_peer_event|by apply watch_apply]. }
  split; [exact Hf|exact Hr].
Qed.
(** The node of [init_peer], from its opening to its end. *)
Lemma init_node_spec (a a' : app) d waiting rounds :
  ready StopP2P a → a_dbi a = Some d →
  (let* n := wrap_err "failed to open node: "
               (in_proc (OpenNode (node_config (a_signer a)) (Some d) providers)) in
   deferred (on_ticks tx_Exec fuel ShortString (TickPeers <$> waiting) ;;* sync_until_unchanged fuel expired n rounds)
     (ignore (in_proc (node_Close n)))) a = (Ok tt, a') →
  same_db a a' ∧ a_nodeCtx a' = a_nodeCtx a ∧ pr_registry (a_proc a') !! repo = None ∧ ready StopP2P a'.
Proof.
  intros Hr Hd (n & a1 & (p1 & E1 & ->)%wrap_Ok%in_proc_Ok & (a2 & E2 & -> & _)%deferred_Ok)%bind_Ok.
  apply OpenNode_shared in E1 as (Eh & Ho & Hrepo). cbn [node_config in_Repo] in Hrepo.
  assert (same_db a (set_proc p1 a)) as S1 by by split_and!.
  destruct (peer_ticks_frame waiting (set_proc p1 a) Hr) as [(F1 & F2 & F3) Hr2].
  apply bind_Ok in E2 as ([] & a3 & E3 & E2). rewrite E3 in *. cbn [snd] in *.
  pose proof (sync_frame n rounds a3) as ((G1 & G2 & G3) & G4 & G5). rewrite E2 in *. cbn [snd] in *.
  unfold ignore, in_proc, node_Close, bind, Unregister, modify. rewrite Ho. cbn [snd negb]. rewrite Hrepo.
  split_and!.
  - etrans; [exact S1|]. etrans; [exact F1|]. etrans; [exact G1|]. by split_and!.
  - cbn. by rewrite G3, F3.
  - cbn. apply lookup_delete_eq.
  - cbn. by rewrite G4.
Qed.

Lemma init_peer_spec p0 (a a' : app) waiting rounds :
  (∀ h e, (host_Close h).1 ≠ Panic e) → proc_wf p0 → opened p0 a →
  (∃ g, a_p2pmgr a = Some g ∧ watch_ok g) → stopped StopNode a → a_stoppers a = ∅ →
  init_peer tx_Exec fuel ShortString providers other_store expired waiting rounds a = (Ok tt, a') →
  initialized p0 a' ∧ stopped StopNode a' ∧ stopped StopP2P a' ∧ a_nodei a' = a_nodei a.
Proof.
  intros Hclose Hwf Ho Hg Hn Hst Hrun.
  apply bind_Ok in Hrun as ([] & a1 & E1%wrap_Ok & E).
  destruct (InitLocal_dbi_spec p0 a a1 Hwf Ho E1) as (Hi & Hp & En & Ec & Es & Er).
  apply bind_Ok in E as (r & a2 & E2 & E). unfold attempt in E2.
  destruct (mgr_StartServer other_store a1) as [[[]|e|e] a2'] eqn:Es2; [injection E2 as <- <-|injection E2 as <- <-; done|done].
  destruct Hn as [Hn1 Hn2].
  apply (mgr_StartServer_spec p0) in Es2 as (_ & Hr & (F1 & F2 & F3)).
  2:{ split_and!; [apply Hi|by rewrite Hp|]. left. split; [congruence|]. split; congruence. }
  apply deferred_Ok in E as (a3 & E & -> & Hnp). apply bind_Ok in E as (gs & a4 & E4%wrap_Ok & E).
  destruct (mgr_NewGossipSub_frame a2' Hr) as [(G1 & G2 & G3) Hr4]. rewrite E4 in *. cbn [snd] in *.
  unfold bind at 1, gets, id in E. destruct Hi as [Hs (d & Hd & Hin)].
  assert (a_dbi a4 = Some d) as Hd4 by (by destruct G1 as (-> & _), F1 as (-> & _)). rewrite Hd4 in E.
  apply init_node_spec in E as (S3 & Ec3 & Hreg & Hr3); [|done..].
  destruct (run_stopper_ready Hclose StopP2P a3 Hr3) as [[Hb _]|(a5 & E5 & Hq & S5 & Hother)]; [by destruct (Hnp blocked)|].
  cbn [run_stopper] in E5. rewrite E5. cbn [snd].
  assert (same_db a1 a5) as S15 by (do 3 (etrans; [eassumption|]); done).
  split_and!.
  - apply (initialized_frame p0 a1); [|done]. split; [done|]. by exists d.
  - apply Hother; [done|]. split; [congruence|done].
  - done.
  - destruct S15 as (_ & _ & _ & ->). congruence.
Qed.

Lemma init_local_spec p0 (a a' : app) :
  proc_wf p0 → opened p0 a → init_local tx_Exec a = (Ok tt, a') →
  initialized p0 a' ∧ same_rest a a'.
Proof.
  intros Hwf Ho Hrun. apply bind_Ok in Hrun as ([] & a1 & E1%wrap_Ok & E).
  destruct (InitLocal_dbi_spec p0 a a1 Hwf Ho E1) as (Hi & Hs).
  apply bind_Ok in E as (h & a2 & E2%wrap_Ok & E). injection E as <-.
  pose proof (exec_and_commit_frame create_table "Initialize doltswarmdemo" a1) as ((F1 & F2 & F3) & F4 & F5).
  rewrite E2 in *. cbn [snd] in *. split; [by eapply initialized_frame|].
  destruct Hs as (?&?&?&?&?), F1 as (?&?&?&?). split_and!; congruence.
Qed.
End running.

(** When the signal arrives before the p2p server is started, nothing stops what
    is started after it: the command returns while the manager still serves and
    the updater runs. *)
Theorem early_signal_leaves_server {W P H C MA : Type} `{D : Dolt W} `{DR : Driver W} `{CR : Crypto}
    `{HH : !Host H C} `{DM : !Daemon W H PrivKey MA} `{PS : !PubSub H} `{R : GoRuntime}
    (ParseLevel : string → result unit) (fs : KeyFS W) (providers : P) (other_store : CS → option string)
    (f : Flags) (noCommits signalled : bool) (interval : Z) (gui_Run : result unit) (a a1 : App) :
  fresh a →
  (funcBefore ParseLevel fs f ;;* p2pRun_start providers other_store (Some 0%nat) true noCommits interval) a = (Ok tt, a1) →
  p2pRun_end true true signalled gui_Run a1 = (Ok tt, a1) ∧
  (∃ g, a_p2pmgr a1 = Some g ∧ mg_discovery g = true) ∧ up_phase <$> a_updater a1 = Some UpWaiting.
Proof.
  intros Hf ([] & b & Hb%funcBefore_prepared & E)%bind_Ok; [|done].
  apply (early_start _ _ _ _ (a_proc a)) in E as [(g & Hg & Hd & _) Hu]; [|done]. split_and!; [done|by exists g|done].
Qed.

(** C30. A successful [init], from scratch or from a peer, leaves an initialized
    database, no registered repository and no running node; the manager
    follows no topic and serves, discovers and announces nothing; and after
    [funcAfter] the SQL handles of the process are those of before the command.
    Closing the libp2p host may fail, but does not panic.  One goroutine may be
    left: the one that sends the bootstrap peers to the discovery processor
    ([init_leaves_sender]). *)
Theorem init_releases {W P H C MA : Type} `{D : Dolt W} `{DR : Driver W} `{CR : Crypto}
    `{HH : !Host H C} `{DM : !Daemon W H PrivKey MA} `{PS : !PubSub H} `{R : GoRuntime}
    (tx_Exec : conn → string → M (DB W) unit) (fuel : nat) (ShortString : string → string)
    (ParseLevel : string → result unit) (fs : KeyFS W) (providers : P)
    (other_store : CS → option string) (expired : string)
    (f : Flags) (localInit : bool) (peerInit : string) (waiting : list peer_event) (rounds : nat) (a a1 : App)
  (Hclose : ∀ h e, (host_Close h).1 ≠ Panic e) (Hfresh : fresh a)
  (Hrun : (funcBefore ParseLevel fs f ;;*
           Init tx_Exec fuel ShortString providers other_store expired localInit peerInit waiting rounds) a = (Ok tt, a1)) :
  (∃ d, a_dbi a1 = Some d ∧ h_initialized d = true) ∧
  a_nodei a1 = None ∧ a_nodeCtx a1 = false ∧ pr_registry (a_proc a1) !! repo = None ∧
  (∃ g, a_p2pmgr a1 = Some g ∧ quiet g) ∧
  pr_handles (a_proc (funcAfter a1).2) = pr_handles (a_proc a).
Proof.
  apply bind_Ok in Hrun as ([] & b & Hb%funcBefore_opened & Hrun); [|done].
  destruct Hb as (Ho & (g & Hg & Hw & Hq) & Hn & Hni & Hst). pose proof Hfresh as (Hwf & _).
  assert (initialized (a_proc a) a1 ∧ stopped StopNode a1 ∧ stopped StopP2P a1 ∧ a_nodei a1 = None)
    as (Hi & [Hc Hr] & Hp & Hnn).
  { unfold Init in Hrun. destruct (localInit && _); [done|]. destruct localInit.
    - apply (init_local_spec _ (a_proc a)) in Hrun as (Hi & Ep & En & Ec & _ & Er); [|done..].
      destruct Hn. split_and!; [done|split; congruence|exists g; split; [congruence|done]|congruence].
    - destruct (negb _); [|done]. rewrite <-Hni.
      eapply (init_peer_spec _ _ _ _ _ _ (a_proc a)); try done. by exists g. }
  split_and!; [apply Hi|done..|]. by apply (funcAfter_handles _ a1); [apply Hi|].
Qed.

(** C29. Stopping the server: when [server] runs without an interface, has
    started the node, the p2p server and the updater, and then, after any
    number of ticks and peer events, a signal arrives, every stopper returns,
    in whatever order the map of stoppers is iterated, provided that the RPCs
    that are being served come to an end ([GracefulStop] returns) and that
    closing the libp2p host, which may fail, does not panic.  Then the context
    of the node is cancelled and its repository is not registered, the manager
    follows no topic and serves, discovers and announces nothing, the updater
    has ended, and after [funcAfter] the SQL handles of the process are those
    of before the command.  A signal that arrives before the p2p server is
    started is a different matter: [early_signal_leaves_server]. *)
Theorem server_shutdown {W P H C MA : Type} `{D : Dolt W} `{DR : Driver W} `{CR : Crypto}
    `{HH : !Host H C} `{DM : !Daemon W H PrivKey MA} `{PS : !PubSub H} `{R : GoRuntime}
    (tx_Exec : conn → string → M (DB W) unit) (fuel : nat) (ShortString : string → string)
    (ParseLevel : string → result unit) (fs : KeyFS W) (providers : P)
    (other_store : CS → option string)
    (f : Flags) (ticks : list tick) (signalled : bool) (gui_Run : result unit) (a a1 : App)
  (Hclose : ∀ h e, (host_Close h).1 ≠ Panic e) (Hgraceful : ∀ h, is_Some (GracefulStop h))
  (Hfresh : fresh a) (Hgui : fl_noGUI f = true)
  (Hrun : run_until tx_Exec fuel ShortString ParseLevel fs providers other_store f ticks a = (Ok tt, a1)) :
  ∃ a2, p2pRun_end false (fl_noGUI f) signalled gui_Run a1 = (Ok tt, a2) ∧
    a_nodeCtx a2 = false ∧ pr_registry (a_proc a2) !! repo = None ∧
    (∃ g, a_p2pmgr a2 = Some g ∧ quiet g) ∧
    up_phase <$> a_updater a2 = Some UpStopped ∧
    pr_handles (a_proc (funcAfter a2).2) = pr_handles (a_proc a).
Proof.
  apply run_until_started in Hrun; [|done]. rewrite Hgui in *. cbn [negb] in Hrun.
  destruct (graceful_returned _ _ Hgraceful
    (stop_all_spec (a_proc a) false a1 Hclose Hrun (stopped_ready_updater _ _ Hrun))) as (a2 & E & Hsame & Hst).
  exists a2. split; [exact E|]. destruct (Hst StopNode) as [Hc Hr]. split_and!; [done|done|apply (Hst StopP2P)|apply (Hst StopUpdater)|].
  by apply (funcAfter_handles _ a1); [apply (st_serving _ _ _ Hrun)|].
Qed.

(** C31. With the interface, a signal does not end the program: it runs the
    stoppers, and when the user then quits the interface they run again and
    wait for goroutines that are gone.  From any run in which the updater was
    waiting when the signal arrived, the command never returns; without the
    signal it does, if the RPCs that are being served come to an end. *)
Theorem signal_then_quit_hangs {W P H C MA : Type} `{D : Dolt W} `{DR : Driver W} `{CR : Crypto}
    `{HH : !Host H C} `{DM : !Daemon W H PrivKey MA} `{PS : !PubSub H} `{R : GoRuntime}
    (tx_Exec : conn → string → M (DB W) unit) (fuel : nat) (ShortString : string → string)
    (ParseLevel : string → result unit) (fs : KeyFS W) (providers : P)
    (other_store : CS → option string)
    (f : Flags) (ticks : list tick) (a a1 : App)
  (Hclose : ∀ h e, (host_Close h).1 ≠ Panic e) (Hfresh : fresh a) (Hgui : fl_noGUI f = false)
  (Hrun : run_until tx_Exec fuel ShortString ParseLevel fs providers other_store f ticks a = (Ok tt, a1))
  (Hwait : up_phase <$> a_updater a1 = Some UpWaiting) :
  (p2pRun_end false (fl_noGUI f) true (Ok tt) a1).1 = Panic blocked ∧
  ((∀ h, is_Some (GracefulStop h)) → ∃ a2, p2pRun_end false (fl_noGUI f) false (Ok tt) a1 = (Ok tt, a2)).
Proof.
  apply run_until_started in Hrun; [|done]. rewrite Hgui in *. cbn [negb] in Hrun.
  pose proof (stop_all_spec (a_proc a) true a1 Hclose Hrun Hwait) as Hstop.
  unfold p2pRun_end, bind, catchSignals. cbn [andb negb]. split.
  2:{ intros Hg. destruct (graceful_returned _ _ Hg Hstop) as (a2 & E & _). by exists a2. }
  destruct Hstop as [[Hb _]|(a2 & E & (_ & _ & Est & En) & Hst)].
  { destruct (stop_all a1) as [r a2]. cbn in Hb. by subst r. }
  rewrite E. cbn. unfold stop_all. rewrite Est.
  destruct (started_stoppers _ _ _ Hrun) as (_ & _ & Hu & Hn).
  apply (stop_each_again Hclose); [done|apply Hst..|].
  intros Hl. destruct (decide _) as [_|]; [|done]. cbn [ready]. by rewrite En.
Qed.

(** ** Examples *)

(** An engine whose directory has the database, a directory with a key, and a
    host that listens. *)
Definition found_dolt : Dolt toy := {|
  conn := @conn toy ToyDolt;
  pool := @pool toy ToyDolt;
  open_conn := @open_conn toy ToyDolt;
  close_conn := @close_conn toy ToyDolt;
  exec := @exec toy ToyDolt;
  query A c q :=
    match q in qry A return qry A → M toy (list A) with
    | QShowDatabases like => λ _ w, (Ok [Some like], w)
    | _ => @query toy ToyDolt _ c
    end q;
  call_commit := @call_commit toy ToyDolt;
  begin_tx := @begin_tx toy ToyDolt;
  tx_commit := @tx_commit toy ToyDolt;
  tx_rollback := @tx_rollback toy ToyDolt;
  time_now := @time_now toy ToyDolt;
|}.

Definition key_dir : KeyFS (CR:=toy_crypto) toy := mkKeyFS
  (λ f w, (Ok (String.eqb f "db"), w)) (λ _, false) (λ _ w, (Ok tt, w)) (λ _ _ w, (Ok tt, w))
  (λ _ w, (Ok "k", w)) (λ w, (Ok "k", w)).

Definition toy_daemon : Daemon toy Time string string := {|
  NewConnManager _ _ := Ok tt;
  libp2p_New _ _ w := (Ok noon, w);
  Listen h := (Ok tt, h);
  mdns_Start h := (Ok tt, h);
  mdns_Close h := h;
  GracefulStop h := Some h;
  host_Close h := (Err "already closed", h);
  NewMultiaddr := Ok;
  AddrInfoFromP2pAddr ma := Ok (mkAddrInfo ma [ma]);
|}.

(** A topic with one peer on it. *)
Definition toy_topic : PubSub Time := {|
  ps_type := unit; topic_type := unit; sub_type := unit; handler_type := unit;
  ps_NewGossipSub := ret tt;
  ps_Join _ _ := ret tt;
  topic_Publish _ _ := ret tt;
  topic_Subscribe _ := ret tt;
  topic_EventHandler _ := ret tt;
  topic_ListPeers _ _ := ["b"];
  sub_Next _ := fail "context canceled";
  sub_Cancel _ h := h;
  ps_now := ret noon;
|}.

Definition toy_app : App (W := toy) (P := unit) (H := Time) (C := unit) :=
  mkApp fresh_proc None (new_node (mkDB toy_repo (NewHLC 0 "") [] [])) None None None false ∅ None [] None.

Definition toy_flags (noGUI : bool) : Flags := mkFlags "info" "db" 10500 noGUI false 15 "127.0.0.1" ["/ip4/1.2.3.4"].

Definition toy_ticks : list tick :=
  [TickPeers PeDiscover; TickPeers (PeWatch 0 (PeerJoin "c")); TickUpdate; TickCommit (Ok "uid") "noon"].

Definition toy_run (noGUI : bool) : result unit * App :=
  run_until (D:=found_dolt) (DR:=good_driver (Ok tt)) (CR:=toy_crypto) (HH:=toy_host) (DM:=toy_daemon) (PS:=toy_topic) (R:=ref_runtime)
    (λ _ _, ret tt) 20 id (λ _, Ok tt) key_dir tt (λ _, None)
    (toy_flags noGUI) toy_ticks toy_app.

Lemma toy_app_fresh : fresh toy_app.
Proof. split; [apply fresh_proc_wf|]. by split_and!. Qed.

Lemma toy_run_result noGUI : (toy_run noGUI).1 = Ok tt.
Proof. destruct noGUI; vm_compute; reflexivity. Qed.

Lemma pair_of_fst {A B} (p : A * B) x : p.1 = x → p = (x, p.2).
Proof. intros <-. by destruct p. Qed.

Lemma toy_run_ok noGUI : toy_run noGUI = (Ok tt, (toy_run noGUI).2).
Proof. apply pair_of_fst, toy_run_result. Qed.

Lemma toy_close_returns : ∀ h e, (host_Close (Daemon:=toy_daemon) h).1 ≠ Panic e.
Proof. done. Qed.

Lemma toy_graceful : ∀ h, is_Some (GracefulStop (Daemon:=toy_daemon) h).
Proof. by eexists. Qed.

(** A server with a node, a peer and a periodic commit, stopped by a signal. *)
Lemma server_shutdown_witness :
  a_nodeCtx (toy_run true).2 = true ∧
  ∃ a2, p2pRun_end (DR:=good_driver (Ok tt)) (DM:=toy_daemon) (HH:=toy_host) (R:=ref_runtime) false true false (Ok tt) (toy_run true).2 = (Ok tt, a2) ∧
    a_nodeCtx a2 = false ∧ pr_registry (a_proc a2) !! repo = None ∧
    (∃ g, a_p2pmgr a2 = Some g ∧ quiet g) ∧
    up_phase <$> a_updater a2 = Some UpStopped ∧
    pr_handles (a_proc (funcAfter (DR:=good_driver (Ok tt)) a2).2) = ∅.
Proof.
  split; [vm_compute; reflexivity|].
  exact (server_shutdown (D:=found_dolt) (DR:=good_driver (Ok tt)) (CR:=toy_crypto) (HH:=toy_host) (DM:=toy_daemon)
    (PS:=toy_topic) (R:=ref_runtime) _ _ _ _ _ _ _ (toy_flags true) toy_ticks false (Ok tt) toy_app (toy_run true).2
    toy_close_returns toy_graceful toy_app_fresh eq_refl (toy_run_ok true)).
Defined.

Lemma signal_then_quit_hangs_witness :
  (p2pRun_end (DR:=good_driver (Ok tt)) (DM:=toy_daemon) (HH:=toy_host) (R:=ref_runtime) false false true (Ok tt) (toy_run false).2).1
    = Panic blocked.
Proof.
  refine (proj1 (signal_then_quit_hangs (D:=found_dolt) (DR:=good_driver (Ok tt)) (CR:=toy_crypto) (HH:=toy_host)
    (DM:=toy_daemon) (PS:=toy_topic) (R:=ref_runtime) _ _ _ _ _ _ _ (toy_flags false) toy_ticks toy_app (toy_run false).2
    toy_close_returns toy_app_fresh eq_refl (toy_run_ok false) _)).
  vm_compute. reflexivity.
Defined.

(** [init] from a peer, with synchronization on the toy repository. *)
Definition toy_init_run : result unit * App :=
  (funcBefore (D:=found_dolt) (DR:=good_driver (Ok tt)) (CR:=toy_crypto) (DM:=toy_daemon)
     (λ _, Ok tt) key_dir (toy_flags true) ;;*
   Init (D:=found_dolt) (DR:=good_driver (Ok tt)) (CR:=toy_crypto) (HH:=toy_host) (DM:=toy_daemon) (PS:=toy_topic)
     (R:=ref_runtime) (λ _ _, ret tt) 20 id tt (λ _, None) "expired" false "peer"
     [PeDiscover; PeWatch 0 (PeerJoin "c")] 5) toy_app.

Lemma toy_init_run_ok : toy_init_run = (Ok tt, toy_init_run.2).
Proof. apply pair_of_fst. vm_compute. reflexivity. Qed.

Lemma init_releases_witness :
  (∃ d, a_dbi toy_init_run.2 = Some d ∧ h_initialized d = true) ∧
  a_nodei toy_init_run.2 = None ∧ a_nodeCtx toy_init_run.2 = false ∧
  pr_registry (a_proc toy_init_run.2) !! repo = None ∧
  (∃ g, a_p2pmgr toy_init_run.2 = Some g ∧ quiet g) ∧
  pr_handles (a_proc (funcAfter (DR:=good_driver (Ok tt)) toy_init_run.2).2) = ∅.
Proof.
  exact (init_releases (D:=found_dolt) (DR:=good_driver (Ok tt)) (CR:=toy_crypto) (HH:=toy_host) (DM:=toy_daemon)
    (PS:=toy_topic) (R:=ref_runtime) _ _ _ _ _ _ _ _ (toy_flags true) false "peer" _ _ toy_app toy_init_run.2
    toy_close_returns toy_app_fresh toy_init_run_ok).
Defined.

(** The same [init] when the discovery processor has not come round to the
    bootstrap peer before the end: the command succeeds, the processor is gone,
    and the peer is still to be sent. *)
Definition toy_init_undiscovered : result unit * App :=
  (funcBefore (D:=found_dolt) (DR:=good_driver (Ok tt)) (CR:=toy_crypto) (DM:=toy_daemon)
     (λ _, Ok tt) key_dir (toy_flags true) ;;*
   Init (D:=found_dolt) (DR:=good_driver (Ok tt)) (CR:=toy_crypto) (HH:=toy_host) (DM:=toy_daemon) (PS:=toy_topic)
     (R:=ref_runtime) (λ _ _, ret tt) 20 id tt (λ _, None) "expired" false "peer"
     [PeWatch 0 (PeerJoin "c")] 5) toy_app.

Theorem init_leaves_sender :
  toy_init_undiscovered.1 = Ok tt ∧
  ((λ g, (mg_discovery g, map ai_ID (mg_found g))) <$> a_p2pmgr toy_init_undiscovered.2)
    = Some (false, ["/ip4/1.2.3.4"]).
Proof. split; vm_compute; reflexivity. Qed.
